(* ===== verification/_CoqProject ===== *)
-Q . S2P
Prelude.v
GoStrings.v
GoTime.v
Uid.v
Cache.v
TransportCodec.v
Tcp.v
Msg.v
MsgText.v
Conns.v
Process.v
Config.v
Signal.v
Log.v
Plugin.v
Trpc.v
Echo.v
App.v
Server.v
ServerNet.v
PbSupport.v
Redis.v
Mysql.v
Db.v
DbMysql.v
DbFields.v
Database.v
Event.v
Res.v
Bingo.v
ProtoLog.v
Mq.v
Kafka.v
Pulsar.v
MqIface.v
Plugins.v
Login.v
