(* ===== verification/Prelude.v ===== *)
(** * mango-go: a verification library

    mango-go is a framework for game servers in Go.  A server program registers
    plugins and modules and starts the application of server_base/app, which
    reads the configuration, replaces the previous process, sets up the
    plugins (logging, the TCP transport, databases), initialises the modules,
    and runs a main loop until a signal ends it.  Clients speak a framed
    protobuf protocol over TCP: the transport cuts the byte stream into
    packets, the message layer decodes them and dispatches to handlers, and
    handlers answer through the same connection.  Records are stored in Redis
    or MySQL through a reflection layer that turns messages into columns.

    This library models these parts as executable definitions, one file per
    component, and proves what makes them correct.  Where the code does not
    do what it should, the theorem states what it does.

    ** Files, and the code they model (paths under src/)

    - [Prelude]: outcomes of Go calls (value, panic, never), errors, machine
      integers, byte slices, map iteration, shared lemmas and tactics.
    - [GoStrings], [GoTime]: the used parts of strconv and strings, of time and
      of fmt's padding, with round trips and the calendar.
    - [Uid]: common/uid/uid.go.  The generator and its clock.
    - [Cache]: common/cache/cache.go.  Map, two linked lists with element
      identities, watermarks; the specification is a recency list.
    - [TransportCodec]: plugin/transport/codec.go and transport.go.  The packet
      codec against a class of connections.
    - [Tcp]: plugin/transport/tcp/tcp.go.  Connections with their bufio reader
      and writer, receive loop with its deferred Close, which also runs when
      the loop panics, deadlines, the accept loop.
    - [Msg]: server_base/msg (codec.go, msg.go) and server_base/app/tcp.go.
      The message codec, handler registries and dispatch, composed with [Tcp].
    - [MsgText]: PrintReadableStr and the log records of server_base/msg/msg.go.
    - [Conns]: tcp.go again, all goroutines at once.  The accept loop, a goroutine
      per connection and Uninit are a step relation over the shared state of
      the handlers; what handlers promise to it is the class [Dispatches], which
      the registry of [Msg] and the module of [Login] implement.
    - [Process], [Signal], [Config]: common/process, common/signal, config.
    - [Log], [Bingo], [ProtoLog]: plugin/log (front end and default logger),
      plugin/log/bingologger (rotating files), plugin/log/protolog (messages as
      text).  [Log] states what a logger promises as a class; the loggers, the
      mock of logger_mock.go among them, are instances.
    - [Plugin]: plugin/plugin.go.  Factories, instances, their life.
    - [Trpc]: plugin/rpc and plugin/rpc/trpc.  The wrapper of the RPC server.
    - [Echo]: example/statelesssvr/proto/echo/echo.trpc.go and module/echo.go.  The
      service, its handler and its client proxy; the tRPC library is a class.
    - [App]: server_base/app (app.go, module.go) and plugin/transport/tcp/plugin.go.
      Start and end compose [Config], [Process], [Plugin] and [Tcp]; the main
      loop and the signal goroutine are a transition system.
    - [Server]: the main function of example/statelesssvr/server.go.  The whole
      process: the start of [App], then two goroutines that interleave at the
      calls into modules, down to the exit; it refines the system of [App].
    - [ServerNet]: both together: the start of the modules, which register their
      handlers while the transport already accepts, then the process of [Server]
      beside the connections of [Conns].
    - [PbSupport], [Redis], [Mysql]: plugin/db/pbsupport, plugin/db/redis,
      plugin/db/mysql.  Columns, keys, opening, the simple operations, SQL
      statements, table definitions.  The commands of the Redis client are a
      record of functions over the state of a server, what Redis documents of
      them is the class [RedisServer], and a map of hashes is its instance.
    - [Db]: plugin/db/db.go.  The executor interfaces as classes, both databases
      as instances, and the contract of a table that Redis implements.
    - [DbMysql]: the contract of the MySQL package.  What MySQL documents of the
      statements of [Mysql] is a class over a server and its state; a server
      that parses the statements is its instance.
    - [DbFields]: the calls on some fields of a record, and increments, over Redis:
      a table of rows, in which a zero is a value, is what they implement.
    - [Database]: the rest of plugin/db/db.go.  A database as a program holds it, a
      handle with the server behind it, from the plugin factory on.
    - [Event], [Res]: server_base/event and server_data/res (with xres).
    - [Mq], [Kafka], [Pulsar]: plugin/mq.  Messages, configuration cells shared
      through pointers, the event bus; readers, writers, reactor, clients and
      plugin factories over the vendored clients, whose answers are arguments.
    - [MqIface]: client.go, reactor.go and resource.go of plugin/mq as classes, with
      Kafka and Pulsar as instances, and the event loop over any reader; the
      program of example/mq.
    - [Plugins]: the init functions of the plugin packages.  All seven factories
      in one registry, with the instances each makes.
    - [Login]: example/statelesssvr/module and example/tcp_client.  The login
      module and the client, run against the server of [Msg] and [Tcp].

    ** How the code is modelled

    State is a record passed explicitly; package variables are fields of such
    records.  A call that can panic, block or loop returns an [outcome]; Go's
    pairs of a value and an error are [result]s or pairs with an [option error].
    Integers that can overflow are kept at their width with [wrap_u] and
    [wrap_s].  A [range] over a map takes its order as an argument, and the
    theorems hold for every order ([ranges]).  The clock, the network, the
    disk, the environment of the process and failures of the system are
    arguments; third-party code (the protobuf runtime, viper, the Redis, MySQL
    and Kafka servers) is a class or a parameter whose documented behaviour is
    a hypothesis, with an instance in the witnesses.  A panic unwinds through
    the deferred calls ([on_panic]).  Log calls inside the
    components are left out.

    ** What the theorems show

    - The path of a message: any fragmentation of a byte stream is cut into
      the packets the clients framed ([recv_frames_packets]); the server
      implements an abstract dispatcher ([server_refines_dispatcher]), does not
      panic unless a head is oversized ([server_never_panics]) and always does
      then ([server_crashed_by_oversized_head]); answers are recovered by the
      client ([send_to_client_roundtrip]).  The example client and the example
      server agree end to end ([login_end_to_end]), and the server answers any
      sequence of logins ([login_server_answers]).
    - Many clients: whatever the interleaving of connections, the server is the
      dispatcher run over one history that keeps the order of each client
      ([server_linearizes]) and can always serve all of them to their end
      ([server_serves_all]); for the example server every client prints success
      ([login_many_clients]).  One client can make its goroutine panic, which
      ends the process for all ([one_client_crashes_all]), one that comes before the modules have
      registered can crash the start ([early_client_crashes_start]), messages
      reach modules that have ended ([messages_after_uninit]), and Uninit ends
      every connection within two turns but leaves silent ones open
      ([uninit_connections]).
    - Containers and ids: the cache refines a recency list with expiry, within
      its capacity; ids are increasing, disjoint between processes and bounded
      per second.
    - Storage: records survive the way to columns and back ([pb_roundtrip],
      although the column slices share one buffer); what is read into a record
      is of the types of its fields ([pb_unmarshal_well_typed]).  Over any
      server that does what Redis documents, Redis implements the contract of a
      table of records ([redis_refines_table]) and, with calls on fields and
      increments that stay within the types of their fields, of a table of rows
      ([redis_refines_rows]), also through the database its plugin sets up
      ([redis_plugin_serves]); MySQL implements another table
      ([mysql_refines_table], [mysql_plugin_serves]): its replace forgets the
      old record, its get returns the stored one alone, and an update that
      changes nothing fails.  No increment of many clients is lost
      ([redis_increments_add_up]), but a 32-bit counter that overflows makes
      every get that reads it panic ([redis_increase_overflow]);
      keys do not collide; SQL statements have as many placeholders as
      parameters; a type with an enum cannot be read from MySQL
      ([mysql_enum_unreadable]).
    - Logging: the front end is exactly a level filter; rotation loses and
      splits no line and never overwrites a file, whatever fails; writing in
      batches writes the same files ([bingo_batches_equivalent]); a file the
      logger makes respects size and date, one that is already there gets its
      first line unchecked ([bingo_file_bounds]); a message prints as its leaves.
    - Message queues: what survives the way through Kafka
      ([kafka_message_roundtrip]), which offsets an acknowledgement asks the
      broker to commit and what that means for the next reader
      ([kafka_ack_commits]),
      which handler the reactor calls, what reading and writing return; all
      readers and all writers of a client share one configuration; the event
      loop over any reader delivers nothing and stops at the first message
      somebody wants ([mq_loop_only_drains]).
    - Life of the server: in every interleaving of main loop and signals the
      modules are initialised, run in complete rounds and ended once and in
      order ([server_life]), and the server stops ([server_stops]).  With the
      connections beside it, from the start of the transport on and as long as
      no connection is opened before the modules have registered, no client
      crashes it and every client is served ([process_serves_clients]); plugins are
      set up and destroyed once, and an instance under a name is of the package
      of that name ([plugin_instances_fit]); the configuration is the last one
      that could be read; pid files round-trip; a reload of tables, with their
      post functions, is atomic ([res_reload_atomic]); publishing an event is bounded in time.
    - Defects, each with a run: oversized heads, double close reports, the
      asynchronous logger that never starts, watermark overflow, ids after a
      clock step, unparsable columns, stale fields after replace, composite
      keys in SQL, late callbacks, a pid file that is never created, reloads of
      modules already ended, header values cut to a byte, failed writes that
      never return, interceptors that cannot be removed, configurations that
      overwrite each other.

    ** Fuel

    Loops that are not structural carry fuel and answer [Hang] without it; no
    theorem assumes they return.  [Read_loop] gets the length of the buffer to
    fill, each turn filling a byte at least; the receive loop one more than the
    bytes the socket will still deliver, each packet taking some; [cull_loop]
    and [removeExpired_loop] the number of entries, each turn removing one;
    [split_loop] the length of the buffer;
    [moveLoop] the number of files plus one, since every name it tries before
    the last exists; the proofs show these to be enough, and where the code
    itself loops for ever ([cache_overflow_hangs]) that no fuel is.

    ** Not modelled

    Generated code except the tRPC stubs and the fields of messages: the methods
    the protobuf compiler writes are those of the protobuf library, which is a
    class.  Vendored code.  What a Redis, MySQL or Kafka server does beyond
    what its documentation says of the commands used; increments and gets of
    listed fields are proved over Redis only.  In [Conns] a call of a
    handler with the calls it makes on its connection is one step: handlers
    that share state are taken to lock it, and one that panics to leave its
    state as it was.  The asynchronous half of the logger
    is modelled as far as it runs: its Init never returns.  In [ServerNet] the
    registry of handlers changes only in the Init of modules.  The events of
    [MqIface]'s loop happen between its turns; a subscription while a message
    is being published waits for it, for ever if it blocks. *)

From stdpp Require Export prelude gmap strings list fin_maps sorting pretty.
From coqutil Require Export Word.LittleEndianList.
From Stdlib Require Export ZArith Lia.

#[global] Open Scope Z_scope.

(** ** Go values that can fail, panic or never arrive *)

(** A call of Go code ends with a value, with a run-time panic, or it blocks
    or loops for ever. *)
Inductive outcome (A : Type) : Type :=
| Done (a : A)
| Panic (why : string)
| Hang.
Arguments Done {A} a.
Arguments Panic {A} why.
Arguments Hang {A}.

#[global] Instance outcome_ret : MRet outcome := fun A a => Done a.
#[global] Instance outcome_bind : MBind outcome := fun A B f m =>
  match m with
  | Done a => f a
  | Panic w => Panic w
  | Hang => Hang
  end.

(** A Go [(T, error)] pair whose error decides which half is used. *)
Inductive result (E A : Type) : Type :=
| Ok (a : A)
| Err (e : E).
Arguments Ok {E A} a.
Arguments Err {E A} e.

(** Go's [error] values are represented by the text they print. *)
Definition error : Type := string.

(** [panics m]: the run ends in a run-time panic. *)
Definition panics {A} (m : outcome A) : Prop := exists w, m = Panic w.

(** [m] under a deferred call: after a panic of [m] the call [h] runs. *)
Definition on_panic {A B} (m : outcome A) (h : string -> outcome B) (k : A -> outcome B) : outcome B :=
  match m with Done a => k a | Panic why => h why | Hang => Hang end.

Lemma bind_Done {A B} (a : A) (f : A -> outcome B) : (Done a ≫= f) = f a.
Proof. reflexivity. Qed.

Lemma bind_Done_inv {A B} (m : outcome A) (f : A -> outcome B) b :
  (m ≫= f) = Done b -> exists a, m = Done a /\ f a = Done b.
Proof. destruct m; simpl; intros H; try discriminate. eauto. Qed.

(** ** Machine integers *)

(** Conversion of an exact integer to an unsigned, and to a signed, [w]-bit
    one: two's complement wrap-around. *)
Definition wrap_u (w z : Z) : Z := z mod 2 ^ w.
Definition wrap_s (w z : Z) : Z := (z + 2 ^ (w - 1)) mod 2 ^ w - 2 ^ (w - 1).

Abbreviation u32 := (wrap_u 32).
Abbreviation u64 := (wrap_u 64).
Abbreviation i32 := (wrap_s 32).
Abbreviation i64 := (wrap_s 64).

Definition fits_u (w z : Z) : Prop := 0 <= z < 2 ^ w.
Definition fits_s (w z : Z) : Prop := - 2 ^ (w - 1) <= z < 2 ^ (w - 1).

#[global] Instance fits_u_dec w z : Decision (fits_u w z).
Proof. unfold fits_u. apply _. Defined.
#[global] Instance fits_s_dec w z : Decision (fits_s w z).
Proof. unfold fits_s. apply _. Defined.

Lemma wrap_u_small w z : fits_u w z -> wrap_u w z = z.
Proof. intros H. apply Z.mod_small, H. Qed.

Lemma wrap_s_small w z : 0 < w -> fits_s w z -> wrap_s w z = z.
Proof.
  unfold fits_s, wrap_s. intros Hw H.
  assert (2 ^ w = 2 * 2 ^ (w - 1)) as E.
  { replace w with (1 + (w - 1)) at 1 by lia. rewrite Z.pow_add_r by lia. reflexivity. }
  rewrite Z.mod_small by lia. lia.
Qed.

Lemma wrap_u_fits w z : 0 <= w -> fits_u w (wrap_u w z).
Proof. intros. apply Z.mod_pos_bound. apply Z.pow_pos_nonneg; lia. Qed.

Lemma wrap_s_fits w z : 0 < w -> fits_s w (wrap_s w z).
Proof.
  unfold fits_s, wrap_s. intros Hw.
  assert (2 ^ w = 2 * 2 ^ (w - 1)) as E.
  { replace w with (1 + (w - 1)) at 1 by lia. rewrite Z.pow_add_r by lia. reflexivity. }
  pose proof (Z.mod_pos_bound (z + 2 ^ (w - 1)) (2 ^ w)).
  pose proof (Z.pow_pos_nonneg 2 (w - 1)). lia.
Qed.

Lemma i64_add_l a b : i64 (i64 a + b) = i64 (a + b).
Proof.
  unfold wrap_s. f_equal.
  replace ((a + 2 ^ (64 - 1)) mod 2 ^ 64 - 2 ^ (64 - 1) + b + 2 ^ (64 - 1))
    with ((a + 2 ^ (64 - 1)) mod 2 ^ 64 + b) by ring.
  rewrite Zplus_mod_idemp_l. f_equal. ring.
Qed.

Lemma i64_add_r a b : i64 (a + i64 b) = i64 (a + b).
Proof. rewrite Z.add_comm, i64_add_l. f_equal. ring. Qed.

(** ** Byte slices *)

Abbreviation bytes := (list Byte.byte).

(** [s[lo:hi]] on a slice whose capacity is its length: out-of-range bounds
    panic. *)
Definition slice {A} (l : list A) (lo hi : Z) : outcome (list A) :=
  if (0 <=? lo) && (lo <=? hi) && (hi <=? Z.of_nat (length l))
  then Done (take (Z.to_nat (hi - lo)) (drop (Z.to_nat lo) l))
  else Panic "slice bounds out of range".

(** [s[lo:]] *)
Definition slice_from {A} (l : list A) (lo : Z) : outcome (list A) :=
  slice l lo (Z.of_nat (length l)).

(** [copy(dst, src)]: the new contents of [dst] and the number of elements
    copied. *)
Definition copy {A} (dst src : list A) : list A * Z :=
  let n := Nat.min (length dst) (length src) in
  (take n src ++ drop n dst, Z.of_nat n).

(** [make([]byte, n)] *)
Definition make_bytes (n : Z) : bytes := replicate (Z.to_nat n) Byte.x00.

(** [binary.LittleEndian.Uint32(b)] reads [b[3]] first: a short slice
    panics. *)
Definition LE_Uint32 (b : bytes) : outcome Z :=
  if (length b <? 4)%nat then Panic "index out of range"
  else Done (le_combine (take 4 b)).

(** [binary.LittleEndian.PutUint32(b, v)] overwrites the first four bytes. *)
Definition LE_PutUint32 (b : bytes) (v : Z) : outcome bytes :=
  if (length b <? 4)%nat then Panic "index out of range"
  else Done (le_split 4 v ++ drop 4 b).

Lemma le_u32_roundtrip v : fits_u 32 v -> le_combine (le_split 4 v) = v.
Proof. intros. rewrite le_combine_split. apply Z.mod_small. apply H. Qed.

Lemma length_le_u32 v : length (le_split 4 v) = 4%nat.
Proof. apply length_le_split. Qed.

Lemma le_combine_u32_fits (b : bytes) :
  (length b <= 4)%nat -> fits_u 32 (le_combine b).
Proof.
  intros H. pose proof (le_combine_bound b) as [? Hb]. split; [done|].
  eapply Z.lt_le_trans; [exact Hb|]. apply Z.pow_le_mono_r; lia.
Qed.

Lemma slice_Done {A} (l : list A) lo hi :
  0 <= lo -> lo <= hi -> hi <= Z.of_nat (length l) ->
  slice l lo hi = Done (take (Z.to_nat (hi - lo)) (drop (Z.to_nat lo) l)).
Proof.
  intros. unfold slice.
  rewrite (proj2 (Z.leb_le 0 lo)), (proj2 (Z.leb_le lo hi)), (proj2 (Z.leb_le hi _)) by lia.
  reflexivity.
Qed.

Lemma slice_from_Done {A} (l : list A) lo :
  0 <= lo -> lo <= Z.of_nat (length l) ->
  slice_from l lo = Done (drop (Z.to_nat lo) l).
Proof.
  intros. unfold slice_from. rewrite slice_Done by lia. f_equal.
  rewrite take_ge; [reflexivity|]. rewrite length_drop. lia.
Qed.

Lemma LE_Uint32_Done (b : bytes) :
  (4 <= length b)%nat -> LE_Uint32 b = Done (le_combine (take 4 b)).
Proof.
  intros. unfold LE_Uint32. destruct (Nat.ltb_spec (length b) 4); [lia|reflexivity].
Qed.

Lemma LE_PutUint32_Done (b : bytes) v :
  (4 <= length b)%nat -> LE_PutUint32 b v = Done (le_split 4 v ++ drop 4 b).
Proof.
  intros. unfold LE_PutUint32. destruct (Nat.ltb_spec (length b) 4); [lia|reflexivity].
Qed.

Lemma length_make_bytes n : length (make_bytes n) = Z.to_nat n.
Proof. apply length_replicate. Qed.

(** ** Iteration over a Go map *)

(** A [range] over a Go map visits every entry once, in an order the language
    leaves open: [ranges m l] says that [l] is one such order. *)
Definition ranges {K V} `{Countable K} (m : gmap K V) (l : list (K * V)) : Prop :=
  l ≡ₚ map_to_list m.

Lemma ranges_lookup {K V} `{Countable K} (m : gmap K V) l k v :
  ranges m l -> (k, v) ∈ l <-> m !! k = Some v.
Proof. intros H1. rewrite H1. apply elem_of_map_to_list. Qed.

Lemma ranges_NoDup {K V} `{Countable K} (m : gmap K V) l :
  ranges m l -> NoDup l.*1.
Proof. intros H1. rewrite H1. apply NoDup_fst_map_to_list. Qed.

Lemma ranges_length {K V} `{Countable K} (m : gmap K V) l : ranges m l -> length l = size m.
Proof. intros Hl. rewrite (Permutation_length Hl). apply length_map_to_list. Qed.

Lemma ranges_list_to_map {K V} `{Countable K} (m : gmap K V) l : ranges m l -> list_to_map l = m.
Proof.
  intros Hl. rewrite (list_to_map_proper l (map_to_list m)); [apply list_to_map_to_list|by eapply ranges_NoDup|done].
Qed.

(** ** Lists *)

Lemma list_filter_ext_in {A} (P Q : A -> Prop) `{!forall x, Decision (P x), !forall x, Decision (Q x)}
    (l : list A) :
  (forall x, x ∈ l -> P x <-> Q x) -> filter P l = filter Q l.
Proof.
  induction l as [|x l IH]; intros Hx; [done|]. rewrite !filter_cons.
  rewrite IH by (intros; apply Hx; by right).
  pose proof (Hx x (list_elem_of_here _ _)). do 2 case_decide; done || tauto.
Qed.

Lemma list_filter_id_in {A} (P : A -> Prop) `{!forall x, Decision (P x)} (l : list A) :
  (forall x, x ∈ l -> P x) -> filter P l = l.
Proof.
  induction l as [|x l IH]; intros Hx; [done|]. rewrite filter_cons.
  rewrite decide_True by (apply Hx; left). rewrite IH; [done|]. intros; apply Hx; by right.
Qed.

Lemma omap_cons_eq {A B} (f : A -> option B) (x : A) (l : list A) :
  omap f (x :: l) = match f x with Some y => y :: omap f l | None => omap f l end.
Proof. done. Qed.

Lemma omap_ext_in {A B} (f g : A -> option B) (l : list A) :
  (forall x, x ∈ l -> f x = g x) -> omap f l = omap g l.
Proof.
  induction l as [|x l IH]; intros Hx; [done|]. rewrite !omap_cons_eq.
  rewrite (Hx x) by left. rewrite IH; [done|]. intros; apply Hx; by right.
Qed.

Lemma omap_filter_comm {A B} (f : A -> option B) (P : A -> Prop) (Q : B -> Prop)
    `{!forall x, Decision (P x), !forall x, Decision (Q x)} (l : list A) :
  (forall x y, x ∈ l -> f x = Some y -> P x <-> Q y) ->
  omap f (filter P l) = filter Q (omap f l).
Proof.
  induction l as [|x l IH]; intros Hx; [done|]. rewrite filter_cons.
  assert (omap f (filter P l) = filter Q (omap f l)) as IH'
    by (apply IH; intros; apply Hx; [by right|done]).
  rewrite omap_cons_eq. destruct (f x) as [y|] eqn:Hf.
  - rewrite filter_cons. pose proof (Hx x y (list_elem_of_here _ _) Hf).
    do 2 case_decide; rewrite ?omap_cons_eq, ?Hf, ?IH'; done || tauto.
  - case_decide; rewrite ?omap_cons_eq, ?Hf; done.
Qed.

Lemma Forall_list_filter {A} (P Q : A -> Prop) `{!forall x, Decision (Q x)} (l : list A) :
  Forall P l -> Forall P (filter Q l).
Proof.
  induction 1; [constructor|]. rewrite filter_cons. case_decide; [by constructor|done].
Qed.

Lemma StronglySorted_filter {A} (R : A -> A -> Prop) (P : A -> Prop)
    `{!forall x, Decision (P x)} (l : list A) :
  StronglySorted R l -> StronglySorted R (filter P l).
Proof.
  induction 1; [constructor|]. rewrite filter_cons. case_decide; [|done].
  constructor; [done|]. by apply Forall_list_filter.
Qed.

Lemma Forall_omap_filter {A B} (f : A -> option B) (Q : B -> Prop) (P : A -> Prop)
    `{!forall x, Decision (P x)} (l : list A) :
  Forall Q (omap f l) -> Forall Q (omap f (filter P l)).
Proof.
  induction l as [|x l IH]; [done|]. rewrite filter_cons, omap_cons_eq.
  destruct (f x) as [y|] eqn:Hf; intros HF.
  - apply Forall_cons in HF as [Hy HF]. case_decide; [|by apply IH].
    rewrite omap_cons_eq, Hf. constructor; [done|by apply IH].
  - case_decide; [rewrite omap_cons_eq, Hf|]; by apply IH.
Qed.

Lemma StronglySorted_omap_filter {A B} (f : A -> option B) (R : B -> B -> Prop) (P : A -> Prop)
    `{!forall x, Decision (P x)} (l : list A) :
  StronglySorted R (omap f l) -> StronglySorted R (omap f (filter P l)).
Proof.
  induction l as [|x l IH]; [done|]. rewrite filter_cons, omap_cons_eq.
  destruct (f x) as [y|] eqn:Hf; intros HS.
  - apply StronglySorted_inv in HS as [HS HF]. case_decide; [|by apply IH].
    rewrite omap_cons_eq, Hf. constructor; [by apply IH|by apply Forall_omap_filter].
  - case_decide; [rewrite omap_cons_eq, Hf|]; by apply IH.
Qed.

Lemma take_elem_in {A} n (l : list A) x : x ∈ take n l -> x ∈ l.
Proof. intros Hx. rewrite <- (take_drop n l). apply elem_of_app. by left. Qed.

Lemma omap_app_eq {A B} (f : A -> option B) (l k : list A) :
  omap f (l ++ k) = omap f l ++ omap f k.
Proof.
  induction l as [|x l IH]; [done|]. simpl app. rewrite !omap_cons_eq, IH.
  by destruct (f x).
Qed.

Lemma elem_of_concat {A} (ls : list (list A)) x : x ∈ concat ls <-> exists l, x ∈ l /\ l ∈ ls.
Proof.
  induction ls as [|l ls IH]; cbn [concat].
  - split; [by intros ?%not_elem_of_nil|]. by intros (l & _ & ?%not_elem_of_nil).
  - rewrite elem_of_app, IH. split.
    + intros [Hx|(l' & Hx & Hl)]; [exists l|exists l']; (split; [done|]); by constructor.
    + intros (l' & Hx & [->|Hl]%elem_of_cons); [by left|right; eauto].
Qed.

(** A separator that does not occur to its left fixes where a list is cut. *)
Lemma app_sep_inj {A} (c : A) (l1 l2 r1 r2 : list A) :
  c ∉ l1 -> c ∉ l2 -> l1 ++ c :: r1 = l2 ++ c :: r2 -> l1 = l2 /\ r1 = r2.
Proof.
  revert l2. induction l1 as [|x l1 IH]; intros [|y l2] H1 H2 E; simplify_eq/=; [done| | |].
  - exfalso. apply H2. left.
  - exfalso. apply H1. left.
  - apply not_elem_of_cons in H1 as [_ H1]. apply not_elem_of_cons in H2 as [_ H2].
    by destruct (IH l2 H1 H2) as [-> ->].
Qed.

(** ** Proof automation shared by the components *)

Create HintDb mango.
#[export] Hint Resolve wrap_u_small wrap_s_small wrap_u_fits wrap_s_fits
  le_u32_roundtrip le_combine_u32_fits : mango.

(** Case analysis on the innermost conditional of the goal or of a
    hypothesis, with the facts it yields turned into propositions. *)
Ltac go_bool :=
  repeat match goal with
  | H : (_ && _)%bool = true |- _ => apply andb_true_iff in H; destruct H
  | H : (_ && _)%bool = false |- _ => apply andb_false_iff in H
  | H : (_ || _)%bool = false |- _ => apply orb_false_iff in H; destruct H
  | H : negb _ = true |- _ => apply negb_true_iff in H
  | H : negb _ = false |- _ => apply negb_false_iff in H
  | H : (_ <? _) = true |- _ => apply Z.ltb_lt in H
  | H : (_ <? _) = false |- _ => apply Z.ltb_ge in H
  | H : (_ <=? _) = true |- _ => apply Z.leb_le in H
  | H : (_ <=? _) = false |- _ => apply Z.leb_gt in H
  | H : (_ >? _) = true |- _ => rewrite Z.gtb_ltb in H
  | H : (_ >? _) = false |- _ => rewrite Z.gtb_ltb in H
  | H : (_ =? _) = true |- _ => apply Z.eqb_eq in H
  | H : (_ =? _) = false |- _ => apply Z.eqb_neq in H
  end.

Ltac go_case :=
  match goal with
  | |- context [if ?b then _ else _] => destruct b eqn:?
  | |- context [match ?x with _ => _ end] => destruct x eqn:?
  end; go_bool; simplify_eq/=.

Ltac go_case_in H :=
  match type of H with
  | context [if ?b then _ else _] => destruct b eqn:?
  | context [match ?x with _ => _ end] => destruct x eqn:?
  end; go_bool; simplify_eq/=.

(** Run a computation past the steps whose outcome is known. *)
Ltac go_run :=
  repeat ((change (Done ?r ≫= ?f) with (f r) || change (on_panic (Done ?r) ?h ?f) with (f r)); cbv beta iota zeta).

(** Close a goal by evaluating its decision procedure. *)
Ltac by_decide := apply (bool_decide_unpack _); vm_compute; constructor.

(** The only element of a list with its key is the one found by it. *)
Lemma find_unique {A B} `{EqDecision B} (f : A -> B) (t : A -> bool) (l : list A) x :
  NoDup (f <$> l) -> x ∈ l -> (forall y, y ∈ l -> t y = true <-> f y = f x) -> List.find t l = Some x.
Proof.
  induction l as [|y l IH]; intros Hnd Hx Ht; [by apply not_elem_of_nil in Hx|].
  apply NoDup_cons in Hnd as [Hy Hnd]. cbn [List.find]. destruct (t y) eqn:E.
  - f_equal. apply Ht in E; [|left]. apply elem_of_cons in Hx as [->|Hx]; [done|].
    exfalso. apply Hy. rewrite E. by apply list_elem_of_fmap_2.
  - apply elem_of_cons in Hx as [->|Hx].
    + exfalso. assert (t y = true) by (apply Ht; [left|done]). congruence.
    + apply IH; [done|done|]. intros z Hz. apply Ht. by right.
Qed.
