(* ===== verification/GoStrings.v ===== *)
(** * strconv and strings: what the program uses of them

    Decimal numbers ([Itoa], [FormatInt], [FormatUint], [Atoi], [ParseInt],
    [ParseUint] with base 10), [ReplaceAll] of one character, [Join] and
    [Split].  Strings are Stdlib strings; the scanning functions work on their
    characters. *)

From Stdlib Require Export Ascii.
From S2P Require Import Prelude.

Abbreviation chars := String.list_ascii_of_string.
Abbreviation of_chars := String.string_of_list_ascii.

Lemma chars_of_chars l : chars (of_chars l) = l.
Proof. apply String.list_ascii_of_string_of_list_ascii. Qed.

Lemma of_chars_chars s : of_chars (chars s) = s.
Proof. apply String.string_of_list_ascii_of_string. Qed.

Lemma chars_app s1 s2 : chars (s1 +:+ s2) = chars s1 ++ chars s2.
Proof. induction s1 as [|a s1 IH]; [done|]. simpl. by rewrite IH. Qed.

Lemma string_assoc (a b c : string) : (a +:+ b) +:+ c = a +:+ (b +:+ c).
Proof.
  induction a as [|x a IH]; [done|].
  change (String x ((a +:+ b) +:+ c) = String x (a +:+ (b +:+ c))). by rewrite IH.
Qed.

Lemma of_chars_app l1 l2 : of_chars (l1 ++ l2) = of_chars l1 +:+ of_chars l2.
Proof. induction l1 as [|a l1 IH]; [done|]. simpl. by rewrite IH. Qed.

Lemma chars_inj s1 s2 : chars s1 = chars s2 -> s1 = s2.
Proof. intros Hs. by rewrite <- (of_chars_chars s1), <- (of_chars_chars s2), Hs. Qed.

(** ** Printing numbers *)

Definition digit_char (d : Z) : Ascii.ascii := Ascii.ascii_of_N (Z.to_N (48 + d)).

(** The decimal digits of [n >= 0], most significant first.  [fuel] bounds
    their number; 20 digits print every 64-bit number. *)
Fixpoint digits (fuel : nat) (n : Z) : list Z :=
  if n <? 10 then [n] else
  match fuel with
  | O => [n mod 10]
  | S fuel => digits fuel (n / 10) ++ [n mod 10]
  end.

Definition FormatUint (n : Z) : string := of_chars (digit_char <$> digits 20 n).

Definition FormatInt (n : Z) : string :=
  if n <? 0 then "-" +:+ FormatUint (- n) else FormatUint n.

Definition Itoa (n : Z) : string := FormatInt n.

(** ** Reading numbers *)

Inductive numErr := ErrSyntax | ErrRange.

Definition char_digit (a : Ascii.ascii) : option Z :=
  let c := Z.of_N (Ascii.N_of_ascii a) in
  if (48 <=? c) && (c <=? 57) then Some (c - 48) else None.

(** The loop of [strconv.ParseUint(s, 10, bits)]. *)
Fixpoint parseUint_loop (maxVal : Z) (n : Z) (s : list Ascii.ascii) : result numErr Z :=
  match s with
  | [] => Ok n
  | c :: s =>
      match char_digit c with
      | None => Err ErrSyntax
      | Some d =>
          if n >=? (2 ^ 64 - 1) / 10 + 1 then Err ErrRange else
          let n := n * 10 in
          let n1 := u64 (n + d) in
          if (n1 <? n) || (n1 >? maxVal) then Err ErrRange else parseUint_loop maxVal n1 s
      end
  end.

Definition ParseUint (s : string) (bits : Z) : result numErr Z :=
  match chars s with
  | [] => Err ErrSyntax
  | _ => parseUint_loop (2 ^ bits - 1) 0 (chars s)
  end.

(** [strconv.ParseInt(s, 10, bits)]. *)
Definition ParseInt (s : string) (bits : Z) : result numErr Z :=
  match chars s with
  | [] => Err ErrSyntax
  | c :: l =>
      let '(neg, l) :=
        if bool_decide (c = "+"%char) then (false, l)
        else if bool_decide (c = "-"%char) then (true, l) else (false, c :: l) in
      match l with
      | [] => Err ErrSyntax
      | _ =>
          match parseUint_loop (2 ^ bits - 1) 0 l with
          | Err e => Err e
          | Ok un =>
              let cutoff := 2 ^ (bits - 1) in
              if negb neg && (un >=? cutoff) then Err ErrRange
              else if neg && (un >? cutoff) then Err ErrRange
              else Ok (if neg then - un else un)
          end
      end
  end.

(** The number [ParseInt] returns beside an error that the caller drops. *)
Definition ParseInt_value (s : string) (bits : Z) : Z :=
  match ParseInt s bits with
  | Ok n => n
  | Err ErrSyntax => 0
  | Err ErrRange => if String.prefix "-" s then - 2 ^ (bits - 1) else 2 ^ (bits - 1) - 1
  end.

Definition Atoi (s : string) : result numErr Z := ParseInt s 64.

(** ** Cutting and joining *)

(** [strings.ReplaceAll(s, old, new)] for a one-character [old]. *)
Definition ReplaceAll (s : string) (old : Ascii.ascii) (new : string) : string :=
  of_chars (concat ((fun c => if bool_decide (c = old) then chars new else [c]) <$> chars s)).

Fixpoint Join (l : list string) (sep : string) : string :=
  match l with
  | [] => ""
  | [s] => s
  | s :: l => s +:+ sep +:+ Join l sep
  end.

(** [strings.Split(s, sep)] for a one-character [sep]. *)
Fixpoint split_chars (sep : Ascii.ascii) (cur : list Ascii.ascii) (l : list Ascii.ascii)
  : list (list Ascii.ascii) :=
  match l with
  | [] => [cur]
  | c :: l => if bool_decide (c = sep) then cur :: split_chars sep [] l
              else split_chars sep (cur ++ [c]) l
  end.

Definition Split (s : string) (sep : Ascii.ascii) : list string :=
  of_chars <$> split_chars sep [] (chars s).

(** ** Numbers read back what they print *)

Lemma parseUint_loop_bounds maxVal s : forall n m, 0 <= n <= maxVal ->
  parseUint_loop maxVal n s = Ok m -> 0 <= m <= maxVal.
Proof.
  induction s as [|c s IH]; intros n m Hn Hm; cbn [parseUint_loop] in Hm; [by injection Hm as <-|].
  destruct (char_digit c) as [d|]; [|done]. destruct (n >=? _); [done|].
  destruct ((u64 (n * 10 + d) <? n * 10) || (u64 (n * 10 + d) >? maxVal)) eqn:Hc; [done|].
  apply (IH (u64 (n * 10 + d))); [|done]. lia.
Qed.

Lemma ParseUint_fits s bits n : 0 <= bits -> ParseUint s bits = Ok n -> fits_u bits n.
Proof.
  intros Hb. unfold ParseUint. destruct (chars s); [done|]. intros Hp.
  apply parseUint_loop_bounds in Hp; unfold fits_u; pose proof (Z.pow_pos_nonneg 2 bits); lia.
Qed.

Lemma ParseInt_fits s bits n : 0 < bits -> ParseInt s bits = Ok n -> fits_s bits n.
Proof.
  intros Hb. unfold ParseInt. destruct (chars s) as [|c l]; [done|].
  destruct (if bool_decide _ then _ else _) as [neg l']. destruct l' as [|c' l']; [done|].
  destruct (parseUint_loop _ _ _) as [un|e] eqn:Hp; [|done].
  pose proof (Z.pow_pos_nonneg 2 bits). pose proof (Z.pow_pos_nonneg 2 (bits - 1)).
  apply parseUint_loop_bounds in Hp; [|lia]. unfold fits_s.
  destruct neg; cbn [negb andb].
  - destruct (Z.gtb_spec un (2 ^ (bits - 1))); [done|]. intros [= <-]. lia.
  - destruct (un >=? 2 ^ (bits - 1)) eqn:Hge; [done|]. intros [= <-]. lia.
Qed.

Lemma char_digit_char d : 0 <= d < 10 -> char_digit (digit_char d) = Some d.
Proof.
  intros Hd. unfold char_digit, digit_char.
  rewrite Ascii.N_ascii_embedding by lia. rewrite Z2N.id by lia.
  rewrite (proj2 (Z.leb_le _ _)), (proj2 (Z.leb_le _ _)) by lia. cbn [andb]. f_equal. lia.
Qed.

Lemma digits_spec fuel : forall n, 0 <= n < 10 ^ Z.of_nat (S fuel) ->
  Forall (fun d => 0 <= d < 10) (digits fuel n) /\
  digits fuel n <> [] /\ foldl (fun a d => a * 10 + d) 0 (digits fuel n) = n.
Proof.
  induction fuel as [|fuel IH]; intros n Hn; cbn [digits];
    destruct (Z.ltb_spec n 10) as [H10|H10].
  1,3: split; [apply Forall_cons; split; [lia|by apply Forall_nil]|done].
  - change (10 ^ Z.of_nat 1) with 10 in Hn. lia.
  - destruct (IH (n / 10)) as (HF & Hne & Hv).
    { rewrite Nat2Z.inj_succ, Z.pow_succ_r in Hn by lia.
      split; [apply Z.div_pos; lia|apply Z.div_lt_upper_bound; lia]. }
    split; [|split].
    + apply Forall_app. split; [done|]. constructor; [apply Z.mod_pos_bound; lia|constructor].
    + by destruct (digits fuel (n / 10)).
    + rewrite foldl_app, Hv. cbn [foldl]. rewrite (Z.div_mod n 10) at 3 by lia. lia.
Qed.

Lemma foldl_digits_ge l : Forall (fun d => 0 <= d < 10) l -> forall a, 0 <= a ->
  a <= foldl (fun a d => a * 10 + d) a l.
Proof.
  induction 1 as [|d l Hd _ IH]; intros a Ha; [simpl; lia|]. cbn [foldl].
  specialize (IH (a * 10 + d)). lia.
Qed.

Lemma parseUint_digits maxVal l : Forall (fun d => 0 <= d < 10) l -> maxVal < 2 ^ 64 ->
  forall n, 0 <= n -> foldl (fun a d => a * 10 + d) n l <= maxVal ->
  parseUint_loop maxVal n (digit_char <$> l) = Ok (foldl (fun a d => a * 10 + d) n l).
Proof.
  intros HF Hm. induction HF as [|d l Hd HF IH]; intros n Hn Hv; [done|].
  cbn [fmap list_fmap parseUint_loop foldl] in *. rewrite char_digit_char by done.
  pose proof (foldl_digits_ge l HF (n * 10 + d) ltac:(lia)) as Hge.
  rewrite Z.geb_leb. destruct (Z.leb_spec ((2 ^ 64 - 1) / 10 + 1) n) as [Hc|_].
  { change ((2 ^ 64 - 1) / 10) with 1844674407370955161 in Hc. lia. }
  rewrite (wrap_u_small 64) by (unfold fits_u; lia).
  rewrite Z.gtb_ltb, (proj2 (Z.ltb_ge (n * 10 + d) (n * 10))), (proj2 (Z.ltb_ge maxVal _)) by lia.
  cbn [orb]. apply IH; lia.
Qed.

Lemma chars_FormatUint n : chars (FormatUint n) = digit_char <$> digits 20 n.
Proof. apply chars_of_chars. Qed.

Lemma digits20 n : fits_u 64 n ->
  Forall (fun d => 0 <= d < 10) (digits 20 n) /\
  digits 20 n <> [] /\ foldl (fun a d => a * 10 + d) 0 (digits 20 n) = n.
Proof.
  intros [Hn0 Hn]. apply digits_spec. split; [done|]. eapply Z.lt_trans; [exact Hn|]. reflexivity.
Qed.

Lemma match_nonempty {A B} (l : list A) (a b : B) : l <> [] ->
  match l with [] => a | _ :: _ => b end = b.
Proof. by destruct l. Qed.

Lemma ParseUint_FormatUint n bits : 0 <= bits <= 64 -> fits_u bits n ->
  ParseUint (FormatUint n) bits = Ok n.
Proof.
  intros Hb [Hn0 Hn]. assert (2 ^ bits <= 2 ^ 64) by (apply Z.pow_le_mono_r; lia).
  destruct (digits20 n) as (HF & Hne & Hv); [unfold fits_u; lia|].
  unfold ParseUint. rewrite chars_FormatUint.
  rewrite match_nonempty by (by destruct (digits 20 n)).
  rewrite parseUint_digits by (rewrite ?Hv; done || lia). by rewrite Hv.
Qed.

Lemma digit_char_not_sign d : 0 <= d < 10 -> digit_char d <> "+"%char /\ digit_char d <> "-"%char.
Proof. intros Hd. split; intros E; apply (f_equal char_digit) in E; rewrite char_digit_char in E; done. Qed.

Lemma ParseInt_FormatInt n bits : 0 < bits <= 64 -> fits_s bits n ->
  ParseInt (FormatInt n) bits = Ok n.
Proof.
  intros Hb [Hn0 Hn].
  assert (2 ^ bits = 2 * 2 ^ (bits - 1)) as E2.
  { replace bits with (1 + (bits - 1)) at 1 by lia. rewrite Z.pow_add_r by lia. done. }
  assert (2 ^ bits <= 2 ^ 64) by (apply Z.pow_le_mono_r; lia).
  destruct (digits20 (Z.abs n)) as (HF & Hne & Hv); [unfold fits_u; lia|].
  unfold ParseInt, FormatInt. destruct (Z.ltb_spec n 0).
  - replace (- n) with (Z.abs n) by lia. rewrite chars_app, chars_FormatUint. cbn [chars app].
    rewrite bool_decide_false, bool_decide_true by done.
    rewrite match_nonempty by (by destruct (digits 20 (Z.abs n))).
    rewrite parseUint_digits by (rewrite ?Hv; done || lia).
    rewrite Hv. cbn [negb andb]. rewrite Z.gtb_ltb, (proj2 (Z.ltb_ge _ _)) by lia.
    f_equal. lia.
  - assert (Hp : parseUint_loop (2 ^ bits - 1) 0 (digit_char <$> digits 20 (Z.abs n)) = Ok (Z.abs n)).
    { rewrite parseUint_digits by (rewrite ?Hv; done || lia). by rewrite Hv. }
    replace n with (Z.abs n) at 1 by lia. rewrite chars_FormatUint.
    destruct (digits 20 (Z.abs n)) as [|d l]; [done|]. apply Forall_cons in HF as [Hd0 _].
    destruct (digit_char_not_sign d Hd0). cbn [fmap list_fmap] in Hp |- *.
    rewrite !bool_decide_false by done. rewrite Hp. cbn [negb andb].
    rewrite Z.geb_leb, (proj2 (Z.leb_gt _ _)) by lia. f_equal. lia.
Qed.

(** A printed number has digits and a sign only. *)
Lemma FormatInt_chars n c : c ∈ chars (FormatInt n) -> fits_s 64 n ->
  c = "-"%char \/ exists d, 0 <= d < 10 /\ c = digit_char d.
Proof.
  intros Hc [Hn0 Hn]. destruct (digits20 (Z.abs n)) as (HF & _ & _); [unfold fits_u; lia|].
  unfold FormatInt in Hc. destruct (Z.ltb_spec n 0).
  - rewrite chars_app in Hc. replace (- n) with (Z.abs n) in Hc by lia.
    apply elem_of_app in Hc as [Hc|Hc].
    + apply list_elem_of_singleton in Hc. by left.
    + right. rewrite chars_FormatUint in Hc. apply list_elem_of_fmap in Hc as (d & -> & Hd).
      exists d. split; [|done]. by eapply Forall_forall in HF.
  - right. replace n with (Z.abs n) in Hc by lia. rewrite chars_FormatUint in Hc.
    apply list_elem_of_fmap in Hc as (d & -> & Hd). exists d. split; [|done]. by eapply Forall_forall in HF.
Qed.

Lemma ReplaceAll_absent s old new : old ∉ chars s -> ReplaceAll s old new = s.
Proof.
  intros Hn. unfold ReplaceAll. rewrite <- (of_chars_chars s) at 2. f_equal.
  induction (chars s) as [|c l IH]; [done|]. apply not_elem_of_cons in Hn as [Hc Hl].
  cbn. rewrite bool_decide_false by done. simpl. f_equal. by apply IH.
Qed.

(** A field without the separator is cut off whole. *)
Lemma split_chars_field sep a l : sep ∉ a -> forall cur,
  split_chars sep cur (a ++ sep :: l) = (cur ++ a) :: split_chars sep [] l.
Proof.
  induction a as [|c a IH]; intros Hn cur; cbn [app split_chars].
  - by rewrite bool_decide_true, app_nil_r.
  - apply not_elem_of_cons in Hn as [Hc Hn]. rewrite bool_decide_false, IH by done. by rewrite <- app_assoc.
Qed.

Lemma split_chars_absent sep a : sep ∉ a -> forall cur, split_chars sep cur a = [cur ++ a].
Proof.
  induction a as [|c a IH]; intros Hn cur; cbn [split_chars]; [by rewrite app_nil_r|].
  apply not_elem_of_cons in Hn as [Hc Hn]. rewrite bool_decide_false, IH by done. by rewrite <- app_assoc.
Qed.

Lemma Split_field a b sep : sep ∉ chars a -> Split (a +:+ String sep "" +:+ b) sep = a :: Split b sep.
Proof.
  intros Hn. unfold Split. rewrite !chars_app. cbn [chars app]. rewrite split_chars_field by done.
  cbn [fmap list_fmap app]. by rewrite of_chars_chars.
Qed.

Lemma Split_absent a sep : sep ∉ chars a -> Split a sep = [a].
Proof.
  intros Hn. unfold Split. rewrite split_chars_absent by done. cbn [fmap list_fmap app]. by rewrite of_chars_chars.
Qed.

Lemma ParseInt_value_FormatInt n : fits_s 64 n -> ParseInt_value (FormatInt n) 64 = n.
Proof. intros Hn. unfold ParseInt_value. by rewrite ParseInt_FormatInt by (done || lia). Qed.

Lemma FormatInt_no_colon n : fits_s 64 n -> ":"%char ∉ chars (FormatInt n).
Proof.
  intros Hn Hc. apply FormatInt_chars in Hc as [Hc|(d & Hd & Hc)]; [done| |done].
  apply (f_equal char_digit) in Hc. by rewrite char_digit_char in Hc.
Qed.

#[export] Hint Resolve ParseInt_FormatInt ParseUint_FormatUint : mango.
