(* ===== verification/GoTime.v ===== *)
(** * Times and the decimal printing the loggers use

    [time.Time] is kept as the seconds since 1970 and the nanoseconds within
    the second; the local time zone is an offset in seconds.  [Date] is the
    proleptic Gregorian calendar, computed from years that begin in March. *)

From S2P Require Import Prelude GoStrings.

Record Time := MkTime { Unix : Z; Nanosecond : Z }.

Record date := MkDate { Year : Z; Month : Z; Day : Z }.

#[global] Instance date_eq_dec : EqDecision date.
Proof. solve_decision. Defined.

(** The year that begins on 1 March: a cycle of 400 years has 146097 days, a
    century 36524 (the last one of a cycle a day more), a group of four years
    1461 (the last one of a century a day less, the last one of a cycle not).
    [z] counts the days from 1 March of the year 0. *)
Definition century (z : Z) : Z := Z.min 3 (z mod 146097 / 36524).
Definition group (z : Z) : Z := (z mod 146097 - 36524 * century z) / 1461.
Definition inGroup (z : Z) : Z := z mod 146097 - 36524 * century z - 1461 * group z.
Definition marchYear (z : Z) : Z :=
  400 * (z / 146097) + 100 * century z + 4 * group z + Z.min 3 (inGroup z / 365).
Definition dayOfYear (z : Z) : Z := inGroup z - 365 * Z.min 3 (inGroup z / 365).

(** Month (0 for March) and day of the month of a day of such a year. *)
Definition monthOf (doy : Z) : Z := (5 * doy + 2) / 153.
Definition dayOf (doy : Z) : Z := doy - (153 * monthOf doy + 2) / 5 + 1.

(** The day [n] days after 1 January 1970. *)
Definition civil (n : Z) : date :=
  let z := n + 719468 in
  let mp := monthOf (dayOfYear z) in
  let m := if mp <? 10 then mp + 3 else mp - 9 in
  MkDate (marchYear z + (if m <=? 2 then 1 else 0)) m (dayOf (dayOfYear z)).

Definition localDay (zone : Z) (t : Time) : Z := (Unix t + zone) / 86400.
Definition localSec (zone : Z) (t : Time) : Z := (Unix t + zone) mod 86400.

Definition Date (zone : Z) (t : Time) : date := civil (localDay zone t).

(** [Clock]: hour, minute, second. *)
Definition Clock (zone : Z) (t : Time) : Z * Z * Z :=
  let s := localSec zone t in (s / 3600, s / 60 mod 60, s mod 60).

(** ** Printing *)

(** [%0wd]: at least [w] characters, padded with zeros, for the numbers
    [n >= 0] the loggers print. *)
Definition pad (w : nat) (n : Z) : string :=
  let s := pretty n in of_chars (replicate (w - String.length s) "0"%char) +:+ s.

(** "[%04d-%02d-%02d %02d:%02d:%02d.%03d]" *)
Definition stamp (zone : Z) (t : Time) : string :=
  let '(hour, min, sec) := Clock zone t in
  let d := Date zone t in
  "[" +:+ pad 4 (Year d) +:+ "-" +:+ pad 2 (Month d) +:+ "-" +:+ pad 2 (Day d) +:+ " " +:+
  pad 2 hour +:+ ":" +:+ pad 2 min +:+ ":" +:+ pad 2 sec +:+ "." +:+ pad 3 (Nanosecond t / 1000000) +:+ "]".

Example epoch_date : civil 0 = MkDate 1970 1 1.
Proof. reflexivity. Qed.
Example leap_date : civil 19782 = MkDate 2024 2 29.
Proof. reflexivity. Qed.
Example a_stamp : stamp 28800 (MkTime 1629941248 7000000) = "[2021-08-26 09:27:28.007]".
Proof. vm_compute. reflexivity. Qed.

(** ** Consecutive days have different days of the month *)

Lemma dayOfYear_range z : 0 <= dayOfYear z <= 365.
Proof.
  unfold dayOfYear, inGroup, group, century.
  pose proof (Z.mod_pos_bound z 146097 eq_refl). generalize dependent (z mod 146097). intros r Hr.
  Z.to_euclidean_division_equations. lia.
Qed.

(** The next day is the next of its year, or the first of the next one. *)
Lemma dayOfYear_next z :
  dayOfYear (z + 1) = dayOfYear z + 1 \/ dayOfYear (z + 1) = 0 /\ 364 <= dayOfYear z.
Proof.
  unfold dayOfYear, inGroup, group, century.
  assert (Hm : (z + 1) mod 146097 = z mod 146097 + 1 \/ (z + 1) mod 146097 = 0 /\ z mod 146097 = 146096)
    by (Z.to_euclidean_division_equations; lia).
  pose proof (Z.mod_pos_bound z 146097 eq_refl).
  destruct Hm as [->|[-> ->]]; [|right; vm_compute; split; congruence].
  generalize dependent (z mod 146097). intros r Hr. Z.to_euclidean_division_equations. lia.
Qed.

Lemma next_day_differs n : Day (civil (n + 1)) <> Day (civil n).
Proof.
  unfold civil. cbn [Day]. replace (n + 1 + 719468) with (n + 719468 + 1) by lia.
  pose proof (dayOfYear_range (n + 719468)). destruct (dayOfYear_next (n + 719468)) as [->|[-> ?]].
  - unfold dayOf, monthOf. Z.to_euclidean_division_equations. lia.
  - unfold dayOf, monthOf. Z.to_euclidean_division_equations. lia.
Qed.

(** Two instants at most a day apart with the same day of the month have the
    same date. *)
Lemma same_Day_same_Date zone t t' :
  Unix t <= Unix t' <= Unix t + 86400 -> Day (Date zone t) = Day (Date zone t') -> Date zone t = Date zone t'.
Proof.
  unfold Date. intros Ht HD.
  assert (localDay zone t' = localDay zone t \/ localDay zone t' = localDay zone t + 1) as [E|E].
  - unfold localDay in *. pose proof (Z.div_le_mono (Unix t + zone) (Unix t' + zone) 86400 eq_refl).
    pose proof (Z.div_le_mono (Unix t' + zone) (Unix t + zone + 1 * 86400) 86400 eq_refl) as Hu.
    rewrite Z.div_add in Hu by done. lia.
  - by rewrite E.
  - rewrite E in HD. by pose proof (next_day_differs (localDay zone t)).
Qed.
