(* ===== verification/Uid.v ===== *)
(** * common/uid: the process-wide unique-id generator

    The generator packs an 8-bit function id, an 11-bit instance id, 29 bits of
    seconds since [_baseTimeStamp] and a 16-bit per-second sequence number into
    a [uint64].  [time.Now().Unix()] is an argument of the model; the mutex of
    [GenerateUID] makes one call one step of the state. *)

From S2P Require Import Prelude.

Definition _baseTimeStamp : Z := 1629941248.
Definition _funcIDUIDOffset : Z := 56.
Definition _insIDUIDOffset : Z := 45.
Definition _timeBitNum : Z := 29.
Definition _seqBitNum : Z := 16.

Record uidGeneratorParam := UidGeneratorParam {
  lastStamp : Z;
  prefixUID : Z;
  sequence : Z;
  seqBits : Z;
  timeBits : Z
}.

Record uidGenerator := UidGenerator { genParam : uidGeneratorParam }.

(** The package variable [uidGeneratorIns]: nil before initialisation. *)
Definition uidGeneratorIns : Type := option uidGenerator.

Definition InitUIDGenerator (funcID insID : Z) : uidGeneratorIns :=
  Some (UidGenerator
    {| lastStamp := 0;
       prefixUID := u64 (u64 (Z.shiftl (u64 funcID) _funcIDUIDOffset)
                         + u64 (Z.shiftl (u64 insID) _insIDUIDOffset));
       sequence := 0;
       seqBits := _seqBitNum;
       timeBits := _timeBitNum |}).

Definition doGenerate (nowTime : Z) (p : uidGeneratorParam) : Z * uidGeneratorParam :=
  if nowTime <? _baseTimeStamp then (0, p) else
  let p :=
    if negb (lastStamp p =? nowTime)
    then {| lastStamp := nowTime; prefixUID := prefixUID p; sequence := 0;
            seqBits := seqBits p; timeBits := timeBits p |}
    else p in
  let temp := i64 (nowTime - _baseTimeStamp) in
  let result := u64 (prefixUID p + u64 (Z.shiftl (u64 temp) (seqBits p))) in
  if sequence p >? i64 (i64 (Z.shiftl 1 (seqBits p)) - 1) then (0, p) else
  (u64 (result + u64 (sequence p)),
   {| lastStamp := lastStamp p; prefixUID := prefixUID p;
      sequence := i64 (sequence p + 1);
      seqBits := seqBits p; timeBits := timeBits p |}).

Definition GenerateUID (nowTime : Z) (ins : uidGeneratorIns) : Z * uidGeneratorIns :=
  match ins with
  | None => (0, None)
  | Some g =>
      let '(r, p) := doGenerate nowTime (genParam g) in (r, Some (UidGenerator p))
  end.

(** The ids a process draws, one call per clock reading. *)
Fixpoint generateAll (clock : list Z) (ins : uidGeneratorIns) : list Z :=
  match clock with
  | [] => []
  | t :: ts => let '(r, ins') := GenerateUID t ins in r :: generateAll ts ins'
  end.

(** The fields of an id, as the layout comment of [InitUIDGenerator] gives
    them. *)
Definition uid_func (u : Z) : Z := Z.shiftr u 56.
Definition uid_ins (u : Z) : Z := Z.land (Z.shiftr u 45) (Z.ones 11).
Definition uid_time (u : Z) : Z := Z.land (Z.shiftr u 16) (Z.ones 29).
Definition uid_seq (u : Z) : Z := Z.land u (Z.ones 16).

(** The ids that were really handed out: 0 is the refusal. *)
Definition issued (l : list Z) : list Z := filter (fun x => x <> 0) l.

(** ** Arithmetic of the layout *)

Definition pack (f i t s : Z) : Z := f * 2 ^ 56 + i * 2 ^ 45 + t * 2 ^ 16 + s.

Lemma pack_fields f i t s :
  0 <= f < 256 -> 0 <= i < 2048 -> 0 <= t < 2 ^ 29 -> 0 <= s < 65536 ->
  uid_func (pack f i t s) = f /\ uid_ins (pack f i t s) = i /\
  uid_time (pack f i t s) = t /\ uid_seq (pack f i t s) = s.
Proof.
  intros. unfold uid_func, uid_ins, uid_time, uid_seq, pack.
  rewrite !Z.land_ones, !Z.shiftr_div_pow2 by lia.
  repeat split; Z.to_euclidean_division_equations; lia.
Qed.

(** ** Invariant of a generator set up for [(f, i)] *)

Record uid_inv (f i : Z) (p : uidGeneratorParam) : Prop := {
  inv_prefix : prefixUID p = f * 2 ^ 56 + i * 2 ^ 45;
  inv_bits : seqBits p = 16;
  inv_seq : 0 <= sequence p <= 65536
}.

Lemma init_inv f i :
  0 <= f < 256 -> 0 <= i < 2048 ->
  exists p, InitUIDGenerator f i = Some (UidGenerator p) /\ uid_inv f i p /\
            lastStamp p = 0.
Proof.
  intros. eexists. split; [reflexivity|]. split; [|reflexivity].
  split; simpl; [|reflexivity|lia].
  unfold _funcIDUIDOffset, _insIDUIDOffset.
  rewrite !Z.shiftl_mul_pow2 by lia.
  rewrite (wrap_u_small 64 f), (wrap_u_small 64 i) by (unfold fits_u; lia).
  rewrite (wrap_u_small 64 (f * _)), (wrap_u_small 64 (i * _)) by (unfold fits_u; lia).
  apply wrap_u_small. unfold fits_u. lia.
Qed.

(** What one draw does in each case, in exact arithmetic. *)
Lemma doGenerate_spec f i p t :
  0 <= f < 256 -> 0 <= i < 2048 -> uid_inv f i p -> t < _baseTimeStamp + 2 ^ 29 ->
  let s := if lastStamp p =? t then sequence p else 0 in
  exists r p', doGenerate t p = (r, p') /\ uid_inv f i p' /\
  ((t < _baseTimeStamp /\ r = 0 /\ p' = p) \/
   (_baseTimeStamp <= t /\ lastStamp p' = t /\ s = 65536 /\ r = 0 /\ sequence p' = 65536) \/
   (_baseTimeStamp <= t /\ lastStamp p' = t /\ s < 65536 /\
    r = pack f i (t - _baseTimeStamp) s /\ sequence p' = s + 1)).
Proof.
  intros Hf Hi [Hp Hb Hs] Ht s. subst s. unfold doGenerate, _baseTimeStamp in *.
  destruct (Z.ltb_spec t 1629941248); [do 2 eexists; split; [reflexivity|]; split; [by split|left; done]|].
  set (q := if negb (lastStamp p =? t) then _ else p).
  assert (prefixUID q = f * 2 ^ 56 + i * 2 ^ 45 /\ seqBits q = 16 /\ lastStamp q = t /\
          sequence q = (if lastStamp p =? t then sequence p else 0)) as (Eq1 & Eq2 & Eq3 & Eq4).
  { subst q. destruct (Z.eqb_spec (lastStamp p) t); simpl; auto. }
  rewrite <- Eq4. rewrite Eq1, Eq2, Eq3.
  assert (0 <= sequence q <= 65536) as Hq by (rewrite Eq4; destruct (_ =? _); lia).
  change (i64 (i64 (Z.shiftl 1 16) - 1)) with 65535.
  assert (i64 (t - 1629941248) = t - 1629941248) as Ei
    by (apply wrap_s_small; [|unfold fits_s]; lia).
  rewrite Ei. rewrite (wrap_u_small 64 (t - 1629941248)) by (unfold fits_u; lia).
  rewrite Z.shiftl_mul_pow2 by lia.
  rewrite (wrap_u_small 64 ((t - 1629941248) * 2 ^ 16)) by (unfold fits_u; lia).
  rewrite (wrap_u_small 64 (f * 2 ^ 56 + _ + _)) by (unfold fits_u; lia).
  destruct (sequence q >? 65535) eqn:Hc; go_bool;
    do 2 eexists; (split; [reflexivity|]).
  - split; [split; [done..|lia]|right; left; repeat split; lia].
  - rewrite (wrap_u_small 64 (sequence q)) by (unfold fits_u; lia).
    rewrite wrap_u_small by (unfold fits_u; lia).
    rewrite (wrap_s_small 64 (sequence q + 1)) by (unfold fits_s; lia).
    split; [split; simpl; [done..|lia]|].
    right; right. unfold pack. repeat split; simpl; lia.
Qed.

(** A lower bound of every id still to come. *)
Definition uid_low (f i : Z) (p : uidGeneratorParam) : Z :=
  pack f i (lastStamp p - _baseTimeStamp) (sequence p).

Lemma generateAll_increasing f i clock p :
  0 <= f < 256 -> 0 <= i < 2048 -> uid_inv f i p ->
  Sorted Z.le (lastStamp p :: clock) ->
  Forall (fun t => t < _baseTimeStamp + 2 ^ 29) clock ->
  let ids := issued (generateAll clock (Some (UidGenerator p))) in
  Forall (fun u => uid_low f i p <= u) ids /\ StronglySorted Z.lt ids.
Proof.
  intros Hf Hi. revert p. induction clock as [|t clock IH]; intros p Hinv Hsort Hbnd.
  { split; constructor. }
  apply Sorted_inv in Hsort as [Hsort Hhd]. apply HdRel_inv in Hhd.
  apply Forall_cons in Hbnd as [Hb Hbnd].
  destruct (doGenerate_spec f i p t Hf Hi Hinv Hb) as (r & p' & Hg & Hinv' & Hc).
  cbn [generateAll GenerateUID genParam]. rewrite Hg. cbv zeta. unfold issued.
  rewrite filter_cons. change (filter (fun x => x <> 0) ?l) with (issued l).
  assert (Sorted Z.le (lastStamp p' :: clock)) as Hs'.
  { destruct Hc as [(? & -> & ->)|[(? & -> & _)|(? & -> & _)]]; [|done..].
    apply Sorted_inv in Hsort as [H1 H2]. constructor; [done|].
    inversion H2; subst; constructor. lia. }
  destruct (IH p' Hinv' Hs' Hbnd) as [IH1 IH2]. clear IH.
  destruct Hinv as [_ _ Hsq].
  assert (uid_low f i p <= uid_low f i p' /\
          (r <> 0 -> uid_low f i p <= r /\ r < uid_low f i p')) as [Hle Hr].
  { unfold uid_low, pack, _baseTimeStamp in *.
    destruct Hc as [(? & -> & ->)|[(? & -> & Hs & -> & ->)|(? & -> & Hs & -> & ->)]];
      [lia| |]; destruct (Z.eqb_spec (lastStamp p) t) as [<-|?]; lia. }
  assert (Forall (fun u => uid_low f i p <= u) (issued (generateAll clock (Some (UidGenerator p')))))
    by (eapply Forall_impl; [exact IH1|simpl; lia]).
  case_decide as Hz; [|done]. destruct (Hr Hz) as [Hr1 Hr2]. split.
  - by constructor.
  - constructor; [done|]. eapply Forall_impl; [exact IH1|simpl; lia].
Qed.

Lemma generateAll_fields f i clock p :
  0 <= f < 256 -> 0 <= i < 2048 -> uid_inv f i p ->
  Forall (fun t => t < _baseTimeStamp + 2 ^ 29) clock ->
  Forall2 (fun t u => u <> 0 ->
             exists s, 0 <= s < 65536 /\ _baseTimeStamp <= t /\
                       u = pack f i (t - _baseTimeStamp) s)
    clock (generateAll clock (Some (UidGenerator p))).
Proof.
  intros Hf Hi. revert p. induction clock as [|t clock IH]; intros p Hinv Hbnd; [constructor|].
  apply Forall_cons in Hbnd as [Hb Hbnd].
  destruct (doGenerate_spec f i p t Hf Hi Hinv Hb) as (r & p' & Hg & Hinv' & Hc).
  cbn [generateAll GenerateUID genParam]. rewrite Hg. constructor; [|by apply IH].
  destruct Hinv as [_ _ Hsq]. intros Hr.
  destruct Hc as [(_ & ? & _)|[(_ & _ & _ & ? & _)|(? & _ & ? & -> & _)]]; [done..|].
  eexists. split; [|split; [done|reflexivity]]. destruct (_ =? _); lia.
Qed.

(** From [k] ids already drawn in second [t], [n] more calls in that second
    hand out what is left of the 65536 and refuse the rest. *)
Lemma generateAll_same_second f i p t n :
  0 <= f < 256 -> 0 <= i < 2048 -> uid_inv f i p -> lastStamp p = t ->
  _baseTimeStamp <= t < _baseTimeStamp + 2 ^ 29 -> 0 < f + i + (t - _baseTimeStamp) ->
  Z.of_nat (length (issued (generateAll (replicate n t) (Some (UidGenerator p)))))
  = Z.min (Z.of_nat n) (65536 - sequence p).
Proof.
  intros Hf Hi. revert p. induction n as [|n IH]; intros p Hinv Hl Ht Hpos.
  { destruct Hinv. simpl. lia. }
  destruct (doGenerate_spec f i p t Hf Hi Hinv) as (r & p' & Hg & Hinv' & Hc); [lia|].
  cbn [replicate generateAll GenerateUID genParam]. rewrite Hg. unfold issued.
  rewrite filter_cons. change (filter (fun x => x <> 0) ?l) with (issued l).
  rewrite Hl, Z.eqb_refl in Hc.
  destruct Hc as [(? & _)|[(_ & Hl' & Hs & -> & Hs')|(_ & Hl' & Hs & -> & Hs')]]; [lia| |].
  - rewrite decide_False by lia. rewrite IH by (done || lia). lia.
  - destruct Hinv as [_ _ Hsq]. rewrite decide_True by (unfold pack; lia).
    cbn [length]. rewrite Nat2Z.inj_succ, IH by (done || lia). lia.
Qed.

(** ** Properties *)

Lemma issued_increasing (f i : Z) (clock : list Z)
  (Hf : 0 <= f < 256) (Hi : 0 <= i < 2048)
  (Hclock : Sorted Z.le clock)
  (Hrange : Forall (fun t => 0 <= t < _baseTimeStamp + 2 ^ 29) clock) :
  StronglySorted Z.lt (issued (generateAll clock (InitUIDGenerator f i))).
Proof.
  destruct (init_inv f i Hf Hi) as (p & -> & Hinv & Hl).
  apply (generateAll_increasing f i); [done..| |].
  - rewrite Hl. constructor; [done|].
    destruct Hrange; constructor; lia.
  - eapply Forall_impl; [exact Hrange|simpl; lia].
Qed.

(** C17. Uniqueness and order. A generator set up with a function id below 256
    and an instance id below 2048, read by a clock that never steps back (and
    stays inside the 29 bits of seconds), hands out strictly increasing ids:
    no two calls of a process return the same non-zero id. *)
Theorem uid_strictly_increasing (f i : Z) (clock : list Z)
  (Hf : 0 <= f < 256) (Hi : 0 <= i < 2048)
  (Hclock : Sorted Z.le clock)
  (Hrange : Forall (fun t => 0 <= t < _baseTimeStamp + 2 ^ 29) clock) :
  StronglySorted Z.lt (issued (generateAll clock (InitUIDGenerator f i))).
Proof. by apply issued_increasing. Qed.

Lemma uid_strictly_increasing_witness :
  StronglySorted Z.lt
    (issued (generateAll [1629941250; 1629941250; 1629941251] (InitUIDGenerator 7 12))) /\
  length (issued (generateAll [1629941250; 1629941250; 1629941251] (InitUIDGenerator 7 12))) = 3%nat.
Proof.
  split.
  - apply uid_strictly_increasing; [lia|lia| |].
    + repeat constructor; lia.
    + repeat constructor; unfold _baseTimeStamp; lia.
  - vm_compute. reflexivity.
Defined.

(** C29. Layout. Every non-zero id a generator returns carries the function id,
    the instance id and the second of the call in the fields the layout
    comment names, so ids of processes with different (function, instance)
    pairs never coincide. *)
Theorem uid_fields (f i : Z) (clock : list Z)
  (Hf : 0 <= f < 256) (Hi : 0 <= i < 2048)
  (Hrange : Forall (fun t => t < _baseTimeStamp + 2 ^ 29) clock) :
  Forall2 (fun t u => u <> 0 ->
      uid_func u = f /\ uid_ins u = i /\ uid_time u = t - _baseTimeStamp)
    clock (generateAll clock (InitUIDGenerator f i)) /\
  (forall f' i' clock', 0 <= f' < 256 -> 0 <= i' < 2048 ->
      Forall (fun t => t < _baseTimeStamp + 2 ^ 29) clock' -> (f, i) <> (f', i') ->
      forall u, u ∈ issued (generateAll clock (InitUIDGenerator f i)) ->
                u ∈ issued (generateAll clock' (InitUIDGenerator f' i')) -> False).
Proof.
  assert (forall g j c, 0 <= g < 256 -> 0 <= j < 2048 ->
    Forall (fun t => t < _baseTimeStamp + 2 ^ 29) c ->
    Forall2 (fun t u => u <> 0 ->
      uid_func u = g /\ uid_ins u = j /\ uid_time u = t - _baseTimeStamp)
    c (generateAll c (InitUIDGenerator g j))) as Hall.
  { intros g j c Hg Hj Hc. destruct (init_inv g j Hg Hj) as (p & -> & Hinv & _).
    pose proof (generateAll_fields g j c p Hg Hj Hinv Hc) as HF.
    assert (Forall2 (fun t (_ : Z) => t < _baseTimeStamp + 2 ^ 29) c
              (generateAll c (Some (UidGenerator p)))) as Hb.
    { clear HF Hinv. revert p. induction Hc; intros p; [constructor|].
      cbn [generateAll GenerateUID genParam]. destruct (doGenerate x p). by constructor. }
    induction HF as [|t u c' us H1 _ IH]; [constructor|].
    apply Forall2_cons in Hb as [Hb Hbs]. apply Forall_cons in Hc as [_ Hc].
    constructor; [|by apply IH]. intros Hu. destruct (H1 Hu) as (s & Hs & Ht & ->).
    destruct (pack_fields g j (t - _baseTimeStamp) s) as (?&?&?&?); (done || lia). }
  split; [by apply Hall|].
  intros f' i' clock' Hf' Hi' Hr' Hne u Hu Hu'.
  assert (forall g j c, 0 <= g < 256 -> 0 <= j < 2048 ->
    Forall (fun t => t < _baseTimeStamp + 2 ^ 29) c ->
    u ∈ issued (generateAll c (InitUIDGenerator g j)) -> uid_func u = g /\ uid_ins u = j) as Hin.
  { intros g j c Hg Hj Hc Hm. apply list_elem_of_filter in Hm as [Hnz Hm].
    apply list_elem_of_lookup in Hm as [k Hk].
    destruct (Forall2_lookup_r _ _ _ _ _ (Hall g j c Hg Hj Hc) Hk) as (t & _ & Hx).
    destruct (Hx Hnz) as (?&?&_). done. }
  destruct (Hin f i clock), (Hin f' i' clock'); (done || congruence).
Qed.

Lemma uid_fields_witness :
  generateAll [1629941250; 1629941251] (InitUIDGenerator 7 12) =
    [504825370730692608; 504825370730758144] /\
  uid_ins 504825370730692608 = 12.
Proof.
  assert (E : generateAll [1629941250; 1629941251] (InitUIDGenerator 7 12) =
    [504825370730692608; 504825370730758144]) by (vm_compute; reflexivity).
  split; [exact E|].
  destruct (uid_fields 7 12 [1629941250; 1629941251] ltac:(lia) ltac:(lia)
    ltac:(repeat constructor; unfold _baseTimeStamp; lia)) as [H _].
  rewrite E in H. apply Forall2_cons in H as [H _].
  destruct H as (_ & H & _); [discriminate|exact H].
Defined.

(** Capacity of a second. [n] calls of a fresh generator within one second
    return [min n 65536] ids (the sequence numbers 0..65535) and refuse every
    further call of that second with 0. *)
Theorem uid_second_capacity (f i t : Z) (n : nat)
  (Hf : 0 <= f < 256) (Hi : 0 <= i < 2048)
  (Ht : _baseTimeStamp < t < _baseTimeStamp + 2 ^ 29) :
  Z.of_nat (length (issued (generateAll (replicate n t) (InitUIDGenerator f i))))
  = Z.min (Z.of_nat n) 65536.
Proof.
  destruct (init_inv f i Hf Hi) as (p & -> & Hinv & Hl).
  destruct n as [|n]; [simpl; lia|].
  destruct (doGenerate_spec f i p t Hf Hi Hinv) as (r & p' & Hg & Hinv' & Hc); [lia|].
  cbn [replicate generateAll GenerateUID genParam]. rewrite Hg. unfold issued.
  rewrite filter_cons. change (filter (fun x => x <> 0) ?l) with (issued l).
  replace (lastStamp p =? t) with false in Hc
    by (symmetry; apply Z.eqb_neq; rewrite Hl; unfold _baseTimeStamp in *; lia).
  destruct Hc as [(? & _)|[(_ & _ & ? & _)|(_ & Hl' & _ & -> & Hs')]]; [lia..|].
  rewrite decide_True by (unfold pack; lia). cbn [length].
  rewrite Nat2Z.inj_succ, (generateAll_same_second f i) by (done || lia). lia.
Qed.

Lemma uid_second_capacity_witness :
  Z.of_nat (length (issued (generateAll (replicate (Z.to_nat 70000) 1629941250) (InitUIDGenerator 7 12))))
  = 65536.
Proof.
  rewrite uid_second_capacity; [lia|lia|lia|unfold _baseTimeStamp; lia].
Defined.

(** A clock that steps back repeats ids. When the wall clock reads [t],
    then [t + 1], then [t] again, the third call returns the id of the first:
    the sequence number is reset on every change of the clock, not only on an
    advance. *)
Theorem uid_clock_step_back_duplicates (f i t : Z)
  (Hf : 0 <= f < 256) (Hi : 0 <= i < 2048)
  (Ht : _baseTimeStamp < t < _baseTimeStamp + 2 ^ 29 - 1) :
  exists u v, u <> 0 /\
    generateAll [t; t + 1; t] (InitUIDGenerator f i) = [u; v; u].
Proof.
  destruct (init_inv f i Hf Hi) as (p & -> & Hinv & Hl).
  destruct (doGenerate_spec f i p t Hf Hi Hinv) as (r & p1 & Hg & Hinv1 & Hc); [lia|].
  destruct (doGenerate_spec f i p1 (t + 1) Hf Hi Hinv1) as (r1 & p2 & Hg1 & Hinv2 & Hc1); [lia|].
  destruct (doGenerate_spec f i p2 t Hf Hi Hinv2) as (r2 & p3 & Hg2 & _ & Hc2); [lia|].
  repeat (cbn [generateAll GenerateUID genParam]; rewrite ?Hg, ?Hg1, ?Hg2).
  replace (lastStamp p =? t) with false in Hc
    by (symmetry; apply Z.eqb_neq; rewrite Hl; unfold _baseTimeStamp in *; lia).
  destruct Hc as [(? & _)|[(_ & _ & ? & _)|(_ & Hl1 & _ & -> & _)]]; [lia..|].
  assert (lastStamp p2 = t + 1) as Hl2 by (destruct Hc1 as [(? & _)|[(_ & ? & _)|(_ & ? & _)]]; lia).
  replace (lastStamp p2 =? t) with false in Hc2 by (symmetry; apply Z.eqb_neq; lia).
  destruct Hc2 as [(? & _)|[(_ & _ & ? & _)|(_ & _ & _ & -> & _)]]; [lia..|].
  exists (pack f i (t - _baseTimeStamp) 0), r1. split; [unfold pack; lia|reflexivity].
Qed.

Lemma uid_clock_step_back_duplicates_witness :
  exists u v, u <> 0 /\
    generateAll [1629941250; 1629941250 + 1; 1629941250] (InitUIDGenerator 7 12) = [u; v; u].
Proof.
  apply uid_clock_step_back_duplicates; [lia|lia|unfold _baseTimeStamp; lia].
Defined.
