(* ===== verification/Cache.v ===== *)
(** * common/cache: an LRU cache with expiry

    The Go cache keeps a map from keys to entries and two doubly linked lists
    of keys (container/list), one ordered by last access and one by load time;
    every entry holds its nodes in the two lists.  The model keeps exactly that
    structure: list elements have an identity, entries point to elements, and
    the loops of [removeExpired] and [cull] are run with fuel that suffices
    whenever the Go loop ends ([Hang] is the loop that does not).  Readings of
    [time.Now()] are arguments (nanoseconds); every exported method holds the
    lock for its whole body, so it is one step.

    The second half states the abstract cache, a list of items by recency, and
    proves that the linked structure refines it. *)

From S2P Require Import Prelude.

(** ** container/list *)

(** An element of a [list.List]: its identity stands for the pointer, its
    value never changes. *)
Record Element (A : Type) := MkElement { elem_id : nat; Value : A }.
Arguments MkElement {A} _ _.
Arguments elem_id {A} _.
Arguments Value {A} _.

(** The elements from front to back, and the next identity to allocate. *)
Record golist (A : Type) := MkGolist { elems : list (Element A); next_id : nat }.
Arguments MkGolist {A} _ _.
Arguments elems {A} _.
Arguments next_id {A} _.

Definition list_New {A} : golist A := MkGolist [] 0.

Definition PushFront {A} (l : golist A) (v : A) : Element A * golist A :=
  let e := MkElement (next_id l) v in
  (e, MkGolist (e :: elems l) (S (next_id l))).

Definition list_Remove {A} (l : golist A) (e : Element A) : A * golist A :=
  (Value e,
   MkGolist (filter (fun e' => elem_id e' <> elem_id e) (elems l)) (next_id l)).

Definition Back {A} (l : golist A) : option (Element A) := last (elems l).

(** ** The cache *)

Definition DefaultCapacity : Z := 1024.
(** [time.Minute], in nanoseconds. *)
Definition DefaultAge : Z := 60 * 10 ^ 9.

Section Cache.
Context {K V : Type} `{Countable K}.

(** An [interface{}] value: [None] is nil. *)
Abbreviation iface := (option V).

Record entry := MkEntry {
  value : iface;
  lruNode : Element K;
  ageNode : Element K;
  loadTime : Z;
  size_ : Z
}.

Record Cache := MkCache {
  m : gmap K entry;
  lruList : golist K;
  ageList : golist K;
  hits : Z;
  misses : Z;
  capacity : Z;
  ttl : Z;
  csize : Z
}.

Definition New : Cache :=
  {| m := ∅; lruList := list_New; ageList := list_New; hits := 0; misses := 0;
     capacity := DefaultCapacity; ttl := DefaultAge; csize := 0 |}.

Definition GetCapacity (c : Cache) : Z := capacity c.

Definition SetCapacity (c : Cache) (cap : Z) : Cache :=
  if cap >? 1
  then {| m := m c; lruList := lruList c; ageList := ageList c; hits := hits c;
          misses := misses c; capacity := cap; ttl := ttl c; csize := csize c |}
  else c.

Definition SetTTL (c : Cache) (d : Z) : Cache :=
  {| m := m c; lruList := lruList c; ageList := ageList c; hits := hits c;
     misses := misses c; capacity := capacity c; ttl := d; csize := csize c |}.

Definition Hits (c : Cache) : Z := hits c.
Definition Misses (c : Cache) : Z := misses c.
Definition Size (c : Cache) : Z := csize c.
Definition Len (c : Cache) : Z := Z.of_nat (size (m c)).

Definition unsafeRemove (c : Cache) (k : K) : iface * Cache :=
  match m c !! k with
  | Some v =>
      (value v,
       {| m := delete k (m c);
          lruList := snd (list_Remove (lruList c) (lruNode v));
          ageList := snd (list_Remove (ageList c) (ageNode v));
          hits := hits c; misses := misses c; capacity := capacity c; ttl := ttl c;
          csize := i64 (csize c - size_ v) |})
  | None => (None, c)
  end.

Definition Remove (c : Cache) (k : K) : iface * Cache := unsafeRemove c k.

Fixpoint removeExpired_loop (fuel : nat) (timeLine : Z) (c : Cache) : outcome Cache :=
  match fuel with
  | O => Hang
  | S fuel =>
      match Back (ageList c) with
      | None => Done c
      | Some elm =>
          match m c !! Value elm with
          | Some v =>
              if loadTime v >? timeLine then Done c
              else removeExpired_loop fuel timeLine (snd (unsafeRemove c (Value elm)))
          | None => removeExpired_loop fuel timeLine c
          end
      end
  end.

(** Every iteration that changes the cache deletes a key, so a run of more
    than [size (m c)] iterations repeats a state for ever. *)
Definition removeExpired (now : Z) (c : Cache) : outcome Cache :=
  removeExpired_loop (S (size (m c))) (now + i64 (- ttl c)) c.

Fixpoint cull_loop (fuel : nat) (waterLine : Z) (c : Cache) : outcome Cache :=
  match fuel with
  | O => Hang
  | S fuel =>
      if Z.of_nat (size (m c)) >? waterLine
      then match Back (lruList c) with
           | Some elm => cull_loop fuel waterLine (snd (unsafeRemove c (Value elm)))
           | None => cull_loop fuel waterLine c
           end
      else Done c
  end.

Definition cull (now : Z) (c : Cache) : outcome Cache :=
  let waterLine := Z.quot (i64 (capacity c * 97)) 100 in
  if Z.of_nat (size (m c)) <? waterLine then Done c else
  c ← removeExpired now c;
  let waterLine := Z.quot (i64 (capacity c * 90)) 100 in
  cull_loop (S (size (m c))) waterLine c.

(** [v.lruNode = c.lruList.PushFront(c.lruList.Remove(v.lruNode))] on the
    entry [v] of key [k], together with the new value of the entry. *)
Definition touch (c : Cache) (k : K) (v : entry) (nv : iface) : Cache :=
  let '(x, l1) := list_Remove (lruList c) (lruNode v) in
  let '(e, l2) := PushFront l1 x in
  {| m := <[k := {| value := nv; lruNode := e; ageNode := ageNode v;
                    loadTime := loadTime v; size_ := size_ v |}]> (m c);
     lruList := l2; ageList := ageList c;
     hits := i64 (hits c + 1); misses := misses c; capacity := capacity c; ttl := ttl c;
     csize := csize c |}.

Definition miss (c : Cache) : Cache :=
  {| m := m c; lruList := lruList c; ageList := ageList c; hits := hits c;
     misses := i64 (misses c + 1); capacity := capacity c; ttl := ttl c; csize := csize c |}.

Definition Get (now : Z) (c : Cache) (k : K) : outcome (iface * Cache) :=
  c ← removeExpired now c;
  match m c !! k with
  | Some v => Done (value v, touch c k v (value v))
  | None => Done (None, miss c)
  end.

Definition Update (now : Z) (c : Cache) (k : K) (v : iface) : outcome (iface * Cache) :=
  c ← removeExpired now c;
  match m c !! k with
  | Some e => Done (v, touch c k e v)
  | None => Done (None, miss c)
  end.

(** [now] is the reading of [removeExpired] inside [cull], [load] the one that
    becomes the entry's load time. *)
Definition AddWithSize (now load : Z) (c : Cache) (k : K) (v : iface) (s : Z)
  : outcome (bool * Cache) :=
  match m c !! k with
  | Some _ => Done (false, c)
  | None =>
      c ← cull now c;
      let '(le, lru) := PushFront (lruList c) k in
      let '(ae, age) := PushFront (ageList c) k in
      Done (true,
        {| m := <[k := {| value := v; lruNode := le; ageNode := ae;
                          loadTime := load; size_ := s |}]> (m c);
           lruList := lru; ageList := age; hits := hits c; misses := misses c;
           capacity := capacity c; ttl := ttl c;
           csize := i64 (csize c + i64 s) |})
  end.

Definition Add (now load : Z) (c : Cache) (k : K) (v : iface) : outcome (bool * Cache) :=
  AddWithSize now load c k v 0.

(** ** The abstract cache: items, most recently used first *)

Record item := MkItem { it_key : K; it_val : iface; it_time : Z; it_size : Z }.

Definition find_item (k : K) (l : list item) : option item :=
  snd <$> list_find (fun it => it_key it = k) l.

Definition drop_item (k : K) (l : list item) : list item :=
  filter (fun it => it_key it <> k) l.

Definition fresh_items (now ttl : Z) (l : list item) : list item :=
  filter (fun it => now + i64 (- ttl) < it_time it) l.

Record acache := MkACache {
  items : list item; a_hits : Z; a_misses : Z; a_cap : Z; a_ttl : Z
}.

Definition spec_use (nv : option iface) (now : Z) (k : K) (a : acache) : iface * acache :=
  let l := fresh_items now (a_ttl a) (items a) in
  match find_item k l with
  | Some it =>
      let v := default (it_val it) nv in
      (v, MkACache (MkItem k v (it_time it) (it_size it) :: drop_item k l)
            (i64 (a_hits a + 1)) (a_misses a) (a_cap a) (a_ttl a))
  | None => (None, MkACache l (a_hits a) (i64 (a_misses a + 1)) (a_cap a) (a_ttl a))
  end.

(** Room for one more item: at 97% of the capacity the expired items go, and
    then the least recently used ones until 90% are left. *)
Definition spec_room (now : Z) (a : acache) : list item :=
  if Z.of_nat (length (items a)) <? Z.quot (a_cap a * 97) 100 then items a
  else take (Z.to_nat (Z.quot (a_cap a * 90) 100)) (fresh_items now (a_ttl a) (items a)).

Definition spec_add (now load : Z) (k : K) (v : iface) (s : Z) (a : acache) : bool * acache :=
  match find_item k (items a) with
  | Some _ => (false, a)
  | None => (true, MkACache (MkItem k v load s :: spec_room now a)
                     (a_hits a) (a_misses a) (a_cap a) (a_ttl a))
  end.

Definition spec_remove (k : K) (a : acache) : iface * acache :=
  (match find_item k (items a) with Some it => it_val it | None => None end,
   MkACache (drop_item k (items a)) (a_hits a) (a_misses a) (a_cap a) (a_ttl a)).

(** The abstraction of a cache: the entries in the order of the LRU list. *)
Definition item_of (c : Cache) (e : Element K) : option item :=
  (fun v => MkItem (Value e) (value v) (loadTime v) (size_ v)) <$> m c !! Value e.

Definition abs (c : Cache) : acache :=
  MkACache (omap (item_of c) (elems (lruList c))) (hits c) (misses c) (capacity c) (ttl c).
#[local] Arguments abs : simpl never.

(** ** Runs *)

Inductive op :=
| OGet (k : K)
| OUpdate (k : K) (v : iface)
| OAdd (k : K) (v : iface) (s : Z)
| ORemove (k : K)
| OSetCapacity (cap : Z)
| OSetTTL (d : Z).

Inductive res := RVal (v : iface) | RBool (b : bool) | RUnit.

(** One call, with the clock readings it makes. *)
Definition exec (now load : Z) (o : op) (c : Cache) : outcome (res * Cache) :=
  match o with
  | OGet k => r ← Get now c k; Done (RVal (fst r), snd r)
  | OUpdate k v => r ← Update now c k v; Done (RVal (fst r), snd r)
  | OAdd k v s => r ← AddWithSize now load c k v s; Done (RBool (fst r), snd r)
  | ORemove k => let r := Remove c k in Done (RVal (fst r), snd r)
  | OSetCapacity cap => Done (RUnit, SetCapacity c cap)
  | OSetTTL d => Done (RUnit, SetTTL c d)
  end.

Definition spec_exec (now load : Z) (o : op) (a : acache) : res * acache :=
  match o with
  | OGet k => let r := spec_use None now k a in (RVal (fst r), snd r)
  | OUpdate k v => let r := spec_use (Some v) now k a in (RVal (fst r), snd r)
  | OAdd k v s => let r := spec_add now load k v s a in (RBool (fst r), snd r)
  | ORemove k => let r := spec_remove k a in (RVal (fst r), snd r)
  | OSetCapacity cap =>
      (RUnit, if cap >? 1
              then MkACache (items a) (a_hits a) (a_misses a) cap (a_ttl a) else a)
  | OSetTTL d => (RUnit, MkACache (items a) (a_hits a) (a_misses a) (a_cap a) d)
  end.

Fixpoint run (l : list (Z * Z * op)) (c : Cache) : outcome (list res * Cache) :=
  match l with
  | [] => Done ([], c)
  | (now, load, o) :: l =>
      r ← exec now load o c;
      rs ← run l (snd r);
      Done (fst r :: fst rs, snd rs)
  end.

Fixpoint spec_run (l : list (Z * Z * op)) (a : acache) : list res * acache :=
  match l with
  | [] => ([], a)
  | (now, load, o) :: l =>
      let r := spec_exec now load o a in
      let rs := spec_run l (snd r) in
      (fst r :: fst rs, snd rs)
  end.

(** The clock does not step back, and no capacity is set whose watermarks
    overflow [int]. *)
Fixpoint run_ok (t : Z) (l : list (Z * Z * op)) : Prop :=
  match l with
  | [] => True
  | (now, load, o) :: l =>
      t <= now <= load /\
      match o with OSetCapacity cap => cap * 97 < 2 ^ 63 | _ => True end /\
      run_ok load l
  end.

(** ** Well-formedness *)

(** One of the two lists agrees with the map: its elements are exactly the
    nodes the entries hold ([sel] picks the node of an entry). *)
Record list_ok (sel : entry -> Element K) (mm : gmap K entry) (l : golist K) : Prop := {
  lo_ids : NoDup (elem_id <$> elems l);
  lo_next : Forall (fun e => elem_id e < next_id l)%nat (elems l);
  lo_in : forall e, e ∈ elems l <-> exists v, mm !! Value e = Some v /\ sel v = e;
  lo_key : forall k v, mm !! k = Some v -> Value (sel v) = k
}.

Definition total (l : list item) : Z := foldr (fun it acc => it_size it + acc) 0 l.

Definition times (c : Cache) : list Z :=
  omap (fun e => loadTime <$> m c !! Value e) (elems (ageList c)).

(** The invariant of a cache whose last load happened no later than [t]. *)
Record cache_ok (t : Z) (c : Cache) : Prop := {
  ok_lru : list_ok lruNode (m c) (lruList c);
  ok_age : list_ok ageNode (m c) (ageList c);
  ok_sum : csize c = i64 (total (items (abs c)));
  ok_sorted : StronglySorted Z.ge (times c);
  ok_past : Forall (fun x => x <= t) (times c)
}.

(** ** The lists *)

Lemma list_ok_elem sel mm l k v :
  list_ok sel mm l -> mm !! k = Some v -> sel v ∈ elems l.
Proof. intros [_ _ Hin Hk] Hm. apply Hin. exists v. by rewrite (Hk k v Hm). Qed.

Lemma list_ok_ids_inj sel mm l e e' :
  list_ok sel mm l -> e ∈ elems l -> e' ∈ elems l -> elem_id e = elem_id e' -> e = e'.
Proof.
  intros [Hn _ _ _] He He' Heq. apply list_elem_of_lookup in He as [i Hi].
  apply list_elem_of_lookup in He' as [j Hj].
  assert (i = j) as ->; [|congruence].
  eapply NoDup_lookup; [exact Hn| |]; rewrite list_lookup_fmap; [by rewrite Hi|].
  rewrite Hj. simpl. by rewrite Heq.
Qed.

Lemma list_ok_NoDup sel mm l : list_ok sel mm l -> NoDup (elems l).
Proof. intros [Hn _ _ _]. eapply NoDup_fmap_1, Hn. Qed.

Lemma list_ok_Value_inj sel mm l e e' :
  list_ok sel mm l -> e ∈ elems l -> e' ∈ elems l -> Value e = Value e' -> e = e'.
Proof.
  intros [_ _ Hin _] (v & Hv & <-)%Hin (v' & Hv' & <-)%Hin Heq. congruence.
Qed.

Lemma list_ok_keys sel mm l : list_ok sel mm l -> NoDup (Value <$> elems l).
Proof.
  intros Hok. apply NoDup_fmap_2_strong; [|by eapply list_ok_NoDup].
  intros e e' He He'. by eapply list_ok_Value_inj.
Qed.

(** Removing the node of key [k] is dropping the elements with value [k]. *)
Lemma list_Remove_key sel mm l k v :
  list_ok sel mm l -> mm !! k = Some v ->
  elems (snd (list_Remove l (sel v))) = filter (fun e => Value e <> k) (elems l).
Proof.
  intros Hok Hm. simpl. apply list_filter_ext_in. intros e He.
  pose proof (list_ok_elem _ _ _ _ _ Hok Hm) as Hs.
  pose proof (lo_key _ _ _ Hok k v Hm) as Hk. rewrite <- Hk.
  split; intros Hne Heq; apply Hne.
  - f_equal. by eapply list_ok_Value_inj.
  - f_equal. by eapply list_ok_ids_inj.
Qed.

Lemma list_ok_remove sel mm l k v :
  list_ok sel mm l -> mm !! k = Some v ->
  list_ok sel (delete k mm) (snd (list_Remove l (sel v))).
Proof.
  intros Hok Hm. pose proof (list_Remove_key _ _ _ _ _ Hok Hm) as Hel.
  destruct Hok as [Hn Hx Hin Hk]. split.
  - simpl. clear Hel Hin Hx. induction (elems l) as [|e es IH]; [done|].
    apply NoDup_cons in Hn as [Hnin Hn]. rewrite filter_cons. case_decide; [|by apply IH].
    rewrite fmap_cons. apply NoDup_cons. split; [|by apply IH].
    intros (e' & Heq & He')%list_elem_of_fmap. apply Hnin.
    apply list_elem_of_fmap. exists e'. split; [done|]. by apply list_elem_of_filter in He' as [_ ?].
  - simpl. by apply Forall_list_filter.
  - intros e. rewrite Hel, list_elem_of_filter, Hin. split.
    + intros [Hne (w & Hw & Hs)]. exists w. by rewrite lookup_delete_ne.
    + intros (w & [Hne Hw]%lookup_delete_Some & Hs). split; [congruence|by exists w].
  - intros k' v' [_ Hv']%lookup_delete_Some. by apply Hk.
Qed.

Lemma list_ok_push sel mm l k v :
  list_ok sel mm l -> mm !! k = None -> sel v = fst (PushFront l k) ->
  list_ok sel (<[k := v]> mm) (snd (PushFront l k)).
Proof.
  intros [Hn Hx Hin Hk] Hm Hs. simpl in *. split; simpl.
  - apply NoDup_cons. split; [|done]. intros (e & Heq & He)%list_elem_of_fmap.
    rewrite Forall_forall in Hx. apply Hx in He. lia.
  - constructor; simpl; [lia|]. eapply Forall_impl; [exact Hx|simpl; lia].
  - intros e. rewrite elem_of_cons, Hin. split.
    + intros [->|(w & Hw & Hsw)].
      * exists v. simpl. by rewrite lookup_insert_eq.
      * exists w. split; [|done]. rewrite lookup_insert_ne; congruence.
    + intros (w & [[Heq <-]|[Hne Hw]]%lookup_insert_Some & Hsw); [left; congruence|right; by exists w].
  - intros k' v' [[<- <-]|[_ Hv']]%lookup_insert_Some; [by rewrite Hs|by apply Hk].
Qed.

(** Replacing an entry by one with the same node. *)
Lemma list_ok_same sel mm l k v v' :
  list_ok sel mm l -> mm !! k = Some v -> sel v' = sel v ->
  list_ok sel (<[k := v']> mm) l.
Proof.
  intros Hok Hm Hs. pose proof (lo_key _ _ _ Hok k v Hm) as Hkv.
  destruct Hok as [Hn Hx Hin Hk]. split; [done..| |].
  - intros e. rewrite Hin. split.
    + intros (w & Hw & <-). destruct (decide (k = Value (sel w))) as [Heq|Hne].
      * exists v'. rewrite <- Heq, lookup_insert_eq. split; [done|]. congruence.
      * exists w. by rewrite lookup_insert_ne.
    + intros (w & [[Heq <-]|[Hne Hw]]%lookup_insert_Some & <-).
      * exists v. split; congruence.
      * by exists w.
  - intros k' w [[<- <-]|[_ Hw]]%lookup_insert_Some; [congruence|by apply Hk].
Qed.

Lemma list_ok_size sel mm l : list_ok sel mm l -> length (elems l) = size mm.
Proof.
  intros Hok. rewrite <- (length_fmap Value), <- size_dom.
  rewrite <- (size_list_to_set (C := gset K) (Value <$> elems l)) by (by eapply list_ok_keys).
  f_equal. apply set_eq. intros k. rewrite elem_of_list_to_set, elem_of_dom, list_elem_of_fmap.
  split.
  - intros (e & -> & He). apply (lo_in _ _ _ Hok) in He as (v & Hv & _). eauto.
  - intros [v Hv]. exists (sel v). split; [by rewrite (lo_key _ _ _ Hok k v Hv)|].
    by eapply list_ok_elem.
Qed.

(** ** Items of the abstraction *)

Definition item_at (c : Cache) (k : K) : option item :=
  (fun v => MkItem k (value v) (loadTime v) (size_ v)) <$> m c !! k.

Lemma items_keys c :
  list_ok lruNode (m c) (lruList c) ->
  it_key <$> items (abs c) = Value <$> elems (lruList c).
Proof.
  intros Hok. unfold abs. simpl.
  assert (forall e, e ∈ elems (lruList c) -> is_Some (m c !! Value e)) as Hall.
  { intros e (v & Hv & _)%(lo_in _ _ _ Hok). eauto. }
  induction (elems (lruList c)) as [|e es IH]; [done|]. rewrite omap_cons_eq.
  destruct (Hall e) as [v Hv]; [left|]. unfold item_of at 1. rewrite Hv. simpl.
  f_equal. apply IH. intros; apply Hall; by right.
Qed.

Lemma items_keys_NoDup c :
  list_ok lruNode (m c) (lruList c) -> NoDup (it_key <$> items (abs c)).
Proof. intros Hok. rewrite items_keys by done. by eapply list_ok_keys. Qed.

Lemma items_length c :
  list_ok lruNode (m c) (lruList c) -> length (items (abs c)) = size (m c).
Proof.
  intros Hok. rewrite <- (length_fmap it_key), items_keys, length_fmap by done.
  by eapply list_ok_size.
Qed.

Lemma items_in c it :
  list_ok lruNode (m c) (lruList c) ->
  it ∈ items (abs c) <-> item_at c (it_key it) = Some it.
Proof.
  intros Hok. unfold abs, item_at. simpl. rewrite list_elem_of_omap. split.
  - intros (e & He & Hit). unfold item_of in Hit.
    destruct (m c !! Value e) as [v|] eqn:Hv; simplify_eq/=. by rewrite Hv.
  - destruct (m c !! it_key it) as [v|] eqn:Hv; intros Hit; simplify_eq/=.
    exists (lruNode v). split; [by eapply list_ok_elem|]. unfold item_of.
    pose proof (lo_key _ _ _ Hok _ _ Hv) as Hk. rewrite Hk, Hv. simpl. by f_equal.
Qed.

Lemma find_item_Some k (l : list item) it :
  NoDup (it_key <$> l) -> find_item k l = Some it <-> it ∈ l /\ it_key it = k.
Proof.
  intros Hnd. unfold find_item. rewrite fmap_Some. split.
  - intros ([i x] & (Hl & Hk & _)%list_find_Some & ->). simpl. split; [|done].
    apply list_elem_of_lookup. eauto.
  - intros [(i & Hi)%list_elem_of_lookup Hk]. exists (i, it). split; [|done].
    apply list_find_Some. split_and!; [done..|]. intros j y Hj Hlt Hy.
    assert (j = i); [|lia]. eapply NoDup_lookup; [exact Hnd| |];
      rewrite list_lookup_fmap; [by rewrite Hj|by rewrite Hi, Hy, <- Hk].
Qed.

Lemma find_abs c k :
  list_ok lruNode (m c) (lruList c) -> find_item k (items (abs c)) = item_at c k.
Proof.
  intros Hok. apply option_eq. intros it.
  rewrite find_item_Some by (by apply items_keys_NoDup). rewrite items_in by done.
  split; [by intros [? <-]|]. intros Hit. assert (it_key it = k) as <-; [|done].
  unfold item_at in Hit. destruct (m c !! k); by simplify_eq/=.
Qed.

Lemma abs_remove c k :
  list_ok lruNode (m c) (lruList c) ->
  items (abs (snd (unsafeRemove c k))) = drop_item k (items (abs c)).
Proof.
  intros Hok. unfold unsafeRemove. destruct (m c !! k) as [v|] eqn:Hv; cbn [snd].
  - unfold abs at 1. cbn [items lruList]. rewrite (list_Remove_key _ _ _ _ _ Hok Hv).
    unfold abs, drop_item. cbn [items]. rewrite <- (omap_filter_comm (item_of c) (fun e => Value e <> k) (fun it => it_key it <> k)).
    + apply omap_ext_in. intros e [Hne _]%list_elem_of_filter. unfold item_of. simpl.
      by rewrite lookup_delete_ne.
    + intros e it _ Hit. unfold item_of in Hit. destruct (m c !! Value e); by simplify_eq/=.
  - unfold drop_item. symmetry. apply list_filter_id_in. intros it Hit Heq.
    apply items_in in Hit; [|done]. unfold item_at in Hit. by rewrite Heq, Hv in Hit.
Qed.

Lemma total_drop k (l : list item) it :
  NoDup (it_key <$> l) -> find_item k l = Some it ->
  total (drop_item k l) = total l - it_size it.
Proof.
  intros Hnd Hf. apply find_item_Some in Hf as [Hin Hk]; [|done].
  revert Hnd Hin. induction l as [|x l IH]; intros Hnd Hin; [by apply not_elem_of_nil in Hin|].
  rewrite fmap_cons in Hnd. apply NoDup_cons in Hnd as [Hnin Hnd].
  unfold drop_item. rewrite filter_cons. change (filter _ l) with (drop_item k l).
  apply elem_of_cons in Hin as [<-|Hin].
  - rewrite decide_False by (intros Hne; by apply Hne).
    assert (drop_item k l = l) as ->; [|simpl; lia].
    apply list_filter_id_in. intros y Hy Heq. apply Hnin, list_elem_of_fmap.
    exists y. split; [congruence|done].
  - rewrite decide_True by (intros Heq; apply Hnin, list_elem_of_fmap; exists it; split; [congruence|done]).
    simpl. rewrite IH by done. lia.
Qed.

Lemma unsafeRemove_ok t c k :
  cache_ok t c -> cache_ok t (snd (unsafeRemove c k)).
Proof.
  intros [Hlru Hage Hsum Hso Hpa]. pose proof (abs_remove c k Hlru) as Habs.
  pose proof (find_abs c k Hlru) as Hfind. pose proof (items_keys_NoDup c Hlru) as Hnd.
  revert Habs. unfold unsafeRemove. destruct (m c !! k) as [v|] eqn:Hv; cbn [snd]; intros Habs; [|done].
  assert (times {| m := delete k (m c); lruList := snd (list_Remove (lruList c) (lruNode v));
      ageList := snd (list_Remove (ageList c) (ageNode v)); hits := hits c; misses := misses c;
      capacity := capacity c; ttl := ttl c; csize := i64 (csize c - size_ v) |}
    = omap (fun e => loadTime <$> m c !! Value e)
        (filter (fun e => Value e <> k) (elems (ageList c)))) as Ht.
  { unfold times. cbn [ageList m]. rewrite (list_Remove_key _ _ _ _ _ Hage Hv).
    apply omap_ext_in. intros e [Hne _]%list_elem_of_filter. by rewrite lookup_delete_ne. }
  split.
  - by apply list_ok_remove.
  - by apply list_ok_remove.
  - rewrite Habs. cbn [csize]. rewrite Hsum. unfold item_at in Hfind. rewrite Hv in Hfind.
    rewrite (total_drop k _ _ Hnd Hfind). simpl. apply i64_add_l.
  - rewrite Ht. by apply StronglySorted_omap_filter.
  - rewrite Ht. by apply Forall_omap_filter.
Qed.

(** What no removal touches. *)
Definition meta (c : Cache) : Z * Z * Z * Z := (hits c, misses c, capacity c, ttl c).

Lemma unsafeRemove_meta c k : meta (snd (unsafeRemove c k)) = meta c.
Proof. unfold unsafeRemove. by destruct (m c !! k). Qed.

Lemma unsafeRemove_size c k v :
  m c !! k = Some v -> S (size (m (snd (unsafeRemove c k)))) = size (m c).
Proof.
  intros Hv. unfold unsafeRemove. rewrite Hv. simpl.
  rewrite map_size_delete_Some by eauto.
  assert (size (m c) <> 0)%nat; [|lia]. intros Hz. apply map_size_empty_inv in Hz.
  by rewrite Hz in Hv.
Qed.

Lemma Back_nil (l : golist K) : Back l = None -> elems l = [].
Proof. apply last_None. Qed.

Lemma Back_snoc (l : golist K) e : Back l = Some e -> exists es, elems l = es ++ [e].
Proof. apply last_Some. Qed.

(** The oldest entry is at the back of the age list: when it has not expired,
    nothing has. *)
Lemma oldest_at_back t c e v it :
  cache_ok t c -> Back (ageList c) = Some e -> m c !! Value e = Some v ->
  it ∈ items (abs c) -> loadTime v <= it_time it.
Proof.
  intros [Hlru Hage _ Hso _] (es & Hes)%Back_snoc Hv Hit.
  apply items_in in Hit; [|done]. unfold item_at in Hit.
  destruct (m c !! it_key it) as [w|] eqn:Hw; simplify_eq/=.
  pose proof (list_ok_elem _ _ _ _ _ Hage Hw) as Hin.
  pose proof (lo_key _ _ _ Hage _ _ Hw) as Hk.
  unfold times in Hso. rewrite Hes in Hin. rewrite Hes, omap_app_eq, omap_cons_eq, Hv in Hso.
  cbn [fmap option_fmap option_map] in Hso.
  apply elem_of_app in Hin as [Hin|Hin].
  - assert (loadTime w ∈ omap (fun e => loadTime <$> m c !! Value e) es) as Hlt.
    { apply list_elem_of_omap. exists (ageNode w). split; [done|]. by rewrite Hk, Hw. }
    clear -Hso Hlt Hit. replace (it_time it) with (loadTime w) by (by rewrite <- Hit).
    induction (omap _ es) as [|x l IH]; [by apply not_elem_of_nil in Hlt|].
    simpl in Hso. apply StronglySorted_inv in Hso as [Hso HF].
    apply elem_of_cons in Hlt as [->|Hlt]; [|by apply IH].
    apply Forall_app in HF as [_ HF]. apply Forall_cons in HF as [HF _]. lia.
  - apply list_elem_of_singleton in Hin. subst e. rewrite Hk, Hw in Hv.
    simplify_eq. rewrite <- Hit. simpl. lia.
Qed.

Lemma removeExpired_loop_spec t tl fuel c :
  cache_ok t c -> (size (m c) < fuel)%nat ->
  exists c', removeExpired_loop fuel tl c = Done c' /\ cache_ok t c' /\ meta c' = meta c /\
             items (abs c') = filter (fun it => tl < it_time it) (items (abs c)).
Proof.
  revert c. induction fuel as [|fuel IH]; intros c Hok Hf; [lia|]. cbn [removeExpired_loop].
  destruct (Back (ageList c)) as [e|] eqn:HB.
  - assert (e ∈ elems (ageList c)) as He.
    { destruct (Back_snoc _ _ HB) as [es ->]. apply elem_of_app. right. left. }
    apply (lo_in _ _ _ (ok_age _ _ Hok)) in He as (v & Hv & _). rewrite Hv.
    destruct (loadTime v >? tl) eqn:Hc; go_bool.
    + exists c. split_and!; [done..|]. symmetry. apply list_filter_id_in. intros it Hit.
      pose proof (oldest_at_back _ _ _ _ _ Hok HB Hv Hit). lia.
    + pose proof (unsafeRemove_size _ _ _ Hv).
      destruct (IH (snd (unsafeRemove c (Value e)))) as (c' & -> & Hok' & Hm & Hi);
        [by apply unsafeRemove_ok|lia|].
      exists c'. split_and!; [done|done|by rewrite Hm, unsafeRemove_meta|].
      rewrite Hi, abs_remove by apply Hok. unfold drop_item. rewrite list_filter_filter.
      apply list_filter_ext_in. intros it Hit. split; [by intros [? _]|]. intros Ht.
      split; [done|]. intros Hk. apply items_in in Hit; [|apply Hok]. unfold item_at in Hit.
      rewrite Hk, Hv in Hit. simplify_eq/=. lia.
  - exists c. split_and!; [done..|].
    apply Back_nil in HB. pose proof (list_ok_size _ _ _ (ok_age _ _ Hok)) as Hs.
    rewrite HB in Hs. pose proof (items_length c (ok_lru _ _ Hok)) as Hl.
    by destruct (items (abs c)); [|simpl in *; lia].
Qed.

Lemma removeExpired_spec t now c :
  cache_ok t c ->
  exists c', removeExpired now c = Done c' /\ cache_ok t c' /\ meta c' = meta c /\
             items (abs c') = fresh_items now (ttl c) (items (abs c)).
Proof. intros Hok. apply removeExpired_loop_spec; [done|lia]. Qed.

Lemma cull_loop_spec t w fuel c :
  0 <= w -> cache_ok t c -> (size (m c) < fuel)%nat ->
  exists c', cull_loop fuel w c = Done c' /\ cache_ok t c' /\ meta c' = meta c /\
             items (abs c') = take (Z.to_nat w) (items (abs c)).
Proof.
  intros Hw. revert c. induction fuel as [|fuel IH]; intros c Hok Hf; [lia|]. cbn [cull_loop].
  pose proof (items_length c (ok_lru _ _ Hok)) as Hl.
  destruct (Z.of_nat (size (m c)) >? w) eqn:Hc; go_bool.
  - pose proof (list_ok_size _ _ _ (ok_lru _ _ Hok)) as Hs.
    destruct (Back (lruList c)) as [e|] eqn:HB; [|apply Back_nil in HB; rewrite HB in Hs; simpl in Hs; lia].
    destruct (Back_snoc _ _ HB) as [es Hes].
    assert (e ∈ elems (lruList c)) as He by (rewrite Hes; apply elem_of_app; right; left).
    apply (lo_in _ _ _ (ok_lru _ _ Hok)) in He as (v & Hv & _).
    pose proof (unsafeRemove_size _ _ _ Hv).
    destruct (IH (snd (unsafeRemove c (Value e)))) as (c' & -> & Hok' & Hm & Hi);
      [by apply unsafeRemove_ok|lia|].
    exists c'. split_and!; [done|done|by rewrite Hm, unsafeRemove_meta|].
    rewrite Hi, abs_remove by apply Hok.
    pose proof (items_keys c (ok_lru _ _ Hok)) as Hk.
    pose proof (items_keys_NoDup c (ok_lru _ _ Hok)) as Hnd. rewrite Hes, fmap_app in Hk.
    apply fmap_app_inv in Hk as (l1 & l2 & Hk1 & Hk2 & Hit). symmetry in Hk2.
    apply fmap_cons_inv in Hk2 as (x & l3 & Hx & Hn & ->).
    symmetry in Hn. apply fmap_nil_inv in Hn as ->.
    rewrite Hit in *. rewrite fmap_app in Hnd. apply NoDup_app in Hnd as (_ & Hnd & _).
    unfold drop_item. rewrite filter_app, filter_cons, filter_nil, decide_False, app_nil_r
      by (intros Hne; by apply Hne).
    rewrite length_app in Hl. simpl in Hl. rewrite take_app_le by lia.
    f_equal. apply list_filter_id_in. intros y Hy Heq.
    apply (Hnd (it_key y)); [by apply list_elem_of_fmap_2|]. rewrite Heq, Hx. left.
  - exists c. split_and!; [done..|]. rewrite take_ge; [done|lia].
Qed.

(** A capacity whose multiplications by 97 and 90 stay inside [int]. *)
Definition capacity_ok (cap : Z) : Prop := 1 < cap /\ cap * 97 < 2 ^ 63.

Lemma abs_meta c c' :
  items (abs c) = items (abs c') -> meta c = meta c' -> abs c = abs c'.
Proof.
  intros Hi Hm. unfold meta in Hm. injection Hm as ????. unfold abs in *. cbn [items] in Hi.
  congruence.
Qed.

Lemma cull_spec t now c :
  cache_ok t c -> capacity_ok (capacity c) ->
  exists c', cull now c = Done c' /\ cache_ok t c' /\ meta c' = meta c /\
             items (abs c') = spec_room now (abs c).
Proof.
  intros Hok [Hc1 Hc2]. unfold cull, spec_room. cbn [a_cap a_ttl abs].
  change (items (MkACache ?l _ _ _ _)) with l. change (omap (item_of c) _) with (items (abs c)).
  rewrite (wrap_s_small 64 (capacity c * 97)) by (unfold fits_s; lia).
  rewrite <- (items_length c (ok_lru _ _ Hok)).
  destruct (_ <? _) eqn:Hlt; [by exists c|].
  destruct (removeExpired_spec t now c Hok) as (c1 & -> & Hok1 & Hm1 & Hi1).
  change (Done c1 ≫= ?f) with (f c1). cbv beta.
  assert (capacity c1 = capacity c /\ ttl c1 = ttl c) as [-> _] by (unfold meta in Hm1; by simplify_eq).
  rewrite (wrap_s_small 64 (capacity c * 90)) by (unfold fits_s; lia).
  destruct (cull_loop_spec t (Z.quot (capacity c * 90) 100) (S (size (m c1))) c1)
    as (c2 & -> & Hok2 & Hm2 & Hi2); [apply Z.quot_pos; lia|done|lia|].
  exists c2. split_and!; [done|done|by rewrite Hm2|]. by rewrite Hi2, Hi1.
Qed.

(** ** Every operation refines its abstract counterpart *)

Lemma touch_spec t c k v nv :
  cache_ok t c -> m c !! k = Some v ->
  cache_ok t (touch c k v nv) /\
  items (abs (touch c k v nv)) =
    MkItem k nv (loadTime v) (size_ v) :: drop_item k (items (abs c)).
Proof.
  intros [Hlru Hage Hsum Hso Hpa] Hv.
  pose proof (lo_key _ _ _ Hlru _ _ Hv) as Hkv.
  pose proof (list_Remove_key _ _ _ _ _ Hlru Hv) as Hrm. cbn [list_Remove snd elems] in Hrm.
  assert (items (abs (touch c k v nv)) =
    MkItem k nv (loadTime v) (size_ v) :: drop_item k (items (abs c))) as Habs.
  { unfold touch, abs at 1. cbn [items lruList elems list_Remove PushFront]. rewrite Hrm.
    rewrite omap_cons_eq. unfold item_of at 1. cbn [m Value]. rewrite Hkv, lookup_insert_eq. simpl.
    f_equal. unfold abs, drop_item. cbn [items].
    rewrite <- (omap_filter_comm (item_of c) (fun e => Value e <> k) (fun it => it_key it <> k)).
    - apply omap_ext_in. intros e [Hne _]%list_elem_of_filter. unfold item_of. simpl.
      by rewrite lookup_insert_ne.
    - intros e it _ Hit. unfold item_of in Hit. destruct (m c !! Value e); by simplify_eq/=. }
  split; [|done].
  assert (times (touch c k v nv) = times c) as Ht.
  { unfold times. apply omap_ext_in. intros e _. simpl.
    destruct (decide (k = Value e)) as [<-|Hne]; [by rewrite lookup_insert_eq, Hv|].
    by rewrite lookup_insert_ne. }
  split.
  - unfold touch. cbn [m lruList list_Remove PushFront]. rewrite Hkv.
    rewrite <- insert_delete_eq. apply (list_ok_push lruNode _ (snd (list_Remove (lruList c) (lruNode v))));
      [by apply list_ok_remove|apply lookup_delete_eq|done].
  - by apply (list_ok_same ageNode _ _ _ v).
  - rewrite Habs. cbn [touch csize list_Remove PushFront]. rewrite Hsum.
    change (total (?x :: ?l)) with (it_size x + total l).
    rewrite (total_drop k (items (abs c)) (MkItem k (value v) (loadTime v) (size_ v))).
    + simpl. f_equal. lia.
    + by apply items_keys_NoDup.
    + rewrite find_abs by done. unfold item_at. by rewrite Hv.
  - by rewrite Ht.
  - by rewrite Ht.
Qed.

Lemma miss_spec t c :
  cache_ok t c -> cache_ok t (miss c) /\ items (abs (miss c)) = items (abs c).
Proof. by intros []. Qed.

(** [Get] and [Update] share their body: [nv] is the value [Update] writes. *)
Lemma use_spec t now c k nv :
  cache_ok t c ->
  exists c', (match nv with None => Get now c k | Some v => Update now c k v end)
             = Done (fst (spec_use nv now k (abs c)), c') /\
             cache_ok t c' /\ abs c' = snd (spec_use nv now k (abs c)).
Proof.
  intros Hok. destruct (removeExpired_spec t now c Hok) as (c1 & Hr & Hok1 & Hm1 & Hi1).
  assert (spec_use nv now k (abs c) =
    match find_item k (items (abs c1)) with
    | Some it => (default (it_val it) nv,
        MkACache (MkItem k (default (it_val it) nv) (it_time it) (it_size it)
                  :: drop_item k (items (abs c1)))
          (i64 (hits c1 + 1)) (misses c1) (capacity c1) (ttl c1))
    | None => (None, MkACache (items (abs c1)) (hits c1) (i64 (misses c1 + 1)) (capacity c1) (ttl c1))
    end) as ->.
  { unfold meta in Hm1. injection Hm1 as Hh Hm Hc Ht. rewrite Hi1. set (l := items (abs c)).
    assert (abs c = MkACache l (hits c1) (misses c1) (capacity c1) (ttl c1)) as ->
      by (rewrite Hh, Hm, Hc, Ht; reflexivity).
    unfold spec_use. cbn [items a_ttl a_hits a_misses a_cap]. by rewrite Ht. }
  rewrite find_abs by apply Hok1. unfold item_at.
  destruct (m c1 !! k) as [v|] eqn:Hv; cbn [fmap option_fmap option_map it_val it_time it_size fst snd].
  - exists (touch c1 k v (default (value v) nv)).
    destruct (touch_spec t c1 k v (default (value v) nv) Hok1 Hv) as [Hok2 Hi2].
    split; [|split; [done|]].
    + unfold Get, Update. rewrite Hr. destruct nv; simpl; by rewrite Hv.
    + rewrite <- Hi2. done.
  - exists (miss c1). destruct (miss_spec t c1 Hok1) as [Hok2 Hi2]. split; [|split; [done|]].
    + unfold Get, Update. rewrite Hr. destruct nv; simpl; by rewrite Hv.
    + rewrite <- Hi2. done.
Qed.

Lemma add_spec t now load c k v sz :
  cache_ok t c -> capacity_ok (capacity c) -> t <= load ->
  exists c', AddWithSize now load c k v sz
             = Done (fst (spec_add now load k v sz (abs c)), c') /\
             cache_ok load c' /\ abs c' = snd (spec_add now load k v sz (abs c)).
Proof.
  intros Hok Hcap Hload. unfold spec_add, AddWithSize.
  rewrite find_abs by apply Hok. unfold item_at.
  destruct (m c !! k) as [w|] eqn:Hw; cbn [fmap option_fmap option_map fst snd].
  { exists c. split; [done|]. split; [|done]. destruct Hok. split; [done..|].
    eapply Forall_impl; [done|simpl; lia]. }
  destruct (cull_spec t now c Hok Hcap) as (c1 & -> & Hok1 & Hm1 & Hi1).
  change (Done c1 ≫= ?f) with (f c1). cbn [PushFront].
  assert (m c1 !! k = None) as Hk1.
  { apply not_elem_of_dom. intros Hd. apply elem_of_dom in Hd as [w Hw1].
    assert (MkItem k (value w) (loadTime w) (size_ w) ∈ items (abs c1)) as Hin.
    { apply items_in; [apply Hok1|]. unfold item_at. simpl. by rewrite Hw1. }
    rewrite Hi1 in Hin. assert (MkItem k (value w) (loadTime w) (size_ w) ∈ items (abs c)) as Hin'.
    { revert Hin. unfold spec_room, fresh_items. case_match; [done|].
      intros Hin%take_elem_in. by apply list_elem_of_filter in Hin as [_ ?]. }
    apply items_in in Hin'; [|apply Hok]. unfold item_at in Hin'. simpl in Hin'. by rewrite Hw in Hin'. }
  destruct Hok1 as [Hlru Hage Hsum Hso Hpa].
  set (ne := MkEntry v _ _ load sz). set (c2 := MkCache _ _ _ _ _ _ _ _).
  assert (items (abs c2) = MkItem k v load sz :: items (abs c1)) as Hi2.
  { unfold abs, c2. cbn [items lruList elems]. rewrite omap_cons_eq. unfold item_of at 1. cbn [m Value].
    rewrite lookup_insert_eq. simpl. f_equal. apply omap_ext_in. intros e He. unfold item_of. cbn [m].
    rewrite lookup_insert_ne; [done|]. intros Heq.
    apply (lo_in _ _ _ Hlru) in He as (w & Hw' & _). congruence. }
  assert (times c2 = load :: times c1) as Ht2.
  { unfold times, c2. cbn [ageList elems m]. rewrite omap_cons_eq. cbn [Value].
    rewrite lookup_insert_eq. simpl. f_equal. apply omap_ext_in. intros e He.
    rewrite lookup_insert_ne; [done|]. intros Heq.
    apply (lo_in _ _ _ Hage) in He as (w & Hw' & _). congruence. }
  exists c2. split; [done|]. split.
  - split.
    + by apply (list_ok_push lruNode (m c1) (lruList c1)).
    + by apply (list_ok_push ageNode (m c1) (ageList c1)).
    + rewrite Hi2. unfold c2. cbn [csize]. rewrite Hsum, i64_add_r, i64_add_l.
      change (total (?x :: ?l)) with (it_size x + total l). cbn [it_size]. f_equal. lia.
    + rewrite Ht2. constructor; [done|]. eapply Forall_impl; [exact Hpa|simpl; lia].
    + rewrite Ht2. constructor; [lia|]. eapply Forall_impl; [exact Hpa|simpl; lia].
  - rewrite <- Hi1, <- Hi2. unfold meta in Hm1. injection Hm1 as ????.
    apply (f_equal2 (fun l q => MkACache l (fst (fst (fst q))) (snd (fst (fst q))) (snd (fst q)) (snd q))
             (y1 := items (abs c2)) (x2 := meta c2) (y2 := meta c)); [done|].
    unfold c2, meta. cbn [hits misses capacity ttl]. congruence.
Qed.

Lemma remove_spec t c k :
  cache_ok t c ->
  fst (Remove c k) = fst (spec_remove k (abs c)) /\ cache_ok t (snd (Remove c k)) /\
  abs (snd (Remove c k)) = snd (spec_remove k (abs c)).
Proof.
  intros Hok. unfold Remove. split_and!; [|by apply unsafeRemove_ok|].
  - unfold spec_remove. cbn [fst]. rewrite find_abs by apply Hok. unfold item_at, unsafeRemove.
    by destruct (m c !! k).
  - unfold spec_remove. cbn [snd]. rewrite <- abs_remove by apply Hok.
    pose proof (unsafeRemove_meta c k) as Hm. unfold meta in Hm. injection Hm as ????.
    change (a_hits (abs c)) with (hits c). change (a_misses (abs c)) with (misses c).
    change (a_cap (abs c)) with (capacity c). change (a_ttl (abs c)) with (ttl c).
    set (c' := snd (unsafeRemove c k)) in *.
    change (abs c') with (MkACache (items (abs c')) (hits c') (misses c') (capacity c') (ttl c')) at 1.
    congruence.
Qed.

Lemma exec_spec t now load o c :
  cache_ok t c -> capacity_ok (capacity c) -> t <= now <= load ->
  match o with OSetCapacity cap => cap * 97 < 2 ^ 63 | _ => True end ->
  exists c', exec now load o c = Done (fst (spec_exec now load o (abs c)), c') /\
             cache_ok load c' /\ capacity_ok (capacity c') /\
             abs c' = snd (spec_exec now load o (abs c)).
Proof.
  intros Hok Hcap Ht Ho.
  assert (forall c', cache_ok t c' -> cache_ok load c') as Hmono.
  { intros c' []. split; [done..|]. eapply Forall_impl; [done|simpl; lia]. }
  assert (forall c' a, abs c' = a -> capacity c' = a_cap a) as Hca by (by intros ?? <-).
  destruct o as [k|k v|k v s|k|cap|d]; cbn [exec spec_exec fst snd].
  - destruct (use_spec t now c k None Hok) as (c' & E & Hok' & Ha). simpl in E. rewrite E.
    exists c'. split_and!; [done|by apply Hmono| |done].
    rewrite (Hca _ _ Ha). unfold spec_use. by case_match.
  - destruct (use_spec t now c k (Some v) Hok) as (c' & E & Hok' & Ha). simpl in E. rewrite E.
    exists c'. split_and!; [done|by apply Hmono| |done].
    rewrite (Hca _ _ Ha). unfold spec_use. by case_match.
  - destruct (add_spec t now load c k v s Hok Hcap) as (c' & E & Hok' & Ha); [lia|]. rewrite E.
    exists c'. split_and!; [done|done| |done].
    rewrite (Hca _ _ Ha). unfold spec_add. by case_match.
  - destruct (remove_spec t c k Hok) as (E & Hok' & Ha). rewrite <- E.
    exists (snd (Remove c k)). split_and!; [done|by apply Hmono| |done].
    by rewrite (Hca _ _ Ha).
  - exists (SetCapacity c cap). unfold SetCapacity.
    destruct (cap >? 1) eqn:Hc1; go_bool; split_and!; try done; try (by apply Hmono).
    destruct (Hmono c Hok). by split.
  - exists (SetTTL c d). split_and!; try done. destruct (Hmono c Hok). by split.
Qed.

Lemma run_spec t l c :
  cache_ok t c -> capacity_ok (capacity c) -> run_ok t l ->
  exists t' c', run l c = Done (fst (spec_run l (abs c)), c') /\ cache_ok t' c' /\
             capacity_ok (capacity c') /\ abs c' = snd (spec_run l (abs c)).
Proof.
  revert t c. induction l as [|[[now load] o] l IH]; intros t c Hok Hcap Hrun.
  { exists t, c. done. }
  cbn [run run_ok spec_run fst snd] in *. destruct Hrun as (Ht & Ho & Hrun).
  destruct (exec_spec t now load o c Hok Hcap Ht Ho) as (c1 & -> & Hok1 & Hcap1 & Ha1).
  destruct (IH load c1 Hok1 Hcap1 Hrun) as (t' & c2 & E & Hok2 & Hcap2 & Ha2).
  exists t', c2. rewrite <- Ha1. change (Done ?r ≫= ?f) with (f r). cbn [fst snd]. rewrite E. done.
Qed.

Lemma New_ok t : cache_ok t New /\ capacity_ok (capacity New).
Proof.
  split; [|done].
  assert (forall sel, list_ok sel (∅ : gmap K entry) list_New) as Hl.
  { intros sel. split; [constructor|constructor| |].
    - intros e. split; [intros He; by apply not_elem_of_nil in He|].
      intros (v & Hv & _). by rewrite lookup_empty in Hv.
    - intros k v Hv. by rewrite lookup_empty in Hv. }
  split; [apply Hl|apply Hl|done|constructor|constructor].
Qed.

Lemma cull_loop_negative w fuel c : w < 0 -> cull_loop fuel w c = Hang.
Proof.
  intros Hw. revert c. induction fuel as [|fuel IH]; intros c; [done|]. cbn [cull_loop].
  replace (Z.of_nat (size (m c)) >? w) with true; [|symmetry; apply Z.gtb_lt; lia].
  by destruct (Back (lruList c)).
Qed.

(** ** Properties *)

(** C5. Refinement. Every sequence of [Get], [Update], [AddWithSize], [Remove],
    [SetCapacity] and [SetTTL] calls on a fresh cache, made under a clock that
    does not step back and with capacities whose watermarks fit an [int],
    returns exactly what the abstract cache (a list of items by recency, with
    expiry by load time and the 97%/90% watermarks) returns; no call hangs, and
    the map, the LRU list, the age list and the recorded size agree
    afterwards. *)
Theorem cache_refines_lru (t : Z) (l : list (Z * Z * op)) (Hrun : run_ok t l) :
  exists t' c, run l New = Done (fst (spec_run l (abs New)), c) /\
               cache_ok t' c /\ abs c = snd (spec_run l (abs New)).
Proof.
  destruct (New_ok t) as [Hok Hcap].
  destruct (run_spec t l New Hok Hcap Hrun) as (t' & c & ? & ? & _ & ?). by exists t', c.
Qed.

(** C28. Capacity. Adding a new key to a well-formed cache succeeds, the cache
    then holds at most [GetCapacity] entries, and the new entry is the most
    recently used one. *)
Theorem cache_add_within_capacity (t now load : Z) (c : Cache) (k : K) (v : iface) (sz : Z)
  (Hok : cache_ok t c) (Hcap : capacity_ok (capacity c)) (Hload : t <= load)
  (Hnew : m c !! k = None) :
  exists c', AddWithSize now load c k v sz = Done (true, c') /\
             Len c' <= GetCapacity c' /\ GetCapacity c' = GetCapacity c /\
             head (items (abs c')) = Some (MkItem k v load sz).
Proof.
  destruct (add_spec t now load c k v sz Hok Hcap Hload) as (c' & E & Hok' & Ha).
  unfold spec_add in *. rewrite find_abs in E, Ha by apply Hok. unfold item_at in E, Ha.
  rewrite Hnew in E, Ha. cbn [fmap option_fmap option_map fst snd] in E, Ha.
  exists c'. split; [done|].
  assert (capacity c' = capacity c) as Hc by (change (capacity c') with (a_cap (abs c')); by rewrite Ha).
  unfold GetCapacity, Len. rewrite Hc, Ha. split; [|done].
  rewrite <- (items_length c' (ok_lru _ _ Hok')), Ha. cbn [items length].
  destruct Hcap as [Hc1 Hc2]. unfold spec_room. change (a_cap (abs c)) with (capacity c).
  destruct (_ <? _) eqn:Hlt; go_bool.
  - pose proof (Z.quot_lt_upper_bound (capacity c * 97) 100 (capacity c)). lia.
  - rewrite length_take.
    pose proof (Z.quot_lt_upper_bound (capacity c * 90) 100 (capacity c)).
    pose proof (Z.quot_pos (capacity c * 90) 100). lia.
Qed.

(** Round trip. A value added under a new key is what [Get] returns until
    the entry's age reaches the time to live, and from then on [Get] returns
    nil. *)
Theorem cache_add_get (t now load now' : Z) (c c' : Cache) (k : K) (v : iface) (sz : Z)
  (Hok : cache_ok t c) (Hcap : capacity_ok (capacity c)) (Hload : t <= load)
  (Hnew : m c !! k = None) (Httl : fits_s 64 (- ttl c))
  (Hadd : AddWithSize now load c k v sz = Done (true, c')) :
  exists c'', Get now' c' k = Done (if now' - load <? ttl c then v else None, c'').
Proof.
  destruct (add_spec t now load c k v sz Hok Hcap Hload) as (c1 & E & Hok' & Ha).
  rewrite E in Hadd. injection Hadd as _ ->.
  destruct (use_spec load now' c' k None Hok') as (c2 & E2 & _ & _). exists c2.
  simpl in E2. rewrite E2. f_equal. f_equal. rewrite Ha. unfold spec_add.
  rewrite find_abs by apply Hok. unfold item_at. rewrite Hnew. cbn [fmap option_fmap option_map snd].
  unfold spec_use, fresh_items. cbn [items a_ttl]. change (a_ttl (abs c)) with (ttl c).
  rewrite (wrap_s_small 64 (- ttl c)) by (done || lia). rewrite filter_cons. cbn [it_time].
  destruct (Z.ltb_spec (now' - load) (ttl c)).
  - rewrite decide_True by lia. unfold find_item, list_find. cbn [it_key].
    rewrite decide_True by done. done.
  - rewrite decide_False by lia. destruct (find_item k _) as [it|] eqn:Hf; [|done]. exfalso.
    unfold find_item in Hf. apply fmap_Some in Hf as ([i x] & (Hl & Hk & _)%list_find_Some & _).
    apply list_elem_of_lookup_2 in Hl. apply list_elem_of_filter in Hl as [_ Hl].
    assert (x ∈ items (abs c)) as Hx.
    { revert Hl. unfold spec_room. case_match; [done|]. intros Hl%take_elem_in.
      by apply list_elem_of_filter in Hl as [_ ?]. }
    apply items_in in Hx; [|apply Hok]. unfold item_at in Hx. by rewrite Hk, Hnew in Hx.
Qed.

(** A capacity that overflows [int] hangs the cache. When [capacity * 97]
    and [capacity * 90] wrap to negative values, adding a new key never
    returns: the eviction loop waits, with the lock held, for the number of
    entries to drop below a negative watermark, however long it runs. *)
Theorem cache_overflow_hangs (t now load : Z) (c : Cache) (k : K) (v : iface) (sz : Z)
  (Hok : cache_ok t c) (Hnew : m c !! k = None)
  (H97 : i64 (capacity c * 97) <= 0) (H90 : i64 (capacity c * 90) <= - 100) :
  AddWithSize now load c k v sz = Hang /\
  (forall c1 fuel, cull_loop fuel (Z.quot (i64 (capacity c * 90)) 100) c1 = Hang).
Proof.
  assert (Z.quot (i64 (capacity c * 90)) 100 < 0) as Hneg.
  { assert (Z.quot (- i64 (capacity c * 90)) 100 >= 1).
    { apply Z.le_ge. apply Z.quot_le_lower_bound; lia. }
    rewrite Z.quot_opp_l in * by lia. lia. }
  split; [|intros; by apply cull_loop_negative].
  unfold AddWithSize. rewrite Hnew. unfold cull.
  assert (Z.quot (i64 (capacity c * 97)) 100 <= 0) as Hq.
  { assert (0 <= Z.quot (- i64 (capacity c * 97)) 100) by (apply Z.quot_pos; lia).
    rewrite Z.quot_opp_l in * by lia. lia. }
  replace (_ <? _) with false by (symmetry; apply Z.ltb_ge; lia).
  destruct (removeExpired_spec t now c Hok) as (c1 & -> & _ & Hm & _).
  change (Done c1 ≫= ?f) with (f c1). cbv beta.
  assert (capacity c1 = capacity c) as -> by (unfold meta in Hm; by injection Hm).
  by rewrite cull_loop_negative.
Qed.
End Cache.

Lemma cache_refines_lru_witness :
  let l := [(1, 2, OAdd 1 (Some 10) 4); (3, 3, OGet 1); (4, 4, OSetCapacity 3);
            (5, 6, OAdd 2 (Some 20) 1); (7, 7, OAdd 3 (Some 30) 1);
            (8, 9, OAdd 1 None 1); (60000000005, 60000000005, OGet 2)] in
  exists t' c, run l (New (K := Z) (V := Z)) = Done (fst (spec_run l (abs New)), c) /\
               cache_ok t' c /\ abs c = snd (spec_run l (abs New)).
Proof. cbv zeta. apply (cache_refines_lru 0). simpl. lia. Defined.

Lemma cache_add_within_capacity_witness :
  exists c', AddWithSize 5 6 (New (K := Z) (V := Z)) 1 (Some 10) 4 = Done (true, c') /\
             Len c' <= GetCapacity c' /\ GetCapacity c' = 1024 /\
             head (items (abs c')) = Some (MkItem 1 (Some 10) 6 4).
Proof.
  apply (cache_add_within_capacity 0); [apply (New_ok 0)|apply (New_ok 0)|lia|apply lookup_empty].
Defined.

Lemma cache_add_get_witness :
  exists c' c'',
    AddWithSize 5 6 (New (K := Z) (V := Z)) 1 (Some 10) 4 = Done (true, c') /\
    Get 1000 c' 1 = Done (Some 10, c'').
Proof.
  set (c1 := match AddWithSize 5 6 (New (K := Z) (V := Z)) 1 (Some 10) 4 with
             | Done (_, c) => c | _ => New end).
  assert (E : AddWithSize 5 6 (New (K := Z) (V := Z)) 1 (Some 10) 4 = Done (true, c1))
    by reflexivity.
  destruct (cache_add_get 0 5 6 1000 New c1 1 (Some 10) 4 (proj1 (New_ok 0)) (proj2 (New_ok 0))
    ltac:(lia) (lookup_empty _) ltac:(split; vm_compute; congruence) E) as [c'' Hg].
  exists c1, c''. split; [exact E|exact Hg].
Defined.

Lemma cache_overflow_hangs_witness :
  AddWithSize 5 6 (SetCapacity (New (K := Z) (V := Z)) 102481911520608621) 1 (Some 10) 4 = Hang.
Proof.
  apply (cache_overflow_hangs 0); [|apply lookup_empty|vm_compute; discriminate|vm_compute; discriminate].
  destruct (New_ok (K := Z) (V := Z) 0) as [[] _]. by split.
Defined.
