(* ===== verification/TransportCodec.v ===== *)
(** * plugin/transport: connections and the packet codec

    [Conn] is the part of the Go interface transport.Conn the codec uses;
    [ConnStream] is what the codec relies on: a connection is a stream of
    pending bytes and [Read] fills the whole buffer from it or fails.  The
    codec is written and proved against these classes; Tcp.v provides the
    instance of tcpConn.  Log calls are left out. *)

From S2P Require Import Prelude.

(** The errors a read of a network connection returns. *)
Inductive rerr := EOF | Timeout | OtherErr (msg : string).

(** [Read(targetBuff)]: the new contents of the buffer, the count, the error
    and the connection after the call. *)
Class Conn (C : Type) := conn_Read : C -> bytes -> outcome (bytes * Z * option rerr * C).

(** [pending c] is what is still to be read from [c] before it fails or
    blocks; [ends_with] says which of the two happens then; [same_conn] relates
    the states of a connection between which only reads happened. *)
Class ConnStream (C : Type) `{Conn C} := {
  pending : C -> bytes;
  ends_with : C -> option rerr;
  same_conn : C -> C -> Prop;
  same_conn_preorder :: PreOrder same_conn;
  read_empty : forall c b, b = [] -> conn_Read c b = Done (b, 0, None, c);
  read_full : forall c b, b <> [] -> (length b <= length (pending c))%nat ->
    exists c', conn_Read c b = Done (take (length b) (pending c), Z.of_nat (length b), None, c') /\
               pending c' = drop (length b) (pending c) /\ ends_with c' = ends_with c /\
               same_conn c c';
  read_short : forall c b, (length (pending c) < length b)%nat ->
    match ends_with c with
    | Some e => exists b' c', conn_Read c b = Done (b', 0, Some e, c') /\ same_conn c c'
    | None => conn_Read c b = Hang
    end
}.

(** The error half of [Decode]. *)
Inductive derr := ReadErr (e : rerr) | HeadNotMatch | BodyNotMatch.

Definition _headSize : Z := 8.

Record PreHead := MkPreHead { HeaderSize : Z; BodySize : Z }.

Section Codec.
Context {C : Type} `{Conn C}.

(** [DefaultCodec.Decode].  [uint32] arithmetic sizes the data buffer. *)
Definition Decode (c : C) : outcome (result derr bytes * C) :=
  let headBuff := make_bytes _headSize in
  '(headBuff, n, err, c) ← conn_Read c headBuff;
  match err with
  | Some e => Done (Err (ReadErr e), c)
  | None =>
      if negb (n =? _headSize) then Done (Err HeadNotMatch, c) else
      hs ← LE_Uint32 headBuff;
      hb ← slice headBuff 4 8;
      bs ← LE_Uint32 hb;
      let header := MkPreHead hs bs in
      let dataBuff := make_bytes (u32 (u32 (4 + HeaderSize header) + BodySize header)) in
      first ← slice dataBuff 0 4;
      first ← LE_PutUint32 first (HeaderSize header);
      let dataBuff := first ++ drop 4 dataBuff in
      rest ← slice_from dataBuff 4;
      '(rest, n, err, c) ← conn_Read c rest;
      let dataBuff := first ++ rest in
      match err with
      | Some e => Done (Err (ReadErr e), c)
      | None =>
          if negb (u32 n =? u32 (HeaderSize header + BodySize header))
          then Done (Err BodyNotMatch, c)
          else Done (Ok dataBuff, c)
      end
  end.
End Codec.

(** [DefaultCodec.Encode] never returns an error: it panics or succeeds. *)
Definition Encode (buff : bytes) : outcome bytes :=
  headerSize ← LE_Uint32 buff;
  let bodySize := i64 (i64 (Z.of_nat (length buff) - 4) - headerSize) in
  let res := make_bytes (i64 (i64 (_headSize + headerSize) + bodySize)) in
  r0 ← slice res 0 4;
  r0 ← LE_PutUint32 r0 headerSize;
  r1 ← slice res 4 8;
  r1 ← LE_PutUint32 r1 (u32 bodySize);
  dst ← slice_from res 8;
  src ← slice_from buff 4;
  Done (r0 ++ r1 ++ fst (copy dst src)).

(** The codec in use is a variable of the package, the default one until
    [SetCodec], which nothing calls: the transport uses [DefaultCodec]. *)
Record Codec (C : Type) := MkCodec {
  codec_Encode : C -> bytes -> outcome (result error bytes);
  codec_Decode : C -> outcome (result derr bytes * C)
}.
Arguments MkCodec {C} _ _.
Arguments codec_Encode {C} _ _ _.
Arguments codec_Decode {C} _ _.

Definition DefaultCodec {C : Type} `{Conn C} : Codec C := MkCodec (fun _ buff => r ← Encode buff; Done (Ok r)) Decode.
Definition GetCodec {C} (_codec : Codec C) : Codec C := _codec.
Definition SetCodec {C} (codec _codec : Codec C) : Codec C := codec.

(** An application packet: its first four bytes give the size of a header
    that fits the packet, and its size fits the wire format. *)
Definition packet_ok (buff : bytes) : Prop :=
  (4 <= length buff)%nat /\
  4 + le_combine (take 4 buff) <= Z.of_nat (length buff) < 2 ^ 32.

(** The bytes on the wire for a packet, as the layout comments draw them. *)
Definition wire (buff : bytes) : bytes :=
  let h := le_combine (take 4 buff) in
  le_split 4 h ++ le_split 4 (Z.of_nat (length buff) - 4 - h) ++ drop 4 buff.

(** ** Encoding *)

Lemma copy_same_length {A} (dst src : list A) :
  length dst = length src -> copy dst src = (src, Z.of_nat (length src)).
Proof.
  intros E. unfold copy. rewrite E, Nat.min_id, take_ge, drop_ge, app_nil_r by lia. done.
Qed.

Lemma Encode_wire buff : packet_ok buff -> Encode buff = Done (wire buff).
Proof.
  intros (H4 & Hh & Hlen). unfold Encode, _headSize. rewrite LE_Uint32_Done by done.
  go_run.
  set (h := le_combine (take 4 buff)) in *.
  assert (0 <= h) by (apply le_combine_bound).
  rewrite (wrap_s_small 64 (Z.of_nat (length buff) - 4)) by (unfold fits_s; lia).
  rewrite (wrap_s_small 64 (Z.of_nat (length buff) - 4 - h)) by (unfold fits_s; lia).
  rewrite (wrap_s_small 64 (8 + h)) by (unfold fits_s; lia).
  rewrite wrap_s_small by (unfold fits_s; lia).
  replace (8 + h + (Z.of_nat (length buff) - 4 - h)) with (4 + Z.of_nat (length buff)) by lia.
  pose proof (length_make_bytes (4 + Z.of_nat (length buff))) as Hm.
  set (res := make_bytes _) in *.
  rewrite (slice_Done res 0 4), (slice_Done res 4 8), (slice_from_Done res 8),
    (slice_from_Done buff 4) by lia.
  go_run. rewrite LE_PutUint32_Done by (rewrite length_take, length_drop; lia).
  go_run. rewrite LE_PutUint32_Done by (rewrite length_take, length_drop; lia).
  go_run. rewrite (wrap_u_small 32) by (unfold fits_u; lia).
  unfold wire. fold h. f_equal.
  rewrite copy_same_length by (rewrite !length_drop; lia). simpl fst.
  rewrite !(drop_ge (take _ _)) by (rewrite ?length_take; lia).
  by rewrite !app_nil_r.
Qed.

(** ** Decoding *)

Section Decoding.
Context {C : Type} `{ConnStream C}.

Lemma Decode_head (c : C) (h b : Z) (tl : bytes) :
  fits_u 32 h -> fits_u 32 b ->
  pending c = le_split 4 h ++ le_split 4 b ++ tl ->
  exists c1, pending c1 = tl /\ ends_with c1 = ends_with c /\ same_conn c c1 /\
    Decode c =
    (let size := u32 (u32 (4 + h) + b) in
     if size <? 4 then Panic "slice bounds out of range" else
     '(rest, n, err, c) ← conn_Read c1 (make_bytes (size - 4));
     match err with
     | Some e => Done (Err (ReadErr e), c)
     | None => if negb (u32 n =? u32 (h + b)) then Done (Err BodyNotMatch, c)
               else Done (Ok (le_split 4 h ++ rest), c)
     end).
Proof.
  intros Hh Hb Hp.
  pose proof (length_le_u32 h) as Lh. pose proof (length_le_u32 b) as Lb.
  destruct (read_full c (make_bytes 8)) as (c1 & Hr & Hp1 & He1 & Hs1).
  { done. }
  { rewrite Hp, !length_app, Lh, Lb. simpl. lia. }
  exists c1. change (length (make_bytes 8)) with 8%nat in *.
  rewrite Hp, app_assoc in Hp1. rewrite drop_app_length' in Hp1 by (rewrite ?length_app; lia).
  do 3 (split; [done|]). unfold Decode, _headSize. rewrite Hr.
  change (Done (?a, ?b, ?d, ?e) ≫= ?f) with (f (a, b, d, e)). cbv beta iota zeta.
  rewrite Hp, app_assoc, take_app_length' by (rewrite ?length_app; lia).
  change (negb (Z.of_nat 8 =? 8)) with false. cbv iota.
  rewrite LE_Uint32_Done by (rewrite ?length_app; lia).
  rewrite (slice_Done _ 4 8) by (rewrite ?length_app; lia).
  go_run. change (Z.to_nat 4) with 4%nat. change (Z.to_nat (8 - 4)) with 4%nat.
  rewrite (take_app_length' (le_split 4 h)), (drop_app_length' (le_split 4 h)) by done.
  rewrite (take_ge (le_split 4 b)) by lia. rewrite LE_Uint32_Done by lia.
  rewrite (take_ge (le_split 4 b)) by lia. go_run. rewrite !le_u32_roundtrip by done.
  cbn [HeaderSize BodySize]. set (size := u32 (u32 (4 + h) + b)).
  assert (fits_u 32 size) as Hs by (apply wrap_u_fits; lia).
  destruct Hs as [Hz0 Hz1]. pose proof (length_make_bytes size) as Lm.
  destruct (Z.ltb_spec size 4) as [Hlt|Hge].
  { unfold slice. replace ((0 <=? 0) && (0 <=? 4) && (4 <=? Z.of_nat (length (make_bytes size)))) with false; [done|].
    symmetry. apply andb_false_iff. right. apply Z.leb_gt. lia. }
  rewrite (slice_Done (make_bytes size) 0 4) by lia. go_run.
  change (Z.to_nat 0) with 0%nat. change (Z.to_nat (4 - 0)) with 4%nat. rewrite drop_0.
  rewrite LE_PutUint32_Done by (rewrite ?length_take; lia). go_run.
  rewrite (drop_ge (take 4 _)), app_nil_r by (rewrite ?length_take; lia).
  rewrite slice_from_Done by (rewrite ?length_app, ?length_drop; lia). go_run.
  change (Z.to_nat 4) with 4%nat. rewrite (drop_app_length' (le_split 4 h)) by done.
  replace (drop 4 (make_bytes size)) with (make_bytes (size - 4)); [done|].
  unfold make_bytes. rewrite drop_replicate. f_equal. lia.
Qed.

(** A read of [n] bytes from a stream that holds them. *)
Lemma conn_Read_exact (c : C) n (got tl : bytes) :
  pending c = got ++ tl -> length got = n ->
  exists c', conn_Read c (make_bytes (Z.of_nat n)) = Done (got, Z.of_nat n, None, c') /\
             pending c' = tl /\ ends_with c' = ends_with c /\ same_conn c c'.
Proof.
  intros Hp Hl. pose proof (length_make_bytes (Z.of_nat n)) as Hm. rewrite Nat2Z.id in Hm.
  destruct n as [|n].
  - destruct got; [|done]. exists c. rewrite read_empty by done. done.
  - destruct (read_full c (make_bytes (Z.of_nat (S n)))) as (c' & Hr & Hp' & He & Hs).
    { intros Hn. by rewrite Hn in Hm. }
    { rewrite Hm, Hp, length_app. lia. }
    exists c'. rewrite Hr, Hp', Hm, Hp. rewrite take_app_length', drop_app_length' by done. done.
Qed.

Lemma Decode_frame (c : C) (h b : Z) (body tl : bytes) :
  fits_u 32 h -> fits_u 32 b -> 4 + h + b < 2 ^ 32 -> Z.of_nat (length body) = h + b ->
  pending c = le_split 4 h ++ le_split 4 b ++ body ++ tl ->
  exists c', Decode c = Done (Ok (le_split 4 h ++ body), c') /\
             pending c' = tl /\ ends_with c' = ends_with c /\ same_conn c c'.
Proof.
  intros Hh Hb Hhb Hl Hp. destruct (Decode_head c h b (body ++ tl) Hh Hb Hp) as (c1 & Hp1 & He1 & Hs1 & ->).
  cbv zeta. unfold fits_u in *.
  rewrite (wrap_u_small 32 (4 + h)), (wrap_u_small 32 (4 + h + b)) by (unfold fits_u; lia).
  destruct (Z.ltb_spec (4 + h + b) 4); [lia|].
  destruct (conn_Read_exact c1 (length body) body tl Hp1 eq_refl) as (c' & Hr & Hp' & He' & Hs').
  replace (4 + h + b - 4) with (Z.of_nat (length body)) by lia. rewrite Hr. go_run.
  rewrite Hl, Z.eqb_refl. simpl negb. cbv iota. exists c'. rewrite Hp', He', He1. do 3 (split; [done|]). by etrans.
Qed.

Lemma Decode_short_head (c : C) :
  (length (pending c) < 8)%nat ->
  match ends_with c with
  | Some e => exists c', Decode c = Done (Err (ReadErr e), c') /\ same_conn c c'
  | None => Decode c = Hang
  end.
Proof.
  intros Hl. pose proof (read_short c (make_bytes 8)) as Hr.
  change (length (make_bytes 8)) with 8%nat in Hr. specialize (Hr Hl).
  unfold Decode. destruct (ends_with c) as [e|].
  - destruct Hr as (b' & c' & Hr & Hs). exists c'. unfold _headSize. rewrite Hr. done.
  - unfold _headSize. rewrite Hr. done.
Qed.

Lemma Decode_short_body (c : C) (h b : Z) (tl : bytes) :
  fits_u 32 h -> fits_u 32 b -> 4 + h + b < 2 ^ 32 -> Z.of_nat (length tl) < h + b ->
  pending c = le_split 4 h ++ le_split 4 b ++ tl ->
  match ends_with c with
  | Some e => exists c', Decode c = Done (Err (ReadErr e), c') /\ same_conn c c'
  | None => Decode c = Hang
  end.
Proof.
  intros Hh Hb Hhb Hl Hp. destruct (Decode_head c h b tl Hh Hb Hp) as (c1 & Hp1 & He1 & Hs1 & ->).
  cbv zeta. unfold fits_u in *.
  rewrite (wrap_u_small 32 (4 + h)), (wrap_u_small 32 (4 + h + b)) by (unfold fits_u; lia).
  destruct (Z.ltb_spec (4 + h + b) 4); [lia|].
  pose proof (read_short c1 (make_bytes (4 + h + b - 4))) as Hr.
  rewrite length_make_bytes, Hp1, He1 in Hr. specialize (Hr ltac:(lia)).
  destruct (ends_with c).
  - destruct Hr as (b' & c' & -> & Hs). exists c'. split; [done|by etrans].
  - by rewrite Hr.
Qed.

Lemma Decode_wire (c : C) (buff tl : bytes) :
  packet_ok buff -> pending c = wire buff ++ tl ->
  exists c', Decode c = Done (Ok buff, c') /\ pending c' = tl /\ ends_with c' = ends_with c /\
             same_conn c c'.
Proof.
  intros (H4 & Hh & Hlen) Hp. unfold wire in Hp.
  set (h := le_combine (take 4 buff)) in *.
  assert (fits_u 32 h) as Hf by (apply le_combine_u32_fits; rewrite length_take; lia).
  destruct (Decode_frame c h (Z.of_nat (length buff) - 4 - h) (drop 4 buff) tl) as (c' & -> & ? & ? & ?).
  - done.
  - unfold fits_u in *. lia.
  - lia.
  - rewrite length_drop. lia.
  - by rewrite Hp, <- !app_assoc.
  - exists c'. split; [|done]. repeat f_equal. unfold h.
    replace 4%nat with (length (take 4 buff)) at 1 by (rewrite ?length_take; lia).
    rewrite split_le_combine. apply take_drop.
Qed.
End Decoding.
