(* ===== verification/Tcp.v ===== *)
(** * plugin/transport/tcp: connections over TCP

    [tcpConn] with the bufio reader and writer it reads and writes through,
    [Send], [Read], [Recv] and [Close], and the transport that accepts
    connections.  The network is an explicit sequence of what the socket's
    reads return ([netEvent]) and a bound on what its writes accept; the clock
    and the cancellation of the transport's context are functions of the
    number of times they are consulted.  The event handler is a record of
    state-passing functions that answer with the [Send] and [Close] calls they
    make on the connection.  Log calls are left out. *)

From S2P Require Import Prelude Uid TransportCodec.

(** ** The socket and bufio *)

(** What one read of the socket delivers: data (never an empty chunk) or an
    error.  A read with no event left blocks. *)
Inductive netEvent := Chunk (b : Byte.byte) (bs : bytes) | NetErr (e : rerr).

Definition _maxBufSize : Z := 512 * 1024.

Record bufioReader := BufioReader { rbuf : bytes; events : list netEvent }.

(** One read of the socket into at most [n] bytes. *)
Definition net_Read (evs : list netEvent) (n : nat) : outcome (result rerr bytes * list netEvent) :=
  match evs with
  | [] => Hang
  | NetErr e :: evs => Done (Err e, evs)
  | Chunk b bs :: evs =>
      Done (Ok (take n (b :: bs)),
            match drop n (b :: bs) with [] => evs | b' :: bs' => Chunk b' bs' :: evs end)
  end.

(** [bufio.Reader.Read] with a buffer of [_maxBufSize] bytes: from the buffer
    if it holds anything, else one read of the socket, straight into a target
    that is at least as large as the buffer. *)
Definition bufio_Read (rd : bufioReader) (p : bytes)
  : outcome (bytes * Z * option rerr * bufioReader) :=
  match p with
  | [] => Done ([], 0, None, rd)
  | _ =>
      match rbuf rd with
      | [] =>
          if _maxBufSize <=? Z.of_nat (length p) then
            '(r, evs) ← net_Read (events rd) (length p);
            match r with
            | Err e => Done (p, 0, Some e, BufioReader [] evs)
            | Ok data => let '(p, n) := copy p data in Done (p, n, None, BufioReader [] evs)
            end
          else
            '(r, evs) ← net_Read (events rd) (Z.to_nat _maxBufSize);
            match r with
            | Err e => Done (p, 0, Some e, BufioReader [] evs)
            | Ok data =>
                let '(p, n) := copy p data in
                Done (p, n, None, BufioReader (drop (Z.to_nat n) data) evs)
            end
      | _ =>
          let '(p', n) := copy p (rbuf rd) in
          Done (p', n, None, BufioReader (drop (Z.to_nat n) (rbuf rd)) (events rd))
      end
  end.

(** The writer: its buffer and sticky error, the bytes the socket took so far
    and how many more it takes before it fails ([None]: it never does). *)
Record bufioWriter := BufioWriter {
  wbuf : bytes;
  werr : option error;
  sent : bytes;
  accepts : option nat
}.

(** [net.TCPConn.Write]: all of [p], or what is accepted and an error. *)
Definition net_Write (w : bufioWriter) (p : bytes) : nat * option error * bufioWriter :=
  match accepts w with
  | None => (length p, None, BufioWriter (wbuf w) (werr w) (sent w ++ p) None)
  | Some k =>
      let n := Nat.min k (length p) in
      (n, if (n <? length p)%nat then Some "broken pipe" else None,
       BufioWriter (wbuf w) (werr w) (sent w ++ take n p) (Some (k - n)%nat))
  end.

Definition set_wbuf (w : bufioWriter) (b : bytes) (e : option error) : bufioWriter :=
  BufioWriter b e (sent w) (accepts w).

Definition bufio_Flush (w : bufioWriter) : option error * bufioWriter :=
  match werr w with
  | Some e => (Some e, w)
  | None =>
      match wbuf w with
      | [] => (None, w)
      | buf =>
          let '(n, err, w) := net_Write w buf in
          match err with
          | Some e => (Some e, set_wbuf w (drop n buf) (Some e))
          | None => (None, set_wbuf w [] None)
          end
      end
  end.

(** [bufio.Writer.Write]: the loop runs at most three times (fill and flush the
    buffer, write the rest directly, leave). *)
Fixpoint bufio_Write_loop (fuel : nat) (w : bufioWriter) (p : bytes) (nn : Z)
  : outcome (Z * option error * bufioWriter) :=
  let available := _maxBufSize - Z.of_nat (length (wbuf w)) in
  if (available <? Z.of_nat (length p)) && bool_decide (werr w = None) then
    match fuel with
    | O => Hang
    | S fuel =>
        match wbuf w with
        | [] =>
            let '(n, err, w) := net_Write w p in
            bufio_Write_loop fuel (set_wbuf w [] err) (drop n p) (nn + Z.of_nat n)
        | buf =>
            let n := Z.to_nat available in
            let '(_, w) := bufio_Flush (set_wbuf w (buf ++ take n p) None) in
            bufio_Write_loop fuel w (drop n p) (nn + Z.of_nat n)
        end
    end
  else
    match werr w with
    | Some e => Done (nn, Some e, w)
    | None => Done (nn + Z.of_nat (length p), None, set_wbuf w (wbuf w ++ p) None)
    end.

Definition bufio_Write (w : bufioWriter) (p : bytes) := bufio_Write_loop 3 w p 0.

(** ** The connection *)

Record tcpConn := TcpConn {
  connID : Z;
  lastReadTime : Z;
  lastWriteTime : option Z;      (* [None]: the zero time.Time *)
  localAddr : string;
  remoteAddr : string;
  reader : bufioReader;
  writer : bufioWriter;
  readDeadline : option Z;
  writeDeadline : option Z;
  cancelled : bool;              (* cancleCtx *)
  closed : bool                  (* conn.Close was called *)
}.

Definition set_reader (c : tcpConn) (r : bufioReader) : tcpConn :=
  TcpConn (connID c) (lastReadTime c) (lastWriteTime c) (localAddr c) (remoteAddr c) r
    (writer c) (readDeadline c) (writeDeadline c) (cancelled c) (closed c).
Definition set_writer (c : tcpConn) (w : bufioWriter) : tcpConn :=
  TcpConn (connID c) (lastReadTime c) (lastWriteTime c) (localAddr c) (remoteAddr c) (reader c)
    w (readDeadline c) (writeDeadline c) (cancelled c) (closed c).

(** The socket as accepted: its addresses and what the network will do. *)
Record TCPConn := MkTCPConn {
  LocalAddr : string; RemoteAddr : string;
  will_read : list netEvent; will_accept : option nat
}.

(** [now] in nanoseconds; the id is drawn at the second it falls in. *)
Definition NewTcpConn (now : Z) (ins : uidGeneratorIns) (conn : TCPConn) : tcpConn * uidGeneratorIns :=
  let '(id, ins) := GenerateUID (now / 10 ^ 9) ins in
  ({| connID := id; lastReadTime := now; lastWriteTime := None;
      localAddr := LocalAddr conn; remoteAddr := RemoteAddr conn;
      reader := BufioReader [] (will_read conn);
      writer := BufioWriter [] None [] (will_accept conn);
      readDeadline := None; writeDeadline := None;
      cancelled := false; closed := false |}, ins).

Definition GetConnID (c : tcpConn) : Z := connID c.
Definition GetLocalAddr (c : tcpConn) : string := localAddr c.
Definition GetRemoteAddr (c : tcpConn) : string := remoteAddr c.

Record TcpTransportCfg := MkTcpTransportCfg { Addr : string; IdleTimeout : Z }.

Definition second : Z := 10 ^ 9.

Definition setReadTimeout (cfg : TcpTransportCfg) (now : Z) (c : tcpConn) : tcpConn :=
  if IdleTimeout cfg >? 0 then
    if now - lastReadTime c >? 2 * second then
      TcpConn (connID c) now (lastWriteTime c) (localAddr c) (remoteAddr c) (reader c) (writer c)
        (Some (now + IdleTimeout cfg * second)) (writeDeadline c) (cancelled c) (closed c)
    else c
  else c.

Definition setWriteTimeout (cfg : TcpTransportCfg) (now : Z) (c : tcpConn) : tcpConn :=
  if IdleTimeout cfg >? 0 then
    if match lastWriteTime c with None => true | Some t => now - t >? 2 * second end then
      TcpConn (connID c) (lastReadTime c) (Some now) (localAddr c) (remoteAddr c) (reader c)
        (writer c) (readDeadline c) (Some (now + IdleTimeout cfg * second)) (cancelled c) (closed c)
    else c
  else c.

Definition Send (cfg : TcpTransportCfg) (now : Z) (c : tcpConn) (data : bytes)
  : outcome (option error * tcpConn) :=
  res ← Encode data;
  let c := setWriteTimeout cfg now c in
  '(n, err, w) ← bufio_Write (writer c) res;
  match err with
  | Some e => Done (Some e, set_writer c w)
  | None => let '(_, w) := bufio_Flush w in Done (None, set_writer c w)
  end.

Fixpoint Read_loop (fuel : nat) (rd : bufioReader) (targetBuff : bytes) (index : Z)
  : outcome (bytes * Z * option rerr * bufioReader) :=
  if index <? Z.of_nat (length targetBuff) then
    match fuel with
    | O => Hang
    | S fuel =>
        tail ← slice_from targetBuff index;
        '(tail, n, err, rd) ← bufio_Read rd tail;
        let targetBuff := take (Z.to_nat index) targetBuff ++ tail in
        match err with
        | Some e => Done (targetBuff, 0, Some e, rd)
        | None => Read_loop fuel rd targetBuff (index + n)
        end
    end
  else Done (targetBuff, index, None, rd).

Definition Read (c : tcpConn) (targetBuff : bytes) : outcome (bytes * Z * option rerr * tcpConn) :=
  if Z.of_nat (length targetBuff) =? 0 then Done (targetBuff, 0, None, c) else
  '(b, n, err, rd) ← Read_loop (length targetBuff) (reader c) targetBuff 0;
  Done (b, n, err, set_reader c rd).

#[global] Instance tcpConn_Conn : Conn tcpConn := Read.

(** ** The event loop *)

(** What a handler does with the connection it is given. *)
Inductive act := ASend (data : bytes) | AClose (active : bool).

(** transport.EventHandler, over the handler's own state.  [OnConnClosed] may
    still send but does not close the connection again. *)
Record EventHandler (S : Type) := MkEventHandler {
  OnConnOpened : Z -> S -> outcome (S * list act);
  OnConnClosed : Z -> bool -> S -> outcome (S * list bytes);
  OnData : Z -> bytes -> S -> outcome (S * list act)
}.
Arguments MkEventHandler {S} _ _ _.
Arguments OnConnOpened {S} _ _ _.
Arguments OnConnClosed {S} _ _ _ _.
Arguments OnData {S} _ _ _ _.

(** [_transInst] as the connections see it, the clock and the transport's
    context, consulted once per turn of the receive loop. *)
Record Env (S : Type) := MkEnv {
  cfg : TcpTransportCfg;
  eventHandler : EventHandler S;
  clock : nat -> Z;
  ctxDone : nat -> bool
}.
Arguments MkEnv {S} _ _ _ _.
Arguments cfg {S} _.
Arguments eventHandler {S} _.
Arguments clock {S} _ _.
Arguments ctxDone {S} _ _.

Section Recv.
Context {S : Type} (env : Env S).

Fixpoint sendAll (now : Z) (c : tcpConn) (l : list bytes) : outcome tcpConn :=
  match l with
  | [] => Done c
  | d :: l => '(_, c) ← Send (cfg env) now c d; sendAll now c l
  end.

(** After [conn.Close] the socket's reads and writes fail. *)
Definition net_Close (c : tcpConn) : tcpConn :=
  let w := writer c in
  TcpConn (connID c) (lastReadTime c) (lastWriteTime c) (localAddr c) (remoteAddr c)
    (BufioReader (rbuf (reader c)) [NetErr (OtherErr "use of closed network connection")])
    (BufioWriter (wbuf w) (werr w) (sent w) (Some 0%nat))
    (readDeadline c) (writeDeadline c) (cancelled c) true.

Definition cancle (c : tcpConn) : tcpConn :=
  TcpConn (connID c) (lastReadTime c) (lastWriteTime c) (localAddr c) (remoteAddr c) (reader c)
    (writer c) (readDeadline c) (writeDeadline c) true (closed c).

(** [Close].  The sync.Once is a local variable, so the function passed to it
    runs on every call. *)
Definition Close (now : Z) (active : bool) (c : tcpConn) (s : S) : outcome (tcpConn * S) :=
  let '(_, w) := bufio_Flush (writer c) in
  let c := set_writer c w in
  '(s, sends) ← OnConnClosed (eventHandler env) (connID c) active s;
  c ← sendAll now c sends;
  Done (net_Close (cancle c), s).

Fixpoint perform (now : Z) (acts : list act) (c : tcpConn) (s : S) : outcome (tcpConn * S) :=
  match acts with
  | [] => Done (c, s)
  | ASend d :: acts => '(_, c) ← Send (cfg env) now c d; perform now acts c s
  | AClose active :: acts => '(c, s) ← Close now active c s; perform now acts c s
  end.

(** What a panic leaves of the connection and the handler's state: the effect
    of what was done before it.  A handler that panics leaves its state as it
    was. *)
Fixpoint sendAll_left (now : Z) (c : tcpConn) (l : list bytes) : tcpConn :=
  match l with
  | [] => c
  | d :: l => match Send (cfg env) now c d with Done (_, c) => sendAll_left now c l | _ => c end
  end.

Definition Close_left (now : Z) (active : bool) (c : tcpConn) (s : S) : tcpConn * S :=
  let '(_, w) := bufio_Flush (writer c) in
  let c := set_writer c w in
  match OnConnClosed (eventHandler env) (connID c) active s with
  | Done (s, sends) => (sendAll_left now c sends, s)
  | _ => (c, s)
  end.

Fixpoint perform_left (now : Z) (acts : list act) (c : tcpConn) (s : S) : tcpConn * S :=
  match acts with
  | [] => (c, s)
  | ASend d :: acts =>
      match Send (cfg env) now c d with Done (_, c) => perform_left now acts c s | _ => (c, s) end
  | AClose active :: acts =>
      match Close now active c s with
      | Done (c, s) => perform_left now acts c s
      | _ => Close_left now active c s
      end
  end.

(** The deferred [Close] while the goroutine panics with [why]: the panic goes
    on after it, unless it panics itself or never returns. *)
Definition unwind {A} (now : Z) (why : string) (cs : tcpConn * S) : outcome A :=
  _ ← Close now false cs.1 cs.2; Panic why.

(** The loop of [Recv] from its [i]-th turn on, and the deferred [Close], which
    does not look at what was read. *)
Fixpoint Recv_loop (fuel : nat) (i : nat) (c : tcpConn) (s : S) : outcome (tcpConn * S) :=
  let now := clock env i in
  if ctxDone env i || cancelled c then Close now false c s else
  match fuel with
  | O => Hang
  | Datatypes.S fuel =>
      let c := setReadTimeout (cfg env) now c in
      on_panic (Decode c) (fun why => unwind now why (c, s)) (fun '(r, c) =>
      match r with
      | Err _ => Close now false c s
      | Ok pkg =>
          on_panic (OnData (eventHandler env) (connID c) pkg s) (fun why => unwind now why (c, s)) (fun '(s, acts) =>
          on_panic (perform now acts c s) (fun why => unwind now why (perform_left now acts c s)) (fun '(c, s) =>
          Recv_loop fuel (Datatypes.S i) c s))
      end)
  end.

Definition rd_pending (rd : bufioReader) : bytes :=
  rbuf rd ++ (fix go evs := match evs with
              | Chunk b bs :: evs => b :: bs ++ go evs
              | _ => []
              end) (events rd).

(** Every turn that goes on consumes a packet head, so the bytes still to come
    bound the number of turns. *)
Definition Recv (c : tcpConn) (s : S) : outcome (tcpConn * S) :=
  let now := clock env 0 in
  on_panic (OnConnOpened (eventHandler env) (connID c) s) (fun why => unwind now why (c, s)) (fun '(s, acts) =>
  on_panic (perform now acts c s) (fun why => unwind now why (perform_left now acts c s)) (fun '(c, s) =>
  Recv_loop (Datatypes.S (length (rd_pending (reader c)))) 0 c s)).
End Recv.

(** ** The transport *)

(** What [AcceptTCP] returns: a connection or an error, temporary or not.  With
    no event left it blocks. *)
Inductive acceptEvent := Accepted (conn : TCPConn) | AcceptErr (temporary : bool).

Record TcpTransport := MkTcpTransport {
  tcfg : TcpTransportCfg;
  handlerSet : bool;
  ctxCancelled : option bool;   (* [t.cancel]: nil before [Init] *)
  listening : option string
}.

Definition NewTcpTransport (cfg : TcpTransportCfg) : result error TcpTransport :=
  Ok (MkTcpTransport cfg false None None).

Definition SetConfig (t : TcpTransport) (cfg : TcpTransportCfg) : TcpTransport :=
  MkTcpTransport cfg (handlerSet t) (ctxCancelled t) (listening t).

(** [Init]; name resolution and the listening socket are the environment's. *)
Definition Init (resolve : string -> result error string) (listen : string -> option error)
    (t : TcpTransport) : option error * TcpTransport :=
  let t := MkTcpTransport (tcfg t) true (ctxCancelled t) (listening t) in
  match resolve (Addr (tcfg t)) with
  | Err e => (Some ("resolve err:" +:+ e), t)
  | Ok addr =>
      match listen addr with
      | Some e => (Some ("listen fail, err:" +:+ e), t)
      | None => (None, MkTcpTransport (tcfg t) true (Some false) (Some addr))
      end
  end.

Definition Uninit (t : TcpTransport) : outcome TcpTransport :=
  match ctxCancelled t with
  | None => Panic "nil function call"
  | Some _ => Done (MkTcpTransport (tcfg t) (handlerSet t) (Some true) (listening t))
  end.

(** The connections for which [serve] starts [Recv], from its [i]-th turn on,
    and whether it returned (closing the listener) or is blocked in a call of
    [AcceptTCP]. *)
Fixpoint serve (clock : nat -> Z) (ctxDone : nat -> bool) (i : nat) (evs : list acceptEvent)
    (ins : uidGeneratorIns) : list tcpConn * bool :=
  if ctxDone i then ([], true) else
  match evs with
  | [] => ([], false)
  | AcceptErr temporary :: evs =>
      if temporary then serve clock ctxDone (S i) evs ins else ([], true)
  | Accepted conn :: evs =>
      let '(c, ins) := NewTcpConn (clock i) ins conn in
      let '(cs, returned) := serve clock ctxDone (S i) evs ins in
      (c :: cs, returned)
  end.

(** ** The connection is a stream *)

Definition ev_pending : list netEvent -> bytes :=
  fix go evs := match evs with Chunk b bs :: evs => b :: bs ++ go evs | _ => [] end.

Fixpoint ev_ends (evs : list netEvent) : option rerr :=
  match evs with
  | [] => None
  | Chunk _ _ :: evs => ev_ends evs
  | NetErr e :: _ => Some e
  end.

Lemma rd_pending_eq rd : rd_pending rd = rbuf rd ++ ev_pending (events rd).
Proof. reflexivity. Qed.

(** A socket read takes a non-empty prefix of what is pending. *)
Lemma net_Read_spec evs n : (0 < n)%nat ->
  match ev_pending evs, ev_ends evs with
  | [], None => net_Read evs n = Hang
  | [], Some e => exists evs', net_Read evs n = Done (Err e, evs')
  | p, e => exists data evs', net_Read evs n = Done (Ok data, evs') /\ data <> [] /\
              (length data <= n)%nat /\ p = data ++ ev_pending evs' /\ ev_ends evs' = e
  end.
Proof.
  intros Hn. destruct evs as [|[b bs|e] evs]; [done| |simpl; eauto].
  destruct n as [|n]; [lia|]. cbn [ev_pending ev_ends net_Read take drop].
  exists (b :: take n bs). eexists. split; [reflexivity|]. split; [done|].
  split; [simpl; rewrite length_take; lia|].
  destruct (drop n bs) as [|b' bs'] eqn:Hd.
  - split; [|done]. simpl. f_equal. rewrite <- (take_drop n bs) at 1. by rewrite Hd, app_nil_r.
  - split; [|done]. simpl. f_equal. rewrite <- (take_drop n bs) at 1.
    by rewrite Hd, <- app_assoc.
Qed.

Lemma copy_short {A} (dst src : list A) k :
  k = Nat.min (length dst) (length src) ->
  copy dst src = (take k src ++ drop k dst, Z.of_nat k).
Proof. by intros ->. Qed.

(** A bufio read takes a non-empty prefix of what is pending. *)
Lemma bufio_Read_spec rd p : p <> [] ->
  match rd_pending rd, ev_ends (events rd) with
  | [], None => bufio_Read rd p = Hang
  | [], Some e => exists rd', bufio_Read rd p = Done (p, 0, Some e, rd')
  | q, e => exists k rd', (0 < k <= length p)%nat /\ (k <= length q)%nat /\
      bufio_Read rd p = Done (take k q ++ drop k p, Z.of_nat k, None, rd') /\
      rd_pending rd' = drop k q /\ ev_ends (events rd') = e
  end.
Proof.
  intros Hp. destruct rd as [buf evs]. rewrite rd_pending_eq. cbn [rbuf events].
  destruct p as [|p0 p']; [done|]. set (p := p0 :: p') in *.
  assert (0 < length p)%nat as Hlp by (simpl; lia).
  destruct buf as [|b buf].
  - simpl app. pose proof (net_Read_spec evs (length p) Hlp) as H1.
    assert (0 < Z.to_nat _maxBufSize)%nat as Hm by (unfold _maxBufSize; lia).
    pose proof (net_Read_spec evs (Z.to_nat _maxBufSize) Hm) as H2.
    unfold bufio_Read. cbn [rbuf events].
    change (match p with [] => Done ([], 0, None, BufioReader [] evs) | _ => ?x end) with x.
    destruct (ev_pending evs) as [|q0 q'] eqn:Hq.
    + destruct (ev_ends evs) as [e|].
      * destruct H1 as [evs1 ->], H2 as [evs2 ->]. go_run. case_match; eauto.
      * rewrite H1, H2. case_match; done.
    + destruct H1 as (d1 & evs1 & -> & Hd1 & Hl1 & Hq1 & He1).
      destruct H2 as (d2 & evs2 & -> & Hd2 & Hl2 & Hq2 & He2).
      go_run. case_match.
      * exists (length d1), (BufioReader [] evs1).
        assert (length d1 <> 0%nat) by (by destruct d1).
        split; [lia|]. split; [rewrite Hq1, length_app; lia|].
        rewrite (copy_short p d1 (length d1)) by lia.
        rewrite Hq1, take_app_length, drop_app_length, (take_ge d1) by lia. done.
      * pose (k := Nat.min (length p) (length d2)).
        assert (length d2 <> 0%nat) by (by destruct d2).
        exists k. eexists. split; [lia|]. split; [rewrite Hq2, length_app; lia|].
        rewrite (copy_short p d2 k) by done. rewrite Hq2.
        rewrite take_app_le, drop_app_le by lia. split; [reflexivity|].
        split; [|done]. rewrite rd_pending_eq. cbn [rbuf events]. by rewrite Nat2Z.id.
  - set (q := b :: buf). unfold bufio_Read. cbn [rbuf events].
    destruct ((q ++ ev_pending evs)) as [|q0 q'] eqn:Hq; [done|]. rewrite <- Hq.
    pose (k := Nat.min (length p) (length q)).
    assert (0 < length q)%nat by (simpl; lia).
    exists k. eexists. split; [lia|]. split; [rewrite length_app; lia|].
    change (match p with [] => Done ([], 0, None, _) | _ => ?x end) with x.
    change (match q with [] => ?y | _ => ?x end) with x.
    rewrite (copy_short p q k) by done. rewrite take_app_le, drop_app_le by lia.
    split; [reflexivity|]. split; [|done]. rewrite rd_pending_eq. cbn [rbuf events].
    by rewrite Nat2Z.id.
Qed.

(** [Read_loop] with [rest] still to fill after the filled prefix [got]. *)
Lemma Read_loop_spec fuel : forall rd got rest,
  (length rest <= fuel)%nat ->
  if decide (length rest <= length (rd_pending rd))%nat then
    exists rd', Read_loop fuel rd (got ++ rest) (Z.of_nat (length got)) =
      Done (got ++ take (length rest) (rd_pending rd),
            Z.of_nat (length got + length rest), None, rd') /\
      rd_pending rd' = drop (length rest) (rd_pending rd) /\
      ev_ends (events rd') = ev_ends (events rd)
  else match ev_ends (events rd) with
  | Some e => exists b' rd', Read_loop fuel rd (got ++ rest) (Z.of_nat (length got)) =
                Done (b', 0, Some e, rd')
  | None => Read_loop fuel rd (got ++ rest) (Z.of_nat (length got)) = Hang
  end.
Proof.
  induction fuel as [|fuel IH]; intros rd got rest Hf.
  { destruct rest; [|simpl in Hf; lia]. rewrite decide_True by (simpl; lia).
    exists rd. simpl. rewrite app_nil_r, Z.ltb_irrefl, Nat.add_0_r, take_0, app_nil_r. done. }
  destruct (decide (rest = [])) as [->|Hne].
  { rewrite decide_True by (simpl; lia). exists rd. simpl.
    rewrite app_nil_r, Z.ltb_irrefl, Nat.add_0_r, take_0, app_nil_r. done. }
  assert (0 < length rest)%nat by (destruct rest; [done|simpl; lia]).
  cbn [Read_loop]. destruct (Z.ltb_spec (Z.of_nat (length got)) (Z.of_nat (length (got ++ rest)))) as [_|Hc];
    [|rewrite length_app in Hc; lia].
  rewrite slice_from_Done by (rewrite ?length_app; lia). go_run.
  rewrite Nat2Z.id, drop_app_length, take_app_length.
  pose proof (bufio_Read_spec rd rest Hne) as Hr.
  destruct (rd_pending rd) as [|q0 q'] eqn:Hq.
  - rewrite decide_False by (simpl; lia). destruct (ev_ends (events rd)) as [e|].
    + destruct Hr as [rd' ->]. go_run. eauto.
    + by rewrite Hr.
  - destruct Hr as (k & rd' & [Hk0 Hk] & Hkq & -> & Hp' & He'). go_run.
    rewrite <- Hq in *. clear q0 q' Hq. set (q := rd_pending rd) in *.
    rewrite app_assoc.
    replace (Z.of_nat (length got) + Z.of_nat k) with (Z.of_nat (length got + k)) by lia.
    specialize (IH rd' (got ++ take k q) (drop k rest)).
    rewrite Hp', He', !length_drop, !length_app, length_take in IH. specialize (IH ltac:(lia)).
    replace (Nat.min k (length q)) with k in IH by lia.
    destruct (decide (length rest <= length q)%nat).
    + rewrite decide_True in IH by lia. destruct IH as (rd'' & Hl & Hp'' & He'').
      exists rd''. rewrite Hl, Hp'', He'', drop_drop, <- app_assoc, take_take_drop.
      replace (k + (length rest - k))%nat with (length rest) by lia.
      replace (length got + k + (length rest - k))%nat with (length got + length rest)%nat by lia. done.
    + by rewrite decide_False in IH by lia.
Qed.

(** Only the reader changes while a connection is read. *)
Definition reads_only (c c' : tcpConn) : Prop := exists rd, c' = set_reader c rd.

#[global] Instance reads_only_preorder : PreOrder reads_only.
Proof.
  split.
  - intros c. exists (reader c). by destruct c.
  - intros c1 c2 c3 [r2 ->] [r3 ->]. by exists r3.
Qed.

Lemma Read_empty c b : b = [] -> Read c b = Done (b, 0, None, c).
Proof. by intros ->. Qed.

Lemma Read_nonempty c b : b <> [] ->
  Read c b = ('(b, n, err, rd) ← Read_loop (length b) (reader c) b 0;
              Done (b, n, err, set_reader c rd)).
Proof. by destruct b. Qed.

Lemma Read_full c b : b <> [] -> (length b <= length (rd_pending (reader c)))%nat ->
  exists c', Read c b = Done (take (length b) (rd_pending (reader c)), Z.of_nat (length b), None, c') /\
    rd_pending (reader c') = drop (length b) (rd_pending (reader c)) /\
    ev_ends (events (reader c')) = ev_ends (events (reader c)) /\ reads_only c c'.
Proof.
  intros Hb Hl. rewrite Read_nonempty by done.
  pose proof (Read_loop_spec (length b) (reader c) [] b ltac:(done)) as Hr.
  rewrite decide_True in Hr by done. destruct Hr as (rd' & Hr & Hp & He).
  simpl app in Hr. simpl length in Hr. change (Z.of_nat 0) with 0 in Hr. rewrite Hr. exists (set_reader c rd').
  repeat split; [done..|]. by exists rd'.
Qed.

Lemma Read_short c b : (length (rd_pending (reader c)) < length b)%nat ->
  match ev_ends (events (reader c)) with
  | Some e => exists b' c', Read c b = Done (b', 0, Some e, c') /\ reads_only c c'
  | None => Read c b = Hang
  end.
Proof.
  intros Hl. rewrite Read_nonempty by (intros ->; simpl in Hl; lia).
  pose proof (Read_loop_spec (length b) (reader c) [] b ltac:(done)) as Hr.
  rewrite decide_False in Hr by lia. simpl app in Hr. simpl length in Hr. change (Z.of_nat 0) with 0 in Hr.
  destruct (ev_ends (events (reader c))).
  - destruct Hr as (b' & rd' & ->). exists b', (set_reader c rd'). split; [done|]. by exists rd'.
  - by rewrite Hr.
Qed.

#[global] Instance tcpConn_ConnStream : ConnStream tcpConn := {|
  pending c := rd_pending (reader c);
  ends_with c := ev_ends (events (reader c));
  same_conn := reads_only;
  read_empty := Read_empty;
  read_full := Read_full;
  read_short := Read_short
|}.

(** ** Sending *)

(** A writer whose socket takes everything and that holds nothing back. *)
Definition writer_after (l : bytes) : bufioWriter := BufioWriter [] None l None.

Lemma setWriteTimeout_frame cfg now c :
  connID (setWriteTimeout cfg now c) = connID c /\
  reader (setWriteTimeout cfg now c) = reader c /\
  writer (setWriteTimeout cfg now c) = writer c /\
  cancelled (setWriteTimeout cfg now c) = cancelled c.
Proof. unfold setWriteTimeout. repeat case_match; done. Qed.

Lemma bufio_Write_loop_enough fuel w p nn :
  (Z.of_nat (length p) <= _maxBufSize - Z.of_nat (length (wbuf w))) -> werr w = None ->
  bufio_Write_loop fuel w p nn = Done (nn + Z.of_nat (length p), None, set_wbuf w (wbuf w ++ p) None).
Proof.
  intros Hl He. destruct fuel; simpl; rewrite He;
    (destruct (Z.ltb_spec (_maxBufSize - Z.of_nat (length (wbuf w))) (Z.of_nat (length p))) as [Hc|_];
     [lia|done]).
Qed.

Lemma write_flush_ok l p :
  exists n w1, bufio_Write (writer_after l) p = Done (n, None, w1) /\
               bufio_Flush w1 = (None, writer_after (l ++ p)).
Proof.
  unfold bufio_Write. destruct (decide (Z.of_nat (length p) <= _maxBufSize)).
  - rewrite bufio_Write_loop_enough by (simpl; try lia; done). do 2 eexists. split; [reflexivity|].
    unfold bufio_Flush. simpl. destruct p as [|b p]; simpl; by rewrite ?app_nil_r.
  - generalize 2%nat as f. intros f. cbn [bufio_Write_loop]. simpl wbuf. simpl werr. simpl length.
    destruct (Z.ltb_spec (_maxBufSize - Z.of_nat 0) (Z.of_nat (length p))); [|lia].
    rewrite bool_decide_true by done. cbn [andb]. unfold net_Write. cbn [accepts writer_after].
    rewrite drop_all. rewrite bufio_Write_loop_enough by done.
    do 2 eexists. split; reflexivity.
Qed.

Lemma Send_ok cfg now c data l :
  packet_ok data -> writer c = writer_after l ->
  exists c', Send cfg now c data = Done (None, c') /\ writer c' = writer_after (l ++ wire data) /\
             reader c' = reader c /\ cancelled c' = cancelled c /\ connID c' = connID c.
Proof.
  intros Hp Hw. unfold Send. rewrite Encode_wire by done. go_run.
  destruct (setWriteTimeout_frame cfg now c) as (Hi & Hr & Hw' & Hc).
  destruct (write_flush_ok l (wire data)) as (n & w1 & H1 & H2).
  rewrite Hw', Hw, H1. go_run. rewrite H2. eexists. split; [reflexivity|]. done.
Qed.

(** The sends of a list of packets, made one after the other. *)
Lemma sendAll_ok {S} (env : Env S) now ds : forall c l,
  Forall packet_ok ds -> writer c = writer_after l ->
  exists c', sendAll env now c ds = Done c' /\
             writer c' = writer_after (l ++ concat (wire <$> ds)) /\
             reader c' = reader c /\ cancelled c' = cancelled c /\ connID c' = connID c.
Proof.
  induction ds as [|d ds IH]; intros c l Hd Hw.
  { exists c. simpl. by rewrite app_nil_r. }
  apply Forall_cons in Hd as [Hd Hds]. cbn [fmap list_fmap sendAll].
  destruct (Send_ok (cfg env) now c d l Hd Hw) as (c1 & -> & Hw1 & Hr1 & Hc1 & Hi1).
  go_run. destruct (IH c1 (l ++ wire d) Hds Hw1) as (c2 & -> & Hw2 & Hr2 & Hc2 & Hi2).
  exists c2. split; [done|]. rewrite Hw2, Hr2, Hc2, Hi2. cbn [concat]. by rewrite <- app_assoc.
Qed.

Lemma perform_sends {S} (env : Env S) now ds : forall c s,
  perform env now (ASend <$> ds) c s = (c ← sendAll env now c ds; Done (c, s)).
Proof.
  induction ds as [|d ds IH]; intros c s; [done|]. cbn [fmap list_fmap perform sendAll].
  destruct (Send (cfg env) now c d) as [[e c']| |]; [|done|done]. go_run. apply IH.
Qed.

(** ** Event handlers that record what they are told *)

Inductive event := EvOpened (id : Z) | EvData (id : Z) (pkg : bytes) | EvClosed (id : Z) (active : bool).

(** A server that answers each packet with the calls [reply] chooses from all
    it has seen so far. *)
Definition server (reply : list event -> bytes -> list act) : EventHandler (list event) :=
  MkEventHandler
    (fun id s => Done (s ++ [EvOpened id], []))
    (fun id active s => Done (s ++ [EvClosed id active], []))
    (fun id pkg s => Done (s ++ [EvData id pkg], reply s pkg)).

(** What the server sends back over a sequence of packets. *)
Fixpoint replies (reply : list event -> bytes -> list bytes) (id : Z) (s : list event)
    (pkgs : list bytes) : bytes :=
  match pkgs with
  | [] => []
  | p :: pkgs => concat (wire <$> reply s p) ++ replies reply id (s ++ [EvData id p]) pkgs
  end.

Lemma setReadTimeout_frame cfg now c :
  connID (setReadTimeout cfg now c) = connID c /\
  reader (setReadTimeout cfg now c) = reader c /\
  writer (setReadTimeout cfg now c) = writer c /\
  cancelled (setReadTimeout cfg now c) = cancelled c.
Proof. unfold setReadTimeout. repeat case_match; done. Qed.

Lemma Close_server reply0 cfg0 clk ctx now active c s l :
  writer c = writer_after l ->
  exists c', Close (MkEnv cfg0 (server reply0) clk ctx) now active c s =
               Done (c', s ++ [EvClosed (connID c) active]) /\
             sent (writer c') = l /\ closed c' = true /\ cancelled c' = true /\ connID c' = connID c.
Proof.
  intros Hw. unfold Close. rewrite Hw. cbn. eexists. split; [reflexivity|]. done.
Qed.

Lemma wire_length_pos p : packet_ok p -> (8 <= length (wire p))%nat.
Proof. intros _. unfold wire. rewrite !length_app, !length_le_split. lia. Qed.

(** A stream that ends inside a packet: less than a head, or a head and not
    all of the bytes it announces. *)
Definition incomplete (tl : bytes) : Prop :=
  (length tl < 8)%nat \/
  exists h b body, tl = le_split 4 h ++ le_split 4 b ++ body /\
    fits_u 32 h /\ fits_u 32 b /\ 4 + h + b < 2 ^ 32 /\ Z.of_nat (length body) < h + b.

Lemma Decode_incomplete (c : tcpConn) e :
  incomplete (pending c) -> ends_with c = Some e ->
  exists c', Decode c = Done (Err (ReadErr e), c') /\ reads_only c c'.
Proof.
  intros [Hl|(h & b & body & Hp & Hh & Hb & Hhb & Hl)] He.
  - pose proof (Decode_short_head c Hl) as Hd. by rewrite He in Hd.
  - pose proof (Decode_short_body c h b body Hh Hb Hhb Hl Hp) as Hd. by rewrite He in Hd.
Qed.

(** *** A handler given by what it computes

    [step] is what [OnData] does with a packet satisfying [P]: the new state and
    the packets to send; [stop] is what [OnConnClosed] does. *)
Section Steps.
Context {St : Type} (eh : EventHandler St) (P : bytes -> Prop).
Context (step : Z -> bytes -> St -> St * list bytes) (stop : Z -> St -> St * list bytes).
Hypothesis Hstep : forall id p s, P p ->
  OnData eh id p s = Done (fst (step id p s), ASend <$> snd (step id p s)) /\
  Forall packet_ok (snd (step id p s)).
Hypothesis Hstop : forall id s,
  OnConnClosed eh id false s = Done (stop id s) /\ Forall packet_ok (snd (stop id s)).

(** The state after a sequence of packets and the bytes sent for them. *)
Fixpoint steps (id : Z) (s : St) (pkgs : list bytes) : St * bytes :=
  match pkgs with
  | [] => (s, [])
  | p :: pkgs =>
      let s1 := fst (step id p s) in
      (fst (steps id s1 pkgs), concat (wire <$> snd (step id p s)) ++ snd (steps id s1 pkgs))
  end.

Lemma Close_stop cfg0 clk ctx now c s l :
  writer c = writer_after l ->
  exists c', Close (MkEnv cfg0 eh clk ctx) now false c s = Done (c', fst (stop (connID c) s)) /\
             sent (writer c') = l ++ concat (wire <$> snd (stop (connID c) s)) /\ closed c' = true.
Proof.
  intros Hw. unfold Close. rewrite Hw. cbn [bufio_Flush writer_after werr wbuf eventHandler].
  destruct (Hstop (connID c) s) as [Ho Hp]. cbn [connID set_writer]. rewrite Ho.
  destruct (stop (connID c) s) as [s' ds]. go_run. cbn [fst snd] in *.
  match goal with |- context [sendAll ?env now ?c1 ds] =>
    destruct (sendAll_ok env now ds c1 l Hp eq_refl) as (c' & -> & Hw' & _) end.
  go_run. eexists. split; [reflexivity|]. cbn. by rewrite Hw'.
Qed.

Lemma Recv_loop_packets cfg0 clk e tl : incomplete tl ->
  forall pkgs fuel i c s l,
  Forall packet_ok pkgs -> Forall P pkgs -> writer c = writer_after l -> cancelled c = false ->
  pending c = concat (wire <$> pkgs) ++ tl -> ends_with c = Some e ->
  (length (pending c) < fuel)%nat ->
  let '(s', out) := steps (connID c) s pkgs in
  exists c', Recv_loop (MkEnv cfg0 eh clk (fun _ => false)) fuel i c s
      = Done (c', fst (stop (connID c) s')) /\
    sent (writer c') = l ++ out ++ concat (wire <$> snd (stop (connID c) s')) /\ closed c' = true.
Proof.
  intros Htl. set (env := MkEnv _ _ _ _).
  induction pkgs as [|p pkgs IH]; intros fuel i c s l Hpk HP Hw Hc Hp He Hf;
    (destruct fuel as [|fuel]; [lia|]); cbn [Recv_loop]; rewrite Hc;
    change (ctxDone env i || false) with false; cbv iota;
    destruct (setReadTimeout_frame (cfg env) (clock env i) c) as (Hi0 & Hr0 & Hw0 & Hc0);
    set (c0 := setReadTimeout _ _ c) in *.
  - destruct (Decode_incomplete c0 e) as (c1 & -> & rd & ->).
    { simpl in Hp |- *. by rewrite Hr0, Hp. }
    { simpl in He |- *. by rewrite Hr0. }
    go_run. destruct (Close_stop cfg0 clk (fun _ => false) (clock env i) (set_reader c0 rd) s l)
      as (c' & Hcl & Hs & Hd).
    { simpl. by rewrite Hw0. }
    cbn [steps]. exists c'. fold env in Hcl. rewrite Hcl.
    cbn [connID set_reader] in Hs |- *. rewrite Hi0 in *. done.
  - apply Forall_cons in Hpk as [Hpp Hpk]. apply Forall_cons in HP as [HPp HP].
    cbn [fmap list_fmap concat] in Hp. rewrite <- app_assoc in Hp.
    destruct (Decode_wire c0 p (concat (wire <$> pkgs) ++ tl)) as (c1 & -> & Hp1 & He1 & rd & ->).
    { done. }
    { simpl in Hp |- *. by rewrite Hr0, Hp. }
    go_run. cbn [eventHandler env connID set_reader]. rewrite Hi0.
    destruct (Hstep (connID c) p s HPp) as [-> Hds]. go_run. rewrite perform_sends.
    destruct (sendAll_ok env (clock env i) (snd (step (connID c) p s)) (set_reader c0 rd) l Hds)
      as (c2 & -> & Hw2 & Hr2 & Hc2 & Hi2).
    { simpl. by rewrite Hw0. }
    go_run. cbn [reader set_reader cancelled connID] in Hr2, Hc2, Hi2. rewrite Hi0 in Hi2.
    specialize (IH fuel (S i) c2 (fst (step (connID c) p s)) _ Hpk HP Hw2).
    cbn [steps]. rewrite Hi2 in IH.
    destruct (steps (connID c) (fst (step (connID c) p s)) pkgs) as [s' out]. cbn [fst snd].
    rewrite <- (app_assoc (concat _)), (app_assoc l). apply IH.
    + by rewrite Hc2, Hc0.
    + simpl. rewrite Hr2. exact Hp1.
    + simpl. rewrite Hr2. simpl in He1, He. by rewrite He1, Hr0.
    + simpl. rewrite Hr2. simpl in Hp1. rewrite Hp1.
      pose proof (wire_length_pos p Hpp). rewrite Hp, length_app in Hf. lia.
Qed.

(** A new connection carrying [pkgs] and the start of one more packet. *)
Lemma Recv_packets cfg0 clk e tl pkgs evs now ins la ra s s0 :
  (forall id, OnConnOpened eh id s0 = Done (s id, [])) -> incomplete tl ->
  Forall packet_ok pkgs -> Forall P pkgs ->
  ev_pending evs = concat (wire <$> pkgs) ++ tl -> ev_ends evs = Some e ->
  let c := fst (NewTcpConn now ins (MkTCPConn la ra evs None)) in
  let '(s', out) := steps (connID c) (s (connID c)) pkgs in
  exists c', Recv (MkEnv cfg0 eh clk (fun _ => false)) c s0 = Done (c', fst (stop (connID c) s')) /\
    sent (writer c') = out ++ concat (wire <$> snd (stop (connID c) s')) /\ closed c' = true.
Proof.
  intros Ho Htl Hpk HP Hp He c. unfold Recv.
  assert (Hc : rd_pending (reader c) = ev_pending evs /\ ends_with c = Some e /\
               writer c = writer_after [] /\ cancelled c = false).
  { unfold c, NewTcpConn. destruct (GenerateUID _ _). done. }
  destruct Hc as (Hc1 & Hc2 & Hc3 & Hc4).
  cbn [eventHandler]. rewrite Ho. go_run. cbn [perform]. go_run.
  apply (Recv_loop_packets cfg0 clk e tl Htl pkgs (S (length (rd_pending (reader c)))) 0 c
    (s (connID c)) []); try done.
  { simpl. by rewrite Hc1, Hp. }
  { simpl. lia. }
Qed.
End Steps.

(** *** The recording server *)

Lemma server_steps reply id pkgs : forall s,
  steps (fun id p s => (s ++ [EvData id p], reply s p)) id s pkgs =
    (s ++ (EvData id <$> pkgs), replies reply id s pkgs).
Proof.
  induction pkgs as [|p pkgs IH]; intros s; simpl; [by rewrite app_nil_r|].
  rewrite IH. simpl. by rewrite <- app_assoc.
Qed.

(** C4. Framing of a byte stream, whatever its fragmentation.  A client sends the
    packets [pkgs] and then stops, closes or fails inside a packet; the network
    delivers the bytes in any chunks; the server answers each packet with any
    well-formed packets.  Then [Recv] returns, the handler was told that the
    connection opened, then every packet in order and as the client encoded
    it, then once that it closed, and the peer got exactly the encoded
    answers, in order. *)
Theorem recv_frames_packets (reply : list event -> bytes -> list bytes) (cfg0 : TcpTransportCfg)
    (clk : nat -> Z) (e : rerr) (pkgs : list bytes) (tl : bytes) (evs : list netEvent)
    (now : Z) (ins : uidGeneratorIns) (la ra : string) :
  (forall s p, Forall packet_ok (reply s p)) ->
  Forall packet_ok pkgs -> incomplete tl ->
  ev_pending evs = concat (wire <$> pkgs) ++ tl -> ev_ends evs = Some e ->
  let c := fst (NewTcpConn now ins (MkTCPConn la ra evs None)) in
  exists c',
    Recv (MkEnv cfg0 (server (fun s p => ASend <$> reply s p)) clk (fun _ => false)) c []
      = Done (c', [EvOpened (connID c)] ++ (EvData (connID c) <$> pkgs) ++ [EvClosed (connID c) false]) /\
    sent (writer c') = replies reply (connID c) [EvOpened (connID c)] pkgs /\ closed c' = true.
Proof.
  intros Hrep Hpk Htl Hp He c.
  pose proof (Recv_packets (server (fun s p => ASend <$> reply s p)) (fun _ => True)
    (fun id p s => (s ++ [EvData id p], reply s p)) (fun id s => (s ++ [EvClosed id false], []))
    ltac:(intros; split; [done|apply Hrep]) ltac:(intros; split; [done|constructor])
    cfg0 clk e tl pkgs evs now ins la ra (fun id => [EvOpened id]) []
    ltac:(done) Htl Hpk ltac:(by apply Forall_true) Hp He) as Hr.
  cbv zeta in Hr. fold c in Hr. rewrite server_steps in Hr. destruct Hr as (c' & Hr & Hs & Hcl).
  exists c'. rewrite Hr, Hs. cbn [fst snd fmap list_fmap concat]. by rewrite <- app_assoc, app_nil_r.
Qed.

(** A request and a second, cut by the end of the stream; the chunks cross the
    packet boundaries, and each request is acknowledged. *)
Lemma recv_frames_packets_witness :
  let p1 := [Byte.x01; Byte.x00; Byte.x00; Byte.x00; Byte.x41; Byte.x42; Byte.x43] in
  let p2 := [Byte.x00; Byte.x00; Byte.x00; Byte.x00; Byte.x44] in
  let w := wire p1 ++ wire p2 ++ [Byte.x01; Byte.x00] in
  let evs := [Chunk Byte.x01 [Byte.x00; Byte.x00]; Chunk Byte.x00 (take 9 (drop 4 w))] ++
             match drop 13 w with b :: bs => [Chunk b bs; NetErr EOF] | [] => [] end in
  let env := MkEnv (MkTcpTransportCfg ":8000" 60) (server (fun s p => ASend <$> [p2]))
               (fun _ => 1629941250 * 10 ^ 9) (fun _ => false) in
  exists c', Recv env (fst (NewTcpConn (1629941250 * 10 ^ 9) None (MkTCPConn "l" "r" evs None))) []
    = Done (c', [EvOpened 0; EvData 0 p1; EvData 0 p2; EvClosed 0 false]) /\
      sent (writer c') = wire p2 ++ wire p2.
Proof.
  intros p1 p2 w evs env.
  assert (Hp : Forall packet_ok [p1; p2]) by (repeat constructor; vm_compute; congruence).
  destruct (recv_frames_packets (fun _ _ => [p2])
    (MkTcpTransportCfg ":8000" 60) (fun _ => 1629941250 * 10 ^ 9) EOF [p1; p2] [Byte.x01; Byte.x00] evs
    (1629941250 * 10 ^ 9) None "l" "r") as (c' & Hr & Hs & _).
  - intros _ _. by apply Forall_cons in Hp as [_ Hp].
  - done.
  - left. vm_compute. lia.
  - reflexivity.
  - reflexivity.
  - exists c'. split; [|exact Hs]. exact Hr.
Defined.

(** ** What a remote peer can cause *)

Lemma Decode_panics_iff (c : tcpConn) (h b : Z) (tl : bytes) :
  fits_u 32 h -> fits_u 32 b -> pending c = le_split 4 h ++ le_split 4 b ++ tl ->
  panics (Decode c) <-> (4 + h + b) mod 2 ^ 32 < 4.
Proof.
  intros Hh Hb Hp.
  destruct (Decode_head c h b tl Hh Hb Hp) as (c1 & Hp1 & He1 & _ & ->).
  cbv zeta. unfold fits_u in *.
  assert (u32 (u32 (4 + h) + b) = (4 + h + b) mod 2 ^ 32) as E.
  { unfold wrap_u. by rewrite Zplus_mod_idemp_l. }
  rewrite E. destruct (Z.ltb_spec ((4 + h + b) mod 2 ^ 32) 4) as [Hlt|Hge].
  - split; [done|intros _; by eexists].
  - split; [intros [w Hw]; exfalso|lia].
    set (n := (4 + h + b) mod 2 ^ 32 - 4) in *. revert Hw.
    destruct (decide (make_bytes n = [])) as [En|Hne].
    { rewrite (read_empty c1 _ En). go_run. by case_match. }
    destruct (decide (length (make_bytes n) <= length (pending c1))%nat) as [Hl|Hl].
    { destruct (read_full c1 (make_bytes n) Hne Hl) as (c2 & -> & _). go_run. by case_match. }
    pose proof (read_short c1 (make_bytes n) ltac:(lia)) as Hs.
    destruct (ends_with c1); [|by rewrite Hs]. by destruct Hs as (b' & c2 & -> & _).
Qed.

(** *** Nothing but a handler can block a [Close]

    [bufio.Writer.Write] ends, whatever the writer holds. *)
Lemma bufio_Write_direct fuel w p nn : wbuf w = [] -> bufio_Write_loop (S fuel) w p nn <> Hang.
Proof.
  intros Hb. cbn [bufio_Write_loop]. rewrite Hb. destruct (_ && _); [|by destruct (werr w)].
  unfold net_Write. destruct (accepts w) as [k|].
  - destruct (Nat.ltb_spec (Nat.min k (length p)) (length p)) as [Hk|Hk].
    + by destruct fuel; cbn; rewrite andb_false_r.
    + rewrite drop_ge, bufio_Write_loop_enough by (done || lia). done.
  - rewrite drop_ge, bufio_Write_loop_enough by (done || lia). done.
Qed.

Lemma bufio_Write_no_hang w p : bufio_Write w p <> Hang.
Proof.
  unfold bufio_Write. destruct (wbuf w) as [|b buf] eqn:Hb; [by apply bufio_Write_direct|].
  remember 2%nat as n. cbn [bufio_Write_loop]. rewrite Hb. destruct (_ && _); [|by destruct (werr w)].
  unfold bufio_Flush. cbn [set_wbuf werr wbuf]. cbn [app]. destruct (net_Write _ _) as [[k [e|]] w'].
  - subst n. cbn [bufio_Write_loop werr set_wbuf]. rewrite bool_decide_false by done. by rewrite andb_false_r.
  - subst n. by apply bufio_Write_direct.
Qed.

Lemma bind_no_hang {A B} (m : outcome A) (f : A -> outcome B) : m <> Hang -> (forall a, f a <> Hang) -> (m ≫= f) <> Hang.
Proof. destruct m; cbn; auto. Qed.

Lemma Encode_no_hang d : Encode d <> Hang.
Proof.
  assert (Hs : forall (l : bytes) lo hi, slice l lo hi <> Hang) by (intros l lo hi; unfold slice; by destruct (_ && _)).
  assert (Hg : forall l, LE_Uint32 l <> Hang) by (intros l; unfold LE_Uint32; by destruct (_ <? _)%nat).
  assert (Hp : forall l v, LE_PutUint32 l v <> Hang) by (intros l v; unfold LE_PutUint32; by destruct (_ <? _)%nat).
  unfold Encode. repeat (apply bind_no_hang; [first [apply Hs|apply Hg|apply Hp]|intros ?]). done.
Qed.

Lemma Send_no_hang cfg now c d : Send cfg now c d <> Hang.
Proof.
  unfold Send. pose proof (Encode_no_hang d) as He.
  destruct (Encode d) as [r| |]; [|done|done]. go_run.
  pose proof (bufio_Write_no_hang (writer (setWriteTimeout cfg now c)) r) as Hw.
  destruct (bufio_Write _ _) as [[[n [e|]] w]| |]; [done| |done|done]. go_run. by destruct (bufio_Flush w).
Qed.

Lemma Close_no_hang {S} (env : Env S) now active c s :
  OnConnClosed (eventHandler env) (connID c) active s <> Hang -> Close env now active c s <> Hang.
Proof.
  intros Ho. unfold Close. destruct (bufio_Flush _) as [e w]. cbn [connID set_writer].
  destruct (OnConnClosed _ _ _ _) as [[s1 ds]| |]; [|done|done]. go_run.
  assert (Hs : forall c, sendAll env now c ds <> Hang).
  { clear. induction ds as [|d ds IH]; intros c0; [done|]. cbn [sendAll]. pose proof (Send_no_hang (cfg env) now c0 d).
    destruct (Send _ _ _ _) as [[e1 c1]| |]; [|done|done]. apply IH. }
  specialize (Hs (set_writer c w)). by destruct (sendAll _ _ _ _).
Qed.

Lemma perform_no_hang {S} (env : Env S) : (forall id active s, OnConnClosed (eventHandler env) id active s <> Hang) ->
  forall now acts c s, perform env now acts c s <> Hang.
Proof.
  intros Ho now. induction acts as [|[d|active] acts IH]; intros c s; cbn [perform]; [done| |].
  - pose proof (Send_no_hang (cfg env) now c d). destruct (Send _ _ _ _) as [[e1 c1]| |]; [|done|done]. apply IH.
  - pose proof (Close_no_hang env now active c s (Ho _ _ _)). destruct (Close _ _ _ _ _) as [[c1 s1]| |]; [|done|done]. apply IH.
Qed.

(** A [Close] that returns has closed the socket. *)
Lemma Close_closes {S} (env : Env S) now active c s c' s' : Close env now active c s = Done (c', s') -> closed c' = true.
Proof.
  unfold Close. destruct (bufio_Flush _) as [e w]. intros Hc. apply bind_Done_inv in Hc as ([s1 ds] & _ & Hc).
  apply bind_Done_inv in Hc as (c1 & _ & Hc). by simplify_eq.
Qed.

(** A panic goes on after a [Close] that returns. *)
Lemma unwind_panics {S A} (env : Env S) now why cs :
  Close env now false cs.1 cs.2 <> Hang -> panics (unwind env now why cs : outcome A).
Proof. intros Hc. unfold unwind. destruct (Close _ _ _ _ _); [by eexists|by eexists|done]. Qed.

(** A remote peer can crash the process.  [Decode] panics on a head exactly when
    its two sizes and the four bytes the codec puts in front of the packet add
    up, in 32 bits, to less than four; nothing on the receive path recovers, so
    those eight bytes, from any client, end [Recv] in a panic. *)
Theorem recv_head_overflow_panics (reply : list event -> bytes -> list act) (cfg0 : TcpTransportCfg)
    (clk : nat -> Z) (h b : Z) (tl : bytes) (evs : list netEvent)
    (now : Z) (ins : uidGeneratorIns) (la ra : string) (acc : option nat) :
  fits_u 32 h -> fits_u 32 b -> ev_pending evs = le_split 4 h ++ le_split 4 b ++ tl ->
  let c := fst (NewTcpConn now ins (MkTCPConn la ra evs acc)) in
  (panics (Decode c) <-> (4 + h + b) mod 2 ^ 32 < 4) /\
  ((4 + h + b) mod 2 ^ 32 < 4 -> panics (Recv (MkEnv cfg0 (server reply) clk (fun _ => false)) c [])).
Proof.
  intros Hh Hb Hp c. assert (Hc : pending c = ev_pending evs /\ cancelled c = false).
  { unfold c, NewTcpConn. by destruct (GenerateUID _ _). }
  destruct Hc as [Hc Hcan]. rewrite <- Hc in Hp. clearbody c.
  split; [by eapply Decode_panics_iff|]. intros Hov.
  unfold Recv. cbn [eventHandler server OnConnOpened]. go_run. cbn [perform]. go_run.
  cbn [Recv_loop cfg ctxDone clock]. rewrite Hcan. cbn [orb].
  destruct (setReadTimeout_frame cfg0 (clk 0%nat) c) as (_ & Hr & _ & _).
  destruct (Decode_panics_iff (setReadTimeout cfg0 (clk 0%nat) c) h b tl Hh Hb) as [_ Hd].
  { simpl in Hp |- *. by rewrite Hr. }
  destruct (Hd Hov) as [w ->]. apply unwind_panics. unfold Close. by destruct (bufio_Flush _).
Qed.

(** A header size of 2^32 - 4 and an empty body, in two chunks. *)
Lemma recv_head_overflow_panics_witness :
  let c := fst (NewTcpConn 0 None (MkTCPConn "l" "r"
             [Chunk Byte.xfc [Byte.xff; Byte.xff; Byte.xff]; Chunk Byte.x00 [Byte.x00; Byte.x00; Byte.x00]] None)) in
  panics (Recv (MkEnv (MkTcpTransportCfg ":8000" 60) (server (fun _ _ => [])) (fun _ => 0) (fun _ => false)) c []).
Proof.
  apply (recv_head_overflow_panics (fun _ _ => []) (MkTcpTransportCfg ":8000" 60) (fun _ => 0)
    (2 ^ 32 - 4) 0 []); [unfold fits_u; lia|unfold fits_u; lia|reflexivity|reflexivity].
Defined.

(** A connection closed by the server is reported closed twice.  When the
    handler closes the connection on receiving a packet, [Close] reports it
    closed, and the [Close] deferred by [Recv] reports it again: the sync.Once
    that should prevent this is a new one in every call. *)
Theorem recv_active_close_reported_twice (reply : list event -> bytes -> list act)
    (cfg0 : TcpTransportCfg) (clk : nat -> Z) (p : bytes) (tl : bytes) (evs : list netEvent)
    (now : Z) (ins : uidGeneratorIns) (la ra : string) :
  let c := fst (NewTcpConn now ins (MkTCPConn la ra evs None)) in
  packet_ok p -> ev_pending evs = wire p ++ tl ->
  reply [EvOpened (connID c)] p = [AClose true] ->
  exists c', Recv (MkEnv cfg0 (server reply) clk (fun _ => false)) c [] =
    Done (c', [EvOpened (connID c); EvData (connID c) p;
               EvClosed (connID c) true; EvClosed (connID c) false]).
Proof.
  intros c Hpk Hp Hrep.
  assert (Hc : pending c = ev_pending evs /\ cancelled c = false /\ writer c = writer_after []).
  { unfold c, NewTcpConn. by destruct (GenerateUID _ _). }
  destruct Hc as (Hc & Hcan & Hw). rewrite <- Hc in Hp. clearbody c.
  unfold Recv. cbn [eventHandler server OnConnOpened]. go_run. cbn [perform]. go_run.
  assert (exists f, length (rd_pending (reader c)) = S f) as [f ->].
  { change (rd_pending (reader c) = wire p ++ tl) in Hp. rewrite Hp, length_app. pose proof (wire_length_pos p Hpk).
    destruct (length (wire p)) as [|k]; [lia|]. by exists (k + length tl)%nat. }
  cbn [Recv_loop]. cbn [cfg ctxDone clock]. rewrite Hcan. cbn [orb].
  destruct (setReadTimeout_frame cfg0 (clk 0%nat) c) as (Hi0 & Hr & Hw0 & _).
  destruct (Decode_wire (setReadTimeout cfg0 (clk 0%nat) c) p tl Hpk) as (c1 & -> & _ & _ & rd & ->).
  { simpl in Hp |- *. by rewrite Hr. }
  go_run. cbn [eventHandler server OnData connID set_reader]. go_run. simpl app.
  rewrite Hrep. cbn [perform]. rewrite Hi0.
  edestruct (Close_server reply cfg0 clk (fun _ => false) (clk 0%nat) true
    (set_reader (setReadTimeout cfg0 (clk 0%nat) c) rd)) as (c2 & -> & _ & _ & Hcan2 & Hi2).
  { simpl. by rewrite Hw0. }
  go_run. rewrite Hcan2. cbn [orb]. unfold Close at 1. destruct (bufio_Flush _) as [e w].
  cbn. rewrite Hi2. cbn. rewrite Hi0. eexists. reflexivity.
Qed.

Lemma recv_active_close_reported_twice_witness :
  let p := [Byte.x00; Byte.x00; Byte.x00; Byte.x00] in
  exists c', Recv (MkEnv (MkTcpTransportCfg ":8000" 60) (server (fun _ _ => [AClose true])) (fun _ => 0) (fun _ => false))
    (fst (NewTcpConn 0 None (MkTCPConn "l" "r" [Chunk Byte.x00 (replicate 7 Byte.x00); NetErr EOF] None))) [] =
    Done (c', [EvOpened 0; EvData 0 p; EvClosed 0 true; EvClosed 0 false]).
Proof.
  intros p. apply (recv_active_close_reported_twice (fun _ _ => [AClose true]) (MkTcpTransportCfg ":8000" 60)
    (fun _ => 0) p []); [vm_compute; repeat split; congruence || lia|reflexivity|reflexivity].
Defined.

(** ** Streams without wrapping heads are safe *)

(** A byte stream made of frames whose sizes do not wrap, up to an incomplete
    one. *)
Inductive frames_ok : bytes -> Prop :=
| frames_end tl : incomplete tl -> frames_ok tl
| frames_cons h b body tl :
    fits_u 32 h -> fits_u 32 b -> 4 + h + b < 2 ^ 32 -> Z.of_nat (length body) = h + b ->
    frames_ok tl -> frames_ok (le_split 4 h ++ le_split 4 b ++ body ++ tl).

Definition acts_ok (acts : list act) : Prop :=
  Forall (fun a => match a with ASend d => packet_ok d | AClose _ => True end) acts.

(** A handler that does not panic on well-formed packets and sends only such. *)
Definition safe_answer {A} (ok : A -> Prop) {St} (o : outcome (St * A)) : Prop :=
  match o with Done (_, a) => ok a | Panic _ => False | Hang => True end.

Record safe_handler {St} (eh : EventHandler St) : Prop := {
  safe_opened : forall id s, safe_answer acts_ok (OnConnOpened eh id s);
  safe_closed : forall id active s, safe_answer (Forall packet_ok) (OnConnClosed eh id active s);
  safe_data : forall id p s, packet_ok p -> safe_answer acts_ok (OnData eh id p s)
}.

Lemma not_panics_bind {A B} (m : outcome A) (f : A -> outcome B) :
  ~ panics m -> (forall a, m = Done a -> ~ panics (f a)) -> ~ panics (m ≫= f).
Proof. intros Hm Hf [w Hw]. destruct m; simpl in Hw; [|by apply Hm; eexists|done]. eapply Hf; [done|by eexists]. Qed.

Lemma not_panics_on {A B} (m : outcome A) (h : string -> outcome B) (f : A -> outcome B) :
  ~ panics m -> (forall a, m = Done a -> ~ panics (f a)) -> ~ panics (on_panic m h f).
Proof. intros Hm Hf. destruct m; cbn [on_panic]; [by apply Hf|by destruct Hm; eexists|by intros [? ?]]. Qed.

Lemma bufio_Write_no_panic fuel : forall w p nn, ~ panics (bufio_Write_loop fuel w p nn).
Proof.
  induction fuel as [|fuel IH]; intros w p nn [y Hy]; simpl in Hy;
    repeat case_match; simplify_eq; eapply IH; by eexists.
Qed.

Lemma Send_no_panic cfg0 now c d : packet_ok d -> ~ panics (Send cfg0 now c d).
Proof.
  intros Hd. unfold Send. rewrite Encode_wire by done. go_run.
  apply not_panics_bind; [apply bufio_Write_no_panic|]. intros [[n err] w] _.
  destruct err; [by intros [? ?]|]. destruct (bufio_Flush w). by intros [? ?].
Qed.

Lemma Send_frame cfg0 now c d e c' : Send cfg0 now c d = Done (e, c') ->
  reader c' = reader c /\ cancelled c' = cancelled c.
Proof.
  unfold Send. intros Hs. apply bind_Done_inv in Hs as (r & _ & Hs).
  apply bind_Done_inv in Hs as ([[n err] w] & _ & Hs).
  destruct (setWriteTimeout_frame cfg0 now c) as (_ & Hr & _ & Hc).
  destruct err; [|destruct (bufio_Flush w)]; simplify_eq; done.
Qed.

Section Safety.
Context {St : Type} (env : Env St) (Hsafe : safe_handler (eventHandler env)).

Lemma sendAll_no_panic now ds : forall c, Forall packet_ok ds -> ~ panics (sendAll env now c ds).
Proof.
  induction ds as [|d ds IH]; intros c Hd; [by intros [? ?]|].
  apply Forall_cons in Hd as [Hd Hds]. simpl. apply not_panics_bind; [by apply Send_no_panic|].
  intros [e c'] _. by apply IH.
Qed.

Lemma Close_safe now active c s :
  ~ panics (Close env now active c s) /\
  forall c' s', Close env now active c s = Done (c', s') -> cancelled c' = true.
Proof.
  unfold Close. destruct (bufio_Flush (writer c)) as [e w].
  pose proof (safe_closed _ Hsafe (connID (set_writer c w)) active s) as Hs.
  destruct (OnConnClosed _ _ _ _) as [[s' ds]|y|]; [|done|split; [by intros [? ?]|done]].
  cbn [safe_answer] in Hs. go_run. split.
  - apply not_panics_bind; [by apply sendAll_no_panic|]. intros c' _. by intros [? ?].
  - intros c' s'' Hb. apply bind_Done_inv in Hb as (c1 & _ & Hb). by simplify_eq.
Qed.

(** What a handler's calls leave of the connection: it is cancelled, or still
    has the same bytes to read. *)
Lemma perform_safe now acts : forall c s, acts_ok acts ->
  ~ panics (perform env now acts c s) /\
  forall c' s', perform env now acts c s = Done (c', s') ->
    cancelled c' = true \/ reader c' = reader c /\ cancelled c' = cancelled c.
Proof.
  induction acts as [|[d|active] acts IH]; intros c s Ha.
  - split; [by intros [? ?]|]. intros c' s' [= <- <-]. by right.
  - apply Forall_cons in Ha as [Hd Ha]. cbn [perform]. split.
    + apply not_panics_bind; [by apply Send_no_panic|]. intros [e c1] _. by apply IH.
    + intros c' s' Hb. apply bind_Done_inv in Hb as ([e c1] & H1 & Hb).
      apply Send_frame in H1 as [Hr Hc]. destruct (IH c1 s Ha) as [_ IH'].
      destruct (IH' _ _ Hb) as [|[Hr' Hc']]; [by left|right]. by rewrite Hr', Hr, Hc', Hc.
  - apply Forall_cons in Ha as [_ Ha]. cbn [perform].
    destruct (Close_safe now active c s) as [Hnp Hcan]. split.
    + apply not_panics_bind; [done|]. intros [c1 s1] _. by apply IH.
    + intros c' s' Hb. apply bind_Done_inv in Hb as ([c1 s1] & H1 & Hb).
      apply Hcan in H1. destruct (IH c1 s1 Ha) as [_ IH'].
      destruct (IH' _ _ Hb) as [|[Hr' Hc']]; left; congruence.
Qed.

Lemma Decode_frames_ok (c : tcpConn) : frames_ok (pending c) ->
  match Decode c with
  | Done (Ok p, c') => packet_ok p /\ frames_ok (pending c')
  | Panic _ => False
  | _ => True
  end.
Proof.
  intros Hf. inversion Hf as [tl Hi Htl|h b body tl Hh Hb Hhb Hl Hf' Htl].
  - destruct Hi as [Hs|(h & b & body & Hp & Hh & Hb & Hhb & Hl)].
    + pose proof (Decode_short_head c Hs) as Hd.
      destruct (ends_with c); [by destruct Hd as (c' & -> & _)|by rewrite Hd].
    + pose proof (Decode_short_body c h b body Hh Hb Hhb Hl Hp) as Hd.
      destruct (ends_with c); [by destruct Hd as (c' & -> & _)|by rewrite Hd].
  - destruct (Decode_frame c h b body tl) as (c' & -> & Hp & _); [done..|]. rewrite Hp.
    split; [|done]. split; rewrite length_app, length_le_split; [lia|].
    rewrite take_app_length' by (by rewrite length_le_split).
    rewrite le_u32_roundtrip by done. unfold fits_u in *. lia.
Qed.

Lemma Recv_loop_safe fuel : forall i c s,
  cancelled c = true \/ frames_ok (pending c) -> ~ panics (Recv_loop env fuel i c s).
Proof.
  induction fuel as [|fuel IH]; intros i c s Hc; cbn [Recv_loop];
    destruct (ctxDone env i || cancelled c) eqn:Hd; try apply Close_safe; [by intros [? ?]|].
  destruct Hc as [Hc|Hf]; [by rewrite Hc, orb_true_r in Hd|].
  destruct (setReadTimeout_frame (cfg env) (clock env i) c) as (_ & Hr & _ & _).
  pose proof (Decode_frames_ok (setReadTimeout (cfg env) (clock env i) c)) as Hdec.
  cbn [pending tcpConn_ConnStream] in Hdec, Hf. rewrite Hr in Hdec. specialize (Hdec Hf).
  destruct (Decode _) as [[[p|e] c']|y|]; [|apply Close_safe|done|by intros [? ?]].
  destruct Hdec as [Hp Hf']. go_run.
  pose proof (safe_data _ Hsafe (connID c') p s Hp) as Hda.
  destruct (OnData _ _ _ _) as [[s1 acts]|y|]; [|done|by intros [? ?]]. go_run.
  destruct (perform_safe (clock env i) acts c' s1 Hda) as [Hnp Hpost].
  apply not_panics_on; [done|]. intros [c2 s2] H2. apply IH.
  destruct (Hpost _ _ H2) as [|[Hr2 _]]; [by left|right]. simpl. by rewrite Hr2.
Qed.

Lemma Recv_safe c s : frames_ok (pending c) -> ~ panics (Recv env c s).
Proof.
  intros Hf. unfold Recv. pose proof (safe_opened _ Hsafe (connID c) s) as Ho.
  destruct (OnConnOpened _ _ _) as [[s1 acts]|y|]; [|done|by intros [? ?]]. go_run.
  destruct (perform_safe (clock env 0) acts c s1 Ho) as [Hnp Hpost].
  apply not_panics_on; [done|]. intros [c2 s2] H2. apply Recv_loop_safe.
  destruct (Hpost _ _ H2) as [|[Hr2 _]]; [by left|right]. simpl. by rewrite Hr2.
Qed.
End Safety.

(** ** Sending on a broken connection *)

Lemma bufio_Write_failed w p e : werr w = Some e ->
  bufio_Write w p = Done (0, Some e, w).
Proof. intros He. unfold bufio_Write. simpl. rewrite He, andb_false_r. done. Qed.

(** [Send] reports success for data the peer never gets.  When the
    socket fails after [k] bytes and the packet fits the writer's buffer,
    [Send] returns nil although only the first [k] bytes left, because the
    error of [Flush] is dropped; the error appears in the next [Send], which
    sends nothing. *)
Theorem send_drops_flush_error (cfg0 : TcpTransportCfg) (now : Z) (c : tcpConn) (data l : bytes) (k : nat) :
  packet_ok data -> Z.of_nat (length (wire data)) <= _maxBufSize ->
  writer c = BufioWriter [] None l (Some k) -> (k < length (wire data))%nat ->
  exists c', Send cfg0 now c data = Done (None, c') /\ sent (writer c') = l ++ take k (wire data) /\
    forall now' data', packet_ok data' ->
      exists c'', Send cfg0 now' c' data' = Done (Some "broken pipe", c'') /\
                  sent (writer c'') = sent (writer c').
Proof.
  intros Hd Hl Hw Hk. unfold Send at 1. rewrite Encode_wire by done. go_run.
  destruct (setWriteTimeout_frame cfg0 now c) as (_ & _ & Hw' & _). rewrite Hw', Hw.
  unfold bufio_Write. rewrite bufio_Write_loop_enough by (simpl; try lia; done). go_run.
  set (q := wire data) in *. unfold bufio_Flush. cbn [set_wbuf werr wbuf app].
  destruct q as [|b q'] eqn:Hq; [simpl in Hk; lia|]. rewrite <- Hq in *.
  cbn [net_Write accepts set_wbuf sent].
  rewrite Nat.min_l by lia. destruct (Nat.ltb_spec k (length q)); [|lia].
  eexists. split; [reflexivity|]. cbn [writer set_writer sent set_wbuf]. split; [done|].
  intros now' data' Hd'. unfold Send. rewrite Encode_wire by done. go_run.
  match goal with |- context [setWriteTimeout cfg0 now' ?c1] =>
    destruct (setWriteTimeout_frame cfg0 now' c1) as (_ & _ & Hw2 & _) end.
  erewrite bufio_Write_failed by (rewrite Hw2; reflexivity).
  go_run. rewrite Hw2. eexists. split; reflexivity.
Qed.

Lemma send_drops_flush_error_witness :
  let data := [Byte.x00; Byte.x00; Byte.x00; Byte.x00; Byte.x41] in
  let c := fst (NewTcpConn 0 None (MkTCPConn "l" "r" [] (Some 0%nat))) in
  exists c', Send (MkTcpTransportCfg ":8000" 60) 0 c data = Done (None, c') /\ sent (writer c') = [].
Proof.
  intros data c.
  destruct (send_drops_flush_error (MkTcpTransportCfg ":8000" 60) 0 c data [] 0) as (c' & H1 & H2 & _);
    [vm_compute; repeat split; congruence || lia|vm_compute; congruence|reflexivity|vm_compute; lia|].
  exists c'. split; [exact H1|exact H2].
Defined.

(** ** Read deadlines *)

(** The read deadline a connection has when [Decode] blocks for the first and
    each later time: [setReadTimeout] at each of the given moments. *)
Fixpoint deadlines (cfg : TcpTransportCfg) (c : tcpConn) (ts : list Z) : list (option Z) :=
  match ts with
  | [] => []
  | t :: ts => let c := setReadTimeout cfg t c in readDeadline c :: deadlines cfg c ts
  end.

Definition deadline_inv (cfg : TcpTransportCfg) (c : tcpConn) : Prop :=
  forall d, readDeadline c = Some d -> d = lastReadTime c + IdleTimeout cfg * second.

Lemma setReadTimeout_inv cfg now c :
  lastReadTime c <= now -> deadline_inv cfg c -> 0 < IdleTimeout cfg ->
  let c' := setReadTimeout cfg now c in
  deadline_inv cfg c' /\ lastReadTime c' <= now /\ now - lastReadTime c' <= 2 * second /\
  (readDeadline c' = None -> readDeadline c = None /\ lastReadTime c' = lastReadTime c).
Proof.
  intros Hn Hi Hpos. unfold setReadTimeout. rewrite Z.gtb_ltb.
  rewrite (proj2 (Z.ltb_lt _ _) Hpos). cbv zeta.
  rewrite Z.gtb_ltb. destruct (Z.ltb_spec (2 * second) (now - lastReadTime c)).
  - split; [|split; [|split]]; simpl; [intros d; simpl; congruence|lia|unfold second; lia|done].
  - done.
Qed.

Lemma deadlines_inv cfg t0 : 0 < IdleTimeout cfg -> forall ts c,
  deadline_inv cfg c -> Forall (Z.le (lastReadTime c)) ts -> StronglySorted Z.le ts ->
  (readDeadline c = None -> lastReadTime c = t0) ->
  Forall2 (fun t d => match d with
      | None => t - t0 <= 2 * second
      | Some d => t + IdleTimeout cfg * second - 2 * second <= d <= t + IdleTimeout cfg * second
      end) ts (deadlines cfg c ts).
Proof.
  intros Hpos. induction ts as [|t ts IH]; intros c Hi Hts Hs H0; [constructor|].
  apply Forall_cons in Hts as [Ht Hts]. apply StronglySorted_inv in Hs as [Hs Hts'].
  destruct (setReadTimeout_inv cfg t c Ht Hi Hpos) as (Hi' & Hle & Hslack & Hnone).
  cbn [deadlines]. set (c' := setReadTimeout cfg t c) in *. constructor.
  - destruct (readDeadline c') as [d|] eqn:Hd.
    + rewrite (Hi' d Hd). lia.
    + destruct (Hnone eq_refl) as [Hn El]. rewrite <- (H0 Hn), <- El. lia.
  - apply IH; [done| |done|].
    + eapply Forall_impl; [exact Hts'|]. simpl. lia.
    + intros Hn. destruct (Hnone Hn) as [? ->]. by apply H0.
Qed.

(** How long an idle connection lives.  With an idle timeout configured, at
    every read of a packet the deadline in force lies between the timeout and
    the timeout less two seconds from then, or there is none; there is none
    only while less than two seconds have passed since the connection was
    accepted.  In particular a client that connects and sends nothing is read
    without a deadline, so it is never timed out. *)
Theorem read_deadline_bounds (cfg0 : TcpTransportCfg) (now : Z) (ins : uidGeneratorIns) (conn : TCPConn)
    (ts : list Z) :
  0 < IdleTimeout cfg0 -> StronglySorted Z.le (now :: ts) ->
  Forall2 (fun t d => match d with
      | None => t - now <= 2 * second
      | Some d => t + IdleTimeout cfg0 * second - 2 * second <= d <= t + IdleTimeout cfg0 * second
      end) ts (deadlines cfg0 (fst (NewTcpConn now ins conn)) ts) /\
  (forall t, t - now <= 2 * second ->
     readDeadline (setReadTimeout cfg0 t (fst (NewTcpConn now ins conn))) = None).
Proof.
  intros Hpos Hs. apply StronglySorted_inv in Hs as [Hs Hle].
  assert (lastReadTime (fst (NewTcpConn now ins conn)) = now /\
          readDeadline (fst (NewTcpConn now ins conn)) = None) as [El Ed]
    by (unfold NewTcpConn; by destruct (GenerateUID _ _)).
  split.
  - apply deadlines_inv; rewrite ?El; [done| |done|done|done]. intros d. by rewrite Ed.
  - intros t Ht. unfold setReadTimeout. rewrite El, !Z.gtb_ltb.
    rewrite (proj2 (Z.ltb_ge (2 * second) (t - now))) by lia. by case_match.
Qed.

Lemma read_deadline_bounds_witness :
  deadlines (MkTcpTransportCfg ":8000" 60) (fst (NewTcpConn 0 None (MkTCPConn "l" "r" [] None)))
    [0; 3 * second; 4 * second] = [None; Some (63 * second); Some (63 * second)] /\
  readDeadline (setReadTimeout (MkTcpTransportCfg ":8000" 60) second
    (fst (NewTcpConn 0 None (MkTCPConn "l" "r" [] None)))) = None.
Proof.
  split; [reflexivity|].
  apply (read_deadline_bounds (MkTcpTransportCfg ":8000" 60) 0 None (MkTCPConn "l" "r" [] None) []).
  - simpl. lia.
  - repeat constructor.
  - unfold second. lia.
Defined.

(** ** Accepting connections *)

(** The connections accepted before a permanent error, with the turn of the
    loop that accepted each. *)
Fixpoint accepted (i : nat) (evs : list acceptEvent) : list (nat * TCPConn) :=
  match evs with
  | Accepted conn :: evs => (i, conn) :: accepted (S i) evs
  | AcceptErr true :: evs => accepted (S i) evs
  | _ => []
  end.

Lemma serve_spec clk : forall evs i ins,
  let cs := fst (serve clk (fun _ => false) i evs ins) in
  (remoteAddr <$> cs) = (RemoteAddr <$> (accepted i evs).*2) /\
  (connID <$> cs) = generateAll ((fun j => clk j / 10 ^ 9) <$> (accepted i evs).*1) ins.
Proof.
  induction evs as [|[conn|[]] evs IH]; intros i ins; simpl; [done| |apply IH|done].
  unfold NewTcpConn. destruct (GenerateUID (clk i / 10 ^ 9) ins) as [r ins'] eqn:Hg.
  destruct (IH (S i) ins') as [IH1 IH2].
  destruct (serve clk (fun _ => false) (S i) evs ins') as [cs ret] eqn:Hs.
  simpl in *. split; f_equal; done.
Qed.

Lemma accepted_ge i evs : Forall (fun j => (i <= j)%nat) (accepted i evs).*1.
Proof.
  revert i. induction evs as [|[conn|[]] evs IH]; intros i; simpl; [constructor| |..|constructor].
  - constructor; [lia|]. eapply Forall_impl; [apply IH|]. simpl. lia.
  - eapply Forall_impl; [apply IH|]. simpl. lia.
Qed.

Lemma accepted_clock_sorted clk i evs :
  (forall j k, (j <= k)%nat -> clk j <= clk k) ->
  Sorted Z.le ((fun j => clk j / 10 ^ 9) <$> (accepted i evs).*1).
Proof.
  intros Hm. apply StronglySorted_Sorted. revert i.
  induction evs as [|[conn|[]] evs IH]; intros i; simpl; [constructor| |apply IH|constructor].
  constructor; [apply IH|]. apply Forall_fmap. eapply Forall_impl; [apply accepted_ge|].
  intros j Hj. simpl in *. apply Z.div_le_mono; [lia|]. apply Hm. lia.
Qed.

(** The accept loop starts [Recv] for every connection accepted before a
    permanent error, in order, surviving the temporary errors between them;
    under a clock that does not step back the ids it gives them strictly
    increase (0, the refusal of the id generator, aside). *)
Theorem serve_starts_connections (clk : nat -> Z) (f ins : Z) (evs : list acceptEvent) :
  0 <= f < 256 -> 0 <= ins < 2048 ->
  (forall j k, (j <= k)%nat -> clk j <= clk k) ->
  (forall j, 0 <= clk j / 10 ^ 9 < _baseTimeStamp + 2 ^ 29) ->
  let cs := fst (serve clk (fun _ => false) 0 evs (InitUIDGenerator f ins)) in
  (remoteAddr <$> cs) = (RemoteAddr <$> (accepted 0 evs).*2) /\
  StronglySorted Z.lt (issued (connID <$> cs)).
Proof.
  intros Hf Hi Hm Hr. destruct (serve_spec clk evs 0 (InitUIDGenerator f ins)) as [H1 H2].
  cbv zeta. rewrite H1, H2. split; [done|].
  apply issued_increasing; [done|done|by apply accepted_clock_sorted|].
  apply Forall_fmap, Forall_true. intros j. apply Hr.
Qed.

Lemma serve_starts_connections_witness :
  let t := 1629941250 * 10 ^ 9 in
  let conn r := MkTCPConn "l" r [] None in
  let cs := fst (serve (fun _ => t) (fun _ => false) 0
    [Accepted (conn "a"); AcceptErr true; Accepted (conn "b"); AcceptErr false; Accepted (conn "c")]
    (InitUIDGenerator 7 12)) in
  (remoteAddr <$> cs) = ["a"; "b"] /\ StronglySorted Z.lt (issued (connID <$> cs)).
Proof.
  apply (serve_starts_connections (fun _ => 1629941250 * 10 ^ 9) 7 12); [lia|lia|lia|].
  intros _. vm_compute. split; congruence.
Defined.

(** [Uninit] does not stop the accept loop that waits for a connection: the
    context is only looked at between two accepts and the listener is not
    closed.  If [Uninit] runs while turn [i] waits, the loop stays blocked
    until a client comes, and then still starts one connection. *)
Theorem uninit_accepts_one_more (clk : nat -> Z) (i : nat) (ins : uidGeneratorIns) (conn : TCPConn)
    (evs : list acceptEvent) :
  serve clk (fun j => (i <? j)%nat) i [] ins = ([], false) /\
  serve clk (fun j => (i <? j)%nat) i (Accepted conn :: evs) ins = ([fst (NewTcpConn (clk i) ins conn)], true).
Proof.
  assert ((i <? S i)%nat = true) as E by (apply Nat.ltb_lt; lia).
  simpl. rewrite Nat.ltb_irrefl. split; [done|].
  destruct (NewTcpConn (clk i) ins conn) as [c ins']. simpl.
  destruct evs; simpl; by rewrite E.
Qed.
