(* ===== verification/Msg.v ===== *)
(** * server_base/msg and server_base/app/tcp.go: client messages

    The codec of client packets, the registries of handlers, and the event
    handler that connects them to the transport.  The protobuf library is a
    parameter: a class of operations with the laws it documents.  A message
    handler works on a state of its own and answers with the calls it makes on
    its connection.  Log calls (and the readable printing only they use) are
    left out. *)

From S2P Require Import Prelude TransportCodec Uid Tcp.

(** ** Generated protocol code *)

Record CSHead := MkCSHead { CS_Msgid : Z; CS_Seqid : Z }.
Record SCHead := MkSCHead { SC_Msgid : Z; SC_Seqid : Z }.

Definition CSMessageID_cs_login : Z := 1.

Definition CSMessageID_name : gmap Z string :=
  {[ 0 := "cs_message_begin"; 1 := "cs_login"; 4095 := "cs_message_end" ]}.

(** The protobuf library: the binary format of the two heads and of the
    registered message types, addressed by full name. *)
Class ProtoLib (Message : Type) := {
  MarshalCSHead : CSHead -> result error bytes;
  MarshalSCHead : SCHead -> result error bytes;
  UnmarshalCSHead : bytes -> option CSHead;
  UnmarshalSCHead : bytes -> option SCHead;
  Marshal : Message -> result error bytes;
  FindMessageByName : string -> bool;
  Unmarshal : string -> bytes -> option Message;
  FullName : Message -> string
}.

(** What the library documents: what was marshalled is unmarshalled back into
    a message of the same type. *)
Class ProtoLaws (Message : Type) `{ProtoLib Message} := {
  cshead_roundtrip : forall h d, MarshalCSHead h = Ok d -> UnmarshalCSHead d = Some h;
  schead_roundtrip : forall h d, MarshalSCHead h = Ok d -> UnmarshalSCHead d = Some h;
  message_roundtrip : forall m d, Marshal m = Ok d -> Unmarshal (FullName m) d = Some m
}.

(** ** codec.go *)

Definition ToUpper (s : string) : string :=
  String.string_of_list_ascii
    ((fun a => let n := Ascii.nat_of_ascii a in
               if ((97 <=? n) && (n <=? 122))%nat then Ascii.ascii_of_nat (n - 32) else a)
     <$> String.list_ascii_of_string s).

Definition _maxBuffSize : Z := 500 * 1024.

(** The types of handlers; a handler gets the id of its connection. *)
Abbreviation ConnEventHandler St := (Z -> St -> outcome (St * list act)).
Abbreviation ClientMsgHandler Message St := (Z -> CSHead -> Message -> St -> outcome (St * list act)).
Abbreviation ServerMsgHandler St := (St -> outcome St).

Section Msg.
Context {Message : Type} `{ProtoLib Message}.

Definition DefaultCSCodec_Encode (header : SCHead) (body : Message) : outcome (result error bytes) :=
  let buff := make_bytes _maxBuffSize in
  match MarshalSCHead header with
  | Err err => Done (Err err)
  | Ok data =>
      let headerSize := Z.of_nat (length data) in
      first ← slice buff 0 4;
      first ← LE_PutUint32 first (u32 headerSize);
      rest ← slice_from buff 4;
      let '(rest, n) := copy rest data in
      let buff := first ++ rest in
      if negb (n =? headerSize) then Done (Err "buff copy failed") else
      match Marshal body with
      | Err err => Done (Err err)
      | Ok data =>
          pre ← slice buff 0 (4 + headerSize);
          rest ← slice_from buff (4 + headerSize);
          let '(rest, n) := copy rest data in
          let buff := pre ++ rest in
          if negb (n =? Z.of_nat (length data)) then Done (Err "buff copy failed") else
          out ← slice buff 0 (4 + headerSize + n);
          Done (Ok out)
      end
  end.

(** [None]: one of the results is nil. *)
Definition DefaultCSCodec_Decode (data : bytes) : outcome (option (CSHead * Message)) :=
  first ← slice data 0 4;
  headerSize ← LE_Uint32 first;
  hd ← slice data 4 (u32 (4 + headerSize));
  match UnmarshalCSHead hd with
  | None => Done None
  | Some header =>
      match CSMessageID_name !! CS_Msgid header with
      | None => Done None
      | Some msgStr =>
          let msgName := "proto." +:+ ToUpper msgStr in
          if negb (FindMessageByName msgName) then Done None else
          rest ← slice_from data (u32 (4 + headerSize));
          match Unmarshal msgName rest with
          | None => Done None
          | Some msg => Done (Some (header, msg))
          end
      end
  end.

(** The codecs by name; the package registers the default one and its functions
    ask for no other, so they are written with it below. *)
Record CSCodec := MkCSCodec {
  CSCodec_Encode : SCHead -> Message -> outcome (result error bytes);
  CSCodec_Decode : bytes -> outcome (option (CSHead * Message))
}.

Definition CODEC_DEFAULT : string := "default".
Definition DefaultCSCodec : CSCodec := MkCSCodec DefaultCSCodec_Encode DefaultCSCodec_Decode.

Definition registerCodec (t : string) (code : CSCodec) (factory : gmap string CSCodec) : gmap string CSCodec :=
  <[t := code]> factory.
Definition getCodec (t : string) (factory : gmap string CSCodec) : option CSCodec := factory !! t.
Definition _csCodecFactory : gmap string CSCodec := registerCodec CODEC_DEFAULT DefaultCSCodec ∅.

Lemma getCodec_default : getCodec CODEC_DEFAULT _csCodecFactory = Some DefaultCSCodec.
Proof. unfold getCodec, _csCodecFactory, registerCodec. apply lookup_insert_eq. Qed.

(** ** msg.go *)

Definition CONN_EVENT_START : Z := 0.
Definition CONN_EVENT_STOP : Z := 1.

Section Handlers.
Context {S : Type}.

Record MsgHandlerMgr := MkMsgHandlerMgr {
  connEventHandler : gmap Z (ConnEventHandler S);
  clientMsgHandler : gmap Z (ClientMsgHandler Message S);
  serverMsgHandler : gmap Z (ServerMsgHandler S)
}.

Definition newMsgHandlerMgr : MsgHandlerMgr := MkMsgHandlerMgr ∅ ∅ ∅.

Definition RegisterConnMsgHandler (eventType : Z) (handler : ConnEventHandler S) (m : MsgHandlerMgr)
  : option error * MsgHandlerMgr :=
  match connEventHandler m !! eventType with
  | Some _ => (Some "already find event type", m)
  | None => (None, MkMsgHandlerMgr (<[eventType := handler]> (connEventHandler m))
                     (clientMsgHandler m) (serverMsgHandler m))
  end.

Definition RegisterClientMsgHandler (msgid : Z) (handler : ClientMsgHandler Message S) (m : MsgHandlerMgr)
  : option error * MsgHandlerMgr :=
  match clientMsgHandler m !! msgid with
  | Some _ => (Some "already find msgid", m)
  | None => (None, MkMsgHandlerMgr (connEventHandler m)
                     (<[msgid := handler]> (clientMsgHandler m)) (serverMsgHandler m))
  end.

Definition RegisterServerMsgHandler (msgid : Z) (handler : ServerMsgHandler S) (m : MsgHandlerMgr)
  : option error * MsgHandlerMgr :=
  match serverMsgHandler m !! msgid with
  | Some _ => (Some "already find msgid", m)
  | None => (None, MkMsgHandlerMgr (connEventHandler m) (clientMsgHandler m)
                     (<[msgid := handler]> (serverMsgHandler m)))
  end.

(** The map lookup yields a nil function when nothing is registered. *)
Definition OnClientConnOpened (m : MsgHandlerMgr) (conn : Z) (s : S) : outcome (S * list act) :=
  match connEventHandler m !! CONN_EVENT_START with
  | None => Panic "nil function call"
  | Some h => h conn s
  end.

Definition OnClientConnClosed (m : MsgHandlerMgr) (conn : Z) (active : bool) (s : S)
  : outcome (S * list act) :=
  match connEventHandler m !! CONN_EVENT_STOP with
  | None => Panic "nil function call"
  | Some h => h conn s
  end.

Definition RecvClientMsg (m : MsgHandlerMgr) (conn : Z) (data : bytes) (s : S)
  : outcome (S * list act) :=
  r ← DefaultCSCodec_Decode data;
  match r with
  | None => Done (s, [])
  | Some (header, msg) =>
      match clientMsgHandler m !! CS_Msgid header with
      | None => Done (s, [])
      | Some h => h conn header msg s
      end
  end.

Definition sends (acts : list act) : list bytes :=
  omap (M := list) (fun a => match a with ASend d => Some d | AClose _ => None end) acts.

(** app/tcp.go; of what the closing handler answers only the sends count. *)
Definition eventTcp_OnConnClosed (m : MsgHandlerMgr) (conn : Z) (active : bool) (s : S)
  : outcome (S * list bytes) :=
  '(s, acts) ← OnClientConnClosed m conn active s;
  Done (s, sends acts).

Definition eventTcp (m : MsgHandlerMgr) : EventHandler S :=
  MkEventHandler (OnClientConnOpened m) (eventTcp_OnConnClosed m) (RecvClientMsg m).
End Handlers.

Definition SendToClient (cfg : TcpTransportCfg) (now : Z) (conn : tcpConn) (header : SCHead) (msg : Message)
  : outcome (option error * tcpConn) :=
  r ← DefaultCSCodec_Encode header msg;
  match r with
  | Err err => Done (Some err, conn)
  | Ok data => Send cfg now conn data
  end.
End Msg.
Arguments MsgHandlerMgr Message S : clear implicits.

(** Messages between servers: nothing is done yet. *)
Definition RecvServerMsg {S : Type} (conn : Z) (data : bytes) (s : S) : S := s.
Definition SendToServer {S : Type} (data : bytes) (s : S) : S := s.

(** ** The layout of a client packet *)

(** A head and a body as codec.go's comment lays them out. *)
Definition app_packet (hd bd : bytes) : bytes :=
  le_split 4 (Z.of_nat (length hd)) ++ hd ++ bd.

Lemma length_app_packet hd bd : length (app_packet hd bd) = (4 + length hd + length bd)%nat.
Proof. unfold app_packet. rewrite !length_app, length_le_split. lia. Qed.

Lemma app_packet_ok hd bd : 4 + Z.of_nat (length hd) + Z.of_nat (length bd) < 2 ^ 32 ->
  packet_ok (app_packet hd bd).
Proof.
  intros Hl. unfold packet_ok. rewrite length_app_packet. split; [lia|].
  unfold app_packet. rewrite take_app_length' by (by rewrite length_le_split).
  rewrite le_u32_roundtrip by (unfold fits_u; lia). lia.
Qed.

Lemma wire_app_packet hd bd : 4 + Z.of_nat (length hd) + Z.of_nat (length bd) < 2 ^ 32 ->
  wire (app_packet hd bd) =
  le_split 4 (Z.of_nat (length hd)) ++ le_split 4 (Z.of_nat (length bd)) ++ hd ++ bd.
Proof.
  intros Hl. unfold wire. rewrite length_app_packet. unfold app_packet.
  rewrite take_app_length', drop_app_length' by (by rewrite length_le_split).
  rewrite le_u32_roundtrip by (unfold fits_u; lia). do 3 f_equal. lia.
Qed.

Section Codec_proofs.
Context {Message : Type} `{ProtoLib Message}.

Lemma copy_prefix {A} (dst src : list A) : (length src <= length dst)%nat ->
  copy dst src = (src ++ drop (length src) dst, Z.of_nat (length src)).
Proof. intros Hl. unfold copy. rewrite Nat.min_r by done. by rewrite take_ge by done. Qed.

Lemma copy_count {A} (dst src : list A) : snd (copy dst src) = Z.of_nat (Nat.min (length dst) (length src)).
Proof. done. Qed.

Lemma Encode_spec (h : SCHead) (m : Message) hd bd :
  MarshalSCHead h = Ok hd -> Marshal m = Ok bd ->
  DefaultCSCodec_Encode h m =
    Done (if 4 + Z.of_nat (length hd) + Z.of_nat (length bd) <=? _maxBuffSize
          then Ok (app_packet hd bd) else Err "buff copy failed").
Proof.
  intros Hh Hm. unfold DefaultCSCodec_Encode. rewrite Hh.
  assert (HM : 4 <= _maxBuffSize < 2 ^ 32) by done.
  revert HM. generalize _maxBuffSize as M. intros M HM.
  pose proof (length_make_bytes M) as Lm. set (buff := make_bytes M) in *.
  clearbody buff.
  rewrite slice_Done by lia. go_run. change (Z.to_nat 0) with 0%nat. rewrite drop_0.
  change (Z.to_nat (4 - 0)) with 4%nat.
  rewrite LE_PutUint32_Done by (rewrite length_take; lia). go_run.
  rewrite slice_from_Done by lia. go_run. change (Z.to_nat 4) with 4%nat.
  rewrite (drop_ge (take 4 buff)), app_nil_r by (rewrite length_take; lia).
  destruct (decide (4 + length hd <= length buff)%nat) as [Hl|Hl].
  - rewrite copy_prefix by (rewrite length_drop; lia). rewrite Z.eqb_refl. cbn [negb]. rewrite Hm.
    rewrite (wrap_u_small 32) by (unfold fits_u; lia).
    set (pre := le_split 4 (Z.of_nat (length hd))).
    assert (Lp : length pre = 4%nat) by apply length_le_split.
    rewrite slice_Done, slice_from_Done by (rewrite ?length_app, ?length_drop; lia). go_run.
    replace (Z.to_nat (4 + Z.of_nat (length hd))) with (length (pre ++ hd)) by (rewrite length_app; lia).
    replace (Z.to_nat (4 + Z.of_nat (length hd) - 0)) with (length (pre ++ hd)) by (rewrite length_app; lia).
    change (Z.to_nat 0) with 0%nat. rewrite drop_0, app_assoc, take_app_length, drop_app_length.
    set (rest := drop (length hd) (drop 4 buff)).
    assert (Lr : length rest = (length buff - 4 - length hd)%nat).
    { unfold rest. rewrite !length_drop. lia. }
    destruct (Z.leb_spec (4 + Z.of_nat (length hd) + Z.of_nat (length bd)) M).
    + rewrite copy_prefix by lia. rewrite Z.eqb_refl. cbn [negb].
      rewrite slice_Done by (rewrite ?length_app, ?length_drop; lia). go_run.
      change (Z.to_nat 0) with 0%nat. rewrite drop_0, app_assoc, take_app_length'; [|].
      * unfold app_packet. by rewrite <- app_assoc.
      * rewrite !length_app. lia.
    + destruct (copy rest bd) as [r n] eqn:Hc. pose proof (copy_count rest bd) as Hn.
      rewrite Hc in Hn. cbn [snd] in Hn. destruct (Z.eqb_spec n (Z.of_nat (length bd))); [lia|done].
  - destruct (copy (drop 4 buff) hd) as [r n] eqn:Hc. pose proof (copy_count (drop 4 buff) hd) as Hn.
    rewrite Hc, length_drop in Hn. cbn [snd] in Hn.
    destruct (Z.eqb_spec n (Z.of_nat (length hd))); [lia|]. cbn [negb].
    destruct (Z.leb_spec (4 + Z.of_nat (length hd) + Z.of_nat (length bd)) M); [lia|done].
Qed.

(** [Decode] of a well-formed packet never panics; of an ill-formed one it
    always does. *)
Lemma Decode_slices data : (4 <= length data)%nat ->
  let h := le_combine (take 4 data) in
  (4 + h <= Z.of_nat (length data) -> 4 + h < 2 ^ 32 ->
     exists r, DefaultCSCodec_Decode (Message := Message) data = Done r) /\
  (Z.of_nat (length data) < 4 + h -> Z.of_nat (length data) < 2 ^ 32 ->
     panics (DefaultCSCodec_Decode (Message := Message) data)).
Proof.
  intros Hl h. unfold DefaultCSCodec_Decode.
  rewrite (slice_Done data 0 4) by lia. go_run. change (Z.to_nat 0) with 0%nat.
  rewrite drop_0. change (Z.to_nat (4 - 0)) with 4%nat.
  rewrite LE_Uint32_Done by (rewrite length_take; lia). go_run.
  rewrite take_take. change (4 `min` 4)%nat with 4%nat. fold h.
  assert (Hf : fits_u 32 h) by (apply le_combine_u32_fits; rewrite length_take; lia).
  unfold fits_u in Hf. split; intros H1 H2.
  - rewrite (wrap_u_small 32) by (unfold fits_u; lia).
    rewrite slice_Done, slice_from_Done by lia. go_run. repeat case_match; eauto.
  - assert (Hs : slice data 4 (u32 (4 + h)) = Panic "slice bounds out of range").
    { unfold slice. destruct (Z.leb_spec 4 (u32 (4 + h))) as [Hle|]; [|done].
      rewrite (wrap_u_small 32) in * by (unfold fits_u, wrap_u in *; revert Hle;
        Z.to_euclidean_division_equations; lia).
      destruct (Z.leb_spec (4 + h) (Z.of_nat (length data))); [lia|by rewrite !andb_false_r]. }
    rewrite Hs. by eexists.
Qed.

(** Decoding what a client encoded. *)
Lemma Decode_app_packet (L : ProtoLaws Message) hd bd h (m : Message) msgStr :
  MarshalCSHead h = Ok hd -> Marshal m = Ok bd ->
  4 + Z.of_nat (length hd) + Z.of_nat (length bd) < 2 ^ 32 ->
  CSMessageID_name !! CS_Msgid h = Some msgStr ->
  FullName m = "proto." +:+ ToUpper msgStr -> FindMessageByName (FullName m) = true ->
  DefaultCSCodec_Decode (app_packet hd bd) = Done (Some (h, m)).
Proof.
  intros Hh Hm Hl Hid Hn Hf. pose proof (length_app_packet hd bd) as Lp.
  unfold DefaultCSCodec_Decode. rewrite (slice_Done _ 0 4) by lia. go_run.
  change (Z.to_nat 0) with 0%nat. rewrite drop_0. change (Z.to_nat (4 - 0)) with 4%nat.
  rewrite LE_Uint32_Done by (rewrite length_take; lia). go_run.
  rewrite take_take. change (4 `min` 4)%nat with 4%nat.
  assert (Ht : take 4 (app_packet hd bd) = le_split 4 (Z.of_nat (length hd))).
  { unfold app_packet. rewrite take_app_length'; [done|]. by rewrite length_le_split. }
  rewrite Ht, le_u32_roundtrip by (unfold fits_u; lia).
  rewrite (wrap_u_small 32) by (unfold fits_u; lia).
  rewrite slice_Done, slice_from_Done by lia. go_run.
  replace (Z.to_nat (4 + Z.of_nat (length hd) - 4)) with (length hd) by lia.
  replace (Z.to_nat (4 + Z.of_nat (length hd))) with (4 + length hd)%nat by lia.
  change (Z.to_nat 4) with 4%nat. rewrite <- drop_drop.
  assert (Hd : drop 4 (app_packet hd bd) = hd ++ bd).
  { unfold app_packet. rewrite drop_app_length'; [done|]. by rewrite length_le_split. }
  rewrite Hd, take_app_length, drop_app_length.
  rewrite (cshead_roundtrip h hd Hh), Hid, <- Hn, Hf. cbn [negb].
  by rewrite (message_roundtrip m bd Hm).
Qed.
End Codec_proofs.

(** ** The server on a byte stream *)

Section Server.
Context {Message : Type} `{ProtoLib Message} {S : Type}.

(** Handlers are registered for both connection events, and no handler
    panics or sends an ill-formed packet. *)
Definition safe_conn_handler (o : option (ConnEventHandler S)) : Prop :=
  exists h, o = Some h /\ forall id s, safe_answer acts_ok (h id s).

Record safe_mgr (m : MsgHandlerMgr Message S) : Prop := {
  safe_start : safe_conn_handler (connEventHandler m !! CONN_EVENT_START);
  safe_stop : safe_conn_handler (connEventHandler m !! CONN_EVENT_STOP);
  safe_msgs : forall msgid h, clientMsgHandler m !! msgid = Some h ->
    forall id hd msg s, safe_answer acts_ok (h id hd msg s)
}.

Lemma sends_ok acts : acts_ok acts -> Forall packet_ok (sends acts).
Proof.
  induction 1 as [|[d|a] acts Ha _ IH]; [constructor| |exact IH]. by constructor.
Qed.

Lemma eventTcp_safe m : safe_mgr m -> safe_handler (eventTcp m).
Proof.
  intros [(h0 & E0 & H0) (h1 & E1 & H1) Hm].
  split; cbn [eventTcp OnConnOpened OnConnClosed OnData].
  - intros id s. unfold OnClientConnOpened. rewrite E0. apply H0.
  - intros id active s. unfold eventTcp_OnConnClosed, OnClientConnClosed. rewrite E1.
    pose proof (H1 id s) as Ha. destruct (h1 id s) as [[s1 acts]|y|]; [|done|done].
    by apply sends_ok.
  - intros id p s [Hl Hp]. unfold RecvClientMsg.
    destruct (Decode_slices (Message := Message) p Hl) as [Hd _].
    destruct Hd as [[[hd msg]|] ->]; [lia|lia| |].
    + cbn. destruct (clientMsgHandler m !! CS_Msgid hd) as [h|] eqn:Hh; [by eapply Hm|constructor].
    + constructor.
Qed.

(** C16. No client can crash a server with sound handlers by anything but
    oversized heads.  Whatever bytes arrive, in whatever chunks and however
    the connection ends, as long as no frame announces sizes with
    [4 + HeaderSize + BodySize >= 2^32], receiving, decoding and dispatching
    them never panics; unknown message ids, undecodable heads and bodies are
    dropped. *)
Theorem server_never_panics (m : MsgHandlerMgr Message S) (cfg0 : TcpTransportCfg) (clk : nat -> Z)
    (ctx : nat -> bool) (c : tcpConn) (s : S) :
  safe_mgr m -> frames_ok (pending c) ->
  ~ panics (Recv (MkEnv cfg0 (eventTcp m) clk ctx) c s).
Proof. intros Hm Hf. apply Recv_safe; [by apply eventTcp_safe|done]. Qed.

(** Every oversized head crashes the server.  If a frame announces
    [4 + HeaderSize + BodySize >= 2^32] and the client then sends the few bytes
    the wrapped-around size asks for (none, for a suitable head), the transport
    panics, or it passes on a packet whose header is longer than the packet and
    the message codec panics. *)
Theorem server_crashed_by_oversized_head (m : MsgHandlerMgr Message S) (cfg0 : TcpTransportCfg)
    (clk : nat -> Z) (c : tcpConn) (s : S) (h b : Z) (body tl : bytes) :
  fits_u 32 h -> fits_u 32 b -> 2 ^ 32 <= 4 + h + b ->
  Z.of_nat (length body) = Z.max 0 ((4 + h + b) mod 2 ^ 32 - 4) ->
  pending c = le_split 4 h ++ le_split 4 b ++ body ++ tl -> cancelled c = false ->
  (exists start, connEventHandler m !! CONN_EVENT_START = Some start /\
                 forall id, start id s = Done (s, [])) ->
  (forall id, OnConnClosed (eventTcp m) id false s <> Hang) ->
  panics (Recv (MkEnv cfg0 (eventTcp m) clk (fun _ => false)) c s).
Proof.
  intros Hh Hb Hov Hl Hp Hcan (start & Es & Hs) Hstop. unfold Recv. cbn [eventHandler eventTcp OnConnOpened].
  unfold OnClientConnOpened. rewrite Es, Hs. go_run. cbn [perform]. go_run.
  cbn [Recv_loop ctxDone cfg clock]. rewrite Hcan. cbn [orb].
  destruct (setReadTimeout_frame cfg0 (clk 0%nat) c) as (_ & Hr & _ & _).
  set (c0 := setReadTimeout _ _ c) in *.
  assert (Hp0 : pending c0 = le_split 4 h ++ le_split 4 b ++ body ++ tl).
  { simpl in Hp |- *. by rewrite Hr. }
  destruct (Decode_head c0 h b (body ++ tl) Hh Hb Hp0) as (c1 & Hp1 & He1 & _ & ->).
  cbv zeta. unfold fits_u in *.
  assert (E : u32 (u32 (4 + h) + b) = (4 + h + b) mod 2 ^ 32).
  { unfold wrap_u. by rewrite Zplus_mod_idemp_l. }
  rewrite E. destruct (Z.ltb_spec ((4 + h + b) mod 2 ^ 32) 4) as [Hlt|Hge]; [apply unwind_panics, Close_no_hang, Hstop|].
  destruct (conn_Read_exact c1 (length body) body tl Hp1 eq_refl) as (c' & Hrd & _).
  replace ((4 + h + b) mod 2 ^ 32 - 4) with (Z.of_nat (length body)) by lia. rewrite Hrd. go_run.
  destruct (negb _) eqn:Hn.
  { exfalso. apply negb_true_iff, Z.eqb_neq in Hn. apply Hn. unfold wrap_u.
    rewrite Hl. revert Hge. Z.to_euclidean_division_equations. lia. }
  go_run. cbn [OnData eventTcp eventHandler]. unfold RecvClientMsg.
  set (data := le_split 4 h ++ body).
  assert (Ht : take 4 data = le_split 4 h).
  { unfold data. rewrite take_app_length'; [done|]. by rewrite length_le_split. }
  assert (Ld : Z.of_nat (length data) = (4 + h + b) mod 2 ^ 32).
  { unfold data. rewrite length_app, length_le_split. lia. }
  destruct (Decode_slices (Message := Message) data) as [_ Hd]; [lia|].
  rewrite Ht, le_u32_roundtrip in Hd by done.
  destruct Hd as [w ->]; [| |apply unwind_panics, Close_no_hang, Hstop].
  - rewrite Ld. clear - Hh Hb Hov. Z.to_euclidean_division_equations. lia.
  - rewrite Ld. apply Z.mod_pos_bound. lia.
Qed.
End Server.

(** ** The abstract server: a dispatcher of messages *)

Section Dispatcher.
Context {Message : Type} `{L : ProtoLaws Message} {S : Type}.

(** Handlers given by what they compute: the new state and the packets to
    send. *)
Definition answers {A} (f : Z -> A -> S -> S * list bytes) (id : Z) (a : A) (s : S)
  : outcome (S * list act) :=
  let '(s, ds) := f id a s in Done (s, ASend <$> ds).

Definition msg_handler (f : Z -> CSHead * Message -> S -> S * list bytes) : ClientMsgHandler Message S :=
  fun id h m s => answers f id (h, m) s.

(** The manager after the registrations of a program with these handlers. *)
Definition mgr_of (start : Z -> S -> S) (stop : Z -> unit -> S -> S * list bytes)
    (fs : gmap Z (Z -> CSHead * Message -> S -> S * list bytes)) : MsgHandlerMgr Message S :=
  MkMsgHandlerMgr
    {[ CONN_EVENT_START := fun id s => Done (start id s, []);
       CONN_EVENT_STOP := fun id s => answers stop id () s ]}
    (msg_handler <$> fs) ∅.

(** What the program promises: each message goes, once and in order, to the
    handler of its id; messages nobody registered for are dropped. *)
Definition dispatch (fs : gmap Z (Z -> CSHead * Message -> S -> S * list bytes)) (id : Z)
    (r : CSHead * Message) (s : S) : S * list bytes :=
  match fs !! CS_Msgid r.1 with
  | None => (s, [])
  | Some f => f id r s
  end.

Fixpoint dispatch_all (fs : gmap Z (Z -> CSHead * Message -> S -> S * list bytes)) (id : Z)
    (s : S) (rs : list (CSHead * Message)) : S * list bytes :=
  match rs with
  | [] => (s, [])
  | r :: rs =>
      let '(s, ds) := dispatch fs id r s in
      let '(s, ds') := dispatch_all fs id s rs in (s, ds ++ ds')
  end.

(** [p] is the packet a client makes of a message of the protocol. *)
Definition encoded (r : CSHead * Message) (p : bytes) : Prop :=
  exists hd bd msgStr, MarshalCSHead r.1 = Ok hd /\ Marshal r.2 = Ok bd /\
    4 + Z.of_nat (length hd) + Z.of_nat (length bd) < 2 ^ 32 /\
    CSMessageID_name !! CS_Msgid r.1 = Some msgStr /\
    FullName r.2 = "proto." +:+ ToUpper msgStr /\ FindMessageByName (FullName r.2) = true /\
    p = app_packet hd bd.

Lemma encoded_Decode r p : encoded r p -> DefaultCSCodec_Decode p = Done (Some r).
Proof.
  intros (hd & bd & str & Hh & Hm & Hl & Hid & Hn & Hf & ->). destruct r as [h m].
  by eapply Decode_app_packet.
Qed.

Lemma encoded_packet_ok r p : encoded r p -> packet_ok p.
Proof. intros (hd & bd & str & _ & _ & Hl & _ & _ & _ & ->). by apply app_packet_ok. Qed.

Variable start : Z -> S -> S.
Variable stop : Z -> unit -> S -> S * list bytes.
Variable fs : gmap Z (Z -> CSHead * Message -> S -> S * list bytes).
Hypothesis fs_ok : forall msgid f, fs !! msgid = Some f ->
  forall id r s, Forall packet_ok (f id r s).2.
Hypothesis stop_ok : forall id s, Forall packet_ok (stop id () s).2.

(** What the server does with a packet. *)
Definition step_packet (id : Z) (p : bytes) (s : S) : S * list bytes :=
  match DefaultCSCodec_Decode p with
  | Done (Some r) => dispatch fs id r s
  | _ => (s, [])
  end.

Lemma dispatch_ok id r s : Forall packet_ok (dispatch fs id r s).2.
Proof. unfold dispatch. destruct (fs !! CS_Msgid r.1) eqn:Hf; [by eapply fs_ok|constructor]. Qed.

Lemma step_packet_ok id p s : (exists r, encoded r p) ->
  OnData (eventTcp (mgr_of start stop fs)) id p s =
    Done (fst (step_packet id p s), ASend <$> snd (step_packet id p s)) /\
  Forall packet_ok (snd (step_packet id p s)).
Proof.
  intros [r Hr]. unfold step_packet. cbn [eventTcp OnData]. unfold RecvClientMsg.
  rewrite (encoded_Decode r p Hr). split; [|apply dispatch_ok]. destruct r as [h m].
  go_run. cbn [mgr_of clientMsgHandler]. rewrite lookup_fmap. unfold dispatch. cbn [fst].
  destruct (fs !! CS_Msgid h) as [f|]; cbn; [|done].
  unfold msg_handler, answers. by destruct (f id (h, m) s).
Qed.

Lemma stop_handler_ok id s :
  OnConnClosed (eventTcp (mgr_of start stop fs)) id false s = Done (stop id () s) /\
  Forall packet_ok (snd (stop id () s)).
Proof.
  split; [|apply stop_ok]. cbn [eventTcp OnConnClosed]. unfold eventTcp_OnConnClosed, OnClientConnClosed.
  cbn [mgr_of connEventHandler]. rewrite lookup_insert_ne by done. rewrite lookup_singleton_eq.
  unfold answers. destruct (stop id () s) as [s' ds]. cbn. do 2 f_equal.
  induction ds as [|d ds IH]; [done|]. cbn. by rewrite <- IH at 2.
Qed.

Lemma steps_dispatch id rs ps : Forall2 encoded rs ps -> forall s,
  steps step_packet id s ps =
    ((dispatch_all fs id s rs).1, concat (wire <$> (dispatch_all fs id s rs).2)).
Proof.
  induction 1 as [|r p rs ps Hr _ IH]; intros s; [done|]. cbn [steps dispatch_all].
  assert (E : step_packet id p s = dispatch fs id r s).
  { unfold step_packet. by rewrite (encoded_Decode r p Hr). }
  rewrite E. destruct (dispatch fs id r s) as [s1 ds]. cbn [fst snd]. rewrite IH.
  destruct (dispatch_all fs id s1 rs) as [s2 ds']. cbn [fst snd].
  by rewrite fmap_app, concat_app.
Qed.
End Dispatcher.

(** C3. The server implements the dispatcher.  Clients encode messages of the
    protocol and put them on a connection that ends, possibly inside a packet;
    the network delivers the bytes in any chunks.  Then [Recv] returns, the
    handlers ran exactly as the abstract dispatcher runs them on the sequence
    of messages, and the bytes the client got are exactly the encoded packets
    the dispatcher answers with, followed by those of the closing handler. *)
Theorem server_refines_dispatcher {Message : Type} `{L : ProtoLaws Message} {S : Type}
    (start : Z -> S -> S) (stop : Z -> unit -> S -> S * list bytes)
    (fs : gmap Z (Z -> CSHead * Message -> S -> S * list bytes))
    (rs : list (CSHead * Message)) (ps : list bytes) (tl : bytes) (e : rerr) (evs : list netEvent)
    (cfg0 : TcpTransportCfg) (clk : nat -> Z) (now : Z) (ins : uidGeneratorIns) (la ra : string) (s : S) :
  (forall msgid f, fs !! msgid = Some f -> forall id r s, Forall packet_ok (f id r s).2) ->
  (forall id s, Forall packet_ok (stop id () s).2) ->
  Forall2 encoded rs ps -> incomplete tl ->
  ev_pending evs = concat (wire <$> ps) ++ tl -> ev_ends evs = Some e ->
  let c := fst (NewTcpConn now ins (MkTCPConn la ra evs None)) in
  let id := connID c in
  let '(s1, ds) := dispatch_all fs id (start id s) rs in
  let '(s2, ds') := stop id () s1 in
  exists c', Recv (MkEnv cfg0 (eventTcp (mgr_of start stop fs)) clk (fun _ => false)) c s = Done (c', s2) /\
    sent (writer c') = concat (wire <$> ds ++ ds') /\ closed c' = true.
Proof.
  intros Hfs Hstop Hrs Htl Hp He c id.
  pose proof (Recv_packets (eventTcp (mgr_of start stop fs)) (fun p => exists r, encoded r p)
    (step_packet fs) (fun id s => stop id () s)
    (step_packet_ok start stop fs Hfs) (stop_handler_ok start stop fs Hstop)
    cfg0 clk e tl ps evs now ins la ra (fun id => start id s) s ltac:(done) Htl) as Hr.
  cbv zeta in Hr. fold c in Hr. fold id in Hr. rewrite (steps_dispatch fs id rs ps Hrs) in Hr.
  destruct (dispatch_all fs id (start id s) rs) as [s1 ds]. cbn [fst snd] in Hr.
  destruct (stop id () s1) as [s2 ds']. rewrite fmap_app, concat_app. apply Hr; [| |done|done].
  - clear - Hrs. induction Hrs; constructor; [by eapply encoded_packet_ok|done].
  - clear - Hrs. induction Hrs; constructor; [by eexists|done].
Qed.

(** C23. What the server sends, the client reads.  [SendToClient] on a working
    connection puts exactly one frame on it, from which the transport codec
    at the other end, whatever the fragmentation, recovers a packet whose head
    and body unmarshal to the head and the message sent; a message that does
    not fit the 500 KiB buffer is refused with an error and nothing is sent. *)
Theorem send_to_client_roundtrip {Message : Type} `{L : ProtoLaws Message} (cfg0 : TcpTransportCfg) (now : Z)
    (conn : tcpConn) (h : SCHead) (m : Message) (hd bd l : bytes) :
  MarshalSCHead h = Ok hd -> Marshal m = Ok bd -> writer conn = writer_after l ->
  if 4 + Z.of_nat (length hd) + Z.of_nat (length bd) <=? _maxBuffSize then
    exists conn' w, SendToClient cfg0 now conn h m = Done (None, conn') /\
      sent (writer conn') = l ++ w /\
      forall (cc : tcpConn) tl, pending cc = w ++ tl ->
        exists data cc', Decode cc = Done (Ok data, cc') /\ pending cc' = tl /\
          let n := Z.to_nat (le_combine (take 4 data)) in
          UnmarshalSCHead (take n (drop 4 data)) = Some h /\
          Unmarshal (FullName m) (drop (4 + n) data) = Some m
  else SendToClient cfg0 now conn h m = Done (Some "buff copy failed", conn).
Proof.
  intros Hh Hm Hw. unfold SendToClient. rewrite (Encode_spec h m hd bd Hh Hm).
  destruct (Z.leb_spec (4 + Z.of_nat (length hd) + Z.of_nat (length bd)) _maxBuffSize) as [Hl|Hl];
    [|done].
  go_run. assert (Hok : packet_ok (app_packet hd bd)).
  { apply app_packet_ok. unfold _maxBuffSize in Hl. lia. }
  destruct (Send_ok cfg0 now conn (app_packet hd bd) l Hok Hw) as (conn' & -> & Hw' & _).
  exists conn', (wire (app_packet hd bd)). split; [done|]. split; [by rewrite Hw'|].
  intros cc tl Hp. destruct (Decode_wire cc (app_packet hd bd) tl Hok Hp) as (cc' & -> & Hp' & _).
  exists (app_packet hd bd), cc'. split; [done|]. split; [done|].
  unfold app_packet. rewrite take_app_length', le_u32_roundtrip
    by (rewrite ?length_le_split; unfold fits_u, _maxBuffSize in *; lia).
  rewrite Nat2Z.id. cbv zeta. rewrite <- drop_drop, !drop_app_length' by (by rewrite length_le_split).
  rewrite take_app_length, drop_app_length. split.
  - by apply schead_roundtrip.
  - by apply message_roundtrip.
Qed.

(** A registry keeps the first handler of a message id: registering it
    again is refused and changes nothing, and other ids and the handlers of
    connection events are unaffected. *)
Theorem register_client_handler_once {Message : Type} {S : Type} (m : MsgHandlerMgr Message S)
    (msgid : Z) (h h' : ClientMsgHandler Message S) :
  clientMsgHandler m !! msgid = None ->
  let '(e, m1) := RegisterClientMsgHandler msgid h m in
  e = None /\ clientMsgHandler m1 !! msgid = Some h /\
  (forall k, k <> msgid -> clientMsgHandler m1 !! k = clientMsgHandler m !! k) /\
  connEventHandler m1 = connEventHandler m /\
  RegisterClientMsgHandler msgid h' m1 = (Some "already find msgid", m1).
Proof.
  intros Hn. unfold RegisterClientMsgHandler. rewrite Hn. cbn [clientMsgHandler connEventHandler].
  rewrite !lookup_insert_eq. do 2 (split; [done|]). split; [|done].
  intros k Hk. by rewrite lookup_insert_ne.
Qed.

(** ** A protobuf stand-in for the witnesses *)

(** Heads of two 32-bit fields, messages that carry their own type name. *)
#[local] Instance toy_proto : ProtoLib (string * bytes) := {|
  MarshalCSHead h := if decide (fits_u 32 (CS_Msgid h) /\ fits_u 32 (CS_Seqid h))
                     then Ok (le_split 4 (CS_Msgid h) ++ le_split 4 (CS_Seqid h)) else Err "range";
  MarshalSCHead h := if decide (fits_u 32 (SC_Msgid h) /\ fits_u 32 (SC_Seqid h))
                     then Ok (le_split 4 (SC_Msgid h) ++ le_split 4 (SC_Seqid h)) else Err "range";
  UnmarshalCSHead d := if decide (length d = 8%nat)
                       then Some (MkCSHead (le_combine (take 4 d)) (le_combine (drop 4 d))) else None;
  UnmarshalSCHead d := if decide (length d = 8%nat)
                       then Some (MkSCHead (le_combine (take 4 d)) (le_combine (drop 4 d))) else None;
  Marshal m := Ok m.2;
  FindMessageByName n := String.eqb n "proto.CS_LOGIN";
  Unmarshal n d := Some (n, d);
  FullName := fst
|}.

Lemma le_pair a b : fits_u 32 a -> fits_u 32 b ->
  let d := le_split 4 a ++ le_split 4 b in
  length d = 8%nat /\ le_combine (take 4 d) = a /\ le_combine (drop 4 d) = b.
Proof.
  intros Ha Hb d. unfold d. rewrite length_app, !length_le_split.
  rewrite take_app_length', drop_app_length', !le_u32_roundtrip by (by rewrite ?length_le_split). done.
Qed.

#[local] Instance toy_laws : ProtoLaws (string * bytes).
Proof.
  split.
  - intros [a b] d. cbn [MarshalCSHead UnmarshalCSHead toy_proto CS_Msgid CS_Seqid].
    case_decide as Hf; [|done]. intros Hd. destruct Hf as [Ha Hb].
    assert (d = le_split 4 a ++ le_split 4 b) as -> by congruence.
    destruct (le_pair a b Ha Hb) as (-> & -> & ->). done.
  - intros [a b] d. cbn [MarshalSCHead UnmarshalSCHead toy_proto SC_Msgid SC_Seqid].
    case_decide as Hf; [|done]. intros Hd. destruct Hf as [Ha Hb].
    assert (d = le_split 4 a ++ le_split 4 b) as -> by congruence.
    destruct (le_pair a b Ha Hb) as (-> & -> & ->). done.
  - intros [n b] d. cbn. by intros [= <-].
Qed.

(** A login request with sequence number 1 and an empty body. *)
Definition login : CSHead * (string * bytes) := (MkCSHead 1 1, ("proto.CS_LOGIN", [])).
Definition login_packet : bytes := app_packet (le_split 4 1 ++ le_split 4 1) [].

Lemma login_encoded : encoded login login_packet.
Proof.
  exists (le_split 4 1 ++ le_split 4 1), [], "cs_login". repeat split.
Qed.

(** A server that counts logins and acknowledges each with an empty packet. *)
Definition ack : bytes := [Byte.x00; Byte.x00; Byte.x00; Byte.x00].
Definition count_login (id : Z) (r : CSHead * (string * bytes)) (s : nat) : nat * list bytes := (S s, [ack]).

Lemma ack_ok : Forall packet_ok [ack].
Proof. repeat constructor; vm_compute; congruence. Qed.

Lemma server_refines_dispatcher_witness :
  exists c', Recv (MkEnv (MkTcpTransportCfg ":8000" 60)
      (eventTcp (mgr_of (fun _ s => s) (fun _ _ s => (s, [])) {[ CSMessageID_cs_login := count_login ]}))
      (fun _ => 0) (fun _ => false))
    (fst (NewTcpConn 0 None (MkTCPConn "l" "r"
       (match concat (wire <$> [login_packet; login_packet]) with b :: bs => [Chunk b bs; NetErr EOF] | [] => [] end) None))) 0%nat
    = Done (c', 2%nat) /\ sent (writer c') = wire ack ++ wire ack.
Proof.
  destruct (server_refines_dispatcher (fun _ s => s) (fun _ _ s => (s, []))
    {[ CSMessageID_cs_login := count_login ]} [login; login] [login_packet; login_packet] [] EOF
    (match concat (wire <$> [login_packet; login_packet]) with b :: bs => [Chunk b bs; NetErr EOF] | [] => [] end)
    (MkTcpTransportCfg ":8000" 60) (fun _ => 0) 0 None "l" "r" 0%nat) as (c' & H1 & H2 & _).
  - intros msgid f Hf. apply lookup_singleton_Some in Hf as [_ <-]. intros id r s. apply ack_ok.
  - constructor.
  - repeat constructor; apply login_encoded.
  - left. simpl. lia.
  - reflexivity.
  - reflexivity.
  - exists c'. split; [exact H1|exact H2].
Defined.

Lemma toy_mgr_safe :
  safe_mgr (mgr_of (fun _ s => s) (fun _ _ s => (s, [])) {[ CSMessageID_cs_login := count_login ]}).
Proof.
  split; [by (eexists; split; [reflexivity|]; constructor)..|]. intros msgid h Hh id hd msg s.
  change (clientMsgHandler _) with (msg_handler <$> {[ CSMessageID_cs_login := count_login ]} : gmap Z _) in Hh.
  rewrite lookup_fmap in Hh. apply fmap_Some in Hh as (f & Hf & ->).
  apply lookup_singleton_Some in Hf as [_ <-]. constructor; [|constructor].
  apply (proj1 (Forall_singleton _ _)), ack_ok.
Qed.

(** A garbage head asking for one byte, which does come, and then silence. *)
Lemma server_never_panics_witness :
  ~ panics (Recv (MkEnv (MkTcpTransportCfg ":8000" 60)
      (eventTcp (mgr_of (fun _ s => s) (fun _ _ s => (s, [])) {[ CSMessageID_cs_login := count_login ]}))
      (fun _ => 0) (fun _ => false))
    (fst (NewTcpConn 0 None (MkTCPConn "l" "r" [Chunk Byte.x01 (replicate 8 Byte.x00)] None))) 0%nat).
Proof.
  apply server_never_panics; [apply toy_mgr_safe|].
  apply (frames_cons 1 0 [Byte.x00] []); [unfold fits_u; lia|unfold fits_u; lia|lia|reflexivity|].
  apply frames_end. left. simpl. lia.
Defined.

(** Header size 2^32 - 8 and body size 8: no further bytes are needed. *)
Lemma server_crashed_by_oversized_head_witness :
  panics (Recv (MkEnv (MkTcpTransportCfg ":8000" 60)
      (eventTcp (mgr_of (fun _ s => s) (fun _ _ s => (s, [])) {[ CSMessageID_cs_login := count_login ]}))
      (fun _ => 0) (fun _ => false))
    (fst (NewTcpConn 0 None (MkTCPConn "l" "r"
       [Chunk Byte.xf8 [Byte.xff; Byte.xff; Byte.xff; Byte.x08; Byte.x00; Byte.x00; Byte.x00]] None))) 0%nat).
Proof.
  apply (server_crashed_by_oversized_head _ _ _ _ _ (2 ^ 32 - 8) 8 [] []);
    [unfold fits_u; lia|unfold fits_u; lia|lia|reflexivity|reflexivity|reflexivity| |].
  - exists (fun _ s => Done (s, [])). done.
  - intros id. discriminate.
Defined.

Lemma send_to_client_roundtrip_witness :
  let conn := fst (NewTcpConn 0 None (MkTCPConn "l" "r" [] None)) in
  exists conn' w, SendToClient (MkTcpTransportCfg ":8000" 60) 0 conn (MkSCHead 1 2) ("proto.SC_LOGIN", [Byte.x41])
      = Done (None, conn') /\ sent (writer conn') = w /\
    forall (cc : tcpConn) tl, pending cc = w ++ tl -> exists data cc', Decode cc = Done (Ok data, cc') /\ pending cc' = tl.
Proof.
  intros conn.
  pose proof (send_to_client_roundtrip (MkTcpTransportCfg ":8000" 60) 0 conn (MkSCHead 1 2) ("proto.SC_LOGIN", [Byte.x41])
    (le_split 4 1 ++ le_split 4 2) [Byte.x41] [] eq_refl eq_refl eq_refl) as Hs.
  change (4 + _ + _ <=? _maxBuffSize) with true in Hs. cbv iota in Hs.
  destruct Hs as (conn' & w & H1 & H2 & H3). exists conn', w. split; [exact H1|]. split; [exact H2|].
  intros cc tl Hp. destruct (H3 cc tl Hp) as (data & cc' & Hd & Hp' & _). exists data, cc'. split; [exact Hd|exact Hp'].
Defined.

Lemma register_client_handler_once_witness :
  let m1 := (RegisterClientMsgHandler 1 (msg_handler count_login) (newMsgHandlerMgr)).2 in
  RegisterClientMsgHandler 1 (fun _ _ _ s => Done (s, [])) m1 = (Some "already find msgid", m1).
Proof.
  apply (register_client_handler_once newMsgHandlerMgr 1 (msg_handler count_login)). reflexivity.
Defined.
