(* ===== verification/MsgText.v ===== *)
(** * server_base/msg: client messages as the log shows them

    [PrintReadableStr] and the two log records of a message.  The text format
    of protobuf is a parameter; of it only that it writes whole lines is used. *)

From S2P Require Import Prelude GoStrings Msg.

Abbreviation newline := (String "010"%char "").

(** [strings.TrimRight(s, " ")]. *)
Fixpoint trimLeft (l : list ascii) : list ascii :=
  match l with
  | a :: l' => if bool_decide (a = " "%char) then trimLeft l' else l
  | [] => []
  end.
Definition TrimRight (s : string) : string := of_chars (reverse (trimLeft (reverse (chars s)))).

(** The text format with a tabulator as indent, of the heads and of messages,
    and the short name of a message's type. *)
Class TextLib (Message : Type) := {
  FormatCSHead : CSHead -> string;
  FormatSCHead : SCHead -> string;
  FormatMessage : Message -> string;
  DescName : Message -> string
}.

Definition PrintReadableStr (marshalStr : string) : string :=
  let fixedStr := ReplaceAll marshalStr "010" (newline +:+ "  ") in
  let fixedStr := TrimRight fixedStr in
  "  " +:+ fixedStr.

Section Print.
Context {Message : Type} `{TextLib Message}.

(** The text handed to the log. *)
Definition printCSMsg (header : CSHead) (msg : Message) : string :=
  "recv cs msg:" +:+ newline +:+ "CS_HEAD {" +:+ newline +:+ PrintReadableStr (FormatCSHead header) +:+ "}" +:+ newline
    +:+ DescName msg +:+ " {" +:+ newline +:+ PrintReadableStr (FormatMessage msg) +:+ "}".

Definition printSCMsg (header : SCHead) (msg : Message) : string :=
  "send sc msg:" +:+ newline +:+ "SC_HEAD {" +:+ newline +:+ PrintReadableStr (FormatSCHead header) +:+ "}" +:+ newline
    +:+ DescName msg +:+ " {" +:+ newline +:+ PrintReadableStr (FormatMessage msg) +:+ "}".
End Print.

(** ** Whole lines *)

Definition unlines (ls : list string) : string := foldr (fun l s => l +:+ newline +:+ s) "" ls.
Definition is_line (s : string) : Prop := "010"%char ∉ chars s.
Definition indent (s : string) : string := "  " +:+ s.

(** The lines between the braces, with the closing one.  An empty message
    leaves the indent on the line of the brace. *)
Definition block (ls : list string) : list string :=
  match ls with [] => ["  }"] | _ => (indent <$> ls) ++ ["}"] end.

Lemma ReplaceAll_app a b old new : ReplaceAll (a +:+ b) old new = ReplaceAll a old new +:+ ReplaceAll b old new.
Proof. unfold ReplaceAll. by rewrite chars_app, fmap_app, concat_app, of_chars_app. Qed.

Lemma TrimRight_line x : TrimRight (x +:+ newline +:+ "  ") = x +:+ newline.
Proof.
  apply chars_inj. unfold TrimRight. rewrite chars_of_chars, !chars_app, (app_assoc (chars x)), reverse_app.
  change (reverse (chars "  ")) with [" "%char; " "%char]. cbn [app trimLeft]. rewrite !bool_decide_true by done.
  change (chars newline) with ["010"%char]. rewrite reverse_snoc. cbn [trimLeft]. rewrite bool_decide_false by done.
  by rewrite reverse_cons, reverse_involutive.
Qed.

Lemma Replace_lines ls : forall l, Forall is_line (l :: ls) ->
  exists y, ReplaceAll (unlines (l :: ls)) "010" (newline +:+ "  ") = y +:+ newline +:+ "  " /\
    "  " +:+ y +:+ newline = unlines (indent <$> l :: ls).
Proof.
  induction ls as [|l' ls IH]; intros l Hl; apply Forall_cons in Hl as [Hl Hls];
    change (unlines (l :: ?ls)) with (l +:+ newline +:+ unlines ls); rewrite !ReplaceAll_app, (ReplaceAll_absent l) by done.
  - by exists l.
  - destruct (IH l' Hls) as (y & -> & Hy). exists (l +:+ newline +:+ "  " +:+ y). split; [by rewrite !string_assoc|].
    rewrite fmap_cons. change (unlines (?a :: ?b)) with (a +:+ newline +:+ unlines b). rewrite <- Hy. unfold indent.
    by rewrite !string_assoc.
Qed.

Lemma Print_lines ls : Forall is_line ls ->
  PrintReadableStr (unlines ls) = match ls with [] => "  " | _ => unlines (indent <$> ls) end.
Proof.
  destruct ls as [|l ls]; intros Hl; [done|]. unfold PrintReadableStr. destruct (Replace_lines ls l Hl) as (y & -> & Hy).
  by rewrite TrimRight_line.
Qed.

Lemma Split_unlines ls s : Forall is_line ls -> Split (unlines ls +:+ s) "010" = ls ++ Split s "010".
Proof.
  induction 1 as [|l ls Hl _ IH]; [done|]. change (unlines (l :: ls)) with (l +:+ newline +:+ unlines ls).
  rewrite !string_assoc, Split_field by done. by rewrite IH.
Qed.

Lemma indent_lines ls : Forall is_line ls -> Forall is_line (indent <$> ls).
Proof.
  intros Hl. apply Forall_fmap. eapply Forall_impl; [exact Hl|]. intros l Hn. unfold is_line, indent, compose in *. rewrite chars_app, elem_of_app.
  intros [Hx|Hx]; [|done]. revert Hx. by_decide.
Qed.

Lemma Split_block ls s : Forall is_line ls ->
  Split (PrintReadableStr (unlines ls) +:+ "}" +:+ newline +:+ s) "010" = block ls ++ Split s "010" /\
  Split (PrintReadableStr (unlines ls) +:+ "}") "010" = block ls.
Proof.
  intros Hl. rewrite Print_lines by done. assert (Hb : is_line "}") by by_decide. destruct ls as [|l ls].
  - split; [|done]. rewrite <- string_assoc, Split_field; [done|]. by_decide.
  - pose proof (indent_lines _ Hl) as Hi. rewrite !Split_unlines by done. split; [|done].
    rewrite Split_field by done. unfold block. by rewrite <- app_assoc.
Qed.

(** The log shows every client message in whole lines: a title, the head and
    the message each between braces with all lines of their text, unchanged
    and indented by two blanks.  A head or message without fields shows a
    closing brace that is indented. *)
Theorem message_log_lines {Message : Type} `{TextLib Message} (ch : CSHead) (sh : SCHead) (msg : Message)
    (cls sls mls : list string) :
  Forall is_line cls -> Forall is_line sls -> Forall is_line mls -> is_line (DescName msg) ->
  FormatCSHead ch = unlines cls -> FormatSCHead sh = unlines sls -> FormatMessage msg = unlines mls ->
  Split (printCSMsg ch msg) "010" = ["recv cs msg:"; "CS_HEAD {"] ++ block cls ++ [DescName msg +:+ " {"] ++ block mls /\
  Split (printSCMsg sh msg) "010" = ["send sc msg:"; "SC_HEAD {"] ++ block sls ++ [DescName msg +:+ " {"] ++ block mls.
Proof.
  intros Hc Hs Hm Hn Ec Es Em. unfold printCSMsg, printSCMsg. rewrite Ec, Es, Em.
  assert (Hd : is_line (DescName msg +:+ " {")).
  { unfold is_line in *. rewrite chars_app, elem_of_app. intros [Hx|Hx]; [done|]. revert Hx. by_decide. }
  split.
  - rewrite !Split_field, (proj1 (Split_block cls _ Hc)) by by_decide. rewrite <- (string_assoc (DescName msg)).
    by rewrite Split_field, (proj2 (Split_block mls "" Hm)).
  - rewrite !Split_field, (proj1 (Split_block sls _ Hs)) by by_decide. rewrite <- (string_assoc (DescName msg)).
    by rewrite Split_field, (proj2 (Split_block mls "" Hm)).
Qed.

Definition demo_text : TextLib string := {|
  FormatCSHead h := unlines ["Msgid: " +:+ FormatInt (CS_Msgid h); "Seqid: " +:+ FormatInt (CS_Seqid h)];
  FormatSCHead h := unlines ["Msgid: " +:+ FormatInt (SC_Msgid h)];
  FormatMessage m := unlines [];
  DescName m := m
|}.

Lemma message_log_lines_witness :
  Split (printCSMsg (H := demo_text) (MkCSHead 1 7) "CS_LOGIN") "010" =
    ["recv cs msg:"; "CS_HEAD {"; "  Msgid: 1"; "  Seqid: 7"; "}"; "CS_LOGIN {"; "  }"].
Proof.
  destruct (message_log_lines (H := demo_text) (MkCSHead 1 7) (MkSCHead 1 8) "CS_LOGIN" ["Msgid: 1"; "Seqid: 7"] ["Msgid: 1"] [])
    as [H1 _].
  - repeat constructor; by_decide.
  - repeat constructor; by_decide.
  - constructor.
  - by_decide.
  - reflexivity.
  - reflexivity.
  - reflexivity.
  - exact H1.
Defined.
