(* ===== verification/Conns.v ===== *)
(** * Many connections at once

    The goroutines of the TCP transport as one process: the accept loop of
    [TcpTransport.serve], a goroutine in [tcpConn.Recv] for every connection,
    and the call of [Uninit], interleaved in any order over one set of handlers
    and their shared state.  A goroutine moves by turns: the opening of its
    connection, the select of its loop, the read of one packet with its
    handling, its end; [Recv_turns] shows that the turns of one connection are
    [Recv].  A call of a handler, with the calls it makes on its connection, is
    one step: handlers that share state are taken to lock it.  A goroutine that
    panics still runs its deferred [Close], while the others go on; then the
    process ends. *)

From S2P Require Import Prelude Uid TransportCodec Tcp Msg.

(** ** One goroutine *)

Inductive goroutine :=
  | GOpening (c : tcpConn)                  (* before OnConnOpened *)
  | GLoop (c : tcpConn)                     (* at the select of the loop *)
  | GReading (c : tcpConn)                  (* past the select, in Decode *)
  | GEnded (c : tcpConn)                    (* after the deferred Close *)
  | GPanicking (c : tcpConn) (why : string) (* before the deferred Close *)
  | GDying (c : tcpConn) (why : string).    (* after it: the process ends *)

Definition conn_of (g : goroutine) : tcpConn :=
  match g with GOpening c | GLoop c | GReading c | GEnded c | GPanicking c _ | GDying c _ => c end.
Definition ended (g : goroutine) : bool := match g with GEnded _ => true | _ => false end.
Definition panicked (g : goroutine) : bool := match g with GPanicking _ _ | GDying _ _ => true | _ => false end.

Section Turns.
Context {St : Type} (cfg0 : TcpTransportCfg) (eh : EventHandler St).

Definition env_at (now : Z) (ctx : bool) : Env St := MkEnv cfg0 eh (fun _ => now) (fun _ => ctx).

(** The goroutine panics, or its deferred [Close] does. *)
Definition panicking (why : string) (cs : tcpConn * St) : outcome (goroutine * St) := Done (GPanicking cs.1 why, cs.2).
Definition dying (why : string) (cs : tcpConn * St) : outcome (goroutine * St) := Done (GDying cs.1 why, cs.2).

(** The deferred [Close], after which the goroutine is at [k]. *)
Definition closing (now : Z) (k : tcpConn -> goroutine) (c : tcpConn) (s : St) : outcome (goroutine * St) :=
  on_panic (Close (env_at now false) now false c s) (fun why => dying why (Close_left (env_at now false) now false c s))
    (fun '(c, s) => Done (k c, s)).

(** One turn, at time [now] and with the transport's context cancelled or not;
    [Hang]: the goroutine is blocked in a read or in a handler, or has ended;
    [Panic]: the process ends. *)
Definition turn (now : Z) (ctx : bool) (g : goroutine) (s : St) : outcome (goroutine * St) :=
  let env := env_at now ctx in
  match g with
  | GOpening c =>
      on_panic (OnConnOpened eh (connID c) s) (fun why => panicking why (c, s)) (fun '(s, acts) =>
      on_panic (perform env now acts c s) (fun why => panicking why (perform_left env now acts c s)) (fun '(c, s) =>
      Done (GLoop c, s)))
  | GLoop c =>
      if ctx || cancelled c then closing now GEnded c s
      else Done (GReading (setReadTimeout cfg0 now c), s)
  | GReading c =>
      on_panic (Decode c) (fun why => panicking why (c, s)) (fun '(r, c) =>
      match r with
      | Err _ => closing now GEnded c s
      | Ok pkg =>
          on_panic (OnData eh (connID c) pkg s) (fun why => panicking why (c, s)) (fun '(s, acts) =>
          on_panic (perform env now acts c s) (fun why => panicking why (perform_left env now acts c s)) (fun '(c, s) =>
          Done (GLoop c, s)))
      end)
  | GPanicking c why => closing now (fun c => GDying c why) c s
  | GDying _ why => Panic why
  | GEnded _ => Hang
  end.

(** ** The process *)

(** The accept loop: at its select, blocked in AcceptTCP, returned. *)
Inductive acceptor := ASelect (evs : list acceptEvent) | AAccept (evs : list acceptEvent) | AReturned.

Record netState := MkNet {
  gs : list goroutine;
  shared : St;
  ctxCancel : bool;
  accepting : acceptor;
  uids : uidGeneratorIns;
  crashed : option string
}.

(** After [Init]: the accept loop runs and there is no connection yet. *)
Definition net_start (evs : list acceptEvent) (ins : uidGeneratorIns) (s : St) : netState :=
  MkNet [] s false (ASelect evs) ins None.

Definition with_acceptor (a : acceptor) (st : netState) : netState :=
  MkNet (gs st) (shared st) (ctxCancel st) a (uids st) (crashed st).

(** A connection is accepted: its goroutine starts. *)
Definition accept (now : Z) (conn : TCPConn) (evs : list acceptEvent) (st : netState) : netState :=
  let '(c, ins) := NewTcpConn now (uids st) conn in
  MkNet (gs st ++ [GOpening c]) (shared st) (ctxCancel st) (ASelect evs) ins (crashed st).

Inductive net_step : netState -> netState -> Prop :=
| net_select st evs : crashed st = None -> accepting st = ASelect evs ->
    net_step st (with_acceptor (if ctxCancel st then AReturned else AAccept evs) st)
| net_accept st now conn evs : crashed st = None -> accepting st = AAccept (Accepted conn :: evs) ->
    net_step st (accept now conn evs st)
| net_accept_err st temporary evs : crashed st = None -> accepting st = AAccept (AcceptErr temporary :: evs) ->
    net_step st (with_acceptor (if temporary then ASelect evs else AReturned) st)
| net_uninit st : crashed st = None ->
    net_step st (MkNet (gs st) (shared st) true (accepting st) (uids st) None)
| net_turn st now k g g' s' : crashed st = None -> gs st !! k = Some g ->
    turn now (ctxCancel st) g (shared st) = Done (g', s') ->
    net_step st (MkNet (<[k := g']> (gs st)) s' (ctxCancel st) (accepting st) (uids st) None)
| net_panic st now k g why : crashed st = None -> gs st !! k = Some g ->
    turn now (ctxCancel st) g (shared st) = Panic why ->
    net_step st (MkNet (gs st) (shared st) (ctxCancel st) (accepting st) (uids st) (Some why)).
End Turns.
Arguments netState St : clear implicits.

(** ** The turns of one connection are [Recv] *)

(** A goroutine alone, from turn [i] of its loop on. *)
Fixpoint turns {St} (env : Env St) (fuel i : nat) (g : goroutine) (s : St) : outcome (tcpConn * St) :=
  match g with
  | GEnded c => Done (c, s)
  | _ =>
      match fuel with
      | O => Hang
      | S fuel =>
          '(g', s) ← turn (cfg env) (eventHandler env) (clock env i) (ctxDone env i) g s;
          turns env fuel (match g, g' with GReading _, GLoop _ => S i | _, _ => i end) g' s
      end
  end.

(** What the calls on a connection do depends on the configuration and the
    handler alone. *)
Lemma Close_env {St} (env : Env St) now ctx t active c s :
  Close (env_at (cfg env) (eventHandler env) now ctx) t active c s = Close env t active c s.
Proof. reflexivity. Qed.

Lemma perform_env {St} (env : Env St) now ctx t acts c s :
  perform (env_at (cfg env) (eventHandler env) now ctx) t acts c s = perform env t acts c s.
Proof. reflexivity. Qed.

Lemma perform_left_env {St} (env : Env St) now ctx t acts c s :
  perform_left (env_at (cfg env) (eventHandler env) now ctx) t acts c s = perform_left env t acts c s.
Proof. reflexivity. Qed.

(** A goroutine that runs its deferred call, and one that does so panicking. *)
Lemma closing_turns {St} (env : Env St) i k c s (f : tcpConn * St -> outcome (tcpConn * St)) n :
  (forall c s, turns env (S n) i (k c) s = f (c, s)) -> (Close env (clock env i) false c s ≫= f) <> Hang ->
  ('(g, s) ← closing (cfg env) (eventHandler env) (clock env i) k c s; turns env (S n) i g s) =
  (Close env (clock env i) false c s ≫= f).
Proof.
  intros Hk Hne. unfold closing. rewrite Close_env. destruct (Close env _ false c s) as [[c' s']|why|]; [|done|done].
  cbn. apply Hk.
Qed.

Lemma unwind_turns {St} (env : Env St) i why cs : unwind env (clock env i) why cs <> (Hang : outcome (tcpConn * St)) ->
  turns env 2 i (GPanicking cs.1 why) cs.2 = unwind env (clock env i) why cs.
Proof.
  intros Hne. unfold unwind in *. apply (closing_turns env i (fun c => GDying c why) cs.1 cs.2 (fun _ => Panic why) 0); [done|done].
Qed.

Lemma Recv_loop_turns {St} (env : Env St) fuel : forall i c s,
  Recv_loop env fuel i c s <> Hang -> exists n, turns env n i (GLoop c) s = Recv_loop env fuel i c s.
Proof.
  assert (Hret : forall i c s, Close env (clock env i) false c s <> Hang ->
    ('(g, s) ← closing (cfg env) (eventHandler env) (clock env i) GEnded c s; turns env 1 i g s) = Close env (clock env i) false c s).
  { intros i c s Hne. assert (Hid : (Close env (clock env i) false c s ≫= Done) = Close env (clock env i) false c s) by (by destruct (Close _ _ _ _ _)).
    rewrite (closing_turns env i GEnded c s Done 0); [done|done|by rewrite Hid]. }
  induction fuel as [|fuel IH]; intros i c s Hne; cbn [Recv_loop] in *; destruct (ctxDone env i || cancelled c) eqn:Hd; try done;
    [exists 2%nat; cbn [turns turn]; rewrite Hd; by apply Hret..|].
  assert (Hs : forall n, turns env (S n) i (GLoop c) s = turns env n i (GReading (setReadTimeout (cfg env) (clock env i) c)) s)
    by (intros n; cbn; by rewrite Hd).
  set (c0 := setReadTimeout _ _ c) in *. assert (Hr : exists n, turns env (S n) i (GReading c0) s =
    on_panic (Decode c0) (fun why => unwind env (clock env i) why (c0, s)) (fun '(r, c) =>
      match r with
      | Err _ => Close env (clock env i) false c s
      | Ok pkg =>
          on_panic (OnData (eventHandler env) (connID c) pkg s) (fun why => unwind env (clock env i) why (c, s)) (fun '(s, acts) =>
          on_panic (perform env (clock env i) acts c s) (fun why => unwind env (clock env i) why (perform_left env (clock env i) acts c s))
            (fun '(c, s) => Recv_loop env fuel (S i) c s))
      end)).
  2: { destruct Hr as [n Hn]. exists (S (S n)). by rewrite Hs. }
  destruct (Decode c0) as [[[pkg|e] c1]|why|] eqn:Hc; cbn [on_panic] in *; [| | |done].
  - destruct (OnData _ _ _ _) as [[s1 acts]|why|] eqn:Ho; cbn [on_panic] in *; [| |done].
    2: { exists 2%nat. cbn [turns turn]. rewrite Hc. cbn [on_panic]. rewrite Ho. by apply (unwind_turns env i why (c1, s)). }
    destruct (perform _ _ _ _ _) as [[c2 s2]|why|] eqn:Hp; cbn [on_panic] in *; [| |done].
    2: { exists 2%nat. cbn [turns turn]. rewrite Hc. cbn [on_panic]. rewrite Ho. cbn [on_panic].
      rewrite perform_env, perform_left_env, Hp. by apply (unwind_turns env i why). }
    destruct (IH (S i) c2 s2 Hne) as [n Hn]. exists n. rewrite <- Hn. cbn [turns turn]. rewrite Hc. cbn [on_panic].
    rewrite Ho. cbn [on_panic]. by rewrite perform_env, Hp.
  - exists 1%nat. cbn [turns turn]. rewrite Hc. cbn [on_panic]. unfold closing. rewrite Close_env.
    by destruct (Close env _ _ _ _) as [[? ?]| |].
  - exists 2%nat. cbn [turns turn]. rewrite Hc. by apply (unwind_turns env i why (c0, s)).
Qed.

(** The turns of a goroutine, run one after the other, are the function
    [Recv]. *)
Lemma Recv_turns {St} (env : Env St) c s : Recv env c s <> Hang ->
  exists fuel, turns env fuel 0 (GOpening c) s = Recv env c s.
Proof.
  unfold Recv. intros Hne. destruct (OnConnOpened _ _ _) as [[s1 acts]|why|] eqn:Ho; cbn [on_panic] in *; [| |done].
  2: { exists 3%nat. cbn [turns turn]. rewrite Ho. by apply (unwind_turns env 0 why (c, s)). }
  destruct (perform _ _ _ _ _) as [[c1 s2]|why|] eqn:Hp; cbn [on_panic] in *; [| |done].
  2: { exists 3%nat. cbn [turns turn]. rewrite Ho. cbn [on_panic]. rewrite perform_env, perform_left_env, Hp. by apply (unwind_turns env 0 why). }
  destruct (Recv_loop_turns _ _ _ _ _ Hne) as [n <-]. exists (S n).
  cbn [turns turn]. rewrite Ho. cbn [on_panic]. by rewrite perform_env, Hp.
Qed.

(** ** What one turn does *)

Lemma Decode_incomplete_blocks (c : tcpConn) : incomplete (pending c) -> ends_with c = None -> Decode c = Hang.
Proof.
  intros [Hl|(h & b & body & Hp & Hh & Hb & Hhb & Hl)] He.
  - pose proof (Decode_short_head c Hl) as Hd. by rewrite He in Hd.
  - pose proof (Decode_short_body c h b body Hh Hb Hhb Hl Hp) as Hd. by rewrite He in Hd.
Qed.

(** ** What handlers promise to the transport *)

(** On the packets of messages with [Q] the handlers compute [start], [handle]
    and [stop] on their state, and answer with packets that can be framed. *)
Class Dispatches {Message} `{ProtoLib Message} {St : Type} (eh : EventHandler St) (Q : CSHead * Message -> Prop)
    (start : Z -> St -> St) (handle : Z -> CSHead * Message -> St -> St * list bytes) (stop : Z -> St -> St * list bytes)
    : Prop := {
  on_open : forall id s, OnConnOpened eh id s = Done (start id s, []);
  on_message : forall id r p s, encoded r p -> Q r ->
    OnData eh id p s = Done ((handle id r s).1, ASend <$> (handle id r s).2) /\ Forall packet_ok (handle id r s).2;
  on_close : forall id s, OnConnClosed eh id false s = Done (stop id s) /\ Forall packet_ok (stop id s).2
}.

Section OneTurn.
Context {Message : Type} `{L : ProtoLaws Message} {St : Type} (cfg0 : TcpTransportCfg) (eh : EventHandler St).
Context (Q : CSHead * Message -> Prop) (start : Z -> St -> St) (handle : Z -> CSHead * Message -> St -> St * list bytes).
Context (stop : Z -> St -> St * list bytes) `{D : !Dispatches eh Q start handle stop}.

Lemma turn_opening now ctx c s : turn cfg0 eh now ctx (GOpening c) s = Done (GLoop c, start (connID c) s).
Proof. cbn. by rewrite on_open. Qed.

(** [c] has sent [l] and will read [b], and then block or fail as [e] says. *)
Record open_conn (c : tcpConn) (id : Z) (l b : bytes) (e : option rerr) : Prop := {
  open_id : connID c = id;
  open_writer : writer c = writer_after l;
  open_pending : pending c = b;
  open_ends : ends_with c = e;
  open_active : cancelled c = false
}.

(** The select of a connection that goes on. *)
Lemma turn_select now c id l b e s : open_conn c id l b e ->
  exists c', turn cfg0 eh now false (GLoop c) s = Done (GReading c', s) /\ connID c' = connID c /\ open_conn c' id l b e.
Proof.
  intros [Hi Hw Hp He Hc]. cbn [turn]. rewrite Hc. cbn [orb].
  destruct (setReadTimeout_frame cfg0 now c) as (Hi0 & Hr0 & Hw0 & Hc0). set (c0 := setReadTimeout _ _ c) in *.
  exists c0. split; [done|]. split; [done|].
  split; [by rewrite Hi0|by rewrite Hw0|simpl in Hp |- *; by rewrite Hr0|simpl in He |- *; by rewrite Hr0|by rewrite Hc0].
Qed.

Lemma turn_packet now ctx c id l r p rest e s : open_conn c id l (wire p ++ rest) e -> encoded r p -> Q r ->
  exists c', turn cfg0 eh now ctx (GReading c) s = Done (GLoop c', (handle id r s).1) /\
    open_conn c' id (l ++ concat (wire <$> (handle id r s).2)) rest e.
Proof.
  intros [Hi Hw Hp He Hc] Hrp HQ. cbn [turn].
  destruct (Decode_wire c p rest) as (c1 & -> & Hp1 & He1 & rd & ->); [by eapply encoded_packet_ok|done|].
  go_run. cbn [connID set_reader]. rewrite Hi. destruct (on_message id r p s Hrp HQ) as [-> Hds]. go_run. rewrite perform_sends.
  match goal with |- context [sendAll ?env _ _ _] =>
    destruct (sendAll_ok env now (handle id r s).2 (set_reader c rd) l Hds) as (c2 & -> & Hw2 & Hr2 & Hc2 & Hi2) end.
  { done. }
  go_run. exists c2. split; [done|]. cbn [reader set_reader cancelled connID] in *. split.
  - by rewrite Hi2.
  - done.
  - simpl. rewrite Hr2. exact Hp1.
  - simpl in He |- *. rewrite Hr2. simpl in He1. by rewrite He1.
  - by rewrite Hc2.
Qed.

(** The goroutine closes: [l] and what [stop] answers is all it ever sent. *)
Definition closed_conn (c : tcpConn) (id : Z) (l : bytes) : Prop :=
  connID c = id /\ sent (writer c) = l /\ closed c = true.

Lemma Close_conn env now c id l s : eventHandler env = eh -> connID c = id -> writer c = writer_after l ->
  exists c', Close env now false c s = Done (c', (stop id s).1) /\
    closed_conn c' id (l ++ concat (wire <$> (stop id s).2)).
Proof.
  intros He Hi Hw. unfold Close. rewrite Hw. cbn [bufio_Flush writer_after werr wbuf].
  destruct (on_close id s) as [Ho Hp]. cbn [connID set_writer]. rewrite He, Hi, Ho.
  destruct (stop id s) as [s' ds]. go_run. cbn [fst snd] in *.
  match goal with |- context [sendAll ?env now ?c1 ds] =>
    destruct (sendAll_ok env now ds c1 l Hp eq_refl) as (c' & -> & Hw' & _ & _ & Hi') end.
  go_run. eexists. split; [reflexivity|]. split; [cbn in *; congruence|]. cbn. by rewrite Hw'.
Qed.

Lemma turn_cancelled now c id l b e s : open_conn c id l b e ->
  exists c', turn cfg0 eh now true (GLoop c) s = Done (GEnded c', (stop id s).1) /\
    closed_conn c' id (l ++ concat (wire <$> (stop id s).2)).
Proof.
  intros [Hi Hw _ _ _]. cbn [turn orb]. unfold closing.
  match goal with |- context [Close ?env _ _ _ _] => destruct (Close_conn env now c id l s eq_refl Hi Hw) as (c' & -> & Hc) end.
  by exists c'.
Qed.

Lemma turn_incomplete now ctx c id l tl e s : open_conn c id l tl e -> incomplete tl ->
  match e with
  | Some _ => exists c', turn cfg0 eh now ctx (GReading c) s = Done (GEnded c', (stop id s).1) /\
      closed_conn c' id (l ++ concat (wire <$> (stop id s).2))
  | None => turn cfg0 eh now ctx (GReading c) s = Hang
  end.
Proof.
  intros [Hi Hw Hp He Hc] Htl. cbn [turn]. rewrite <- Hp in Htl.
  destruct e as [e|]; [|by rewrite (Decode_incomplete_blocks c)].
  destruct (Decode_incomplete c e Htl He) as (c1 & -> & rd & ->). go_run. unfold closing.
  match goal with |- context [Close ?env _ _ _ _] =>
    destruct (Close_conn env now (set_reader c rd) id l s eq_refl Hi Hw) as (c' & -> & Hc') end. by exists c'.
Qed.
End OneTurn.

(** ** The abstract server: one client event after the other *)

(** What happens to connection number [who], whose id is [cid]. *)
Inductive clientEvent (Message : Type) := COpen | CMsg (r : CSHead * Message) | CClose.
Arguments COpen {Message}.
Arguments CMsg {Message} r.
Arguments CClose {Message}.
Record netEv (Message : Type) := MkNetEv { who : nat; cid : Z; what : clientEvent Message }.
Arguments MkNetEv {Message} _ _ _.
Arguments who {Message} _.
Arguments cid {Message} _.
Arguments what {Message} _.

(** The events of connection [k] in a history. *)
Definition mine {Message} (k : nat) (h : list (netEv Message)) : list (clientEvent Message) :=
  what <$> filter (fun e => who e = k) h.

Lemma mine_snoc {Message} k (h : list (netEv Message)) e :
  mine k (h ++ [e]) = mine k h ++ (if decide (who e = k) then [what e] else []).
Proof. unfold mine. rewrite filter_app, fmap_app, filter_cons, filter_nil. by destruct (decide (who e = k)). Qed.

Section Linear.
Context {Message : Type} `{L : ProtoLaws Message} {S : Type}.
Context (start : Z -> S -> S) (handle : Z -> CSHead * Message -> S -> S * list bytes) (stop : Z -> S -> S * list bytes).

Definition abs_step (e : netEv Message) (s : S) : S * list bytes :=
  match what e with
  | COpen => (start (cid e) s, [])
  | CMsg r => handle (cid e) r s
  | CClose => stop (cid e) s
  end.

Definition replay (h : list (netEv Message)) (s : S) : S := foldl (fun s e => (abs_step e s).1) s h.

(** The packets sent to connection [k] along a history. *)
Fixpoint answered (k : nat) (h : list (netEv Message)) (s : S) : list bytes :=
  match h with
  | [] => []
  | e :: h => (if decide (who e = k) then (abs_step e s).2 else []) ++ answered k h (abs_step e s).1
  end.

Lemma replay_snoc h e s : replay (h ++ [e]) s = (abs_step e (replay h s)).1.
Proof. unfold replay. by rewrite foldl_app. Qed.

Lemma answered_snoc k h e : forall s,
  answered k (h ++ [e]) s = answered k h s ++ (if decide (who e = k) then (abs_step e (replay h s)).2 else []).
Proof.
  induction h as [|e0 h IH]; intros s; cbn [app answered]; [by rewrite app_nil_r|]. rewrite IH, <- app_assoc. done.
Qed.

(** *** Connections and their clients *)

Definition conns (evs : list acceptEvent) : list TCPConn :=
  omap (fun ev => match ev with Accepted conn => Some conn | AcceptErr _ => None end) evs.

(** The client of [conn] sends [rs], may stop inside one more packet, and reads
    what it is sent; then it stays silent, or the connection ends, as [e] says. *)
Definition client (conn : TCPConn) (rs : list (CSHead * Message)) (e : option rerr) : Prop :=
  will_accept conn = None /\ ev_ends (will_read conn) = e /\
  exists ps tl, Forall2 encoded rs ps /\ incomplete tl /\ ev_pending (will_read conn) = concat (wire <$> ps) ++ tl.

Context (cfg0 : TcpTransportCfg) (reqs : nat -> list (CSHead * Message)) (ends : nat -> option rerr) (s0 : S).
Context (eh : EventHandler S) (Q : CSHead * Message -> Prop) `{D : !Dispatches eh Q start handle stop}.
Hypothesis Hreqs : forall k, Forall Q (reqs k).

(** Where connection [k] is, after the history [h]. *)
Inductive progress (k : nat) (h : list (netEv Message)) (ctx : bool) : goroutine -> Prop :=
| progress_opening c ps tl :
    mine k h = [] -> answered k h s0 = [] -> Forall2 encoded (reqs k) ps -> incomplete tl ->
    open_conn c (connID c) [] (concat (wire <$> ps) ++ tl) (ends k) ->
    progress k h ctx (GOpening c)
| progress_loop c rs1 rs2 ps tl :
    mine k h = COpen :: (CMsg <$> rs1) -> reqs k = rs1 ++ rs2 -> Forall2 encoded rs2 ps -> incomplete tl ->
    open_conn c (connID c) (concat (wire <$> answered k h s0)) (concat (wire <$> ps) ++ tl) (ends k) ->
    progress k h ctx (GLoop c)
| progress_reading c rs1 rs2 ps tl :
    mine k h = COpen :: (CMsg <$> rs1) -> reqs k = rs1 ++ rs2 -> Forall2 encoded rs2 ps -> incomplete tl ->
    open_conn c (connID c) (concat (wire <$> answered k h s0)) (concat (wire <$> ps) ++ tl) (ends k) ->
    progress k h ctx (GReading c)
| progress_ended c rs1 rs2 :
    mine k h = COpen :: (CMsg <$> rs1) ++ [CClose] -> reqs k = rs1 ++ rs2 -> (ctx = false -> rs2 = []) ->
    closed_conn c (connID c) (concat (wire <$> answered k h s0)) ->
    progress k h ctx (GEnded c).

(** Events of other connections change nothing. *)
Lemma progress_other k h ctx g e : who e <> k -> progress k h ctx g -> progress k (h ++ [e]) ctx g.
Proof.
  intros Hk Hg. assert (Hm : mine k (h ++ [e]) = mine k h) by (by rewrite mine_snoc, decide_False, app_nil_r).
  assert (Ha : answered k (h ++ [e]) s0 = answered k h s0) by (by rewrite answered_snoc, decide_False, app_nil_r).
  destruct Hg; [eapply progress_opening|eapply progress_loop|eapply progress_reading|eapply progress_ended]; rewrite ?Hm, ?Ha; done.
Qed.

Lemma progress_cancel k h ctx g : progress k h ctx g -> progress k h true g.
Proof. destruct 1; [by eapply progress_opening|by eapply progress_loop|by eapply progress_reading|by eapply progress_ended]. Qed.

(** The first unread packet, if there is one. *)
Lemma next_packet rs ps : Forall2 encoded rs ps ->
  rs = [] /\ ps = [] \/
  exists r rs' p ps', rs = r :: rs' /\ ps = p :: ps' /\ encoded r p /\ Forall2 encoded rs' ps'.
Proof. intros Hf. destruct Hf as [|r p rs ps Hr Hf]; [by left|]. right. by exists r, rs, p, ps. Qed.

Lemma mine_own k (h : list (netEv Message)) id w : mine k (h ++ [MkNetEv k id w]) = mine k h ++ [w].
Proof. by rewrite mine_snoc, decide_True. Qed.

Lemma answered_own k h id w : answered k (h ++ [MkNetEv k id w]) s0 =
  answered k h s0 ++ (abs_step (MkNetEv k id w) (replay h s0)).2.
Proof. by rewrite answered_snoc, decide_True. Qed.

(** The turns a goroutine can still take, at most. *)
Definition todo (g : goroutine) : nat :=
  match g with
  | GOpening c => (3 + 2 * length (pending c))%nat
  | GLoop c => (2 + 2 * length (pending c))%nat
  | GReading c => (1 + 2 * length (pending c))%nat
  | GPanicking _ _ => 2%nat
  | GDying _ _ => 1%nat
  | GEnded _ => 0%nat
  end.

(** The history after a turn that is event [w] of connection [k], or none. *)
Definition record (k : nat) (id : Z) (w : option (clientEvent Message)) (h : list (netEv Message)) : list (netEv Message) :=
  match w with Some w => h ++ [MkNetEv k id w] | None => h end.

(** The end of a goroutine is one event. *)
Lemma progress_end k h ctx c c' rs1 rs2 : mine k h = COpen :: (CMsg <$> rs1) -> reqs k = rs1 ++ rs2 -> (ctx = false -> rs2 = []) ->
  closed_conn c' (connID c) (concat (wire <$> answered k h s0) ++ concat (wire <$> (stop (connID c) (replay h s0)).2)) ->
  connID c' = connID c /\ progress k (h ++ [MkNetEv k (connID c) CClose]) ctx (GEnded c').
Proof.
  intros Hm Hr Hx Hc'. assert (Hi : connID c' = connID c) by apply Hc'. split; [done|].
  apply (progress_ended k _ ctx c' rs1 rs2); [by rewrite mine_own, Hm|done|done|].
  rewrite answered_own, fmap_app, concat_app, Hi. exact Hc'.
Qed.

(** A turn of a goroutine is at most one event of the abstract server, or the
    goroutine is blocked: it has ended, or its client stays silent. *)
Lemma turn_progress now k h ctx g : progress k h ctx g ->
  (turn cfg0 eh now ctx g (replay h s0) = Hang /\ (ended g = true \/ ends k = None)) \/
  exists g' w, let h' := record k (connID (conn_of g)) w h in
    turn cfg0 eh now ctx g (replay h s0) = Done (g', replay h' s0) /\
    connID (conn_of g') = connID (conn_of g) /\ (todo g' < todo g)%nat /\ progress k h' ctx g'.
Proof.
  intros Hg. destruct Hg as [c ps tl Hm Ha Hf Htl Hc|c rs1 rs2 ps tl Hm Hr Hf Htl Hc|c rs1 rs2 ps tl Hm Hr Hf Htl Hc|c rs1 rs2 Hm Hr Hctx Hc];
    [right|right| |left; split; [done|by left]].
  - exists (GLoop c), (Some COpen). cbv zeta. cbn [record]. rewrite replay_snoc, (turn_opening cfg0 eh Q start handle stop).
    split; [done|]. split; [done|]. split; [cbn; lia|].
    apply (progress_loop k _ ctx c [] (reqs k) ps tl); [by rewrite mine_own, Hm|done|done|done|].
    rewrite answered_own, Ha. exact Hc.
  - destruct ctx.
    + destruct (turn_cancelled cfg0 eh Q start handle stop now c _ _ _ _ (replay h s0) Hc) as (c' & -> & Hc').
      exists (GEnded c'), (Some CClose). cbv zeta. cbn [record]. rewrite replay_snoc. split; [done|].
      destruct (progress_end k h true c c' rs1 rs2 Hm Hr) as [Hi Hp]; [done|done|]. split; [done|]. split; [cbn; lia|done].
    + destruct (turn_select cfg0 eh now c _ _ _ _ (replay h s0) Hc) as (c' & -> & Hi & Hc').
      exists (GReading c'), None. cbv zeta. cbn [record]. split; [done|]. split; [done|]. split.
      { unfold todo. rewrite (open_pending _ _ _ _ _ Hc), (open_pending _ _ _ _ _ Hc'). lia. }
      apply (progress_reading k h false c' rs1 rs2 ps tl); [done|done|done|done|]. by rewrite Hi.
  - destruct (next_packet rs2 ps Hf) as [[-> ->]|(r & rs' & p & ps' & -> & -> & Hrp & Hf')].
    + pose proof (turn_incomplete cfg0 eh Q start handle stop now ctx c _ _ tl _ (replay h s0) Hc Htl) as Ht.
      destruct (ends k); [|left; by split; [|right]]. right. destruct Ht as (c' & -> & Hc').
      exists (GEnded c'), (Some CClose). cbv zeta. cbn [record]. rewrite replay_snoc. split; [done|].
      destruct (progress_end k h ctx c c' rs1 [] Hm Hr) as [Hi Hp]; [done|done|]. split; [done|]. split; [cbn; lia|done].
    + right. cbn [fmap list_fmap concat] in Hc. rewrite <- app_assoc in Hc.
      assert (HQ : Q r). { pose proof (Hreqs k) as HF. rewrite Hr in HF. by apply Forall_app in HF as [_ [HF _]%Forall_cons]. }
      destruct (turn_packet cfg0 eh Q start handle stop now ctx c _ _ r p _ _ (replay h s0) Hc Hrp HQ) as (c' & -> & Hc').
      assert (Hi : connID c' = connID c) by apply Hc'.
      exists (GLoop c'), (Some (CMsg r)). cbv zeta. cbn [record]. rewrite replay_snoc. split; [done|]. split; [done|]. split.
      { unfold todo. rewrite (open_pending _ _ _ _ _ Hc), (open_pending _ _ _ _ _ Hc'), !length_app.
        pose proof (wire_length_pos p (encoded_packet_ok r p Hrp)). lia. }
      apply (progress_loop k _ ctx c' (rs1 ++ [r]) rs' ps' tl); [by rewrite mine_own, Hm, fmap_app|by rewrite <- app_assoc|done|done|].
      rewrite answered_own, fmap_app, concat_app, Hi. exact Hc'.
Qed.

(** *** The invariant of the process *)

Definition to_accept (a : acceptor) : list acceptEvent := match a with ASelect evs | AAccept evs => evs | AReturned => [] end.

Record linear (h : list (netEv Message)) (st : netState S) : Prop := {
  linear_alive : crashed st = None;
  linear_state : shared st = replay h s0;
  linear_who : Forall (fun e => exists g, gs st !! who e = Some g /\ connID (conn_of g) = cid e) h;
  linear_conns : forall j conn, conns (to_accept (accepting st)) !! j = Some conn ->
    client conn (reqs (length (gs st) + j)) (ends (length (gs st) + j));
  linear_gs : forall k g, gs st !! k = Some g -> progress k h (ctxCancel st) g
}.

Lemma linear_start evs ins :
  (forall k conn, conns evs !! k = Some conn -> client conn (reqs k) (ends k)) -> linear [] (net_start evs ins s0).
Proof. intros Hc. by split. Qed.

Lemma linear_accept h st now conn evs : accepting st = AAccept (Accepted conn :: evs) -> linear h st ->
  linear h (accept now conn evs st).
Proof.
  intros Ha [H1 H2 H3 H4 H5]. unfold accept. destruct (NewTcpConn now (uids st) conn) as [c ins] eqn:En. rewrite Ha in H4.
  split; cbn; [done|done| | |].
  - eapply Forall_impl; [exact H3|]. intros e (g & Hg & Hi). exists g. split; [by apply lookup_app_l_Some|done].
  - intros j conn' Hj. rewrite length_app. cbn [length]. rewrite <- Nat.add_assoc. by apply H4.
  - intros k g Hk. apply lookup_app_Some in Hk as [Hk|[Hk Hg]]; [by apply H5|].
    apply list_lookup_singleton_Some in Hg as [Hk' <-]. assert (k = length (gs st)) as -> by lia.
    destruct (H4 0%nat conn eq_refl) as (Hacc & Hends & ps & tl & Hf & Htl & Hp). rewrite Nat.add_0_r in *.
    assert (Hw : Forall (fun e : netEv Message => who e <> length (gs st)) h).
    { eapply Forall_impl; [exact H3|]. intros e (g & Hg & _) He. rewrite He in Hg. apply lookup_lt_Some in Hg. lia. }
    eapply progress_opening; [| |exact Hf|exact Htl|].
    + clear - Hw. unfold mine. induction Hw as [|e h He _ IH]; [done|]. by rewrite filter_cons, decide_False.
    + clear - Hw. generalize s0. induction Hw as [|e h He _ IH]; intros s; [done|]. cbn. by rewrite decide_False, IH.
    + unfold NewTcpConn in En. destruct (GenerateUID _ _) as [id ins']. simplify_eq. by split; cbn; rewrite ?Hacc.
Qed.

Lemma linear_step h st st' : net_step cfg0 eh st st' -> linear h st -> exists h', linear h' st'.
Proof.
  intros Hs Hl. destruct Hs as [st evs _ Ha|st now conn evs _ Ha|st t evs _ Ha|st _|st now k g g' s' _ Hk Ht|st now k g why _ Hk Ht].
  - exists h. destruct Hl as [H1 H2 H3 H4 H5]. rewrite Ha in H4. split; cbn; try done. by destruct (ctxCancel st).
  - exists h. by eapply linear_accept.
  - exists h. destruct Hl as [H1 H2 H3 H4 H5]. rewrite Ha in H4. split; cbn; try done. by destruct t.
  - exists h. destruct Hl as [H1 H2 H3 H4 H5]. split; cbn; try done. intros k g Hk. eapply progress_cancel. by apply H5.
  - destruct Hl as [H1 H2 H3 H4 H5]. rewrite H2 in Ht.
    destruct (turn_progress now k h (ctxCancel st) g (H5 k g Hk)) as [[Hx _]|(g1 & w & Hx & Hi & _ & Hp)]; rewrite Hx in Ht; [done|].
    cbv zeta in Hx. simplify_eq. exists (record k (connID (conn_of g)) w h). split; cbn [crashed shared gs ctxCancel accepting].
    + done.
    + done.
    + assert (Hup : forall e : netEv Message, (exists g0, gs st !! who e = Some g0 /\ connID (conn_of g0) = cid e) ->
        exists g0, <[k := g']> (gs st) !! who e = Some g0 /\ connID (conn_of g0) = cid e).
      { intros e (g0 & Hg0 & Hc). destruct (decide (who e = k)) as [He|Hne].
        - rewrite He, list_lookup_insert_eq by (by eapply lookup_lt_Some). exists g'. split; [done|]. rewrite He, Hk in Hg0. injection Hg0 as <-. congruence.
        - exists g0. by rewrite list_lookup_insert_ne. }
      assert (Hold : Forall (fun e : netEv Message => exists g0, <[k := g']> (gs st) !! who e = Some g0 /\ connID (conn_of g0) = cid e) h)
        by (by eapply Forall_impl).
      destruct w as [w|]; [|done]. apply Forall_app. split; [done|]. apply Forall_singleton, Hup. by exists g.
    + by rewrite length_insert.
    + intros k' g0 Hk'. apply list_lookup_insert_Some in Hk' as [(<- & <- & _)|[Hne Hk']]; [done|].
      destruct w as [w|]; [apply progress_other; [by cbn|]|]; by apply H5.
  - exfalso. destruct Hl as [H1 H2 H3 H4 H5]. rewrite H2 in Ht.
    destruct (turn_progress now k h (ctxCancel st) g (H5 k g Hk)) as [[Hx _]|(g1 & w & Hx & _)]; by rewrite Hx in Ht.
Qed.

Lemma linear_reachable st st' : rtc (net_step cfg0 eh) st st' -> forall h, linear h st -> exists h', linear h' st'.
Proof.
  induction 1 as [|st st1 st2 Hs _ IH]; intros h Hl; [by exists h|].
  destruct (linear_step h st st1 Hs Hl) as [h1 H1]. by eapply IH.
Qed.

(** A goroutine whose client ends can be run to its end. *)
Lemma goroutine_ends k n : forall h st g, (todo g <= n)%nat -> linear h st -> gs st !! k = Some g -> ends k <> None ->
  exists st' c, rtc (net_step cfg0 eh) st st' /\ gs st' = <[k := GEnded c]> (gs st) /\ ctxCancel st' = ctxCancel st.
Proof.
  induction n as [|n IH]; intros h st g Hn Hl Hk He; (destruct (ended g) eqn:Ee;
    [destruct g as [c|c|c|c|c w|c w]; try done; exists st, c; split; [done|]; split; [by rewrite list_insert_id|done]|]).
  { destruct g; cbn in *; try done; lia. }
  destruct (turn_progress 0 k h (ctxCancel st) g (linear_gs h st Hl k g Hk)) as [[_ [Hx|Hx]]|(g1 & w & Hx & _ & Hlt & _)];
    [congruence|done|].
  rewrite <- (linear_state h st Hl) in Hx.
  pose proof (net_turn cfg0 eh st 0 k g _ _ (linear_alive h st Hl) Hk Hx) as Hs.
  destruct (linear_step h st _ Hs Hl) as [h1 Hl1].
  destruct (IH h1 _ g1 ltac:(lia) Hl1) as (st' & c' & Hr & Hg & Hc).
  { cbn. apply list_lookup_insert_eq. by eapply lookup_lt_Some. }
  { done. }
  exists st', c'. split; [by eapply rtc_l|]. split; [rewrite Hg; cbn; by rewrite list_insert_insert_eq|by rewrite Hc].
Qed.

Lemma all_end n : forall h st, linear h st -> (n <= length (gs st))%nat -> (forall k, ends k <> None) ->
  exists st', rtc (net_step cfg0 eh) st st' /\ length (gs st') = length (gs st) /\ ctxCancel st' = ctxCancel st /\
    forall k, (k < n)%nat -> exists c, gs st' !! k = Some (GEnded c).
Proof.
  induction n as [|n IH]; intros h st Hl Hn He; [exists st; split; [done|]; split; [done|]; split; [done|]; lia|].
  destruct (IH h st Hl ltac:(lia) He) as (st1 & Hr1 & Hlen1 & Hc1 & Hk1).
  destruct (linear_reachable _ _ Hr1 h Hl) as [h1 Hl1].
  destruct (lookup_lt_is_Some_2 (gs st1) n) as [g Hg]; [lia|].
  destruct (goroutine_ends n _ h1 st1 g (le_n _) Hl1 Hg (He n)) as (st2 & c & Hr2 & Hg2 & Hc2).
  exists st2. split; [by etrans|]. split; [by rewrite Hg2, length_insert|]. split; [by rewrite Hc2|].
  intros k Hk. rewrite Hg2. destruct (decide (k = n)) as [->|Hne].
  - exists c. apply list_lookup_insert_eq. lia.
  - rewrite list_lookup_insert_ne by done. apply Hk1. lia.
Qed.
End Linear.

(** ** What the server promises to many clients *)

(** What a history says of a connection at [g], whose client sends [rs]. *)
Definition in_history {Message} (g : goroutine) (rs1 : list (CSHead * Message)) : list (clientEvent Message) :=
  match g with
  | GOpening _ | GPanicking _ _ | GDying _ _ => []
  | GLoop _ | GReading _ => COpen :: (CMsg <$> rs1)
  | GEnded _ => COpen :: (CMsg <$> rs1) ++ [CClose]
  end.

Lemma progress_facts {Message} `{L : ProtoLaws Message} {S} start handle stop reqs ends (s0 : S) k h ctx g :
  progress start handle stop reqs ends s0 k h ctx g ->
  panicked g = false /\ sent (writer (conn_of g)) = concat (wire <$> answered start handle stop k h s0) /\
  exists rs1 rs2 : list (CSHead * Message), reqs k = rs1 ++ rs2 /\ mine k h = in_history g rs1 /\
    (ended g = true -> ctx = false -> rs2 = []).
Proof.
  destruct 1 as [c ps tl Hm Ha _ _ Hc|c rs1 rs2 ps tl Hm Hr _ _ Hc|c rs1 rs2 ps tl Hm Hr _ _ Hc|c rs1 rs2 Hm Hr Hx (_ & Hc & _)];
    cbn [conn_of panicked]; (split; [done|]).
  - rewrite (open_writer _ _ _ _ _ Hc), Ha. split; [done|]. by exists [], (reqs k).
  - rewrite (open_writer _ _ _ _ _ Hc). split; [done|]. by exists rs1, rs2.
  - rewrite (open_writer _ _ _ _ _ Hc). split; [done|]. by exists rs1, rs2.
  - split; [done|]. exists rs1, rs2. by split_and!.
Qed.

(** Every server whose handlers keep their promise. *)
Section Served.
Context {Message : Type} `{L : ProtoLaws Message} {S : Type} (eh : EventHandler S) (Q : CSHead * Message -> Prop).
Context (start : Z -> S -> S) (handle : Z -> CSHead * Message -> S -> S * list bytes) (stop : Z -> S -> S * list bytes).
Context `{D : !Dispatches eh Q start handle stop}.
Context (cfg0 : TcpTransportCfg) (reqs : nat -> list (CSHead * Message)) (ends : nat -> option rerr).
Context (evs : list acceptEvent) (ins : uidGeneratorIns) (s0 : S) (st : netState S).
Hypothesis Hreqs : forall k, Forall Q (reqs k).
Hypothesis Hcl : forall k conn, conns evs !! k = Some conn -> client conn (reqs k) (ends k).
Hypothesis Hrun : rtc (net_step cfg0 eh) (net_start evs ins s0) st.

Lemma reached_linear : exists h, linear start handle stop reqs ends s0 h st.
Proof. eapply (linear_reachable start handle stop cfg0 reqs ends s0 eh Q Hreqs); [exact Hrun|by apply linear_start]. Qed.

Lemma reached_history : crashed st = None /\
  exists h : list (netEv Message), shared st = replay start handle stop h s0 /\
    Forall (fun e => exists g, gs st !! who e = Some g /\ connID (conn_of g) = cid e) h /\
    forall k g, gs st !! k = Some g ->
      panicked g = false /\ sent (writer (conn_of g)) = concat (wire <$> answered start handle stop k h s0) /\
      exists rs1 rs2, reqs k = rs1 ++ rs2 /\ mine k h = in_history g rs1 /\
        (ended g = true -> ctxCancel st = false -> rs2 = []).
Proof.
  destruct reached_linear as [h [H1 H2 H3 _ H5]]. split; [done|]. exists h. split; [done|]. split; [done|].
  intros k g Hg. eapply progress_facts. by apply H5.
Qed.

Lemma reached_ends : (forall k, ends k <> None) -> ctxCancel st = false ->
  exists st' (h : list (netEv Message)), rtc (net_step cfg0 eh) st st' /\
    length (gs st') = length (gs st) /\ shared st' = replay start handle stop h s0 /\
    forall k, (k < length (gs st))%nat -> exists c, gs st' !! k = Some (GEnded c) /\
      mine k h = COpen :: (CMsg <$> reqs k) ++ [CClose] /\
      sent (writer c) = concat (wire <$> answered start handle stop k h s0).
Proof.
  intros He Hctx. destruct reached_linear as [h0 Hl0].
  destruct (all_end start handle stop cfg0 reqs ends s0 eh Q Hreqs _ h0 st Hl0 (le_n _) He) as (st' & Hr' & Hlen & Hc & Hk).
  destruct (linear_reachable start handle stop cfg0 reqs ends s0 eh Q Hreqs _ _ Hr' h0 Hl0) as [h [H1 H2 H3 _ H5]].
  exists st', h. split; [done|]. split; [done|]. split; [done|]. intros k Hlt. destruct (Hk k Hlt) as [c Hg].
  exists c. split; [done|]. destruct (progress_facts _ _ _ _ _ _ _ _ _ _ (H5 k _ Hg)) as (_ & Hs & rs1 & rs2 & Hrs & Hm & Hx).
  rewrite Hc, Hctx in Hx. rewrite Hx, app_nil_r in Hrs by done. by rewrite Hrs.
Qed.
End Served.

(** The handlers of a program, registered, compute the dispatcher. *)
Lemma mgr_of_dispatches {Message} `{L : ProtoLaws Message} {S} (start : Z -> S -> S) stop
    (fs : gmap Z (Z -> CSHead * Message -> S -> S * list bytes)) :
  (forall msgid f, fs !! msgid = Some f -> forall id r s, Forall packet_ok (f id r s).2) ->
  (forall id s, Forall packet_ok (stop id () s).2) ->
  Dispatches (eventTcp (mgr_of start stop fs)) (fun _ => True) start (dispatch fs) (fun id s => stop id () s).
Proof.
  intros Hfs Hstop. split; [done| |by apply stop_handler_ok]. intros id r p s Hr _.
  destruct (step_packet_ok start stop fs Hfs id p s) as [Hd Hp]; [by exists r|].
  unfold step_packet in *. by rewrite (encoded_Decode r p Hr) in *.
Qed.

(** C1. The server behaves, towards any number of clients at once, as if it took
    one message after the other.  Connections are accepted, packets arrive in
    any fragmentation and the goroutines interleave in any way; at every point
    there is one history of openings, messages and closings such that the
    handlers' state is that of the abstract dispatcher run over it, every
    connection's part of it is its opening, then the messages its client sent
    in the order it sent them, then its closing, and the bytes on every
    connection are exactly the dispatcher's answers to it.  No client that
    keeps to the protocol makes a goroutine panic or crashes the process, and a
    connection that ends before the transport is shut down has had all its
    messages handled. *)
Theorem server_linearizes {Message : Type} `{L : ProtoLaws Message} {S : Type}
    (start : Z -> S -> S) (stop : Z -> unit -> S -> S * list bytes)
    (fs : gmap Z (Z -> CSHead * Message -> S -> S * list bytes)) (cfg0 : TcpTransportCfg)
    (reqs : nat -> list (CSHead * Message)) (ends : nat -> option rerr) (evs : list acceptEvent)
    (ins : uidGeneratorIns) (s0 : S) (st : netState S) :
  (forall msgid f, fs !! msgid = Some f -> forall id r s, Forall packet_ok (f id r s).2) ->
  (forall id s, Forall packet_ok (stop id () s).2) ->
  (forall k conn, conns evs !! k = Some conn -> client conn (reqs k) (ends k)) ->
  rtc (net_step cfg0 (eventTcp (mgr_of start stop fs))) (net_start evs ins s0) st ->
  crashed st = None /\
  exists h : list (netEv Message), shared st = replay start (dispatch fs) (fun id s => stop id () s) h s0 /\
    Forall (fun e => exists g, gs st !! who e = Some g /\ connID (conn_of g) = cid e) h /\
    forall k g, gs st !! k = Some g ->
      panicked g = false /\
      sent (writer (conn_of g)) = concat (wire <$> answered start (dispatch fs) (fun id s => stop id () s) k h s0) /\
      exists rs1 rs2, reqs k = rs1 ++ rs2 /\ mine k h = in_history g rs1 /\
        (ended g = true -> ctxCancel st = false -> rs2 = []).
Proof.
  intros Hfs Hstop Hcl Hr. apply (reached_history (D := mgr_of_dispatches start stop fs Hfs Hstop) _ _ _ _ _ cfg0 reqs ends evs ins s0 st);
    [intros k; by apply Forall_true|exact Hcl|exact Hr].
Qed.

(** C12. Every client is served to its end.  When the connections end, from any
    state of a transport that has not been shut down the goroutines can go on,
    without accepting anything more, to a state in which every connection has
    ended, all messages of all clients have been handled, each exactly once
    and in its client's order, and every client has its answers. *)
Theorem server_serves_all {Message : Type} `{L : ProtoLaws Message} {S : Type}
    (start : Z -> S -> S) (stop : Z -> unit -> S -> S * list bytes)
    (fs : gmap Z (Z -> CSHead * Message -> S -> S * list bytes)) (cfg0 : TcpTransportCfg)
    (reqs : nat -> list (CSHead * Message)) (ends : nat -> option rerr) (evs : list acceptEvent)
    (ins : uidGeneratorIns) (s0 : S) (st : netState S) :
  (forall msgid f, fs !! msgid = Some f -> forall id r s, Forall packet_ok (f id r s).2) ->
  (forall id s, Forall packet_ok (stop id () s).2) ->
  (forall k conn, conns evs !! k = Some conn -> client conn (reqs k) (ends k)) -> (forall k, ends k <> None) ->
  rtc (net_step cfg0 (eventTcp (mgr_of start stop fs))) (net_start evs ins s0) st -> ctxCancel st = false ->
  exists st' (h : list (netEv Message)), rtc (net_step cfg0 (eventTcp (mgr_of start stop fs))) st st' /\
    length (gs st') = length (gs st) /\ shared st' = replay start (dispatch fs) (fun id s => stop id () s) h s0 /\
    forall k, (k < length (gs st))%nat -> exists c, gs st' !! k = Some (GEnded c) /\
      mine k h = COpen :: (CMsg <$> reqs k) ++ [CClose] /\
      sent (writer c) = concat (wire <$> answered start (dispatch fs) (fun id s => stop id () s) k h s0).
Proof.
  intros Hfs Hstop Hcl He Hr Hctx. apply (reached_ends (D := mgr_of_dispatches start stop fs Hfs Hstop) _ _ _ _ _ cfg0 reqs ends evs ins s0 st);
    [intros k; by apply Forall_true|exact Hcl|exact Hr|done|done].
Qed.

(** ** A panic ends the process *)

(** A step moves one goroutine by a turn, or leaves all that there are. *)
Lemma net_step_goroutine {S} cfg0 (eh : EventHandler S) st st' k g : net_step cfg0 eh st st' -> gs st !! k = Some g ->
  exists g', gs st' !! k = Some g' /\
    (g' = g \/ exists now s', turn cfg0 eh now (ctxCancel st) g (shared st) = Done (g', s')).
Proof.
  intros Hs Hg. destruct Hs as [st evs _ Ha|st now conn evs _ Ha|st t evs _ Ha|st _|st now k' g1 g' s' _ Hk Ht|st now k' g1 why _ Hk Ht];
    try (exists g; by split; [|left]).
  - unfold accept. destruct (NewTcpConn now (uids st) conn) as [c ins]. exists g. split; [by apply lookup_app_l_Some|by left].
  - cbn. destruct (decide (k = k')) as [->|Hne].
    + exists g'. split; [apply list_lookup_insert_eq; by eapply lookup_lt_Some|]. rewrite Hk in Hg. injection Hg as <-.
      right. by exists now, s'.
    + exists g. split; [by rewrite list_lookup_insert_ne|by left].
Qed.

(** A goroutine that has panicked never does anything else. *)
Lemma panicked_run {S} cfg0 (eh : EventHandler S) st st' k : rtc (net_step cfg0 eh) st st' -> forall g, gs st !! k = Some g ->
  panicked g = true -> exists g', gs st' !! k = Some g' /\ panicked g' = true.
Proof.
  induction 1 as [st|st st1 st2 Hs _ IH]; intros g Hg Hp; [by exists g|].
  destruct (net_step_goroutine cfg0 eh st st1 k g Hs Hg) as (g1 & Hg1 & Ht).
  apply (IH g1 Hg1). destruct Ht as [-> |(now & s' & Ht)]; [done|]. destruct g as [c|c|c|c|c w|c w]; try done.
  cbn [turn] in Ht. unfold closing, dying in Ht. destruct (Close _ _ _ _ _) as [[c' s1]|w'|]; cbn [on_panic] in Ht; by simplify_eq.
Qed.

(** It can end the process at any moment, unless the handler of the closing
    blocks for ever. *)
Lemma panicked_crashes {S} cfg0 (eh : EventHandler S) st k g : crashed st = None -> gs st !! k = Some g -> panicked g = true ->
  (forall id s, OnConnClosed eh id false s <> Hang) ->
  exists st', rtc (net_step cfg0 eh) st st' /\ is_Some (crashed st').
Proof.
  intros Hc Hg Hp Hcl. assert (Hd : forall st c w, crashed st = None -> gs st !! k = Some (GDying c w) ->
    exists st', rtc (net_step cfg0 eh) st st' /\ is_Some (crashed st')).
  { intros st0 c w Hc0 Hg0. eexists. split; [apply rtc_once; by eapply (net_panic cfg0 eh st0 0 k)|]. by eexists. }
  destruct g as [c|c|c|c|c w|c w]; try done; [|by eapply Hd].
  assert (exists c' w' s', turn cfg0 eh 0 (ctxCancel st) (GPanicking c w) (shared st) = Done (GDying c' w', s')) as (c' & w' & s' & Ht).
  { cbn [turn]. unfold closing. pose proof (Close_no_hang (env_at cfg0 eh 0 false) 0 false c (shared st) (Hcl _ _)) as Hne.
    destruct (Close _ _ _ _ _) as [[c' s1]|w'|]; [by do 3 eexists|by do 3 eexists|done]. }
  pose proof (net_turn cfg0 eh st 0 k _ _ _ Hc Hg Ht) as Hs.
  destruct (Hd (MkNet (<[k := GDying c' w']> (gs st)) s' (ctxCancel st) (accepting st) (uids st) None) c' w') as (st' & Hr & Hx);
    [done|cbn; apply list_lookup_insert_eq; by eapply lookup_lt_Some|].
  exists st'. split; [by eapply rtc_l|done].
Qed.

(** C37. One client can stop the service of all.  Whatever the handlers and the
    other connections, and before or after [Uninit]: eight bytes whose two
    sizes wrap around, read on one connection, make its goroutine panic; from
    then on, whatever the other goroutines still do, it handles nothing more,
    and once its deferred [Close] has told the handler that the connection is
    closed it ends the process.  No handler can prevent this but by never
    returning from that call. *)
Theorem one_client_crashes_all {S : Type} (cfg0 : TcpTransportCfg) (eh : EventHandler S) (st : netState S)
    (k : nat) (c : tcpConn) (h b : Z) (tl : bytes) :
  crashed st = None -> gs st !! k = Some (GReading c) ->
  fits_u 32 h -> fits_u 32 b -> (4 + h + b) mod 2 ^ 32 < 4 ->
  pending c = le_split 4 h ++ le_split 4 b ++ tl ->
  (forall id s, OnConnClosed eh id false s <> Hang) ->
  exists st', net_step cfg0 eh st st' /\ crashed st' = None /\ shared st' = shared st /\
    forall st'', rtc (net_step cfg0 eh) st' st'' ->
      (exists g, gs st'' !! k = Some g /\ panicked g = true) /\
      (crashed st'' = None -> exists st3, rtc (net_step cfg0 eh) st'' st3 /\ is_Some (crashed st3)).
Proof.
  intros Hal Hk Hh Hb Hov Hp Hcl. destruct (Decode_panics_iff c h b tl Hh Hb Hp) as [_ Hd]. destruct (Hd Hov) as [w Hw].
  eexists. split; [apply (net_turn cfg0 eh st 0 k (GReading c) (GPanicking c w) (shared st) Hal Hk); cbn [turn]; by rewrite Hw|].
  split; [done|]. split; [done|]. intros st'' Hr.
  destruct (panicked_run cfg0 eh _ st'' k Hr (GPanicking c w)) as (g & Hg & Hpg); [|done|].
  { cbn. apply list_lookup_insert_eq. by eapply lookup_lt_Some. }
  split; [by exists g|]. intros Hc. by eapply panicked_crashes.
Qed.

(** ** After Uninit *)

(** In a read that nothing ends. *)
Definition silent (g : goroutine) : Prop := match g with GReading c => Decode c = Hang | _ => False end.

(** Handlers that always return, and never panic on well-formed packets. *)
Record calm_handler {St} (eh : EventHandler St) : Prop := {
  calm_safe : safe_handler eh;
  calm_opened : forall id s, OnConnOpened eh id s <> Hang;
  calm_closed : forall id active s, OnConnClosed eh id active s <> Hang;
  calm_data : forall id p s, packet_ok p -> OnData eh id p s <> Hang
}.

(** A goroutine that has not panicked, with no wrapping head to read. *)
Definition clean (g : goroutine) : Prop :=
  panicked g = false /\ match g with GReading c => frames_ok (pending c) | _ => True end.

(** The turns it has left once the context is cancelled. *)
Definition turns_left (g : goroutine) : nat :=
  match g with GOpening _ | GReading _ => 2 | GLoop _ => 1 | _ => 0 end.

Section Cancelled.
Context {St : Type} (cfg0 : TcpTransportCfg) (eh : EventHandler St) (Hcalm : calm_handler eh).

Lemma calm_close now c s : exists c' s', closing cfg0 eh now GEnded c s = Done (GEnded c', s') /\ closed c' = true.
Proof.
  unfold closing. set (env := env_at _ _ _ _). destruct (Close_safe env (calm_safe eh Hcalm) now false c s) as [Hp _].
  pose proof (Close_no_hang env now false c s (calm_closed eh Hcalm _ _ _)) as Hh.
  destruct (Close env now false c s) as [[c' s']|w|] eqn:Hc; [|by destruct Hp; eexists|done].
  exists c', s'. split; [done|]. by eapply Close_closes.
Qed.

Lemma calm_acts now ctx acts c s (k : tcpConn * St -> outcome (goroutine * St)) : acts_ok acts ->
  exists cs, on_panic (perform (env_at cfg0 eh now ctx) now acts c s)
    (fun why => panicking why (perform_left (env_at cfg0 eh now ctx) now acts c s)) k = k cs.
Proof.
  intros Ha. set (env := env_at _ _ _ _). destruct (perform_safe env (calm_safe eh Hcalm) now acts c s Ha) as [Hp _].
  pose proof (perform_no_hang env (calm_closed eh Hcalm) now acts c s) as Hh.
  destruct (perform env now acts c s) as [cs|w|]; [by exists cs|by destruct Hp; eexists|done].
Qed.

(** Every turn brings a clean goroutine nearer to its end, with its connection
    closed; only a silent client keeps it from taking one. *)
Lemma cancelled_turn now g s : clean g -> ended g = true \/ silent g \/
  exists g' s', turn cfg0 eh now true g s = Done (g', s') /\ clean g' /\ (turns_left g' < turns_left g)%nat /\
    (ended g' = true -> closed (conn_of g') = true).
Proof.
  intros [Hp Hf]. destruct g as [c|c|c|c|c w|c w]; try done; [right; right|right; right|right|by left].
  - cbn [turn]. pose proof (safe_opened eh (calm_safe eh Hcalm) (connID c) s) as Ha. pose proof (calm_opened eh Hcalm (connID c) s) as Hh.
    destruct (OnConnOpened eh (connID c) s) as [[s1 acts]|w|]; [|done|done]. cbn [on_panic].
    destruct (calm_acts now true acts c s1 (fun '(c, s) => Done (GLoop c, s)) Ha) as [[c1 s2] ->].
    exists (GLoop c1), s2. split_and!; [done|done|cbn; lia|done].
  - cbn [turn orb]. destruct (calm_close now c s) as (c' & s' & -> & Hc). exists (GEnded c'), s'. split_and!; [done|done|cbn; lia|done].
  - cbn [turn silent]. pose proof (Decode_frames_ok c Hf) as Hd. destruct (Decode c) as [[[p|e] c1]|w|]; [| |done|by left]; right; cbn [on_panic].
    + destruct Hd as [Hpk _]. pose proof (safe_data eh (calm_safe eh Hcalm) (connID c1) p s Hpk) as Ha.
      pose proof (calm_data eh Hcalm (connID c1) p s Hpk) as Hh.
      destruct (OnData eh (connID c1) p s) as [[s1 acts]|w|]; [|done|done]. cbn [on_panic].
      destruct (calm_acts now true acts c1 s1 (fun '(c, s) => Done (GLoop c, s)) Ha) as [[c2 s2] ->].
      exists (GLoop c2), s2. split_and!; [done|done|cbn; lia|done].
    + destruct (calm_close now c1 s) as (c' & s' & -> & Hc). exists (GEnded c'), s'. split_and!; [done|done|cbn; lia|done].
Qed.

(** Where a goroutine that was at [g] when the context was cancelled can be. *)
Definition winding_down (g g' : goroutine) : Prop :=
  clean g' /\ (g' = g \/ (turns_left g' < turns_left g)%nat /\ (ended g' = true -> closed (conn_of g') = true)).

Lemma winding_run k g st st' : rtc (net_step cfg0 eh) st st' -> ctxCancel st = true ->
  forall g1, gs st !! k = Some g1 -> winding_down g g1 ->
  ctxCancel st' = true /\ exists g', gs st' !! k = Some g' /\ winding_down g g' /\ (silent g1 -> g' = g1).
Proof.
  induction 1 as [st|st st1 st2 Hs _ IH]; intros Hc g1 Hg Hw; [split; [done|]; by exists g1|].
  destruct (net_step_goroutine cfg0 eh st st1 k g1 Hs Hg) as (g2 & Hg2 & Ht).
  assert (Hc1 : ctxCancel st1 = true).
  { destruct Hs as [| | | | |]; try done. unfold accept. by destruct (NewTcpConn now (uids st) conn). }
  rewrite Hc in Ht. assert (H2 : winding_down g g2 /\ (silent g1 -> g2 = g1)).
  { destruct Ht as [-> |(now & s' & Ht)]; [done|]. destruct Hw as [Hcl Hw].
    destruct (cancelled_turn now g1 (shared st) Hcl) as [He|[Hsi|(g3 & s3 & Ht' & Hcl3 & Hlt & Hclosed)]].
    - by destruct g1.
    - destruct g1; try done. cbn [silent turn] in *. by rewrite Hsi in Ht.
    - rewrite Ht' in Ht. injection Ht as <- _. split.
      + split; [done|]. right. split; [|done]. destruct Hw as [->|[Hl _]]; lia.
      + intros Hsi. destruct g1; try done. cbn [silent turn] in *. by rewrite Hsi in Ht'. }
  destruct H2 as [Hw2 Hsi2]. destruct (IH Hc1 g2 Hg2 Hw2) as (Hc2 & g' & Hg' & Hw' & Hsi'). split; [done|]. exists g'.
  split; [done|]. split; [done|]. intros Hsi. pose proof (Hsi2 Hsi) as ->. by apply Hsi'.
Qed.

(** A clean goroutine whose client is not silent can be run to its end. *)
Lemma winding_ends k n : forall st g, (turns_left g <= n)%nat -> crashed st = None -> ctxCancel st = true ->
  gs st !! k = Some g -> clean g -> ~ silent g ->
  exists st' c, rtc (net_step cfg0 eh) st st' /\ gs st' = <[k := GEnded c]> (gs st) /\ (g = GEnded c \/ closed c = true).
Proof.
  induction n as [|n IH]; intros st g Hn Ha Hc Hg Hcl Hsi;
    (destruct (cancelled_turn 0 g (shared st) Hcl) as [He|[Hx|(g1 & s1 & Ht & Hcl1 & Hlt & Hclosed)]]; [| done|]);
    try (destruct g as [c|c|c|c|c w|c w]; try done; exists st, c; split; [done|]; split; [by rewrite list_insert_id|by left]); [lia|].
  rewrite <- Hc in Ht. pose proof (net_turn cfg0 eh st 0 k g _ _ Ha Hg Ht) as Hs. pose proof (lookup_lt_Some _ _ _ Hg) as Hlen.
  assert (Hsi1 : ~ silent g1).
  { intros Hx. destruct g1; try done. cbn in Hlt. destruct g; cbn in Hlt; lia. }
  destruct (IH (MkNet (<[k := g1]> (gs st)) s1 (ctxCancel st) (accepting st) (uids st) None) g1) as (st' & c & Hr & Hgs & Hx); try done.
  { lia. }
  { cbn. by apply list_lookup_insert_eq. }
  exists st', c. split; [by eapply rtc_l|]. split; [rewrite Hgs; cbn; by rewrite list_insert_insert_eq|]. right.
  destruct Hx as [->|Hx]; [by apply Hclosed|done].
Qed.
End Cancelled.

(** C36. What [Uninit] does to connections, with handlers that return.  Once the
    context is cancelled, a goroutine with no wrapping head to read never
    panics and has at most two turns left, the first of which handles the
    packet it is reading, if any: whatever the others do, every turn it takes
    brings it nearer to its end, as long as the process lives it can take them,
    and when it has ended its connection is closed.  But a goroutine in a read that
    nothing ends (a silent client, and no deadline: no idle timeout, or the
    first read) stays there for ever and its connection is never closed. *)
Theorem uninit_connections {S : Type} (cfg0 : TcpTransportCfg) (eh : EventHandler S) (st st' : netState S) (k : nat)
    (g : goroutine) :
  calm_handler eh -> ctxCancel st = true -> rtc (net_step cfg0 eh) st st' -> gs st !! k = Some g -> clean g ->
  exists g', gs st' !! k = Some g' /\ (silent g -> g' = g) /\ winding_down g g' /\
    (crashed st' = None -> ~ silent g' ->
     (forall now g'' s'', turn cfg0 eh now true g' (shared st') = Done (g'', s'') -> (turns_left g'' < turns_left g')%nat) /\
     exists st'' c, rtc (net_step cfg0 eh) st' st'' /\ gs st'' = <[k := GEnded c]> (gs st') /\ (g = GEnded c \/ closed c = true)).
Proof.
  intros Hcalm Hc Hr Hg Hcl.
  destruct (winding_run cfg0 eh Hcalm k g st st' Hr Hc g Hg) as (Hc' & g' & Hg' & Hw & Hsi); [by split; [|left]|].
  exists g'. split; [done|]. split; [done|]. split; [done|]. intros Ha Hns. split.
  - intros now g'' s'' Ht. destruct (cancelled_turn cfg0 eh Hcalm now g' (shared st') (proj1 Hw)) as [He|[?|(g1 & s1 & Ht1 & _ & Hlt & _)]].
    + by destruct g'.
    + done.
    + rewrite Ht1 in Ht. by injection Ht as <- _.
  - destruct (winding_ends cfg0 eh Hcalm k _ st' g' (le_n _) Ha Hc' Hg' (proj1 Hw) Hns) as (st'' & c & Hr' & Hgs & Hx).
    exists st'', c. split; [done|]. split; [done|]. destruct Hx as [->|Hx]; [|by right].
    destruct Hw as [_ [->|[_ Hx]]]; [by left|right]. by apply Hx.
Qed.
(** *** Witnesses: two clients that log in *)

#[local] Existing Instance toy_proto.
#[local] Existing Instance toy_laws.

Definition demo_handlers : gmap Z (Z -> CSHead * (string * bytes) -> nat -> nat * list bytes) :=
  {[ CSMessageID_cs_login := count_login ]}.
Definition demo_conn : TCPConn :=
  MkTCPConn "l" "r" (match wire login_packet with b :: bs => [Chunk b bs; NetErr EOF] | [] => [] end) None.
Definition demo_accepts : list acceptEvent := [Accepted demo_conn; AcceptErr true; Accepted demo_conn].
Definition demo_cfg : TcpTransportCfg := MkTcpTransportCfg ":8000" 60.
Definition demo_start : Z -> nat -> nat := fun _ s => s.
Definition demo_stop : Z -> unit -> nat -> nat * list bytes := fun _ _ s => (s, []).
Definition demo_reqs : nat -> list (CSHead * (string * bytes)) := fun _ => [login].
Definition demo_ends : nat -> option rerr := fun _ => Some EOF.

Lemma demo_handlers_ok msgid f : demo_handlers !! msgid = Some f -> forall id r s, Forall packet_ok (f id r s).2.
Proof. unfold demo_handlers. intros Hf. apply lookup_singleton_Some in Hf as [_ <-]. intros id r s. apply ack_ok. Qed.

Lemma demo_client k conn : conns demo_accepts !! k = Some conn -> client conn (demo_reqs k) (demo_ends k).
Proof.
  intros Hk. assert (conn = demo_conn) as -> by (destruct k as [|[|k]]; [by injection Hk|by injection Hk|done]).
  split; [done|]. split; [done|]. exists [login_packet], []. split; [repeat constructor; apply login_encoded|].
  split; [left; cbn; lia|done].
Qed.

(** Both connections accepted, none served yet. *)
Definition demo_accepted : netState nat :=
  let '(c1, ins) := NewTcpConn 0 None demo_conn in
  let '(c2, ins) := NewTcpConn 1 ins demo_conn in
  MkNet [GOpening c1; GOpening c2] 0%nat false (ASelect []) ins None.

Lemma demo_run : rtc (net_step demo_cfg (eventTcp (mgr_of demo_start demo_stop demo_handlers)))
  (net_start demo_accepts None 0%nat) demo_accepted.
Proof.
  eapply rtc_l; [by eapply net_select|]. eapply rtc_l; [by apply (net_accept _ _ _ 0)|].
  eapply rtc_l; [by eapply net_select|]. eapply rtc_l; [by eapply net_accept_err|].
  eapply rtc_l; [by eapply net_select|]. eapply rtc_l; [by apply (net_accept _ _ _ 1)|]. apply rtc_refl.
Qed.

Lemma server_linearizes_witness : crashed demo_accepted = None /\
  exists h : list (netEv (string * bytes)), 0%nat = replay demo_start (dispatch demo_handlers) (fun id s => demo_stop id () s) h 0%nat.
Proof.
  destruct (server_linearizes demo_start demo_stop demo_handlers demo_cfg demo_reqs demo_ends demo_accepts None 0%nat
    demo_accepted demo_handlers_ok) as (H1 & h & H2 & _).
  - intros id s. constructor.
  - exact demo_client.
  - exact demo_run.
  - split; [exact H1|]. exists h. exact H2.
Defined.

Lemma server_serves_all_witness :
  exists (st' : netState nat) (h : list (netEv (string * bytes))),
    length (gs st') = 2%nat /\ mine 0 h = [COpen; CMsg login; CClose] /\ mine 1 h = [COpen; CMsg login; CClose].
Proof.
  destruct (server_serves_all demo_start demo_stop demo_handlers demo_cfg demo_reqs demo_ends demo_accepts None 0%nat
    demo_accepted demo_handlers_ok) as (st' & h & _ & Hlen & _ & Hk).
  - intros id s. constructor.
  - exact demo_client.
  - discriminate.
  - exact demo_run.
  - reflexivity.
  - exists st', h. split; [exact Hlen|]. split.
    + destruct (Hk 0%nat) as (c & _ & Hm & _); [cbn; lia|]. exact Hm.
    + destruct (Hk 1%nat) as (c & _ & Hm & _); [cbn; lia|]. exact Hm.
Defined.

(** The second connection gets a header size of 2^32 - 4. *)
Definition evil_conn : TCPConn :=
  MkTCPConn "l" "r" (match le_split 4 (2 ^ 32 - 4) ++ le_split 4 0 with b :: bs => [Chunk b bs] | [] => [] end) None.
Definition demo_evil : netState nat :=
  let '(c1, ins) := NewTcpConn 0 None demo_conn in
  let '(c2, ins) := NewTcpConn 1 ins evil_conn in
  MkNet [GLoop c1; GReading c2] 0%nat false (ASelect []) ins None.

Lemma one_client_crashes_all_witness :
  exists st' st3, net_step demo_cfg (eventTcp (mgr_of demo_start demo_stop demo_handlers)) demo_evil st' /\
    rtc (net_step demo_cfg (eventTcp (mgr_of demo_start demo_stop demo_handlers))) st' st3 /\ is_Some (crashed st3).
Proof.
  destruct (one_client_crashes_all demo_cfg (eventTcp (mgr_of demo_start demo_stop demo_handlers)) demo_evil 1
    (fst (NewTcpConn 1 (snd (NewTcpConn 0 None demo_conn)) evil_conn)) (2 ^ 32 - 4) 0 []) as (st' & H1 & H2 & _ & H3).
  - reflexivity.
  - reflexivity.
  - unfold fits_u. lia.
  - unfold fits_u. lia.
  - reflexivity.
  - reflexivity.
  - discriminate.
  - destruct (H3 st' (rtc_refl _ _)) as [_ H4]. destruct (H4 H2) as (st3 & H5 & H6).
    exists st', st3. split; [exact H1|]. split; [exact H5|exact H6].
Defined.

(** After Uninit: the first client is silent, the second has sent a login. *)
Definition idle_conn : TCPConn := MkTCPConn "l" "r" [] None.
Definition demo_uninit : netState nat :=
  let '(c1, ins) := NewTcpConn 0 None idle_conn in
  let '(c2, ins) := NewTcpConn 1 ins demo_conn in
  MkNet [GReading c1; GReading c2] 0%nat true AReturned ins None.

Lemma demo_calm : calm_handler (eventTcp (mgr_of demo_start demo_stop demo_handlers)).
Proof.
  split; [apply eventTcp_safe, toy_mgr_safe|discriminate|discriminate|].
  intros id p s [Hl Hp]. cbn [eventTcp OnData]. unfold RecvClientMsg.
  destruct (Decode_slices (Message := string * bytes) p Hl) as [Hd _]. destruct Hd as [[[hd msg]|] ->]; [lia|lia| |done].
  rewrite bind_Done. destruct (clientMsgHandler _ !! _) as [h|] eqn:Hh; [|done].
  cbn in Hh. apply lookup_fmap_Some in Hh as (f & <- & Hf). unfold msg_handler, answers. by destruct (f id (hd, msg) s).
Qed.

Lemma uninit_connections_witness :
  exists st' st'' c, net_step demo_cfg (eventTcp (mgr_of demo_start demo_stop demo_handlers)) demo_uninit st' /\
    gs st' !! 0%nat = gs demo_uninit !! 0%nat /\ shared st' = 1%nat /\
    rtc (net_step demo_cfg (eventTcp (mgr_of demo_start demo_stop demo_handlers))) st' st'' /\
    gs st'' !! 1%nat = Some (GEnded c) /\ closed c = true.
Proof.
  pose (g1 := GReading (fst (NewTcpConn 1 (snd (NewTcpConn 0 None idle_conn)) demo_conn))).
  assert (exists st' c, net_step demo_cfg (eventTcp (mgr_of demo_start demo_stop demo_handlers)) demo_uninit st' /\ shared st' = 1%nat /\
    crashed st' = None /\ gs st' !! 1%nat = Some (GLoop c) /\ length (gs st') = 2%nat)
    as (st' & c1 & Hs & Hsh & Ha & Hg1 & Hlen).
  { do 2 eexists. split; [eapply (net_turn _ _ demo_uninit 0 1%nat); [reflexivity|reflexivity|vm_compute; reflexivity]|].
    split; [reflexivity|]. split; [reflexivity|]. split; reflexivity. }
  destruct (uninit_connections demo_cfg (eventTcp (mgr_of demo_start demo_stop demo_handlers)) demo_uninit st' 0
    (GReading (fst (NewTcpConn 0 None idle_conn)))) as (g' & Hg' & Hsil & _).
  - exact demo_calm.
  - reflexivity.
  - by apply rtc_once.
  - reflexivity.
  - split; [reflexivity|]. apply frames_end. left. cbn. lia.
  - destruct (uninit_connections demo_cfg (eventTcp (mgr_of demo_start demo_stop demo_handlers)) demo_uninit st' 1 g1)
      as (g2 & Hg2 & _ & _ & Hend).
    + exact demo_calm.
    + reflexivity.
    + by apply rtc_once.
    + reflexivity.
    + split; [reflexivity|]. apply (frames_cons 8 0 (le_split 4 1 ++ le_split 4 1) []); [unfold fits_u; lia|unfold fits_u; lia|lia|reflexivity|].
      apply frames_end. left. cbn. lia.
    + rewrite Hg1 in Hg2. injection Hg2 as <-. destruct (Hend Ha) as [_ (st'' & c & Hr & Hgs & Hc)]; [intros []|].
      exists st', st'', c. split; [exact Hs|]. split; [rewrite Hg', Hsil; reflexivity|]. split; [exact Hsh|].
      split; [exact Hr|]. split; [rewrite Hgs; apply list_lookup_insert_eq; lia|].
      destruct Hc as [Hc|Hc]; [discriminate|exact Hc].
Defined.
