(* ===== verification/Process.v ===== *)
(** * common/process: pid files, stopping the previous process, daemonising

    The operating system is an explicit record: the files, which paths can be
    written, which pids accept a signal, and the signals sent so far (SIGKILL
    is 9).  Log calls and the short sleep after a kill are left out. *)

From S2P Require Import Prelude GoStrings.

Record OS := MkOS {
  files : gmap string string;
  writable : string -> bool;
  alive : Z -> bool;
  sent_signals : list (Z * Z);     (* pid, signal *)
  curPid : Z;
  ppid : Z;
  devNullOK : bool;
  startOK : bool
}.

Definition set_files (os : OS) (f : gmap string string) : OS :=
  MkOS f (writable os) (alive os) (sent_signals os) (curPid os) (ppid os) (devNullOK os) (startOK os).
Definition add_signal (os : OS) (pid sig : Z) : OS :=
  MkOS (files os) (writable os) (alive os) (sent_signals os ++ [(pid, sig)]) (curPid os) (ppid os)
    (devNullOK os) (startOK os).

(** [fmt.Sprintf("/tmp/%s.pid", entityid)] *)
Definition pidPath (entityid : string) : string := "/tmp/" +:+ entityid +:+ ".pid".

Definition newline : ascii := ascii_of_nat 10.

Definition GetProcessPid (os : OS) (entityid : string) : result error Z :=
  match files os !! pidPath entityid with
  | None => Err "no such file or directory"
  | Some content =>
      let pidStr := ReplaceAll content newline "" in
      match Atoi pidStr with
      | Err _ => Err ("parse pidstr=" +:+ pidStr +:+ " fail")
      | Ok pid => Ok pid
      end
  end.

(** [os.Process.Signal]: an error if the process does not exist. *)
Definition Signal (os : OS) (pid sig : Z) : option error * OS :=
  if alive os pid then (None, add_signal os pid sig) else (Some "os: process already finished", os).

Definition SIGKILL : Z := 9.
Definition SIGUSR1 : Z := 10.
Definition SIGUSR2 : Z := 12.
Definition SIGINT : Z := 2.

Definition KillProcess (os : OS) (entityid : string) : option error * OS :=
  match GetProcessPid os entityid with
  | Err err => (Some err, os)
  | Ok pid => let '(_, os) := Signal os pid SIGKILL in (None, os)
  end.

Definition SendSignal (os : OS) (entityid : string) (sig : Z) : option error * OS :=
  match GetProcessPid os entityid with
  | Err err => (Some err, os)
  | Ok pid =>
      let '(err, os) := Signal os pid sig in
      match err with
      | Some err => (Some err, os)
      | None => (None, os)
      end
  end.

Definition WritePidFile (os : OS) (entityid : string) : option error * OS :=
  let filePath := pidPath entityid in
  let curPidStr := Itoa (curPid os) in
  if writable os filePath then (None, set_files os (<[filePath := curPidStr]> (files os)))
  else (Some "write pid file fail", os).

Definition KillPre (os : OS) (entityid : string) : option error * OS :=
  let '(err, os) := KillProcess os entityid in
  match err with
  | Some err => (Some err, os)
  | None => WritePidFile os entityid
  end.

(** [Daemon] returns, or starts a copy of the program and exits. *)
Inductive daemon_end := DReturn (code : Z) (err : option error) | DExit (code : Z).

Definition Daemon (os : OS) (nochdir noclose : Z) : daemon_end :=
  if ppid os =? 1 then DReturn 0 None else
  if (noclose =? 0) && negb (devNullOK os) then DReturn 1 (Some "open /dev/null") else
  if negb (startOK os) then DReturn (-1) (Some "can't create process") else DExit 0.

(** ** Proofs *)

Lemma pidPath_inj a b : pidPath a = pidPath b -> a = b.
Proof.
  unfold pidPath. intros H. apply (f_equal String.list_ascii_of_string) in H.
  rewrite !chars_app in H. apply app_inv_head, app_inv_tail in H. by apply chars_inj.
Qed.

Lemma newline_not_in_number n : fits_s 64 n -> newline ∉ chars (FormatInt n).
Proof.
  intros Hn Hc. apply FormatInt_chars in Hc as [Hc|(d & Hd & Hc)]; [done| |done].
  apply (f_equal char_digit) in Hc. by rewrite char_digit_char in Hc.
Qed.

Lemma GetProcessPid_number os id n :
  files os !! pidPath id = Some (Itoa n) -> fits_s 64 n -> GetProcessPid os id = Ok n.
Proof.
  intros Hf Hn. unfold GetProcessPid. rewrite Hf. unfold Itoa.
  rewrite ReplaceAll_absent by (by apply newline_not_in_number).
  unfold Atoi. by rewrite ParseInt_FormatInt.
Qed.

(** Pid files round-trip: once [WritePidFile] succeeds, [GetProcessPid] of
    the same entity yields the process's pid, and the pid files of other
    entities are as before. *)
Theorem pidfile_roundtrip (os : OS) (id : string) :
  fits_s 64 (curPid os) -> writable os (pidPath id) = true ->
  exists os', WritePidFile os id = (None, os') /\ GetProcessPid os' id = Ok (curPid os) /\
    forall id', id' <> id -> GetProcessPid os' id' = GetProcessPid os id'.
Proof.
  intros Hp Hw. unfold WritePidFile. rewrite Hw. eexists. split; [done|]. split.
  - apply GetProcessPid_number; [|done]. apply lookup_insert_eq.
  - intros id' Hne. unfold GetProcessPid. cbn [files set_files].
    rewrite lookup_insert_ne; [done|]. intros E. by apply pidPath_inj in E.
Qed.

Definition os0 : OS := MkOS ∅ (fun _ => true) (fun _ => true) [] 4242 1 true true.

Lemma pidfile_roundtrip_witness :
  exists os', WritePidFile os0 "svr" = (None, os') /\ GetProcessPid os' "svr" = Ok 4242.
Proof.
  destruct (pidfile_roundtrip os0 "svr") as (os' & H1 & H2 & _); [by vm_compute|done|].
  exists os'. split; [exact H1|exact H2].
Defined.

(** Replacing the previous process: with a pid file of a 64-bit pid,
    [KillPre] sends exactly one SIGKILL, to that pid if it still runs, and then
    the pid file holds the new process's pid. *)
Theorem killpre_replaces (os : OS) (id : string) (old : Z) :
  fits_s 64 (curPid os) -> writable os (pidPath id) = true -> GetProcessPid os id = Ok old ->
  exists os', KillPre os id = (None, os') /\ GetProcessPid os' id = Ok (curPid os) /\
    sent_signals os' = sent_signals os ++ (if alive os old then [(old, SIGKILL)] else []).
Proof.
  intros Hp Hw Ho. unfold KillPre, KillProcess. rewrite Ho. unfold Signal.
  destruct (alive os old) eqn:Ha; unfold WritePidFile; cbn [writable add_signal]; rewrite Hw;
    eexists; (split; [reflexivity|]); (split; [apply GetProcessPid_number; [|done]|]);
    cbn [files set_files sent_signals add_signal curPid]; rewrite ?app_nil_r;
    by rewrite ?lookup_insert_eq.
Qed.

Lemma killpre_replaces_witness :
  exists os', KillPre (set_files os0 {[ pidPath "svr" := "17
" ]}) "svr" = (None, os') /\ GetProcessPid os' "svr" = Ok 4242 /\ sent_signals os' = [(17, 9)].
Proof.
  destruct (killpre_replaces (set_files os0 {[ pidPath "svr" := "17
" ]}) "svr" 17) as (os' & H1 & H2 & H3); [by vm_compute|done|by vm_compute|].
  exists os'. split; [exact H1|]. split; [exact H2|exact H3].
Defined.

(** Calls of the package other than [WritePidFile] itself. *)
Inductive pcall := CKillPre (id : string) | CKill (id : string) | CSignal (id : string) (sig : Z).

Definition pstep (os : OS) (c : pcall) : OS :=
  match c with
  | CKillPre id => (KillPre os id).2
  | CKill id => (KillProcess os id).2
  | CSignal id sig => (SendSignal os id sig).2
  end.

Lemma no_pidfile_step os c : files os = ∅ -> pstep os c = os.
Proof.
  intros Hf. assert (Hg : forall id, GetProcessPid os id = Err "no such file or directory").
  { intros id. unfold GetProcessPid. by rewrite Hf, lookup_empty. }
  destruct c as [id|id|id sig]; cbn; unfold KillPre, KillProcess, SendSignal; by rewrite Hg.
Qed.

(** A pid file is never created by starting the server.  [KillPre] returns
    the error of the missing pid file before it writes the new one; so on a
    machine without pid files every start fails this way, and however often
    servers are started, stopped and signalled, no pid file appears and no
    signal is ever sent. *)
Theorem killpre_never_creates_pidfile (os : OS) (calls : list pcall) :
  files os = ∅ ->
  foldl pstep os calls = os /\
  forall id, KillPre os id = (Some "no such file or directory", os).
Proof.
  intros Hf. split.
  - induction calls as [|c calls IH]; [done|]. cbn [foldl]. by rewrite no_pidfile_step.
  - intros id. unfold KillPre, KillProcess, GetProcessPid. by rewrite Hf, lookup_empty.
Qed.

Lemma killpre_never_creates_pidfile_witness :
  foldl pstep os0 [CKillPre "svr"; CSignal "svr" SIGUSR1; CKillPre "svr"] = os0.
Proof. apply (killpre_never_creates_pidfile os0). reflexivity. Defined.
