(* ===== verification/Config.v ===== *)
(** * config: the server configuration and its reload

    Two viper instances, of which one is active; a load reads the file into
    the other one and swaps them.  A viper instance is represented by the
    document it last read; reading and parsing the file is a parameter, given
    per load ([readfile]).  Command-line flags arrive as optional values. *)

From S2P Require Import Prelude.

Definition _defaultConfPath : string := "./conf/server.yaml".

Section Config.
(** The parsed documents. *)
Context {C : Type}.

Record configData := MkConfigData {
  config : option C;          (* [None]: a viper that has read nothing *)
  configBak : option C;
  isUseBak : bool;
  cfgFilePath : string;
  daemonFlag : bool;
  command : string
}.

(** Which of the two instances [getBakConfig] returns. *)
Definition getBakConfig (d : configData) : option C :=
  if isUseBak d then config d else configBak d.

(** The instance [getBakConfig] returns, after it has read [x]. *)
Definition setBakConfig (d : configData) (x : option C) : configData :=
  if isUseBak d
  then MkConfigData x (configBak d) (isUseBak d) (cfgFilePath d) (daemonFlag d) (command d)
  else MkConfigData (config d) x (isUseBak d) (cfgFilePath d) (daemonFlag d) (command d).

Definition loadConfig (readfile : string -> result error C) (d : configData) : option error * configData :=
  if bool_decide (cfgFilePath d = "") then (Some "invalid cfg file path", d) else
  match readfile (cfgFilePath d) with
  | Err err => (Some ("read config failed for %!m(" +:+ err +:+ ")"), d)
  | Ok x =>
      let d := setBakConfig d (Some x) in
      (None, MkConfigData (config d) (configBak d) (negb (isUseBak d)) (cfgFilePath d)
               (daemonFlag d) (command d))
  end.

(** The flags given on the command line. *)
Record flags := MkFlags { f_conf : option string; f_command : option string; f_daemon : option bool }.

Definition Init (fl : flags) (readfile : string -> result error C) : option error * configData :=
  loadConfig readfile
    {| config := None; configBak := None; isUseBak := false;
       cfgFilePath := default _defaultConfPath (f_conf fl);
       daemonFlag := default false (f_daemon fl);
       command := default "start" (f_command fl) |}.

Definition Reload (readfile : string -> result error C) (d : configData) : option error * configData :=
  loadConfig readfile d.

Definition GetConfig (d : configData) : option C := if isUseBak d then configBak d else config d.
Definition GetDaemon (d : configData) : bool := daemonFlag d.
Definition GetCommand (d : configData) : string := command d.

(** A run: the first load and then reloads, each with what the file holds at
    that moment. *)
Definition reloads (l : list (string -> result error C)) (d : configData) : configData :=
  foldl (fun d r => (Reload r d).2) d l.

(** ** Proofs *)

Lemma loadConfig_spec r d : cfgFilePath d <> "" ->
  let '(e, d') := loadConfig r d in
  cfgFilePath d' = cfgFilePath d /\ command d' = command d /\ daemonFlag d' = daemonFlag d /\
  match r (cfgFilePath d) with
  | Ok x => e = None /\ GetConfig d' = Some x /\ getBakConfig d' = GetConfig d
  | Err _ => e <> None /\ d' = d
  end.
Proof.
  intros Hp. unfold loadConfig. rewrite bool_decide_false by done.
  destruct (r (cfgFilePath d)) as [x|err]; [|done].
  unfold setBakConfig, GetConfig, getBakConfig. by destruct d as [? ? [] ? ? ?].
Qed.

(** The last document read, if any file could be read. *)
Definition last_good (path : string) (l : list (string -> result error C)) (x0 : option C) : option C :=
  foldl (fun x r => match r path with Ok y => Some y | Err _ => x end) x0 l.

Lemma reloads_spec l : forall d, cfgFilePath d <> "" ->
  GetConfig (reloads l d) = last_good (cfgFilePath d) l (GetConfig d) /\
  command (reloads l d) = command d.
Proof.
  induction l as [|r l IH]; intros d Hp; [done|].
  pose proof (loadConfig_spec r d Hp) as Hl.
  assert (E : reloads (r :: l) d = reloads l (loadConfig r d).2) by done. rewrite E.
  destruct (loadConfig r d) as [e d'] eqn:Hd. destruct Hl as (Hf & Hc & _ & Hr). cbn [snd].
  destruct (IH d') as [IH1 IH2]; [by rewrite Hf|]. rewrite IH1, IH2, Hf, Hc. split; [|done].
  unfold last_good. cbn [foldl]. f_equal.
  destruct (r (cfgFilePath d)); [by destruct Hr as (_ & -> & _)|by destruct Hr as [_ ->]].
Qed.
End Config.
Arguments configData : clear implicits.

(** The active configuration is always the last one that could be read.
    After [Init] and any sequence of reloads, [GetConfig] is the document of the
    last load whose file was readable and parsed (none if there was none yet):
    a failed reload never disturbs the configuration in use, and the command
    given at start is kept. *)
Theorem config_is_last_good {C : Type} (fl : flags) (r0 : string -> result error C)
    (l : list (string -> result error C)) :
  f_conf fl <> Some "" ->
  let d := (Init fl r0).2 in
  GetConfig (reloads l d) = last_good (default _defaultConfPath (f_conf fl)) (r0 :: l) None /\
  GetCommand (reloads l d) = default "start" (f_command fl).
Proof.
  intros Hf. set (path := default _defaultConfPath (f_conf fl)).
  assert (Hp : path <> "").
  { unfold path. destruct (f_conf fl) as [p|]; [|done]. cbn. congruence. }
  pose (d0 := MkConfigData (@None C) None false path (default false (f_daemon fl))
                (default "start" (f_command fl))).
  destruct (reloads_spec (r0 :: l) d0 Hp) as [H1 H2]. split; [exact H1|exact H2].
Qed.

Lemma config_is_last_good_witness :
  let d := (Init (MkFlags None None None) (fun _ => Ok 1%nat)).2 in
  GetConfig (reloads [fun _ => Err "parse"; fun _ => Ok 2%nat; fun _ => Err "gone"] d) = Some 2%nat.
Proof.
  apply (config_is_last_good (MkFlags None None None) (fun _ => Ok 1%nat)
    [fun _ => Err "parse"; fun _ => Ok 2%nat; fun _ => Err "gone"]). discriminate.
Defined.
