(* ===== verification/Signal.v ===== *)
(** * common/signal: dispatch of process signals

    The handler table, the set of signals [StartSignal] subscribes to, and the
    goroutine that runs handlers one after the other.  A handler is identified
    by a tag; running it is the caller's business.  The channel holds 20
    signals and the runtime drops what does not fit. *)

From S2P Require Import Prelude.

Definition SIGUSR3 : Z := 35.

Section Signals.
Context {Handler : Type}.

Definition sigHandlers : Type := gmap Z Handler.

Definition RegisterSignalHandler (sigs : list Z) (handler : Handler) (m : gmap Z Handler) : gmap Z Handler :=
  foldl (fun m sig => <[sig := handler]> m) m sigs.

(** The goroutine and its channel: the signals subscribed to, those queued. *)
Record listener := MkListener { subscribed : gset Z; queue : list Z }.

Definition chanSize : nat := 20.

(** [None]: no handler is registered and nothing is started. *)
Definition StartSignal (m : gmap Z Handler) : option listener :=
  if decide (m = ∅) then None else Some (MkListener (dom m) []).

(** The runtime delivers a signal without blocking. *)
Definition deliver (sig : Z) (l : listener) : listener :=
  if bool_decide (sig ∈ subscribed l) && (length (queue l) <? chanSize)%nat
  then MkListener (subscribed l) (queue l ++ [sig]) else l.

(** One turn of the goroutine's loop: the handler it calls, if any. *)
Definition handleNext (m : gmap Z Handler) (l : listener) : option Handler * listener :=
  match queue l with
  | [] => (None, l)
  | s :: q => (m !! s, MkListener (subscribed l) q)
  end.

(** The goroutine over everything queued: the handlers called, in order. *)
Fixpoint handleAll (n : nat) (m : gmap Z Handler) (l : listener) : list Handler :=
  match n with
  | O => []
  | S n => let '(h, l) := handleNext m l in option_list h ++ handleAll n m l
  end.

(** ** Proofs *)

Lemma Register_lookup sigs h (m : gmap Z Handler) s :
  RegisterSignalHandler sigs h m !! s = if decide (s ∈ sigs) then Some h else m !! s.
Proof.
  revert m. induction sigs as [|x sigs IH]; intros m; [done|]. cbn [RegisterSignalHandler foldl].
  change (foldl _ ?m0 sigs) with (RegisterSignalHandler sigs h m0). rewrite IH.
  destruct (decide (s ∈ sigs)) as [Hin|Hn].
  { rewrite decide_True; [done|by right]. }
  destruct (decide (s = x)) as [->|Hne].
  - rewrite lookup_insert_eq, decide_True; [done|left].
  - rewrite lookup_insert_ne by done. rewrite decide_False; [done|]. by intros [?|?]%elem_of_cons.
Qed.

Lemma deliver_all (m : gmap Z Handler) ss : forall q, (length q + length ss <= chanSize)%nat ->
  foldl (fun l s => deliver s l) (MkListener (dom m) q) ss =
  MkListener (dom m) (q ++ filter (fun s => is_Some (m !! s)) ss).
Proof.
  induction ss as [|s ss IH]; intros q Hl; cbn [foldl]; [by rewrite app_nil_r|].
  cbn [length] in Hl. unfold deliver at 2. cbn [subscribed queue].
  rewrite (proj2 (Nat.ltb_lt _ _)) by lia. rewrite andb_true_r, filter_cons.
  case_bool_decide as Hd; rewrite elem_of_dom in Hd.
  - rewrite decide_True, IH by (rewrite ?length_app; simpl; done || lia). by rewrite <- app_assoc.
  - rewrite decide_False, IH by (done || lia). done.
Qed.

Lemma handleAll_queue (m : gmap Z Handler) d q :
  handleAll (length q) m (MkListener d q) = omap (fun s => m !! s) q.
Proof.
  induction q as [|s q IH]; [done|]. cbn [handleAll handleNext length queue].
  cbn [subscribed]. rewrite IH. cbn. by destruct (m !! s).
Qed.
End Signals.

(** Signal dispatch.  After handlers [h1] for [sigs1] and then [h2] for
    [sigs2] are registered and the listener started, up to 20 signals that
    arrive before the handlers run are handled in order of arrival, each by
    the handler registered last for it; other signals are not taken. *)
Theorem signals_dispatched {Handler : Type} (sigs1 sigs2 : list Z) (h1 h2 : Handler) (ss : list Z) (l : listener) :
  let m := RegisterSignalHandler sigs2 h2 (RegisterSignalHandler sigs1 h1 ∅) in
  StartSignal m = Some l -> (length ss <= chanSize)%nat ->
  let l' := foldl (fun l s => deliver s l) l ss in
  handleAll (length (queue l')) m l' =
  omap (fun s => if decide (s ∈ sigs2) then Some h2 else if decide (s ∈ sigs1) then Some h1 else None) ss.
Proof.
  intros m Hs Hl. unfold StartSignal in Hs. case_decide; [done|]. simplify_eq. cbv zeta.
  rewrite (deliver_all m ss []) by (simpl; lia). cbn [queue]. rewrite handleAll_queue.
  assert (Hm : forall s, m !! s = if decide (s ∈ sigs2) then Some h2
    else if decide (s ∈ sigs1) then Some h1 else None).
  { intros s. unfold m. rewrite !Register_lookup. by rewrite lookup_empty. }
  simpl app. clear Hl. induction ss as [|s ss IH]; [done|]. rewrite filter_cons, omap_cons_eq, <- Hm.
  case_decide as Hd.
  - rewrite omap_cons_eq. destruct (m !! s); [by f_equal|done].
  - destruct (m !! s) eqn:E; [exfalso; apply Hd; by eexists|done].
Qed.

Lemma signals_dispatched_witness :
  let m := RegisterSignalHandler [12] "reload" (RegisterSignalHandler [2; 10] "quit" ∅) in
  let l := MkListener (dom m) [] in
  let l' := foldl (fun l s => deliver s l) l [12; 1; 10] in
  handleAll (length (queue l')) m l' = ["reload"; "quit"].
Proof.
  apply (signals_dispatched [2; 10] [12] "quit" "reload" [12; 1; 10]); [reflexivity|unfold chanSize; simpl; lia].
Defined.
