(* ===== verification/Log.v ===== *)
(** * plugin/log: the log front end and the logger used before a plugin is set up

    The front end (logger.go) filters by level, counts, and hands what is left
    to the global logger; a logger is any instance of the class [Logger].  A
    call carries the text its format and arguments print.  [X] is what the
    operating system gives the logger during a call: the time, the state of
    the disk. *)

From S2P Require Import Prelude GoStrings GoTime.

(** ** log.go *)

Definition LogLevelNull : Z := 0.
Definition LogLevelTrace : Z := 1.
Definition LogLevelDebug : Z := 2.
Definition LogLevelInfo : Z := 3.
Definition LogLevelError : Z := 4.
Definition LogLevelFatal : Z := 5.

Record AcntLogger := MkAcntLogger { InLogWhitelist : bool; GetLogStr : string }.

(** [Output tag account text]; [Write] and [SetLevel], here [LogWrite] and
    [LogSetLevel], are not used by the front end. *)
Class Logger (L X : Type) := {
  Output : X -> string -> option AcntLogger -> string -> L -> outcome L;
  LogWrite : X -> string -> L -> outcome (Z * option error * L);
  Sync : X -> L -> outcome (option error * L);
  LogSetLevel : Z -> L -> L;
  GetLevel : L -> Z
}.

(** ** logger.go *)

Definition _traceTag : string := "TRACE".
Definition _debugTag : string := "DEBUG".
Definition _infoTag : string := "INFO".
Definition _errorTag : string := "ERR".
Definition _fatalTag : string := "FATAL".

(** The counters of log.go, [atomic.Int32] each. *)
Record logCounters := MkCounters { TraceCnt : Z; DebugCnt : Z; InfoCnt : Z; ErrorCnt : Z; FatalCnt : Z }.

Record logState (L : Type) := MkLogState { globalLogger : option L; counters : logCounters }.
Arguments MkLogState {L} globalLogger counters.
Arguments globalLogger {L} s : rename.
Arguments counters {L} s : rename.

Inductive level_of := LTrace | LDebug | LInfo | LError | LFatal.

#[global] Instance level_of_eq_dec : EqDecision level_of.
Proof. solve_decision. Defined.

Definition level_num (k : level_of) : Z :=
  match k with
  | LTrace => LogLevelTrace | LDebug => LogLevelDebug | LInfo => LogLevelInfo
  | LError => LogLevelError | LFatal => LogLevelFatal
  end.

Definition level_tag (k : level_of) : string :=
  match k with
  | LTrace => _traceTag | LDebug => _debugTag | LInfo => _infoTag | LError => _errorTag | LFatal => _fatalTag
  end.

(** [Add(1)] on the counter of a level. *)
Definition count (k : level_of) (c : logCounters) : logCounters :=
  let '(MkCounters t d i e f) := c in
  match k with
  | LTrace => MkCounters (i32 (t + 1)) d i e f
  | LDebug => MkCounters t (i32 (d + 1)) i e f
  | LInfo => MkCounters t d (i32 (i + 1)) e f
  | LError => MkCounters t d i (i32 (e + 1)) f
  | LFatal => MkCounters t d i e (i32 (f + 1))
  end.

Section FrontEnd.
Context {L X : Type} `{!Logger L X}.

Definition SetLogger (l : option L) (s : logState L) : logState L := MkLogState l (counters s).

(** The package's [Sync]: nil without a logger. *)
Definition logSync (x : X) (s : logState L) : outcome (option error * logState L) :=
  match globalLogger s with
  | None => Done (None, s)
  | Some l => '(e, l) ← Sync x l; Done (e, MkLogState (Some l) (counters s))
  end.

(** The shape shared by [Trace] ... [Fatal]. *)
Definition plain (k : level_of) (x : X) (text : string) (s : logState L) : outcome (logState L) :=
  match globalLogger s with
  | None => Done s
  | Some l =>
      if GetLevel l >? level_num k then Done s else
      let c := count k (counters s) in
      l ← Output x (level_tag k) None text l;
      Done (MkLogState (Some l) c)
  end.

Definition Trace := plain LTrace.
Definition Debug := plain LDebug.
Definition Info := plain LInfo.
Definition Error := plain LError.
Definition Fatal := plain LFatal.

(** The shape shared by [AcntTrace] ... [AcntFatal]. *)
Definition acnt (k : level_of) (x : X) (a : AcntLogger) (text : string) (s : logState L) : outcome (logState L) :=
  match globalLogger s with
  | None => Done s
  | Some l =>
      if negb (InLogWhitelist a) && (GetLevel l >? level_num k) then Done s else
      let c := count k (counters s) in
      l ← Output x (level_tag k) (Some a) text l;
      Done (MkLogState (Some l) c)
  end.

Definition AcntTrace := acnt LTrace.
Definition AcntDebug := acnt LDebug.
Definition AcntInfo := acnt LInfo.
Definition AcntError := acnt LError.
Definition AcntFatal := acnt LFatal.

Definition GetLogLevel (s : logState L) : Z :=
  match globalLogger s with
  | None => LogLevelNull
  | Some l => GetLevel l
  end.

(** A call of one of the ten functions. *)
Record logCall := MkCall { ck : level_of; cx : X; ca : option AcntLogger; ctext : string }.

Definition run_call (c : logCall) (s : logState L) : outcome (logState L) :=
  match ca c, ck c with
  | None, LTrace => Trace (cx c) (ctext c) s
  | None, LDebug => Debug (cx c) (ctext c) s
  | None, LInfo => Info (cx c) (ctext c) s
  | None, LError => Error (cx c) (ctext c) s
  | None, LFatal => Fatal (cx c) (ctext c) s
  | Some a, LTrace => AcntTrace (cx c) a (ctext c) s
  | Some a, LDebug => AcntDebug (cx c) a (ctext c) s
  | Some a, LInfo => AcntInfo (cx c) a (ctext c) s
  | Some a, LError => AcntError (cx c) a (ctext c) s
  | Some a, LFatal => AcntFatal (cx c) a (ctext c) s
  end.

Fixpoint run_calls (cs : list logCall) (s : logState L) : outcome (logState L) :=
  match cs with
  | [] => Done s
  | c :: cs => s ← run_call c s; run_calls cs s
  end.

(** What a logger promises the front end in its consistent states [ok]. *)
Class LoggerLaws (ok : L -> Prop) : Prop := {
  Output_returns x tag a text (l : L) : ok l ->
    exists l', Output x tag a text l = Done l' /\ GetLevel l' = GetLevel l /\ ok l'
}.

End FrontEnd.
Arguments logCall X : clear implicits.
Arguments LoggerLaws L X {_} ok.

(** ** defaultlogger.go *)

(** [tmpFile] and [console] are the file and the terminal written to. *)
Record defaultLogger := MkDefaultLogger { level : Z; fileFd : bool; tmpFile : string; console : string }.

(** The operating system during a call: the time and its zone, and whether
    the file can be opened and written. *)
Record dctx := MkDctx { dnow : Time; dzone : Z; openErr : bool; writeErr : option error }.

Definition newDefaultLogger : defaultLogger := MkDefaultLogger 0 false "" "".

Definition getFileFd (x : dctx) (l : defaultLogger) : bool * defaultLogger :=
  if fileFd l then (true, l)
  else if openErr x then (false, l)
  else (true, MkDefaultLogger (level l) true (tmpFile l) (console l)).

Definition Write (x : dctx) (buf : string) (l : defaultLogger) : Z * option error * defaultLogger :=
  let '(fd, l) := getFileFd x l in
  if fd then
    match writeErr x with
    | Some e => (0, Some e, l)
    | None => (Z.of_nat (String.length buf), None,
               MkDefaultLogger (level l) (fileFd l) (tmpFile l +:+ buf) (console l))
    end
  else (0, Some "Write filefd is nil", l).

Definition newline : string := String (Ascii.ascii_of_nat 10) "".

(** The line of a call, shared with the terminal. *)
Definition logStr (zone : Z) (now : Time) (logType : string) (a : option AcntLogger) (logContent : string) : string :=
  match a with
  | Some a => stamp zone now +:+ " [" +:+ logType +:+ "] " +:+ GetLogStr a +:+ " " +:+ logContent
  | None => stamp zone now +:+ " [" +:+ logType +:+ "] " +:+ logContent
  end.

Definition defaultOutput (x : dctx) (logType : string) (a : option AcntLogger) (logContent : string)
    (l : defaultLogger) : outcome defaultLogger :=
  let line := logStr (dzone x) (dnow x) logType a logContent +:+ newline in
  let '(_, _, l) := Write x line l in
  Done (MkDefaultLogger (level l) (fileFd l) (tmpFile l) (console l +:+ line)).

(** [Sync] opens the file if it has to; [fd.Sync] itself is the system's. *)
Definition defaultSync (x : dctx) (l : defaultLogger) : outcome (option error * defaultLogger) :=
  let '(fd, l) := getFileFd x l in
  Done (if fd then writeErr x else None, l).

Definition SetLevel (lv : Z) (l : defaultLogger) : defaultLogger :=
  MkDefaultLogger lv (fileFd l) (tmpFile l) (console l).

#[global] Instance default_logger : Logger defaultLogger dctx :=
  {| Output := defaultOutput; LogWrite x buf l := Done (Write x buf l); Sync := defaultSync; LogSetLevel := SetLevel;
     GetLevel := level |}.

(** ** logger_mock.go *)

(** What the mock has printed. *)
Record MockLogger := MkMockLogger { printed : string }.

Definition mockOutput (_ : unit) (logType : string) (a : option AcntLogger) (text : string) (l : MockLogger)
  : outcome MockLogger := Done (MkMockLogger (printed l +:+ text +:+ newline)).
Definition mockWrite (_ : unit) (buf : string) (l : MockLogger) : outcome (Z * option error * MockLogger) :=
  Done (Z.of_nat (String.length buf), None, l).
Definition mockSync (_ : unit) (l : MockLogger) : outcome (option error * MockLogger) := Done (None, l).
Definition mockSetLevel (level : Z) (l : MockLogger) : MockLogger := l.
Definition mockGetLevel (l : MockLogger) : Z := -1.

#[global] Instance mock_logger : Logger MockLogger unit :=
  {| Output := mockOutput; LogWrite := mockWrite; Sync := mockSync; LogSetLevel := mockSetLevel; GetLevel := mockGetLevel |}.

Definition MockSetDefaultLogger (s : logState MockLogger) : logState MockLogger := SetLogger (Some (MkMockLogger "")) s.

(** ** Proofs *)

#[global] Instance default_laws : LoggerLaws defaultLogger dctx (fun _ => True).
Proof.
  constructor. intros x tag a text l _. cbn [Output default_logger GetLevel]. unfold defaultOutput, Write, getFileFd.
  destruct (fileFd l), (openErr x), (writeErr x); cbn; eauto.
Qed.

#[global] Instance mock_laws : LoggerLaws MockLogger unit (fun _ => True).
Proof. constructor. intros x tag a text l _. eexists. by repeat split. Qed.

Section Filter.
Context {L X : Type} {ok : L -> Prop} `{!Logger L X, !LoggerLaws L X ok}.

(** The calls a logger of level [lv] lets through. *)
Definition passes (lv : Z) (c : logCall X) : Prop :=
  lv <= level_num (ck c) \/ exists a, ca c = Some a /\ InLogWhitelist a = true.

#[global] Instance passes_dec lv c : Decision (passes lv c).
Proof.
  unfold passes. destruct (ca c) as [a|].
  - destruct (decide (lv <= level_num (ck c))); [by left; left|].
    destruct (InLogWhitelist a) eqn:Ha; [by left; right; eauto|].
    right. intros [?|(a' & ? & ?)]; [done|]. congruence.
  - destruct (decide (lv <= level_num (ck c))); [by left; left|].
    right. intros [?|(a' & ? & ?)]; done.
Defined.

(** What a logger is asked to print. *)
Fixpoint outputs (cs : list (logCall X)) (l : L) : outcome L :=
  match cs with
  | [] => Done l
  | c :: cs => l ← Output (cx c) (level_tag (ck c)) (ca c) (ctext c) l; outputs cs l
  end.

(** How often a level is among some calls. *)
Definition occurs (k : level_of) (cs : list (logCall X)) : Z :=
  Z.of_nat (length (filter (fun c => ck c = k) cs)).

Definition counted (cs : list (logCall X)) (c : logCounters) : logCounters :=
  MkCounters (i32 (TraceCnt c + occurs LTrace cs)) (i32 (DebugCnt c + occurs LDebug cs))
    (i32 (InfoCnt c + occurs LInfo cs)) (i32 (ErrorCnt c + occurs LError cs))
    (i32 (FatalCnt c + occurs LFatal cs)).

Definition counters_fit (c : logCounters) : Prop :=
  fits_s 32 (TraceCnt c) /\ fits_s 32 (DebugCnt c) /\ fits_s 32 (InfoCnt c) /\
  fits_s 32 (ErrorCnt c) /\ fits_s 32 (FatalCnt c).

Lemma if_decide {A} (P : Prop) `{!Decision P} (b : bool) (x y : A) :
  (P <-> b = false) -> (if b then y else x) = if decide P then x else y.
Proof.
  intros [H1 H2]. destruct b, (decide P) as [HP|HP]; [by specialize (H1 HP)|done|done|by destruct (HP (H2 eq_refl))].
Qed.

Lemma run_call_eq c l ct :
  run_call c (MkLogState (Some l) ct) =
  if decide (passes (GetLevel l) c)
  then l ← Output (cx c) (level_tag (ck c)) (ca c) (ctext c) l; Done (MkLogState (Some l) (count (ck c) ct))
  else Done (MkLogState (Some l) ct).
Proof.
  assert (Hp : passes (GetLevel l) c <->
    (match ca c with Some a => negb (InLogWhitelist a) && (GetLevel l >? level_num (ck c))
                   | None => GetLevel l >? level_num (ck c) end) = false).
  { unfold passes. rewrite Z.gtb_ltb. destruct (ca c) as [a|].
    - rewrite andb_false_iff, negb_false_iff, Z.ltb_ge. split.
      + intros [?|(? & ? & ?)]; simplify_eq; tauto.
      + intros [?|?]; [right; eauto|by left].
    - rewrite Z.ltb_ge. split; [intros [?|(? & ? & ?)]; done|by left]. }
  destruct c as [k x a text]. cbn [ck cx ca ctext] in *.
  destruct a as [a|]; cbn [ca] in Hp.
  - transitivity (acnt k x a text (MkLogState (Some l) ct)); [by destruct k|].
    unfold acnt. cbn [globalLogger counters]. by apply if_decide.
  - transitivity (plain k x text (MkLogState (Some l) ct)); [by destruct k|].
    unfold plain. cbn [globalLogger counters]. by apply if_decide.
Qed.

Lemma i32_succ a n : i32 (i32 (a + 1) + n) = i32 (a + (1 + n)).
Proof.
  unfold wrap_s. f_equal.
  replace ((a + 1 + 2 ^ (32 - 1)) mod 2 ^ 32 - 2 ^ (32 - 1) + n + 2 ^ (32 - 1))
    with ((a + 1 + 2 ^ (32 - 1)) mod 2 ^ 32 + n) by ring.
  rewrite Zplus_mod_idemp_l. f_equal. ring.
Qed.

Lemma occurs_cons k c cs : occurs k (c :: cs) = (if decide (ck c = k) then 1 else 0) + occurs k cs.
Proof. unfold occurs. rewrite filter_cons. case_decide; cbn [length]; lia. Qed.

Lemma counted_cons c cs ct : counted cs (count (ck c) ct) = counted (c :: cs) ct.
Proof.
  destruct ct as [t d i e f]. unfold counted. rewrite !occurs_cons.
  destruct (ck c) eqn:Hk; cbn [count TraceCnt DebugCnt InfoCnt ErrorCnt FatalCnt];
    repeat case_decide; try congruence; rewrite i32_succ, ?Z.add_0_l; done.
Qed.

Lemma count_fit k ct : counters_fit ct -> counters_fit (count k ct).
Proof.
  destruct ct, k; intros (? & ? & ? & ? & ?); unfold counters_fit, count;
    cbn [TraceCnt DebugCnt InfoCnt ErrorCnt FatalCnt] in *;
    split_and!; done || by apply wrap_s_fits.
Qed.

Lemma outputs_returns cs : forall l : L, ok l ->
  exists l', outputs cs l = Done l' /\ GetLevel l' = GetLevel l /\ ok l'.
Proof.
  induction cs as [|c cs IH]; intros l Hl; [by exists l|]. cbn [outputs].
  destruct (Output_returns (cx c) (level_tag (ck c)) (ca c) (ctext c) l Hl) as (l1 & -> & H1 & Hl1).
  destruct (IH l1 Hl1) as (l2 & H2 & H3 & Hl2). exists l2. split; [done|]. split; [congruence|done].
Qed.

Lemma run_calls_filter cs : forall l ct, ok l -> counters_fit ct ->
  exists l', outputs (filter (passes (GetLevel l)) cs) l = Done l' /\
    run_calls cs (MkLogState (Some l) ct) =
      Done (MkLogState (Some l') (counted (filter (passes (GetLevel l)) cs) ct)).
Proof.
  induction cs as [|c cs IH]; intros l ct Hl Hct.
  { exists l. split; [done|]. cbn [run_calls]. rewrite filter_nil. unfold counted, occurs. rewrite filter_nil. cbn [length].
    destruct ct, Hct as (? & ? & ? & ? & ?). cbn in *. rewrite !Z.add_0_r, !wrap_s_small by done. done. }
  cbn [run_calls]. rewrite run_call_eq, filter_cons. case_decide as Hp.
  - destruct (Output_returns (cx c) (level_tag (ck c)) (ca c) (ctext c) l Hl) as (l1 & H1 & Hlv & Hl1).
    cbn [outputs]. rewrite H1. go_run.
    destruct (IH l1 (count (ck c) ct) Hl1) as (l2 & H2 & H3).
    { by apply count_fit. }
    rewrite Hlv in H2, H3. exists l2. split; [exact H2|]. rewrite H3, counted_cons. done.
  - go_run. by apply IH.
Qed.
End Filter.

(** The mock, whose level is below all, prints the text of every call. *)
Lemma mock_prints_all (cs : list (logCall unit)) (s : logState MockLogger) : counters_fit (counters s) ->
  exists ct, run_calls cs (MockSetDefaultLogger s) =
    Done (MkLogState (Some (MkMockLogger (foldl (fun t c => t +:+ ctext c +:+ newline) "" cs))) ct).
Proof.
  intros Hct. assert (Hf : filter (passes (GetLevel (MkMockLogger ""))) cs = cs).
  { clear. induction cs as [|c cs IH]; [done|]. rewrite filter_cons, decide_True, IH; [done|]. left. destruct (ck c); by vm_compute. }
  unfold MockSetDefaultLogger, SetLogger.
  destruct (run_calls_filter cs (MkMockLogger "") (counters s) I Hct) as (l' & Hl & ->). eexists. do 3 f_equal.
  rewrite Hf in Hl. clear Hf Hct. change "" with (printed (MkMockLogger "")) at 1. revert Hl. generalize (MkMockLogger "").
  induction cs as [|c cs IH]; intros [t] Hl; [by injection Hl as <-|]. cbn [foldl]. exact (IH _ Hl).
Qed.

(** C32. The front end is a filter.  Whatever logger is set, as long as in its
    consistent states it returns and keeps its level, a sequence of log calls makes it print exactly the
    calls at or above its level and the calls of whitelisted accounts, in
    order; each level's counter grows by the number of its calls that passed,
    wrapping at 32 bits; no call panics or blocks.  Without a logger no call
    has any effect. *)
Theorem log_front_end_filters {L X : Type} {ok : L -> Prop} `{!Logger L X, !LoggerLaws L X ok}
    (cs : list (logCall X)) (l : L) (ct : logCounters) :
  ok l -> counters_fit ct ->
  run_calls cs (MkLogState None ct) = Done (MkLogState None ct) /\
  exists l', outputs (filter (passes (GetLevel l)) cs) l = Done l' /\
    GetLevel l' = GetLevel l /\ ok l' /\
    run_calls cs (MkLogState (Some l) ct) =
      Done (MkLogState (Some l') (counted (filter (passes (GetLevel l)) cs) ct)).
Proof.
  intros Hl Hct. split.
  - induction cs as [|c cs IH]; [done|]. cbn [run_calls].
    assert (run_call c (MkLogState None ct) = Done (MkLogState None ct)) as ->;
      [by destruct c as [[] ? [] ?]|exact IH].
  - destruct (run_calls_filter cs l ct Hl Hct) as (l' & H1 & H2). exists l'.
    destruct (outputs_returns (filter (passes (GetLevel l)) cs) l Hl) as (l2 & H3 & H4 & H5).
    rewrite H1 in H3. simplify_eq. done.
Qed.

Lemma log_front_end_filters_witness :
  run_calls [MkCall LInfo (MkDctx (MkTime 0 0) 0 false None) None "up";
             MkCall LTrace (MkDctx (MkTime 1 0) 0 false None) None "skipped";
             MkCall LDebug (MkDctx (MkTime 2 0) 0 false None) (Some (MkAcntLogger true "uid=7")) "seen"]
    (MkLogState (Some (SetLevel LogLevelInfo newDefaultLogger)) (MkCounters 0 0 0 0 0)) =
  let text := "[1970-01-01 00:00:00.000] [INFO] up" +:+ newline +:+
              "[1970-01-01 00:00:02.000] [DEBUG] uid=7 seen" +:+ newline in
  Done (MkLogState (Some (MkDefaultLogger 3 true text text)) (MkCounters 0 1 1 0 0)).
Proof.
  destruct (log_front_end_filters
    [MkCall LInfo (MkDctx (MkTime 0 0) 0 false None) None "up";
     MkCall LTrace (MkDctx (MkTime 1 0) 0 false None) None "skipped";
     MkCall LDebug (MkDctx (MkTime 2 0) 0 false None) (Some (MkAcntLogger true "uid=7")) "seen"]
    (SetLevel LogLevelInfo newDefaultLogger) (MkCounters 0 0 0 0 0)) as (_ & l' & H1 & _ & _ & ->).
  - done.
  - by_decide.
  - vm_compute in H1. injection H1 as <-. vm_compute. reflexivity.
Defined.
