(* ===== verification/Plugin.v ===== *)
(** * plugin: the registry of plugin factories and instances

    Factories are registered under the key "type_name"; [Init] sets up the
    plugins the configuration names, log plugins first, and records the
    instances under the same keys.  The orders in which Go ranges over its
    maps are arguments.  What a plugin does in [Setup] is its own business: a
    factory is a record of functions, and the calls made of it are recorded
    in a trace. *)

From S2P Require Import Prelude GoStrings.

(** [map[string]map[string]interface{}]; [None]: a value that is no section,
    for which viper's [Sub] is nil. *)
Abbreviation PluginConfig C := (gmap string (gmap string (option C))).

Section Plugin.
(** Configuration of one plugin, and plugin instances. *)
Context {C I : Type}.

Record PluginFactory := MkPluginFactory {
  fType : string;
  fName : string;
  Setup : option C -> outcome (result error I);
  fDestroy : I -> outcome (option error);
  fReload : I -> C -> outcome (option error)
}.

Inductive pevent := PSetup (key : string) | PMainloop (key : string) | PDestroy (key : string).

(** [_pluginFactoryMgr], [_pluginMgr] and the calls made so far. *)
Record pluginState := MkPluginState {
  factories : gmap string PluginFactory;
  insts : gmap string I;
  ptrace : list pevent
}.

Definition constructPluginKey (typ name : string) : string := typ +:+ "_" +:+ name.

Definition RegisterPluginFactory (f : PluginFactory) (s : pluginState) : pluginState :=
  MkPluginState (<[constructPluginKey (fType f) (fName f) := f]> (factories s)) (insts s) (ptrace s).

Definition GetPluginInst (typ name : string) (s : pluginState) : option I :=
  insts s !! constructPluginKey typ name.

Definition registerPluginInst (key : string) (p : I) (s : pluginState) : pluginState :=
  MkPluginState (factories s) (<[key := p]> (insts s)) (ptrace s).

Definition emit (e : pevent) (s : pluginState) : pluginState :=
  MkPluginState (factories s) (insts s) (ptrace s ++ [e]).

Definition getPluginFactory (t n : string) (s : pluginState) : option PluginFactory :=
  factories s !! constructPluginKey t n.

Definition getPluginFactoryByKey (key : string) (s : pluginState) : option PluginFactory :=
  factories s !! key.

(** The loop over the log plugins: those without a factory are skipped. *)
Fixpoint initLogs (l : list (string * option C)) (s : pluginState) : outcome (option error * pluginState) :=
  match l with
  | [] => Done (None, s)
  | (n, sub) :: l =>
      match getPluginFactory "log" n s with
      | None => initLogs l s
      | Some f =>
          r ← Setup f sub;
          let s := emit (PSetup (constructPluginKey "log" n)) s in
          match r with
          | Err _ => Done (Some "log plugin init failed", s)
          | Ok p => initLogs l (registerPluginInst (constructPluginKey "log" n) p s)
          end
      end
  end.

(** The inner loop over the plugins of type [t]. *)
Fixpoint initType (t : string) (l : list (string * option C)) (s : pluginState)
  : outcome (option error * pluginState) :=
  match l with
  | [] => Done (None, s)
  | (n, sub) :: l =>
      match getPluginFactory t n s with
      | None => Done (Some ("get plugin factory failed, type " +:+ t +:+ " name " +:+ n), s)
      | Some f =>
          r ← Setup f sub;
          let s := emit (PSetup (constructPluginKey t n)) s in
          match r with
          | Err _ => Done (Some ("plugin setup failed, type " +:+ t +:+ " name " +:+ n), s)
          | Ok p => initType t l (registerPluginInst (constructPluginKey t n) p s)
          end
      end
  end.

Fixpoint initTypes (l : list (string * list (string * option C))) (s : pluginState)
  : outcome (option error * pluginState) :=
  match l with
  | [] => Done (None, s)
  | (t, ps) :: l =>
      if bool_decide (t = "log") then initTypes l s else
      '(e, s) ← initType t ps s;
      match e with
      | Some e => Done (Some e, s)
      | None => initTypes l s
      end
  end.

(** [Init]: [v] is nil when the configuration has no plugin section; otherwise
    it holds what viper's [Unmarshal] gives; [logs] and [order] are the orders
    of the three ranges. *)
Definition Init (v : option (result error (PluginConfig C))) (logs : list (string * option C))
    (order : list (string * list (string * option C))) (s : pluginState)
  : outcome (option error * pluginState) :=
  match v with
  | None => Panic "invalid memory address or nil pointer dereference"
  | Some (Err err) => Done (Some ("unmarshal failed for " +:+ err), s)
  | Some (Ok cfg) =>
      '(e, s) ← (match cfg !! "log" with
                 | None => Done (None, s)
                 | Some _ => initLogs logs s
                 end);
      match e with
      | Some e => Done (Some e, s)
      | None => initTypes order s
      end
  end.

Definition Reload (s : pluginState) : option error * pluginState := (None, s).

(** [Mainloop] starts a goroutine per instance, in the order [l]. *)
Fixpoint Mainloop (l : list (string * I)) (s : pluginState) : outcome pluginState :=
  match l with
  | [] => Done s
  | (k, p) :: l =>
      match getPluginFactoryByKey k s with
      | None => Panic "invalid memory address or nil pointer dereference"
      | Some f => Mainloop l (emit (PMainloop k) s)
      end
  end.

Fixpoint Destroy (l : list (string * I)) (s : pluginState) : outcome (option error * pluginState) :=
  match l with
  | [] => Done (None, s)
  | (k, p) :: l =>
      match getPluginFactoryByKey k s with
      | None => Panic "invalid memory address or nil pointer dereference"
      | Some f => _ ← fDestroy f p; Destroy l (emit (PDestroy k) s)
      end
  end.

(** Orders of the ranges over a configuration. *)
Definition log_order (cfg : PluginConfig C) (logs : list (string * option C)) : Prop :=
  ranges (default ∅ (cfg !! "log")) logs.

Definition cfg_order (cfg : PluginConfig C) (order : list (string * list (string * option C))) : Prop :=
  exists outer, ranges cfg outer /\
    Forall2 (fun a b => a.1 = b.1 /\ ranges a.2 b.2) outer order.
End Plugin.
Arguments PluginFactory : clear implicits.
Arguments pluginState : clear implicits.

(** ** Keys *)

Lemma key_inj t1 n1 t2 n2 : "_"%char ∉ chars t1 -> "_"%char ∉ chars t2 ->
  constructPluginKey t1 n1 = constructPluginKey t2 n2 -> t1 = t2 /\ n1 = n2.
Proof.
  intros H1 H2 E. unfold constructPluginKey in E. apply (f_equal String.list_ascii_of_string) in E.
  rewrite !chars_app in E. apply app_sep_inj in E as [Et En]; [|done|done].
  split; by apply chars_inj.
Qed.

(** ** What a configuration sets up *)

Section Init_proofs.
Context {C I : Type}.
Implicit Types (s : pluginState C I) (F : gmap string (PluginFactory C I)).

(** An entry of the configuration: type, name, section. *)
Definition pentry : Type := string * string * option C.
Definition ekey (e : pentry) : string := constructPluginKey e.1.1 e.1.2.

(** The instance an entry yields with the factories [F]. *)
Definition plug F (e : pentry) : option I :=
  match F !! ekey e with
  | Some f => match Setup f e.2 with Done (Ok p) => Some p | _ => None end
  | None => None
  end.

(** The state after the entries [es] were set up. *)
Definition after s (es : list pentry) : pluginState C I :=
  MkPluginState (factories s)
    (foldl (fun m e => match plug (factories s) e with Some p => <[ekey e := p]> m | None => m end)
       (insts s) es)
    (ptrace s ++ omap (M := list)
       (fun e => match plug (factories s) e with Some _ => Some (PSetup (ekey e)) | None => None end) es).

Lemma after_app s es1 es2 : after (after s es1) es2 = after s (es1 ++ es2).
Proof. unfold after. cbn. by rewrite foldl_app, omap_app_eq, app_assoc. Qed.

Lemma after_one s e p : plug (factories s) e = Some p ->
  registerPluginInst (ekey e) p (emit (PSetup (ekey e)) s) = after s [e].
Proof. intros Hp. unfold after. cbn. rewrite Hp. done. Qed.

Lemma after_skip s e : plug (factories s) e = None -> after s [e] = s.
Proof. intros Hp. unfold after. cbn. rewrite Hp, app_nil_r. by destruct s. Qed.

Definition entries (t : string) (l : list (string * option C)) : list pentry :=
  (fun x => (t, x.1, x.2)) <$> l.

(** Log plugins: the factory is missing or its set-up succeeds. *)
Definition log_ok F (e : pentry) : Prop := F !! ekey e = None \/ is_Some (plug F e).

Lemma initLogs_after l : forall s, Forall (log_ok (factories s)) (entries "log" l) ->
  initLogs l s = Done (None, after s (entries "log" l)).
Proof.
  induction l as [|[n sub] l IH]; intros s Hl.
  { unfold after. cbn. rewrite app_nil_r. by destruct s. }
  apply Forall_cons in Hl as [He Hl]. cbn [fst snd] in He. cbn [initLogs].
  change (entries "log" ((n, sub) :: l)) with ([("log", n, sub) : pentry] ++ entries "log" l).
  rewrite <- after_app. unfold getPluginFactory.
  change (constructPluginKey "log" n) with (ekey ("log", n, sub)).
  destruct He as [He|[p Hp]].
  - rewrite He, (after_skip s ("log", n, sub)); [by apply IH|]. unfold plug. by rewrite He.
  - pose proof Hp as Hp'. unfold plug in Hp'. destruct (factories s !! ekey ("log", n, sub)) as [f|]; [|done].
    cbn [snd] in Hp'. destruct (Setup f sub) as [[p'|]| |]; simplify_eq. go_run.
    rewrite (after_one s ("log", n, sub)) by done. by apply IH.
Qed.

Lemma initType_after t l : forall s, Forall (fun e => is_Some (plug (factories s) e)) (entries t l) ->
  initType t l s = Done (None, after s (entries t l)).
Proof.
  induction l as [|[n sub] l IH]; intros s Hl.
  { unfold after. cbn. rewrite app_nil_r. by destruct s. }
  apply Forall_cons in Hl as [[p Hp] Hl]. cbn [fst snd] in Hp. cbn [initType].
  change (entries t ((n, sub) :: l)) with ([(t, n, sub) : pentry] ++ entries t l).
  rewrite <- after_app. unfold getPluginFactory.
  change (constructPluginKey t n) with (ekey (t, n, sub)).
  pose proof Hp as Hp'. unfold plug in Hp'. destruct (factories s !! ekey (t, n, sub)) as [f|]; [|done].
  cbn [snd] in Hp'. destruct (Setup f sub) as [[p'|]| |]; simplify_eq. go_run.
  rewrite (after_one s (t, n, sub)) by done. by apply IH.
Qed.

Definition all_entries (l : list (string * list (string * option C))) : list pentry :=
  concat ((fun x => if bool_decide (x.1 = "log") then [] else entries x.1 x.2) <$> l).

Lemma initTypes_after l : forall s, Forall (fun e => is_Some (plug (factories s) e)) (all_entries l) ->
  initTypes l s = Done (None, after s (all_entries l)).
Proof.
  induction l as [|[t ps] l IH]; intros s Hl.
  { unfold after. cbn. rewrite app_nil_r. by destruct s. }
  cbn [initTypes]. unfold all_entries in *. cbn [fmap list_fmap concat fst snd] in *.
  case_bool_decide; [by apply IH|]. apply Forall_app in Hl as [H1 H2].
  rewrite initType_after by done. go_run. rewrite IH by done. by rewrite after_app.
Qed.

Lemma after_lookup s es : NoDup (ekey <$> es) -> insts s = ∅ -> forall k p,
  insts (after s es) !! k = Some p <-> exists e, e ∈ es /\ ekey e = k /\ plug (factories s) e = Some p.
Proof.
  intros Hnd Hi k p. cbn [after insts]. rewrite Hi. clear Hi. revert Hnd.
  induction es as [|e es IH] using rev_ind; intros Hnd.
  { cbn. rewrite lookup_empty. split; [done|]. by intros (e & He%not_elem_of_nil & _). }
  rewrite foldl_app. cbn [foldl]. rewrite fmap_app in Hnd.
  apply NoDup_app in Hnd as (Hnd & Hdis & _). specialize (IH Hnd).
  set (m := foldl _ _ es) in *. destruct (plug (factories s) e) as [q|] eqn:Hq.
  - destruct (decide (k = ekey e)) as [->|Hne].
    + rewrite lookup_insert_eq. split.
      * intros [= <-]. exists e. split; [|done]. apply elem_of_app. right. by left.
      * intros (e' & He' & Hk & Hp). apply elem_of_app in He' as [He'|He'%list_elem_of_singleton].
        -- exfalso. apply (Hdis (ekey e')); [by apply list_elem_of_fmap_2|]. rewrite Hk. by left.
        -- subst. congruence.
    + rewrite lookup_insert_ne, IH by done. split; intros (e' & He' & Hk & Hp); exists e'.
      * split; [|done]. apply elem_of_app. by left.
      * split; [|done]. apply elem_of_app in He' as [|He'%list_elem_of_singleton]; [done|]. congruence.
  - rewrite IH. split; intros (e' & He' & Hk & Hp); exists e'.
    + split; [|done]. apply elem_of_app. by left.
    + split; [|done]. apply elem_of_app in He' as [|He'%list_elem_of_singleton]; [done|]. congruence.
Qed.

(** The entries of a configuration. *)
Definition configured (cfg : PluginConfig C) (e : pentry) : Prop :=
  exists m, cfg !! e.1.1 = Some m /\ m !! e.1.2 = Some e.2.

Lemma elem_of_entries t l (e : pentry) : e ∈ entries t l <-> e.1.1 = t /\ (e.1.2, e.2) ∈ l.
Proof.
  unfold entries. rewrite list_elem_of_fmap. split.
  - by intros ([n sub] & -> & Hl).
  - destruct e as [[t' n] sub]. intros [<- Hl]. by exists (n, sub).
Qed.

Lemma elem_of_all_entries cfg order (e : pentry) : cfg_order cfg order ->
  e ∈ all_entries order <-> e.1.1 <> "log" /\ configured cfg e.
Proof.
  intros (outer & Hr & HF). unfold all_entries. rewrite elem_of_concat. split.
  - intros (es & He & Hes). apply list_elem_of_fmap in Hes as ([t ps] & -> & Ho). cbn [fst snd] in He.
    case_bool_decide; [by apply not_elem_of_nil in He|]. apply elem_of_entries in He as [<- He].
    split; [done|]. apply list_elem_of_lookup in Ho as [i Hi].
    destruct (Forall2_lookup_r _ _ _ _ _ HF Hi) as ([t m] & Hi' & [Ht Hm]). cbn in Ht, Hm.
    exists m. rewrite <- Ht. split; [|by apply (ranges_lookup m ps)].
    apply (ranges_lookup cfg outer); [done|]. by apply list_elem_of_lookup_2 in Hi'.
  - intros [Hne (m & Hm & He)]. apply (ranges_lookup cfg outer) in Hm; [|done].
    apply list_elem_of_lookup in Hm as [i Hi].
    destruct (Forall2_lookup_l _ _ _ _ _ HF Hi) as ([t ps] & Hi' & [Ht Hps]). cbn in Ht, Hps.
    exists (entries t ps). split.
    + apply elem_of_entries. split; [done|]. by apply (ranges_lookup m ps).
    + apply list_elem_of_fmap. exists (t, ps). cbn. rewrite bool_decide_false by congruence.
      split; [done|]. by apply list_elem_of_lookup_2 in Hi'.
Qed.

Lemma elem_of_log_entries cfg logs (e : pentry) : log_order cfg logs ->
  e ∈ entries "log" logs <-> e.1.1 = "log" /\ configured cfg e.
Proof.
  intros Hr. rewrite elem_of_entries. unfold configured. split; intros [Ht H1]; (split; [done|]).
  - apply (ranges_lookup _ _ _ _ Hr) in H1. rewrite Ht. destruct (cfg !! "log") as [m|]; [by exists m|done].
  - destruct H1 as (m & Hm & He). apply (ranges_lookup _ _ _ _ Hr). rewrite Ht in Hm. by rewrite Hm.
Qed.

Lemma entries_NoDup t l : NoDup l.*1 -> NoDup (entries t l).
Proof.
  intros Hn. apply NoDup_fmap_2_strong; [|by apply NoDup_fmap_1 in Hn].
  intros [n1 x1] [n2 x2] _ _ E. by simplify_eq/=.
Qed.

Lemma all_entries_NoDup order : NoDup order.*1 -> Forall (fun x => NoDup x.2.*1) order ->
  NoDup (all_entries order).
Proof.
  induction order as [|[t ps] order IH]; intros Hn HF; [constructor|].
  apply NoDup_cons in Hn as [Ht Hn]. apply Forall_cons in HF as [Hps HF]. cbn [fst snd] in *.
  unfold all_entries in *. cbn [fmap list_fmap concat fst snd].
  apply NoDup_app. split; [|split; [|by apply IH]].
  - case_bool_decide; [constructor|by apply entries_NoDup].
  - intros e He Hc. apply elem_of_concat in Hc as (es & He' & Hes).
    apply list_elem_of_fmap in Hes as ([t' ps'] & -> & Ho). cbn [fst snd] in He'.
    do 2 case_bool_decide; try by apply not_elem_of_nil in He || by apply not_elem_of_nil in He'.
    apply elem_of_entries in He as [<- _]. apply elem_of_entries in He' as [<- _].
    apply Ht. by apply (list_elem_of_fmap_2 fst) in Ho.
Qed.

Lemma order_NoDup (cfg : PluginConfig C) order : cfg_order cfg order ->
  NoDup order.*1 /\ Forall (fun x => NoDup x.2.*1) order.
Proof.
  intros (outer & Hr & HF). split.
  - assert (E : order.*1 = outer.*1).
    { clear Hr. induction HF as [|[t m] [t' l] outer' order' [Ht _] _ IH]; [done|].
      cbn in *. by rewrite Ht, IH. }
    rewrite E. by apply ranges_NoDup in Hr.
  - clear Hr. induction HF as [|[t m] [t' l] outer' order' [_ Hm] _ IH]; constructor; [|done].
    by apply ranges_NoDup in Hm.
Qed.

Lemma keys_NoDup (cfg : PluginConfig C) logs order :
  log_order cfg logs -> cfg_order cfg order ->
  (forall t, is_Some (cfg !! t) -> "_"%char ∉ chars t) ->
  NoDup (ekey <$> entries "log" logs ++ all_entries order).
Proof.
  intros Hl Ho Hus. apply NoDup_fmap_2_strong.
  - intros e1 e2 H1 H2 Hk.
    assert (Hc : forall e, e ∈ entries "log" logs ++ all_entries order -> configured cfg e).
    { intros e [He|He]%elem_of_app.
      - by apply (elem_of_log_entries cfg) in He as [_ He].
      - by apply (elem_of_all_entries cfg) in He as [_ He]. }
    destruct (Hc e1 H1) as (m1 & Hm1 & Hx1). destruct (Hc e2 H2) as (m2 & Hm2 & Hx2).
    destruct e1 as [[t1 n1] x1], e2 as [[t2 n2] x2]. unfold ekey in Hk. cbn [fst snd] in *.
    apply key_inj in Hk as [-> ->]; [congruence|apply Hus; eauto|apply Hus; eauto].
  - apply NoDup_app. split; [|split].
    + apply entries_NoDup. by apply ranges_NoDup in Hl.
    + intros e He1 He2. apply (elem_of_log_entries cfg) in He1 as [? _]; [|done].
      by apply (elem_of_all_entries cfg) in He2 as [? _].
    + apply all_entries_NoDup; by apply (order_NoDup cfg).
Qed.

Lemma Init_after cfg logs order s :
  log_order cfg logs -> cfg_order cfg order ->
  (forall e, configured cfg e -> e.1.1 = "log" -> log_ok (factories s) e) ->
  (forall e, configured cfg e -> e.1.1 <> "log" -> is_Some (plug (factories s) e)) ->
  Init (Some (Ok cfg)) logs order s = Done (None, after (after s (entries "log" logs)) (all_entries order)).
Proof.
  intros Hl Ho H1 H2. unfold Init.
  assert (E : (match cfg !! "log" with None => Done (None, s) | Some _ => initLogs logs s end) =
              Done (None, after s (entries "log" logs))).
  { assert (HF : Forall (log_ok (factories s)) (entries "log" logs)).
    { apply Forall_forall. intros e He. apply (elem_of_log_entries cfg) in He as [? ?]; auto. }
    destruct (cfg !! "log") as [m|] eqn:Hm; [by apply initLogs_after|].
    unfold log_order in Hl. rewrite Hm in Hl. cbn in Hl. unfold ranges in Hl.
    rewrite map_to_list_empty in Hl. apply Permutation_nil_r in Hl as ->.
    unfold after. cbn. rewrite app_nil_r. by destruct s. }
  rewrite E. go_run. apply initTypes_after. apply Forall_forall. intros e He.
  apply (elem_of_all_entries cfg) in He as [? ?]; [|done]. by apply H2.
Qed.
End Init_proofs.

(** The set-up of a plugin of a type satisfying [P]. *)
Definition setup_of (P : string -> Prop) (ev : pevent) : Prop :=
  exists t n, P t /\ ev = PSetup (constructPluginKey t n).

Lemma after_trace {C I} (s : pluginState C I) es P : Forall (fun e => P e.1.1) es ->
  exists tr, ptrace (after s es) = ptrace s ++ tr /\ Forall (setup_of P) tr.
Proof.
  intros HF. eexists. split; [reflexivity|].
  induction HF as [|e es He _ IH]; [constructor|]. rewrite omap_cons_eq.
  destruct (plug _ e); [|done]. constructor; [|done]. by exists e.1.1, e.1.2.
Qed.

(** C18. Set-up of the configured plugins, whatever the order of Go's map
    iteration.  If type names have no underscore, every configured plugin
    other than a log plugin has a factory, and every factory's set-up
    succeeds, then [Init] succeeds, exactly the configured plugins with a
    factory can be looked up, each as the instance its factory made of its
    own section, and every log plugin was set up before any other plugin. *)
Theorem plugin_init_sets_up {C I : Type} (cfg : PluginConfig C) (logs : list (string * option C))
    (order : list (string * list (string * option C))) (s : pluginState C I) :
  log_order cfg logs -> cfg_order cfg order -> insts s = ∅ ->
  (forall t, is_Some (cfg !! t) -> "_"%char ∉ chars t) ->
  (forall e, configured cfg e -> e.1.1 = "log" -> log_ok (factories s) e) ->
  (forall e, configured cfg e -> e.1.1 <> "log" -> is_Some (plug (factories s) e)) ->
  exists s', Init (Some (Ok cfg)) logs order s = Done (None, s') /\
    (forall t n p, is_Some (cfg !! t) -> GetPluginInst t n s' = Some p <->
       exists sub, configured cfg (t, n, sub) /\ plug (factories s) (t, n, sub) = Some p) /\
    exists tl tr, ptrace s' = ptrace s ++ tl ++ tr /\
      Forall (setup_of (fun t => t = "log")) tl /\ Forall (setup_of (fun t => t <> "log")) tr.
Proof.
  intros Hl Ho Hi Hus H1 H2. rewrite (Init_after cfg) by done.
  eexists. split; [reflexivity|]. split.
  - intros t n p Ht. rewrite after_app. unfold GetPluginInst.
    rewrite after_lookup by (done || by eapply keys_NoDup). split.
    + intros ([[t' n'] sub] & He & Hk & Hp).
      assert (Hc : configured cfg (t', n', sub)).
      { apply elem_of_app in He as [He|He];
          [by apply (elem_of_log_entries cfg) in He as [_ He]|by apply (elem_of_all_entries cfg) in He as [_ He]]. }
      destruct (Hc) as (m & Hm & _). unfold ekey in Hk. cbn [fst snd] in Hm, Hk.
      apply key_inj in Hk as [-> ->]; [by exists sub|apply Hus; eauto|by apply Hus].
    + intros (sub & Hc & Hp). exists (t, n, sub). split; [|done]. apply elem_of_app.
      destruct (decide (t = "log")) as [->|Hne].
      * left. by apply (elem_of_log_entries cfg).
      * right. by apply (elem_of_all_entries cfg).
  - destruct (after_trace s (entries "log" logs) (fun t => t = "log")) as (tl & Hd & Htl).
    { apply Forall_forall. intros e He. by apply elem_of_entries in He as [? _]. }
    destruct (after_trace (after s (entries "log" logs)) (all_entries order) (fun t => t <> "log"))
      as (tr & Hd' & Htr).
    { apply Forall_forall. intros e He. by apply (elem_of_all_entries cfg) in He as [? _]. }
    exists tl, tr. rewrite Hd', Hd, <- app_assoc. done.
Qed.

(** ** The life of the instances *)

Section Lifecycle.
Context {C I : Type}.
Implicit Type s : pluginState C I.

(** Every instance has the factory that made it. *)
Definition managed s : Prop := forall k, is_Some (insts s !! k) -> is_Some (factories s !! k).

Lemma managed_factory s f : managed s -> managed (RegisterPluginFactory f s).
Proof. intros Hm k Hk. cbn. apply lookup_insert_is_Some'. right. by apply Hm. Qed.

(** What [Init] keeps: it records calls, and registers under the key of a factory
    what the factory has made. *)
Section Preserve.
Context (P : pluginState C I -> Prop).
Hypothesis P_emit : forall e s, P s -> P (emit e s).
Hypothesis P_register : forall k f sub p s, P s -> factories s !! k = Some f -> Setup f sub = Done (Ok p) ->
  P (registerPluginInst k p s).

Lemma initLogs_preserves l : forall s e s', P s -> initLogs l s = Done (e, s') -> P s'.
Proof using P_emit P_register.
  induction l as [|[n sub] l IH]; intros s e s' Hm Hi; cbn [initLogs] in Hi; [by simplify_eq|].
  destruct (getPluginFactory "log" n s) as [f|] eqn:Hf; [|by eapply IH].
  apply bind_Done_inv in Hi as (r & Hr & Hi). destruct r as [p|]; [|simplify_eq; by apply P_emit].
  eapply IH; [|exact Hi]. by eapply P_register; [apply P_emit| |].
Qed.

Lemma initType_preserves t l : forall s e s', P s -> initType t l s = Done (e, s') -> P s'.
Proof using P_emit P_register.
  induction l as [|[n sub] l IH]; intros s e s' Hm Hi; cbn [initType] in Hi; [by simplify_eq|].
  destruct (getPluginFactory t n s) as [f|] eqn:Hf; [|by simplify_eq].
  apply bind_Done_inv in Hi as (r & Hr & Hi). destruct r as [p|]; [|simplify_eq; by apply P_emit].
  eapply IH; [|exact Hi]. by eapply P_register; [apply P_emit| |].
Qed.

Lemma initTypes_preserves l : forall s e s', P s -> initTypes l s = Done (e, s') -> P s'.
Proof using P_emit P_register.
  induction l as [|[t ps] l IH]; intros s e s' Hm Hi; cbn [initTypes] in Hi; [by simplify_eq|].
  case_bool_decide; [by eapply IH|]. apply bind_Done_inv in Hi as ([e1 s1] & H1 & Hi).
  apply initType_preserves in H1; [|done]. destruct e1; [by simplify_eq|by eapply IH].
Qed.

Lemma Init_preserves v logs order s e s' : P s -> Init v logs order s = Done (e, s') -> P s'.
Proof using P_emit P_register.
  intros Hm Hi. destruct v as [[cfg|err]|]; cbn [Init] in Hi; [|by simplify_eq|done].
  apply bind_Done_inv in Hi as ([e1 s1] & H1 & Hi).
  assert (P s1) as Hm1.
  { destruct (cfg !! "log"); [by eapply initLogs_preserves|by simplify_eq]. }
  destruct e1; [by simplify_eq|by eapply initTypes_preserves].
Qed.
End Preserve.

Lemma Init_managed v logs order s e s' : managed s -> Init v logs order s = Done (e, s') -> managed s'.
Proof.
  apply Init_preserves; [done|]. intros k f sub p s0 Hm Hf _ k'. cbn.
  destruct (decide (k' = k)) as [->|Hne]; [by rewrite Hf|]. rewrite lookup_insert_ne by done. apply Hm.
Qed.

(** Every instance is what the factory under its key has made. *)
Definition made s : Prop :=
  forall k p, insts s !! k = Some p -> exists f sub, factories s !! k = Some f /\ Setup f sub = Done (Ok p).

Lemma Init_made v logs order s e s' : made s -> Init v logs order s = Done (e, s') -> made s'.
Proof.
  apply Init_preserves; [done|]. intros k f sub p s0 Hm Hf Hp k' p'. cbn.
  intros [[<- <-]|[_ Hk]]%lookup_insert_Some; [by exists f, sub|by apply Hm].
Qed.

Lemma Init_factories v logs order s e s' : Init v logs order s = Done (e, s') -> factories s' = factories s.
Proof. apply (Init_preserves (fun s' => factories s' = factories s)); done. Qed.

Lemma Mainloop_managed l : forall s, managed s -> Forall (fun x => is_Some (insts s !! x.1)) l ->
  Mainloop l s = Done (MkPluginState (factories s) (insts s) (ptrace s ++ (PMainloop <$> l.*1))).
Proof.
  induction l as [|[k p] l IH]; intros s Hm HF.
  { cbn. rewrite app_nil_r. by destruct s. }
  apply Forall_cons in HF as [Hk HF]. cbn [Mainloop]. unfold getPluginFactoryByKey.
  destruct (Hm k Hk) as [f ->]. rewrite IH; [|done|done]. cbn. by rewrite <- app_assoc.
Qed.

Lemma Destroy_managed l : forall s, managed s -> Forall (fun x => is_Some (insts s !! x.1)) l ->
  (forall k f p, factories s !! k = Some f -> exists e, fDestroy f p = Done e) ->
  Destroy l s = Done (None, MkPluginState (factories s) (insts s) (ptrace s ++ (PDestroy <$> l.*1))).
Proof.
  induction l as [|[k p] l IH]; intros s Hm HF Hd.
  { cbn. rewrite app_nil_r. by destruct s. }
  apply Forall_cons in HF as [Hk HF]. cbn [Destroy]. unfold getPluginFactoryByKey.
  destruct (Hm k Hk) as [f Hf]. rewrite Hf. destruct (Hd k f p Hf) as [e ->]. go_run.
  rewrite IH; [|done|done|done]. cbn. by rewrite <- app_assoc.
Qed.
End Lifecycle.

(** C22. From start to end no plugin call goes to a missing factory.  Whatever
    [Init] did, failed half-way included, [Mainloop] starts every registered
    instance exactly once and [Destroy] then destroys every one exactly once,
    in any orders of the two ranges, and both return; the instances stay
    registered. *)
Theorem plugin_lifecycle_safe {C I : Type} (v : option (result error (PluginConfig C))) (logs : list (string * option C))
    (order : list (string * list (string * option C))) (s s1 : pluginState C I) (e : option error)
    (l1 l2 : list (string * I)) :
  insts s = ∅ -> Init v logs order s = Done (e, s1) ->
  ranges (insts s1) l1 -> ranges (insts s1) l2 ->
  (forall k f p, factories s1 !! k = Some f -> exists e, fDestroy f p = Done e) ->
  exists s2, Mainloop l1 s1 = Done s2 /\
    exists s3, Destroy l2 s2 = Done (None, s3) /\ insts s3 = insts s1 /\
      ptrace s3 = ptrace s1 ++ (PMainloop <$> l1.*1) ++ (PDestroy <$> l2.*1) /\
      NoDup l1.*1 /\ NoDup l2.*1 /\
      forall k, is_Some (insts s1 !! k) <-> k ∈ l1.*1 /\ k ∈ l2.*1.
Proof.
  intros Hi Hinit H1 H2 Hd.
  assert (Hm : managed s1).
  { eapply Init_managed; [|exact Hinit]. intros k Hk. rewrite Hi, lookup_empty in Hk. by destruct Hk. }
  assert (Hin : forall l, ranges (insts s1) l -> forall k, is_Some (insts s1 !! k) <-> k ∈ l.*1).
  { intros l Hl k. rewrite list_elem_of_fmap. split.
    - intros [p Hp]. exists (k, p). split; [done|]. by apply (ranges_lookup _ _ _ _ Hl).
    - intros ([k' p] & -> & Hp). exists p. by apply (ranges_lookup _ _ _ _ Hl). }
  assert (HF : forall l, ranges (insts s1) l -> Forall (fun x => is_Some (insts s1 !! x.1)) l).
  { intros l Hl. apply Forall_forall. intros x Hx. apply (Hin l Hl). by apply list_elem_of_fmap_2. }
  rewrite Mainloop_managed by auto. eexists. split; [reflexivity|].
  rewrite Destroy_managed by (cbn; auto). eexists. split; [reflexivity|]. cbn.
  split; [done|]. split; [by rewrite app_assoc|]. split; [by apply ranges_NoDup in H1|].
  split; [by apply ranges_NoDup in H2|]. intros k. rewrite <- (Hin l1 H1 k), <- (Hin l2 H2 k). tauto.
Qed.

(** *** Witnesses: two factories that keep their section *)

Definition echo_factory (t n : string) : PluginFactory string string :=
  MkPluginFactory t n
    (fun sub => Done (match sub with Some c => Ok (n +:+ ":" +:+ c) | None => Err "nil" end))
    (fun _ => Done None) (fun _ _ => Done None).

Definition plug_s0 : pluginState string string :=
  RegisterPluginFactory (echo_factory "transport" "tcp")
    (RegisterPluginFactory (echo_factory "log" "bingo") (MkPluginState ∅ ∅ [])).

Definition plug_cfg : PluginConfig string :=
  {[ "log" := {[ "bingo" := Some "l"; "other" := Some "x" ]}; "transport" := {[ "tcp" := Some "p" ]} ]}.

Definition plug_logs : list (string * option string) := [("other", Some "x"); ("bingo", Some "l")].
Definition plug_order : list (string * list (string * option string)) :=
  [("transport", [("tcp", Some "p")]); ("log", plug_logs)].

Lemma plug_log_order : log_order plug_cfg plug_logs.
Proof. unfold log_order, ranges. change (default _ _) with (list_to_map plug_logs : gmap string (option string)).
  symmetry. apply map_to_list_to_map. by_decide. Qed.

Lemma plug_cfg_order : cfg_order plug_cfg plug_order.
Proof.
  exists [("transport", {[ "tcp" := Some "p" ]}); ("log", list_to_map plug_logs)]. split.
  - unfold ranges. change plug_cfg with (list_to_map
      [("transport", {[ "tcp" := Some "p" ]}); ("log", list_to_map plug_logs)]
      : gmap string (gmap string (option string))).
    symmetry. apply map_to_list_to_map. by_decide.
  - constructor; [split; [done|by vm_compute]|]. constructor; [|constructor]. split; [done|].
    apply plug_log_order.
Qed.

Lemma plug_configured e : configured plug_cfg e ->
  e ∈ [("log", "bingo", Some "l"); ("log", "other", Some "x"); ("transport", "tcp", Some "p")].
Proof.
  destruct e as [[t n] sub]. intros (m & Hm & Hs). cbn [fst snd] in *. unfold plug_cfg in Hm.
  apply lookup_insert_Some in Hm as [[<- <-]|[_ Hm]].
  - apply lookup_insert_Some in Hs as [[<- <-]|[_ Hs]]; [set_solver|].
    apply lookup_singleton_Some in Hs as [<- <-]. set_solver.
  - apply lookup_singleton_Some in Hm as [<- <-]. apply lookup_singleton_Some in Hs as [<- <-]. set_solver.
Qed.

Lemma plugin_init_sets_up_witness :
  exists s', Init (Some (Ok plug_cfg)) plug_logs plug_order plug_s0 = Done (None, s') /\
    GetPluginInst "transport" "tcp" s' = Some "tcp:p".
Proof.
  destruct (plugin_init_sets_up plug_cfg plug_logs plug_order plug_s0) as (s' & H1 & H2 & _).
  - apply plug_log_order.
  - apply plug_cfg_order.
  - reflexivity.
  - intros t [m Hm]. unfold plug_cfg in Hm. apply lookup_insert_Some in Hm as [[<- _]|[_ Hm]].
    + by_decide.
    + apply lookup_singleton_Some in Hm as [<- _]. by_decide.
  - intros e He Ht. apply plug_configured in He.
    apply elem_of_cons in He as [->|He]; [right; by eexists|].
    apply elem_of_cons in He as [->|He]; [by left|]. apply list_elem_of_singleton in He as ->. done.
  - intros e He Ht. apply plug_configured in He.
    apply elem_of_cons in He as [->|He]; [done|].
    apply elem_of_cons in He as [->|He]; [done|]. apply list_elem_of_singleton in He as ->. by eexists.
  - exists s'. split; [exact H1|]. apply H2; [by eexists|]. exists (Some "p"). split; [|reflexivity].
    by exists {[ "tcp" := Some "p" ]}.
Defined.

Lemma plugin_lifecycle_safe_witness :
  exists s1 s2, Init (Some (Ok plug_cfg)) plug_logs plug_order plug_s0 = Done (None, s1) /\
    Mainloop (map_to_list (insts s1)) s1 = Done s2.
Proof.
  eexists. destruct (plugin_lifecycle_safe (Some (Ok plug_cfg)) plug_logs plug_order plug_s0 _ None
    (map_to_list (insts (after (after plug_s0 (entries "log" plug_logs)) (all_entries plug_order))))
    (map_to_list (insts (after (after plug_s0 (entries "log" plug_logs)) (all_entries plug_order))))
    eq_refl (eq_refl : _ = Done (_, after (after plug_s0 (entries "log" plug_logs)) (all_entries plug_order))))
    as (s2 & H1 & _).
  - apply Permutation_refl.
  - apply Permutation_refl.
  - intros k f p Hf. cbn in Hf.
    apply lookup_insert_Some in Hf as [[_ <-]|[_ Hf]]; [by eexists|].
    apply lookup_singleton_Some in Hf as [_ <-]. by eexists.
  - exists s2. split; [reflexivity|exact H1].
Defined.
