(* ===== verification/Trpc.v ===== *)
(** * plugin/rpc/trpc: the RPC server as a plugin

    The vendored tRPC server is a parameter: [newServer] is what making one
    from a configuration path gives, a handle or a panic.  The calls made of a
    server are recorded. *)

From S2P Require Import Prelude GoStrings Plugin.

(** ** config.go and server.go *)

Record TrpcConfig := MkTrpcConfig { ConfigPath : string }.

Record TrpcServer := MkTrpcServer { srv : nat }.

Inductive trpcCall := TServe (s : nat) | TClose (s : nat).

Section Trpc.
Context (newServer : string -> outcome nat).

(** The path is set in a variable of the library, which making the server
    reads. *)
Definition NewTrpcServer (config : TrpcConfig) : outcome TrpcServer :=
  let ServerConfigPath := ConfigPath config in
  s ← newServer ServerConfigPath;
  Done (MkTrpcServer s).

Definition TrpcServer_Init (ts : TrpcServer) : option error := None.
Definition TrpcServer_Mainloop (ts : TrpcServer) : list trpcCall := [TServe (srv ts)].
Definition TrpcServer_UnInit (ts : TrpcServer) : option error * list trpcCall := (None, [TClose (srv ts)]).
Definition GetServer (ts : TrpcServer) : nat := srv ts.

(** ** plugin.go *)

(** Plugin instances, with the type assertion to a server ([None]: another
    type), and decoding a section into the configuration. *)
Context {C I : Type} (wrap : TrpcServer -> I) (unwrap : I -> option TrpcServer).
Context (Unmarshal : C -> result error TrpcConfig).

Definition factory_Setup (v : option C) : outcome (result error I) :=
  match v with
  | None => Panic "invalid memory address or nil pointer dereference"
  | Some section =>
      match Unmarshal section with
      | Err err => Done (Err err)
      | Ok config =>
          ts ← NewTrpcServer config;
          match TrpcServer_Init ts with
          | None => Done (Ok (wrap ts))
          | Some err => Done (Err err)
          end
      end
  end.

Definition factory_Destroy (i : I) : option error * list trpcCall :=
  match unwrap i with
  | None => (Some "invalid trpcserver", [])
  | Some ts =>
      let '(err, calls) := TrpcServer_UnInit ts in
      match err with
      | Some _ => (Some "trpc server uninit failed", calls)
      | None => (None, calls)
      end
  end.

Definition factory_Mainloop (i : I) : list trpcCall :=
  match unwrap i with
  | Some ts => [TServe (GetServer ts)]
  | None => []
  end.

Definition factory : PluginFactory C I :=
  MkPluginFactory "rpc" "trpc" factory_Setup (fun i => Done (factory_Destroy i).1) (fun _ _ => Done None).
End Trpc.
