(* ===== verification/Echo.v ===== *)
(** * example/statelesssvr/proto/echo: the echo service over tRPC

    The service description, the handler and the client proxy of echo.trpc.go,
    with the implementation of module/echo.go behind them.  The tRPC library
    is a parameter: a class of the calls the code makes of it, and what it
    documents of a client that calls a service registered with a server. *)

From S2P Require Import Prelude.

Record EchoReq := MkEchoReq { Message : string }.
Record EchoRsp := MkEchoRsp { Response : string }.

(** A service writes into the response it is given. *)
Abbreviation EchoService := (EchoReq -> EchoRsp -> option error * EchoRsp).

(** module/echo.go *)
Definition echoServiceImpl_Echo (req : EchoReq) (rsp : EchoRsp) : option error * EchoRsp :=
  (None, MkEchoRsp ("hi " +:+ Message req)).

(** ** The server side *)

(** The filters of the library: each gets the handler that comes after it.  A
    [FilterFunc] decodes the request into the message it is given. *)
Abbreviation Filter := (EchoReq -> EchoRsp -> EchoService -> option error * EchoRsp).
Abbreviation FilterFunc := (EchoReq -> result error (list Filter) * EchoReq).
Abbreviation MethodFunc := (EchoService -> FilterFunc -> result error EchoRsp).

Fixpoint Handle (fc : list Filter) (req : EchoReq) (rsp : EchoRsp) (f : EchoService) : option error * EchoRsp :=
  match fc with
  | [] => f req rsp
  | filter :: fc => filter req rsp (fun req rsp => Handle fc req rsp f)
  end.

Definition EchoService_Echo_Handler (svr : EchoService) (f : FilterFunc) : result error EchoRsp :=
  let req := MkEchoReq "" in
  let rsp := MkEchoRsp "" in
  let '(filters, req) := f req in
  match filters with
  | Err err => Err err
  | Ok filters =>
      let handleFunc reqbody rspbody := svr reqbody rspbody in
      let '(err, rsp) := Handle filters req rsp handleFunc in
      match err with
      | Some err => Err err
      | None => Ok rsp
      end
  end.

Record ServiceDesc := MkServiceDesc { ServiceName : string; Methods : list (string * MethodFunc) }.

Definition EchoServer_ServiceDesc : ServiceDesc :=
  MkServiceDesc "trpc.rstudio.echo.Echo" [("/trpc.rstudio.echo.Echo/Echo", EchoService_Echo_Handler)].

(** ** The client side *)

(** What the proxy writes into the message of a call. *)
Record callHead := MkCallHead {
  ClientRPCName : string;
  CalleeServiceName : string;
  CalleeApp : string;
  CalleeServer : string;
  CalleeService : string;
  CalleeMethod : string;
  SerializationType : Z
}.

(** The calls made of the library, over servers [Srv] and client options
    [Opt].  [Invoke]: a call over the network to a server. *)
Class Trpc (Srv Opt : Type) := {
  SerializationTypePB : Z;
  Register : ServiceDesc -> EchoService -> Srv -> option error * Srv;
  Invoke : Srv -> callHead -> EchoReq -> EchoRsp -> list Opt -> option error * EchoRsp
}.

Section Echo.
Context {Srv Opt : Type} `{Trpc Srv Opt}.

Definition RegisterEchoService (svr : EchoService) (s : Srv) : outcome Srv :=
  let '(err, s) := Register EchoServer_ServiceDesc svr s in
  match err with
  | Some err => Panic ("Echo register error:" +:+ err)
  | None => Done s
  end.

(** The proxy of a client whose calls reach [s]. *)
Record EchoClientProxyImpl := MkEchoClientProxyImpl { client : Srv; opts : list Opt }.

Definition NewEchoClientProxy (DefaultClient : Srv) (opts : list Opt) : EchoClientProxyImpl :=
  MkEchoClientProxyImpl DefaultClient opts.

(** The message of the call is a clone of the caller's, put back at the end. *)
Definition EchoClientProxyImpl_Echo (c : EchoClientProxyImpl) (req : EchoReq) (opts' : list Opt) : result error EchoRsp :=
  let msg := MkCallHead "/trpc.rstudio.echo.Echo/Echo" (ServiceName EchoServer_ServiceDesc) "rstudio" "echo" "Echo" "Echo"
    SerializationTypePB in
  let callopts := opts c ++ opts' in
  let rsp := MkEchoRsp "" in
  let '(err, rsp) := Invoke (client c) msg req rsp callopts in
  match err with
  | Some err => Err err
  | None => Ok rsp
  end.
End Echo.
Arguments EchoClientProxyImpl Srv Opt : clear implicits.

(** What the library documents.  A server serves the methods registered with it
    under the names of the service and the method; a call that reaches the
    server is answered by the method it names, which gets the request decoded
    and the filters of the server. *)
Class TrpcLaws (Srv Opt : Type) `{Trpc Srv Opt} := {
  serves : Srv -> string -> string -> option (MethodFunc * EchoService);
  reaches : Srv -> list Opt -> Prop;
  filters_of : Srv -> list Filter;
  register_serves : forall desc svr s s' name h, Register desc svr s = (None, s') -> (name, h) ∈ Methods desc ->
    NoDup (Methods desc).*1 -> serves s' (ServiceName desc) name = Some (h, svr);
  invoke_calls : forall s hd req rsp opts h svr, reaches s opts -> SerializationType hd = SerializationTypePB ->
    serves s (CalleeServiceName hd) (ClientRPCName hd) = Some (h, svr) ->
    match h svr (fun _ => (Ok (filters_of s), req)) with
    | Ok r => Invoke s hd req rsp opts = (None, r)
    | Err _ => exists e, Invoke s hd req rsp opts = (Some e, rsp)
    end
}.

(** Filters that only look on: whatever comes after one is called as it is. *)
Definition passes (fl : Filter) : Prop := forall req rsp next, fl req rsp next = next req rsp.

Lemma Handle_passes fc req rsp f : Forall passes fc -> Handle fc req rsp f = f req rsp.
Proof.
  intros HF. revert req rsp. induction HF as [|fl fc Hfl _ IH]; intros req rsp; [done|]. cbn. by rewrite Hfl, IH.
Qed.

(** The client proxy reaches the implementation registered.  For any echo
    service registered without error, and filters that only look on, a call of
    the proxy that reaches the server gives the caller the response the service wrote, and an error
    exactly when the service returns one; with the service of the example the
    response is "hi " and the message. *)
Theorem echo_call_answers {Srv Opt : Type} `{TrpcLaws Srv Opt} (svr : EchoService) (s s' : Srv) (os os' : list Opt)
    (req : EchoReq) :
  RegisterEchoService svr s = Done s' -> reaches s' (os ++ os') -> Forall passes (filters_of s') ->
  match svr req (MkEchoRsp "") with
  | (None, rsp) => EchoClientProxyImpl_Echo (NewEchoClientProxy s' os) req os' = Ok rsp
  | (Some _, _) => exists e, EchoClientProxyImpl_Echo (NewEchoClientProxy s' os) req os' = Err e
  end /\
  (svr = echoServiceImpl_Echo ->
   EchoClientProxyImpl_Echo (NewEchoClientProxy s' os) req os' = Ok (MkEchoRsp ("hi " +:+ Message req))).
Proof.
  unfold RegisterEchoService. destruct (Register _ _ _) as [[e|] s1] eqn:Hreg; [done|]. intros [= ->] Hre Hfl.
  assert (Hs : serves s' "trpc.rstudio.echo.Echo" "/trpc.rstudio.echo.Echo/Echo" = Some (EchoService_Echo_Handler, svr)).
  { apply (register_serves EchoServer_ServiceDesc svr s); [done|left|by_decide]. }
  unfold EchoClientProxyImpl_Echo. cbn [opts NewEchoClientProxy client].
  match goal with |- context [Invoke s' ?hd req ?rsp _] => pose proof (invoke_calls s' hd req rsp (os ++ os') _ _ Hre eq_refl Hs) as Hi end.
  unfold EchoService_Echo_Handler in Hi. rewrite Handle_passes in Hi by done.
  assert (Hall : match svr req (MkEchoRsp "") with
    | (None, rsp) => EchoClientProxyImpl_Echo (NewEchoClientProxy s' os) req os' = Ok rsp
    | (Some _, _) => exists e, EchoClientProxyImpl_Echo (NewEchoClientProxy s' os) req os' = Err e end).
  { unfold EchoClientProxyImpl_Echo. cbn [opts NewEchoClientProxy client].
    destruct (svr req (MkEchoRsp "")) as [[e|] rsp]; [destruct Hi as [e' ->]; by eexists|by rewrite Hi]. }
  split; [exact Hall|]. by intros ->.
Qed.

(** A server that keeps what is registered, reached by every call. *)
Definition demo_srv : Type := list (string * list (string * MethodFunc) * EchoService).

Definition demo_serves (s : demo_srv) (service method : string) : option (MethodFunc * EchoService) :=
  match List.find (fun x => String.eqb x.1.1 service) s with
  | Some (_, ms, svr) => match List.find (fun m => String.eqb m.1 method) ms with Some (_, h) => Some (h, svr) | None => None end
  | None => None
  end.

Definition demo_filters : list Filter := [fun req rsp next => next req rsp].

#[local] Instance demo_trpc : Trpc demo_srv unit := {|
  SerializationTypePB := 0;
  Register desc svr s := (None, (ServiceName desc, Methods desc, svr) :: s);
  Invoke s hd req rsp _ :=
    match demo_serves s (CalleeServiceName hd) (ClientRPCName hd) with
    | None => (Some "no such service", rsp)
    | Some (h, svr) =>
        match h svr (fun _ => (Ok demo_filters, req)) with Ok r => (None, r) | Err e => (Some e, rsp) end
    end
|}.

#[local] Instance demo_trpc_laws : TrpcLaws demo_srv unit.
Proof.
  refine {| serves := demo_serves; reaches _ _ := True; filters_of _ := demo_filters |}.
  - intros desc svr s s' name h [= <-] Hin Hnd. unfold demo_serves. cbn. rewrite String.eqb_refl.
    rewrite (find_unique fst _ _ (name, h)); [done|done|done|]. intros y _. apply String.eqb_eq.
  - intros s hd req rsp opts h svr _ _ Hs. cbn. rewrite Hs. destruct (h svr _); [done|by eexists].
Defined.

Lemma echo_call_answers_witness : exists s', RegisterEchoService echoServiceImpl_Echo ([] : demo_srv) = Done s' /\
  EchoClientProxyImpl_Echo (NewEchoClientProxy s' [()]) (MkEchoReq "bob") [] = Ok (MkEchoRsp "hi bob").
Proof.
  eexists. split; [reflexivity|].
  refine (proj2 (echo_call_answers echoServiceImpl_Echo ([] : demo_srv) _ [()] [] (MkEchoReq "bob") _ _ _) _);
    [reflexivity|exact I|repeat constructor|reflexivity].
Defined.
