(* ===== verification/App.v ===== *)
(** * server_base/app: the server's start, main loop and end

    The start composes the configuration, the previous process's pid file, the
    plugins, the TCP transport and the registered modules; the orders of Go's
    map ranges are arguments.  A module is a record of its name, its kind and
    the results of its calls; the calls made are recorded.  The main loop and
    the signal goroutine are a transition system.  Log calls are left out. *)

From S2P Require Import Prelude GoStrings Process Plugin Trpc Config Signal TransportCodec Tcp.

(** ** Modules *)

Record ServerModule := MkServerModule {
  GetName : string;
  IsPreInit : bool;
  mInit : option error;
  mUnInit : option error
}.

Inductive mevent := MInit (name : string) | MUnInit (name : string) | MMainloop (name : string) | MReload (name : string).

Definition moduleCont : Type := gmap string ServerModule.

Definition registerModule (m : ServerModule) (mc : gmap string ServerModule) : gmap string ServerModule :=
  <[GetName m := m]> mc.
Definition unRegisterModule (name : string) (mc : gmap string ServerModule) : gmap string ServerModule :=
  delete name mc.
Definition getModule (name : string) (mc : gmap string ServerModule) : result error ServerModule :=
  match mc !! name with
  | None => Err ("get module " +:+ name +:+ " failed")
  | Some m => Ok m
  end.
Definition getModuleCount (mc : gmap string ServerModule) : Z := Z.of_nat (size mc).

(** The functions modules are registered and found with, over the container
    of the package. *)
Definition RegisterModule (m : ServerModule) (_moduleCont : gmap string ServerModule)
  : option error * gmap string ServerModule := (None, registerModule m _moduleCont).
Definition GetModule (name : string) (_moduleCont : gmap string ServerModule) : result error ServerModule :=
  getModule name _moduleCont.
Definition GetModuleCount (_moduleCont : gmap string ServerModule) : Z := getModuleCount _moduleCont.

(** One of the loops of [Init] and [Fini]: the modules of one kind. *)
Fixpoint moduleLoop (call : ServerModule -> option error) (ev : string -> mevent) (pre : bool)
    (l : list (string * ServerModule)) (tr : list mevent) : option error * list mevent :=
  match l with
  | [] => (None, tr)
  | (n, m) :: l =>
      if Bool.eqb (IsPreInit m) pre then
        let tr := tr ++ [ev (GetName m)] in
        match call m with
        | Some err => (Some err, tr)
        | None => moduleLoop call ev pre l tr
        end
      else moduleLoop call ev pre l tr
  end.

(** ** The server *)

(** What the server reads of its configuration document. *)
Record Conf := MkConf { serverid : string; pluginSection : option (result error (PluginConfig string)) }.

(** Plugin instances, as far as the server looks at them. *)
Inductive inst := TcpInst (t : TcpTransport) | TrpcInst (ts : TrpcServer) | OtherInst (what : string).

(** tcp/plugin.go: the factory of the TCP transport.  Decoding a section into
    the transport's configuration (viper, mapstructure) is a parameter. *)
Definition tcp_factory {C I} (wrap : TcpTransport -> I) (Unmarshal : C -> result error TcpTransportCfg)
  : PluginFactory C I :=
  MkPluginFactory "transport" "tcp"
    (fun v => match v with
              | None => Panic "invalid memory address or nil pointer dereference"
              | Some section =>
                  match Unmarshal section with
                  | Err err => Done (Err err)
                  | Ok config => match NewTcpTransport config with
                                 | Ok t => Done (Ok (wrap t))
                                 | Err err => Done (Err err)
                                 end
                  end
              end)
    (fun _ => Done None)
    (fun _ section => Done (match Unmarshal section with Err err => Some err | Ok _ => None end)).

Record serverApp := MkServerApp {
  serverName : string;
  serverID : string;
  lastReloadTime : Z
}.

Definition NewServerApp (name : string) : serverApp := MkServerApp name "" 0.
Definition GetServerName (s : serverApp) : string := serverName s.
Definition GetServerID (s : serverApp) : string := serverID s.

(** Everything the server touches. *)
Record world := MkWorld {
  app : serverApp;
  os : OS;
  conf : configData Conf;
  plugins : pluginState string inst;
  modules : gmap string ServerModule;
  mtrace : list mevent
}.

(** The environment of one start: flags, configuration file, name resolution
    and listening, and the orders of the ranges. *)
Record startEnv := MkStartEnv {
  e_flags : flags;
  e_readfile : string -> result error Conf;
  e_resolve : string -> result error string;
  e_listen : string -> option error;
  e_logs : list (string * option string);
  e_order : list (string * list (string * option string));
  e_mods1 : list (string * ServerModule);
  e_mods2 : list (string * ServerModule)
}.

(** [Init] returns, or ends the process. *)
Inductive initEnd := IReturn (err : option error) (w : world) | IExit (code : Z) (o : OS).

Definition set_os (w : world) (o : OS) : world :=
  MkWorld (app w) o (conf w) (plugins w) (modules w) (mtrace w).
Definition set_plugins (w : world) (p : pluginState string inst) : world :=
  MkWorld (app w) (os w) (conf w) p (modules w) (mtrace w).
Definition set_mtrace (w : world) (tr : list mevent) : world :=
  MkWorld (app w) (os w) (conf w) (plugins w) (modules w) tr.

(** [initInputParam]: the exit of the process, or the command is to go on. *)
Definition initInputParam (command : string) (id : string) (o : OS) : option initEnd :=
  if bool_decide (command = "stop") then Some (IExit 0 (SendSignal o id SIGUSR1).2)
  else if bool_decide (command = "reload") then Some (IExit 0 (SendSignal o id SIGUSR2).2)
  else None.

(** The manual start of the TCP transport; the instance is shared with the
    plugin registry, and the error of its [Init] is dropped. *)
Definition initTcp (env : startEnv) (p : pluginState string inst) : outcome (pluginState string inst) :=
  match GetPluginInst "transport" "tcp" p with
  | Some (TcpInst t) =>
      let '(_, t) := Tcp.Init (e_resolve env) (e_listen env) t in
      Done (registerPluginInst (constructPluginKey "transport" "tcp") (TcpInst t) p)
  | _ => Panic "interface conversion"
  end.

Definition initModules (env : startEnv) (w : world) : option error * world :=
  let '(err, tr) := moduleLoop mInit MInit true (e_mods1 env) (mtrace w) in
  match err with
  | Some err => (Some err, set_mtrace w tr)
  | None =>
      let '(err, tr) := moduleLoop mInit MInit false (e_mods2 env) tr in
      (err, set_mtrace w tr)
  end.

Definition Init (env : startEnv) (w : world) : outcome initEnd :=
  let '(err, d) := Config.Init (e_flags env) (e_readfile env) in
  let w := MkWorld (app w) (os w) d (plugins w) (modules w) (mtrace w) in
  match err with
  | Some err => Done (IReturn (Some err) w)
  | None =>
      match GetConfig d with
      | None => Panic "invalid memory address or nil pointer dereference"
      | Some c =>
          let id := serverid c in
          let w := MkWorld (MkServerApp (serverName (app w)) id (lastReloadTime (app w)))
                     (os w) (conf w) (plugins w) (modules w) (mtrace w) in
          match initInputParam (GetCommand d) id (os w) with
          | Some e => Done e
          | None =>
              let '(_, o) := KillPre (os w) id in
              let w := set_os w o in
              '(err, p) ← Plugin.Init (pluginSection c) (e_logs env) (e_order env) (plugins w);
              let w := set_plugins w p in
              match err with
              | Some err => Done (IReturn (Some err) w)
              | None =>
                  p ← initTcp env (plugins w);
                  let w := set_plugins w p in
                  let '(err, w) := initModules env w in
                  Done (IReturn err w)
              end
          end
      end
  end.

(** [Fini]; [l] is the order of the range of [plugin.Destroy]. *)
Definition Fini (mods1 mods2 : list (string * ServerModule)) (l : list (string * inst)) (w : world)
  : outcome (option error * world) :=
  let '(err, tr) := moduleLoop mUnInit MUnInit true mods1 (mtrace w) in
  match err with
  | Some err => Done (Some err, set_mtrace w tr)
  | None =>
      let '(err, tr) := moduleLoop mUnInit MUnInit false mods2 tr in
      match err with
      | Some err => Done (Some err, set_mtrace w tr)
      | None =>
          '(_, p) ← Plugin.Destroy l (plugins w);
          Done (None, set_plugins (set_mtrace w tr) p)
      end
  end.

Definition onFrame (mods : list (string * ServerModule)) (w : world) : world :=
  set_mtrace w (mtrace w ++ ((fun x => MMainloop (GetName x.2)) <$> mods)).

Definition Reload (readfile : string -> result error Conf) (mods : list (string * ServerModule)) (w : world) : world :=
  let '(_, d) := Config.Reload readfile (conf w) in
  let '(_, p) := Plugin.Reload (plugins w) in
  MkWorld (app w) (os w) d p (modules w)
    (mtrace w ++ ((fun x => MReload (GetName x.2)) <$> mods)).

(** ** The main loop and the signal goroutine *)

Inductive mainPC := MLoop | MFrame | MDone.
Inductive sigPC := SIdle | SReload | SQuit.   (* [SQuit]: sending on _finishChannel *)

Record sysState := MkSys {
  mainpc : mainPC;
  sigpc : sigPC;
  sigs : listener;
  frames : nat;
  nreloads : nat
}.

(** What [Mainloop] registers. *)
Inductive handler := HQuit | HReload.
Definition handlers : gmap Z handler :=
  RegisterSignalHandler [SIGUSR2] HReload (RegisterSignalHandler [SIGINT; SIGUSR1] HQuit ∅).

Inductive sys_step : sysState -> sysState -> Prop :=
| step_arrive st sig :
    sys_step st (MkSys (mainpc st) (sigpc st) (deliver sig (sigs st)) (frames st) (nreloads st))
| step_tick st : mainpc st = MLoop ->
    sys_step st (MkSys MFrame (sigpc st) (sigs st) (S (frames st)) (nreloads st))
| step_frame_end st : mainpc st = MFrame ->
    sys_step st (MkSys MLoop (sigpc st) (sigs st) (frames st) (nreloads st))
| step_handle st h l : sigpc st = SIdle -> handleNext handlers (sigs st) = (Some h, l) ->
    sys_step st (MkSys (mainpc st) (match h with HQuit => SQuit | HReload => SReload end) l
                   (frames st) (nreloads st))
| step_reload_end st : sigpc st = SReload ->
    sys_step st (MkSys (mainpc st) SIdle (sigs st) (frames st) (S (nreloads st)))
| step_finish st : mainpc st = MLoop -> sigpc st = SQuit ->
    sys_step st (MkSys MDone SIdle (sigs st) (frames st) (nreloads st)).

(** The state in which [Mainloop] enters its loop. *)
Definition sys_start : sysState := MkSys MLoop SIdle (MkListener (dom handlers) []) 0 0.

(** ** Modules are started and stopped once *)

(** Registration keeps a module under its own name. *)
Definition named (mc : gmap string ServerModule) : Prop := forall n m, mc !! n = Some m -> GetName m = n.

Lemma registerModule_named m mc : named mc -> named (registerModule m mc).
Proof.
  intros Hn n m'. unfold registerModule. rewrite lookup_insert_Some.
  intros [[<- <-]|[_ Hm]]; [done|by apply Hn].
Qed.

Definition of_kind (pre : bool) (l : list (string * ServerModule)) : list string :=
  (fun x => GetName x.2) <$> filter (fun x => IsPreInit x.2 = pre) l.

Lemma moduleLoop_None call ev pre l : forall tr tr',
  moduleLoop call ev pre l tr = (None, tr') -> tr' = tr ++ (ev <$> of_kind pre l).
Proof.
  induction l as [|[n m] l IH]; intros tr tr' Hl; cbn [moduleLoop] in Hl.
  { simplify_eq. cbn. by rewrite app_nil_r. }
  unfold of_kind in *. rewrite filter_cons. cbn [snd].
  destruct (Bool.eqb (IsPreInit m) pre) eqn:Hp.
  - apply Bool.eqb_prop in Hp. rewrite decide_True by done. destruct (call m); [done|].
    apply IH in Hl as ->. cbn. by rewrite <- app_assoc.
  - apply Bool.eqb_false_iff in Hp. rewrite decide_False by done. by apply IH.
Qed.

Lemma of_kind_perm pre mc l : ranges mc l -> of_kind pre l ≡ₚ of_kind pre (map_to_list mc).
Proof. intros Hl. unfold of_kind. by rewrite Hl. Qed.

(** The two kinds together are all modules, each once. *)
Lemma of_kind_all mc l1 l2 : named mc -> ranges mc l1 -> ranges mc l2 ->
  of_kind true l1 ++ of_kind false l2 ≡ₚ (map_to_list mc).*1.
Proof.
  intros Hn H1 H2. rewrite (of_kind_perm true mc l1), (of_kind_perm false mc l2) by done.
  assert (HF : Forall (fun x => GetName x.2 = x.1) (map_to_list mc)).
  { apply Forall_forall. intros [n m] Hx. apply elem_of_map_to_list in Hx. by apply Hn. }
  unfold of_kind. induction HF as [|[n m] l Hx _ IH]; [done|]. rewrite !filter_cons. cbn [fst snd] in *.
  destruct (IsPreInit m).
  - rewrite decide_True, decide_False by done. rewrite !fmap_cons. cbn [fst snd app]. rewrite Hx. by constructor.
  - rewrite decide_False, decide_True by done. rewrite !fmap_cons. cbn [fst snd].
    by rewrite Hx, <- Permutation_middle, IH.
Qed.

Lemma of_kind_elem mc pre l n : named mc -> ranges mc l -> n ∈ of_kind pre l ->
  exists m, mc !! n = Some m /\ IsPreInit m = pre.
Proof.
  intros Hn Hl Hin. apply list_elem_of_fmap in Hin as ([k m] & -> & Hin).
  apply list_elem_of_filter in Hin as [Hp Hin]. apply (ranges_lookup _ _ _ _ Hl) in Hin.
  cbn. rewrite (Hn k m Hin). by exists m.
Qed.

(** A successful start ends with the loops over the modules. *)
Lemma Init_modules env w w' : Init env w = Done (IReturn None w') ->
  exists w0, mtrace w0 = mtrace w /\ modules w0 = modules w /\ initModules env w0 = (None, w').
Proof.
  unfold Init. intros Hi. destruct (Config.Init _ _) as [[e|] d]; [by simplify_eq|].
  destruct (GetConfig d) as [c|]; [|done].
  destruct (initInputParam _ _ _) as [[e w0|]|] eqn:Hp; [|by simplify_eq|].
  { unfold initInputParam in Hp. repeat case_bool_decide; by simplify_eq. }
  destruct (KillPre _ _) as [e o]. cbn -[initTcp initModules Plugin.Init] in Hi.
  apply bind_Done_inv in Hi as ([err p] & _ & Hi). destruct err; [by simplify_eq|].
  apply bind_Done_inv in Hi as (p' & _ & Hi). destruct (initModules _ _) as [e1 w1] eqn:Hm. simplify_eq.
  eexists. split; [|split; [|exact Hm]]; done.
Qed.

Lemma Init_None env w w' : Init env w = Done (IReturn None w') ->
  mtrace w' = mtrace w ++ (MInit <$> of_kind true (e_mods1 env)) ++ (MInit <$> of_kind false (e_mods2 env)) /\
  modules w' = modules w.
Proof.
  intros Hi. apply Init_modules in Hi as (w0 & Ht & Hm & Hi). unfold initModules in Hi.
  destruct (moduleLoop mInit MInit true _ _) as [[e1|] tr1] eqn:H1; [by simplify_eq|].
  destruct (moduleLoop mInit MInit false _ _) as [e2 tr2] eqn:H2. simplify_eq.
  apply moduleLoop_None in H1. apply moduleLoop_None in H2. cbn in *. subst. by rewrite Ht, app_assoc.
Qed.

(** A successful start initialises every module exactly once, all pre-init
    modules before all others; a successful [Fini] then un-initialises every
    module exactly once, again the pre-init modules first (the same order, not
    the reverse), and destroys the plugins.  The orders of the four ranges
    over the module map are arbitrary. *)
Theorem app_modules_once (env : startEnv) (w w1 w2 : world) (u1 u2 : list (string * ServerModule))
    (l : list (string * inst)) :
  named (modules w) -> mtrace w = [] ->
  ranges (modules w) (e_mods1 env) -> ranges (modules w) (e_mods2 env) ->
  ranges (modules w) u1 -> ranges (modules w) u2 ->
  Init env w = Done (IReturn None w1) -> Fini u1 u2 l w1 = Done (None, w2) ->
  exists a b c d, mtrace w2 = (MInit <$> a ++ b) ++ (MUnInit <$> c ++ d) /\
    a ++ b ≡ₚ (map_to_list (modules w)).*1 /\ c ++ d ≡ₚ (map_to_list (modules w)).*1 /\
    (forall n, n ∈ a \/ n ∈ c -> exists m, modules w !! n = Some m /\ IsPreInit m = true) /\
    (forall n, n ∈ b \/ n ∈ d -> exists m, modules w !! n = Some m /\ IsPreInit m = false).
Proof.
  intros Hn Ht H1 H2 H3 H4 Hi Hf. apply Init_None in Hi as [Htr Hm]. rewrite Ht in Htr.
  unfold Fini in Hf.
  destruct (moduleLoop mUnInit MUnInit true u1 (mtrace w1)) as [[e1|] tr1] eqn:E1; [by simplify_eq|].
  destruct (moduleLoop mUnInit MUnInit false u2 tr1) as [[e2|] tr2] eqn:E2; [by simplify_eq|].
  apply bind_Done_inv in Hf as ([e p] & _ & Hf). simplify_eq. cbn [mtrace set_plugins set_mtrace].
  apply moduleLoop_None in E1 as ->. apply moduleLoop_None in E2 as ->.
  exists (of_kind true (e_mods1 env)), (of_kind false (e_mods2 env)), (of_kind true u1), (of_kind false u2).
  rewrite Htr, !fmap_app, <- !app_assoc. split; [done|].
  split; [by apply of_kind_all|]. split; [by apply of_kind_all|].
  split; intros n [Hin|Hin]; (eapply of_kind_elem; [exact Hn| |exact Hin]); done.
Qed.

(** ** What the pid file defect does to the server *)

(** On a machine without pid files the commands never reach a server.
    Starting the server leaves the machine without a pid file, and the
    commands "stop" and "reload" send no signal, whatever the configuration,
    plugins and modules do; both still exit with status 0. *)
Theorem app_commands_need_pidfile (env : startEnv) (w : world) :
  files (os w) = ∅ ->
  match Init env w with
  | Done (IReturn _ w') => os w' = os w
  | Done (IExit code o) => code = 0 /\ o = os w
  | _ => True
  end.
Proof.
  intros Hf. unfold Init. destruct (Config.Init _ _) as [[e|] d]; [done|].
  destruct (GetConfig d) as [c|]; [|done]. cbn -[initTcp initModules Plugin.Init initInputParam KillPre].
  assert (Hg : forall id, GetProcessPid (os w) id = Err "no such file or directory").
  { intros id. unfold GetProcessPid. by rewrite Hf, lookup_empty. }
  unfold initInputParam, SendSignal. rewrite Hg. repeat case_bool_decide; [done|done|].
  unfold KillPre, KillProcess. rewrite Hg. cbn -[initTcp initModules Plugin.Init].
  destruct (Plugin.Init _ _ _ _) as [[[e|] p]| |]; [done| |done|done]. go_run.
  destruct (initTcp env _) as [p'| |]; [|done|done]. go_run.
  unfold initModules. destruct (moduleLoop _ _ _ _ _) as [[e1|] tr]; [done|].
  by destruct (moduleLoop _ _ _ _ _) as [e2 tr2].
Qed.

(** ** A server that cannot listen *)

Definition no_net (env : startEnv) : startEnv :=
  MkStartEnv (e_flags env) (e_readfile env) (fun a => Ok a) (fun _ => Some "address already in use")
    (e_logs env) (e_order env) (e_mods1 env) (e_mods2 env).

Definition init_result (o : outcome initEnd) : outcome (option (option error * list mevent)) :=
  e ← o; match e with IReturn err w => Done (Some (err, mtrace w)) | IExit _ _ => Done None end.

(** A server that cannot listen starts all the same.  The result of [Init]
    and the module calls it makes are the same whether the transport can
    listen or its address is taken: the error of the transport's [Init] is
    dropped. *)
Theorem app_ignores_listen_failure (env : startEnv) (w : world) :
  init_result (Init env w) = init_result (Init (no_net env) w).
Proof.
  unfold Init. cbn [no_net e_flags e_readfile e_logs e_order].
  destruct (Config.Init _ _) as [[e|] d]; [done|]. destruct (GetConfig d) as [c|]; [|done].
  cbn -[initTcp initModules Plugin.Init initInputParam KillPre].
  destruct (initInputParam _ _ _); [done|]. destruct (KillPre _ _) as [e o].
  cbn -[initTcp initModules Plugin.Init].
  destruct (Plugin.Init _ _ _ _) as [[[e1|] p]| |]; [done| |done|done]. go_run.
  unfold initTcp. destruct (GetPluginInst _ _ _) as [[t| |]|]; [|done..].
  destruct (Tcp.Init _ _ t) as [e1 t1]. destruct (Tcp.Init _ _ t) as [e2 t2]. go_run.
  unfold initModules. cbn [no_net e_mods1 e_mods2 mtrace set_plugins set_os].
  destruct (moduleLoop _ _ _ _ _) as [[e3|] tr]; [done|]. by destruct (moduleLoop _ _ _ _ _) as [e4 tr2].
Qed.

(** ** The main loop ends on request *)

Lemma handlers_lookup sig :
  handlers !! sig = if decide (sig = SIGUSR2) then Some HReload
                    else if decide (sig = SIGINT \/ sig = SIGUSR1) then Some HQuit else None.
Proof.
  unfold handlers. rewrite !Register_lookup, lookup_empty.
  destruct (decide (sig = SIGUSR2)) as [->|H1].
  { by rewrite decide_True by left. }
  rewrite (decide_False (P := sig ∈ [SIGUSR2])) by (by intros ?%list_elem_of_singleton).
  destruct (decide (sig = SIGINT \/ sig = SIGUSR1)) as [H2|H2].
  - rewrite decide_True; [done|]. destruct H2 as [->| ->]; [left|right; left].
  - rewrite decide_False; [done|]. intros [->|[->|?%not_elem_of_nil]%elem_of_cons]%elem_of_cons; tauto.
Qed.

(** Only signals with a handler are queued. *)
Definition sys_inv (st : sysState) : Prop :=
  subscribed (sigs st) = dom handlers /\ Forall (fun s => is_Some (handlers !! s)) (queue (sigs st)).

Lemma sys_inv_step st st' : sys_step st st' -> sys_inv st -> sys_inv st'.
Proof.
  intros Hs [H1 H2]. destruct Hs as [st sig|st _|st _|st h l _ Hn|st _|st _ _]; try done.
  - unfold sys_inv. cbn [sigs]. unfold deliver. case_bool_decide as Hd; cbn [andb]; [|done].
    case_match; [|done]. cbn [subscribed queue]. split; [done|]. apply Forall_app. split; [done|].
    constructor; [|constructor]. rewrite H1 in Hd. by apply elem_of_dom in Hd.
  - unfold sys_inv. cbn [sigs]. unfold handleNext in Hn. destruct (queue (sigs st)) as [|s q]; [done|].
    simplify_eq. cbn [subscribed queue]. split; [done|]. by apply Forall_cons in H2 as [_ H2].
Qed.

Lemma sys_inv_reachable st : rtc sys_step sys_start st -> sys_inv st.
Proof.
  intros Hr. assert (H0 : sys_inv sys_start) by (split; [done|constructor]).
  induction Hr as [|st st1 st2 Hs _ IH]; [done|]. apply IH. by eapply sys_inv_step.
Qed.

(** From any point of the loop the main goroutine comes back to its select,
    and takes a pending request to finish. *)
Lemma quit_finishes st : mainpc st <> MDone -> sigpc st = SQuit ->
  exists st', rtc sys_step st st' /\ mainpc st' = MDone.
Proof.
  intros Hm Hs. destruct (mainpc st) eqn:E; [| |done].
  - eexists. split; [apply rtc_once; by apply step_finish|done].
  - eexists. split; [|].
    + eapply rtc_l; [by apply step_frame_end|]. apply rtc_once. by apply step_finish.
    + done.
Qed.

(** The signal goroutine works through its queue until it meets a request to
    quit. *)
Lemma quit_queued_idle q : forall st, queue (sigs st) = q -> sys_inv st -> mainpc st <> MDone ->
  sigpc st = SIdle -> (exists s, s ∈ q /\ handlers !! s = Some HQuit) ->
  exists st', rtc sys_step st st' /\ mainpc st' = MDone.
Proof.
  induction q as [|s q IH]; intros st Hq [Hi1 Hi2] Hm Es (s0 & Hin & Hs0);
    [by apply not_elem_of_nil in Hin|].
  rewrite Hq in Hi2. apply Forall_cons in Hi2 as [[h Hh] Hi2].
  pose (next pc n := MkSys (mainpc st) pc (MkListener (subscribed (sigs st)) q) (frames st) n).
  assert (H1 : sys_step st (next (match h with HQuit => SQuit | HReload => SReload end) (nreloads st))).
  { apply step_handle; [done|]. unfold handleNext. by rewrite Hq, Hh. }
  destruct h.
  - destruct (quit_finishes (next SQuit (nreloads st)) Hm eq_refl) as (st' & Hr & Hd).
    exists st'. split; [by eapply rtc_l|done].
  - apply elem_of_cons in Hin as [->|Hin]; [congruence|].
    destruct (IH (next SIdle (S (nreloads st)))) as (st' & Hr & Hd); [done|done|done|done|by exists s0|].
    exists st'. split; [|done]. eapply rtc_l; [exact H1|]. eapply rtc_l; [|exact Hr].
    by apply (step_reload_end (next SReload (nreloads st))).
Qed.

(** A request to quit can always be served: in every reachable state in
    which the main loop runs and SIGINT or SIGUSR1 is queued, or is being
    handled, the two goroutines can go on to a state in which the main loop has
    ended; and once it has ended it stays so and runs no further frame. *)
Theorem mainloop_quits (st : sysState) :
  rtc sys_step sys_start st ->
  (mainpc st <> MDone -> SIGINT ∈ queue (sigs st) \/ SIGUSR1 ∈ queue (sigs st) \/ sigpc st = SQuit ->
     exists st', rtc sys_step st st' /\ mainpc st' = MDone) /\
  (mainpc st = MDone -> forall st', rtc sys_step st st' -> mainpc st' = MDone /\ frames st' = frames st).
Proof.
  intros Hr. pose proof (sys_inv_reachable st Hr) as Hinv. split.
  - intros Hm Hq. destruct (sigpc st) eqn:Es; [| |by apply quit_finishes].
    + eapply quit_queued_idle; [done|done|done|done|].
      destruct Hq as [Hq|[Hq|Hq]]; [by eexists|by eexists|done].
    + set (st1 := MkSys (mainpc st) SIdle (sigs st) (frames st) (S (nreloads st))).
      destruct (quit_queued_idle _ st1 eq_refl Hinv Hm eq_refl) as (st' & Hr' & Hd).
      { destruct Hq as [Hq|[Hq|Hq]]; [by eexists|by eexists|done]. }
      exists st'. split; [|done]. eapply rtc_l; [|exact Hr']. by apply step_reload_end.
  - intros Hm st' Hr'. clear Hr Hinv. induction Hr' as [|x y z Hs _ IH]; [done|].
    assert (mainpc y = MDone /\ frames y = frames x) as [Hy Hf].
    { destruct Hs; cbn; try done; congruence. }
    destruct (IH Hy) as [? ->]. by rewrite Hf.
Qed.

Definition sys_quitting : sysState :=
  MkSys MLoop SIdle (deliver SIGINT (MkListener (dom handlers) [])) 0 0.

Lemma mainloop_quits_witness :
  exists st', rtc sys_step sys_quitting st' /\ mainpc st' = MDone.
Proof.
  apply (mainloop_quits sys_quitting).
  - apply rtc_once. apply (step_arrive sys_start SIGINT).
  - discriminate.
  - left. by_decide.
Defined.

(** After the main loop has ended, one more quit signal blocks the signal
    goroutine for ever: it waits on a channel nobody reads, so no later signal
    (a reload, another quit) is handled. *)
Theorem second_quit_blocks_signals (st st' : sysState) :
  mainpc st = MDone -> sigpc st = SQuit -> rtc sys_step st st' ->
  sigpc st' = SQuit /\ nreloads st' = nreloads st.
Proof.
  intros Hm Hs Hr. induction Hr as [|x y z Hst _ IH]; [done|].
  assert (mainpc y = MDone /\ sigpc y = SQuit /\ nreloads y = nreloads x) as (Hy & Hsy & Hn).
  { destruct Hst; cbn in *; try done; congruence. }
  destruct (IH Hy Hsy) as [? ->]. by rewrite Hn.
Qed.

Lemma second_quit_blocks_signals_witness :
  let st q := MkSys MDone SQuit (MkListener (dom handlers) q) 3 0 in
  sigpc (st [SIGUSR2]) = SQuit /\ nreloads (st [SIGUSR2]) = 0%nat.
Proof.
  intros st. apply (second_quit_blocks_signals (st []) (st [SIGUSR2]) eq_refl eq_refl).
  apply rtc_once. apply (step_arrive (st []) SIGUSR2).
Defined.

(** A reload can run in the middle of a frame: the signal goroutine calls
    the modules' [OnReload] while the main goroutine is calling their
    [Mainloop]; nothing orders the two. *)
Theorem reload_overlaps_frame :
  exists st, rtc sys_step sys_start st /\ mainpc st = MFrame /\ sigpc st = SReload.
Proof.
  pose (l := deliver SIGUSR2 (MkListener (dom handlers) [])).
  exists (MkSys MFrame SReload (MkListener (dom handlers) []) 1 0). split; [|done].
  eapply rtc_l; [apply (step_arrive sys_start SIGUSR2)|].
  eapply rtc_l; [by apply step_tick|]. apply rtc_once.
  apply (step_handle (MkSys MFrame SIdle l 1 0) HReload); [done|]. by vm_compute.
Qed.

(** *** Witnesses of the start *)

Definition demo_mods : gmap string ServerModule :=
  registerModule (MkServerModule "b" false None None) (registerModule (MkServerModule "a" true None None) ∅).
Definition demo_world : world :=
  MkWorld (NewServerApp "svr") os0 (MkConfigData None None false "" false "")
    (RegisterPluginFactory (tcp_factory TcpInst (fun a => Ok (MkTcpTransportCfg a 60))) (MkPluginState ∅ ∅ []))
    demo_mods [].
Definition demo_env : startEnv :=
  MkStartEnv (MkFlags None None None)
    (fun _ => Ok (MkConf "1.1" (Some (Ok {[ "transport" := {[ "tcp" := Some ":8000" ]} ]}))))
    (fun a => Ok a) (fun _ => None) [] [("transport", [("tcp", Some ":8000")])]
    (map_to_list demo_mods) (map_to_list demo_mods).
Definition demo_end (o : outcome initEnd) : world :=
  match o with Done (IReturn _ w) => w | _ => demo_world end.

Lemma app_modules_once_witness :
  exists a b c d, mtrace (match Fini (map_to_list demo_mods) (map_to_list demo_mods) []
      (demo_end (Init demo_env demo_world)) with Done (_, w) => w | _ => demo_world end)
    = (MInit <$> a ++ b) ++ (MUnInit <$> c ++ d) /\ a ++ b ≡ₚ (map_to_list demo_mods).*1.
Proof.
  destruct (app_modules_once demo_env demo_world (demo_end (Init demo_env demo_world))
    (match Fini (map_to_list demo_mods) (map_to_list demo_mods) []
      (demo_end (Init demo_env demo_world)) with Done (_, w) => w | _ => demo_world end)
    (map_to_list demo_mods) (map_to_list demo_mods) []) as (a & b & c & d & H1 & H2 & _).
  - unfold demo_world, demo_mods. cbn [modules]. do 2 apply registerModule_named. intros n m Hn.
    by rewrite lookup_empty in Hn.
  - reflexivity.
  - apply Permutation_refl.
  - apply Permutation_refl.
  - apply Permutation_refl.
  - apply Permutation_refl.
  - vm_compute. reflexivity.
  - vm_compute. reflexivity.
  - exists a, b, c, d. split; [exact H1|exact H2].
Defined.

Lemma app_commands_need_pidfile_witness :
  match Init (MkStartEnv (MkFlags None (Some "stop") None)
    (fun _ => Ok (MkConf "1.1" None)) (fun a => Ok a) (fun _ => None) [] [] [] []) demo_world with
  | Done (IExit code o) => code = 0 /\ sent_signals o = []
  | _ => False
  end.
Proof.
  pose proof (app_commands_need_pidfile (MkStartEnv (MkFlags None (Some "stop") None)
    (fun _ => Ok (MkConf "1.1" None)) (fun a => Ok a) (fun _ => None) [] [] [] []) demo_world eq_refl) as Hp.
  cbn in *. destruct Hp as [Hc Ho]. split; [exact Hc|]. reflexivity.
Defined.
