(* ===== verification/Server.v ===== *)
(** * The whole server: main of server.go as a process

    [main_start] is the main function of example/statelesssvr/server.go up to
    the loop of [serverApp.Mainloop].  From there on the process is two
    goroutines, the main one and the one that handles signals, which interleave
    at the calls into modules: a range over the modules is a list of the
    modules still to be called.  [sys_step] of the application is the
    abstraction in which the modules are not seen. *)

From S2P Require Import Prelude Process Plugin Config Signal App.

(** ** Start *)

Inductive started := Exited (code : Z) (o : OS) | Running (w : world).

(** [ml] is the order of the range of [plugin.Mainloop]. *)
Definition main_start (env : startEnv) (ml : list (string * inst)) (w : world) : outcome started :=
  let w := MkWorld (NewServerApp "stateless_svr") (os w) (conf w) (plugins w) (modules w) (mtrace w) in
  e ← App.Init env w;
  match e with
  | IExit code o => Done (Exited code o)
  | IReturn (Some err) _ => Panic err
  | IReturn None w =>
      p ← Plugin.Mainloop ml (plugins w);
      Done (Running (set_plugins w p))
  end.

(** ** The two goroutines *)

(** Where the main goroutine is: the select, a frame, the two loops of [Fini],
    the end of the process.  A list holds the modules the range has still to
    visit. *)
Inductive mainCode :=
  | PLoop
  | PFrame (l : list (string * ServerModule))
  | PFini1 (l : list (string * ServerModule))
  | PFini2 (l : list (string * ServerModule))
  | PExit (err : option error)
  | PCrash (msg : string).

(** Where the signal goroutine is: receiving, calling [OnReload], sending on
    _finishChannel. *)
Inductive sigCode := GIdle | GReload (l : list (string * ServerModule)) | GQuit.

Record proc := MkProc {
  pmain : mainCode;
  psig : sigCode;
  psigs : listener;
  pw : world;
  pframes : nat;
  preloads : nat
}.

Definition proc_start (w : world) : proc := MkProc PLoop GIdle (MkListener (dom handlers) []) w 0 0.

Definition at_main (c : mainCode) (p : proc) : proc := MkProc c (psig p) (psigs p) (pw p) (pframes p) (preloads p).
Definition at_sig (g : sigCode) (p : proc) : proc := MkProc (pmain p) g (psigs p) (pw p) (pframes p) (preloads p).
Definition in_world (w : world) (p : proc) : proc := MkProc (pmain p) (psig p) (psigs p) w (pframes p) (preloads p).
Definition called (e : mevent) (p : proc) : proc := in_world (set_mtrace (pw p) (mtrace (pw p) ++ [e])) p.

(** One turn of a loop of [Fini], which goes on in [k] or returns. *)
Definition uninit_turn (pre : bool) (k : mainCode) (m : ServerModule) (p : proc) : proc :=
  if Bool.eqb (IsPreInit m) pre then
    match mUnInit m with
    | Some err => at_main (PExit (Some err)) (called (MUnInit (GetName m)) p)
    | None => at_main k (called (MUnInit (GetName m)) p)
    end
  else at_main k p.

(** The error of [Destroy] is dropped. *)
Definition destroy_turn (l : list (string * inst)) (p : proc) : option proc :=
  match Plugin.Destroy l (plugins (pw p)) with
  | Done (_, s) => Some (at_main (PExit None) (in_world (set_plugins (pw p) s) p))
  | Panic msg => Some (at_main (PCrash msg) p)
  | Hang => None
  end.

Inductive main_step : proc -> proc -> Prop :=
| main_tick p l : pmain p = PLoop -> ranges (modules (pw p)) l ->
    main_step p (MkProc (PFrame l) (psig p) (psigs p) (pw p) (S (pframes p)) (preloads p))
| main_call p n m l : pmain p = PFrame ((n, m) :: l) ->
    main_step p (at_main (PFrame l) (called (MMainloop (GetName m)) p))
| main_frame_end p : pmain p = PFrame [] -> main_step p (at_main PLoop p)
| main_finish p l : pmain p = PLoop -> psig p = GQuit -> ranges (modules (pw p)) l ->
    main_step p (at_main (PFini1 l) (at_sig GIdle p))
| main_uninit1 p n m l : pmain p = PFini1 ((n, m) :: l) -> main_step p (uninit_turn true (PFini1 l) m p)
| main_fini2 p l : pmain p = PFini1 [] -> ranges (modules (pw p)) l -> main_step p (at_main (PFini2 l) p)
| main_uninit2 p n m l : pmain p = PFini2 ((n, m) :: l) -> main_step p (uninit_turn false (PFini2 l) m p)
| main_destroy p l p' : pmain p = PFini2 [] -> ranges (insts (plugins (pw p))) l -> destroy_turn l p = Some p' ->
    main_step p p'.

(** What [Reload] does before it calls the modules. *)
Definition reload_conf (readfile : string -> result error Conf) (w : world) : world :=
  App.Reload readfile [] w.

Inductive sig_step : proc -> proc -> Prop :=
| sig_quit p l : psig p = GIdle -> handleNext handlers (psigs p) = (Some HQuit, l) ->
    sig_step p (MkProc (pmain p) GQuit l (pw p) (pframes p) (preloads p))
| sig_reload p l readfile r : psig p = GIdle -> handleNext handlers (psigs p) = (Some HReload, l) ->
    ranges (modules (pw p)) r ->
    sig_step p (MkProc (pmain p) (GReload r) l (reload_conf readfile (pw p)) (pframes p) (preloads p))
| sig_call p n m l : psig p = GReload ((n, m) :: l) ->
    sig_step p (at_sig (GReload l) (called (MReload (GetName m)) p))
| sig_reload_end p : psig p = GReload [] ->
    sig_step p (MkProc (pmain p) GIdle (psigs p) (pw p) (pframes p) (S (preloads p))).

(** The process ends with its main goroutine. *)
Definition over (c : mainCode) : bool := match c with PExit _ | PCrash _ => true | _ => false end.

Inductive proc_step : proc -> proc -> Prop :=
| proc_arrive p sig : over (pmain p) = false ->
    proc_step p (MkProc (pmain p) (psig p) (deliver sig (psigs p)) (pw p) (pframes p) (preloads p))
| proc_main p p' : main_step p p' -> proc_step p p'
| proc_sig p p' : over (pmain p) = false -> sig_step p p' -> proc_step p p'.

(** ** The process refines the two-goroutine abstraction *)

Definition abs_main (c : mainCode) : mainPC :=
  match c with PLoop => MLoop | PFrame _ => MFrame | _ => MDone end.
Definition abs_sig (g : sigCode) : sigPC :=
  match g with GIdle => SIdle | GReload _ => SReload | GQuit => SQuit end.
Definition abs (p : proc) : sysState :=
  MkSys (abs_main (pmain p)) (abs_sig (psig p)) (psigs p) (pframes p) (preloads p).

Lemma uninit_turn_abs pre k m p : abs_main k = abs_main (pmain p) -> abs_main (pmain p) = MDone ->
  abs (uninit_turn pre k m p) = abs p.
Proof. intros Hk Hd. unfold uninit_turn, abs. repeat case_match; cbn; by rewrite ?Hk, ?Hd. Qed.

Lemma main_step_abs p p' : main_step p p' -> abs p' = abs p \/ sys_step (abs p) (abs p').
Proof.
  intros Hs. destruct Hs as [p l E _|p n m l E|p E|p l E Eg _|p n m l E|p l E _|p n m l E|p l p' E _ Hd].
  - right. apply (step_tick (abs p)). by cbn; rewrite E.
  - left. unfold abs. cbn. by rewrite E.
  - right. apply (step_frame_end (abs p)). by cbn; rewrite E.
  - right. apply (step_finish (abs p)); cbn; by rewrite ?E, ?Eg.
  - left. apply uninit_turn_abs; by rewrite E.
  - left. unfold abs. cbn. by rewrite E.
  - left. apply uninit_turn_abs; by rewrite E.
  - left. unfold destroy_turn in Hd. case_match; simplify_eq; [case_match; simplify_eq|]; unfold abs; cbn; by rewrite E.
Qed.

Lemma sig_step_abs p p' : sig_step p p' -> abs p' = abs p \/ sys_step (abs p) (abs p').
Proof.
  intros Hs. destruct Hs as [p l E Hn|p l rf r E Hn _|p n m l E|p E].
  - right. apply (step_handle (abs p) HQuit); cbn; by rewrite ?E.
  - right. apply (step_handle (abs p) HReload); cbn; by rewrite ?E.
  - left. unfold abs. cbn. by rewrite E.
  - right. apply (step_reload_end (abs p)). by cbn; rewrite E.
Qed.

(** The process, modules and all, is an execution of the abstract system of
    the two goroutines. *)
Lemma proc_refines_sys w p : rtc proc_step (proc_start w) p -> rtc sys_step sys_start (abs p).
Proof.
  intros Hr. change sys_start with (abs (proc_start w)).
  induction Hr as [|p p1 p2 Hs _ IH]; [done|].
  assert (abs p1 = abs p \/ sys_step (abs p) (abs p1)) as [<-|H1]; [|done|by eapply rtc_l].
  destruct Hs as [p sig _|p p1 Hm|p p1 _ Hg]; [|by apply main_step_abs|by apply sig_step_abs].
  right. apply (step_arrive (abs p)).
Qed.

(** ** The life of the modules *)

Definition names_of (l : list (string * ServerModule)) : list string := (fun x => GetName x.2) <$> l.
Definition mainloops (tr : list mevent) : list string := omap (fun e => match e with MMainloop n => Some n | _ => None end) tr.
Definition reloads (tr : list mevent) : list string := omap (fun e => match e with MReload n => Some n | _ => None end) tr.
Definition uninits (tr : list mevent) : list string := omap (fun e => match e with MUnInit n => Some n | _ => None end) tr.

(** [n] complete rounds over the modules. *)
Definition rounds (n : nat) (mods : gmap string ServerModule) : list string :=
  mjoin (replicate n (names_of (map_to_list mods))).

Definition serving (e : mevent) : Prop := match e with MMainloop _ | MReload _ => True | _ => False end.
Definition ending (e : mevent) : Prop := match e with MUnInit _ | MReload _ => True | _ => False end.
Definition looping (c : mainCode) : bool := match c with PLoop | PFrame _ => true | _ => false end.

(** What a goroutine has still to visit, and the rounds it has begun. *)
Definition frame_rest (c : mainCode) : list (string * ServerModule) := match c with PFrame l => l | _ => [] end.
Definition reload_rest (g : sigCode) : list (string * ServerModule) := match g with GReload l => l | _ => [] end.
Definition reloads_begun (p : proc) : nat := (preloads p + match psig p with GReload _ => 1 | _ => 0 end)%nat.

(** The modules un-initialised so far: those the two loops of [Fini] passed. *)
Definition uninit_so_far (mods : gmap string ServerModule) (c : mainCode) (done : list string) : Prop :=
  match c with
  | PLoop | PFrame _ => done = []
  | PFini1 l => exists u, ranges mods (u ++ l) /\ done = of_kind true u
  | PFini2 l => exists u1 u, ranges mods u1 /\ ranges mods (u ++ l) /\ done = of_kind true u1 ++ of_kind false u
  | PExit (Some err) => exists u1 r1 u2 r2 n m, ranges mods (u1 ++ r1) /\ ranges mods (u2 ++ r2) /\
      done = of_kind true u1 ++ of_kind false u2 /\ mods !! n = Some m /\ mUnInit m = Some err
  | PExit None | PCrash _ => exists u1 u2, ranges mods u1 /\ ranges mods u2 /\
      done = of_kind true u1 ++ of_kind false u2
  end.

(** The trace since the start [tr0]: the loop, then [Fini]. *)
Definition phases (tr0 : list mevent) (c : mainCode) (tr : list mevent) : Prop :=
  exists mid fin, tr = tr0 ++ mid ++ fin /\ Forall serving mid /\ Forall ending fin /\
    (looping c = true -> fin = []).
Arguments phases : simpl never.

Record life (mods : gmap string ServerModule) (ps : pluginState string inst) (tr0 : list mevent) (p : proc) : Prop := {
  life_mods : modules (pw p) = mods;
  life_plugins : over (pmain p) = false -> plugins (pw p) = ps;
  life_phases : phases tr0 (pmain p) (mtrace (pw p));
  life_frames : mainloops (mtrace (pw p)) ++ names_of (frame_rest (pmain p)) ≡ₚ rounds (pframes p) mods;
  life_reloads : reloads (mtrace (pw p)) ++ names_of (reload_rest (psig p)) ≡ₚ rounds (reloads_begun p) mods;
  life_uninit : uninit_so_far mods (pmain p) (uninits (mtrace (pw p)))
}.

(** *** Lemmas on traces *)

Lemma mainloops_app a b : mainloops (a ++ b) = mainloops a ++ mainloops b.
Proof. apply omap_app. Qed.
Lemma reloads_app a b : reloads (a ++ b) = reloads a ++ reloads b.
Proof. apply omap_app. Qed.
Lemma uninits_app a b : uninits (a ++ b) = uninits a ++ uninits b.
Proof. apply omap_app. Qed.

Lemma of_kind_app pre a b : of_kind pre (a ++ b) = of_kind pre a ++ of_kind pre b.
Proof. unfold of_kind. by rewrite filter_app, fmap_app. Qed.

Lemma of_kind_nil pre : of_kind pre [] = [].
Proof. done. Qed.

Lemma of_kind_one pre n m : of_kind pre [(n, m)] = if Bool.eqb (IsPreInit m) pre then [GetName m] else [].
Proof.
  unfold of_kind. rewrite filter_cons, filter_nil. cbn [snd]. destruct (Bool.eqb (IsPreInit m) pre) eqn:E.
  - apply Bool.eqb_prop in E. by rewrite decide_True.
  - apply Bool.eqb_false_iff in E. by rewrite decide_False.
Qed.

Lemma names_of_ranges mods l : ranges mods l -> names_of l ≡ₚ names_of (map_to_list mods).
Proof. intros Hl. unfold names_of. by rewrite Hl. Qed.

Lemma rounds_S n mods l : ranges mods l -> rounds n mods ++ names_of l ≡ₚ rounds (S n) mods.
Proof. intros Hl. rewrite (names_of_ranges mods l Hl). unfold rounds. cbn. apply Permutation_app_comm. Qed.

Create Rewrite HintDb life.
#[local] Hint Rewrite mainloops_app reloads_app uninits_app app_nil_r of_kind_app of_kind_nil of_kind_one : life.

(** *** Every step preserves the invariant *)

Lemma phases_serving tr0 c c' tr e : looping c = true -> looping c' = true -> serving e ->
  phases tr0 c tr ->
  phases tr0 c' (tr ++ [e]).
Proof.
  intros Hc Hc' He (mid & fin & -> & Hm & Hf & Hn). rewrite (Hn Hc). exists (mid ++ [e]), [].
  rewrite !app_nil_r, app_assoc. repeat split; [|done]. by apply Forall_app_2; [|constructor].
Qed.

Lemma phases_ending tr0 c c' tr e : looping c' = false -> ending e ->
  phases tr0 c tr ->
  phases tr0 c' (tr ++ [e]).
Proof.
  intros Hc' He (mid & fin & -> & Hm & Hf & Hn). exists mid, (fin ++ [e]).
  rewrite <- !app_assoc. repeat split; [done| |by rewrite Hc']. by apply Forall_app_2; [|constructor].
Qed.

Lemma phases_moved tr0 c c' tr : (looping c' = true -> looping c = true) ->
  phases tr0 c tr ->
  phases tr0 c' tr.
Proof. intros Hc (mid & fin & ? & ? & ? & Hn). exists mid, fin. repeat split; [done..|]. intros Hx. apply Hn, Hc, Hx. Qed.

Section Preserved.
Context (mods : gmap string ServerModule) (ps : pluginState string inst) (tr0 : list mevent).

(** A turn of [Fini] on module [m]; [Hnext] and [Hstop] say what becomes of the
    modules passed. *)
Lemma life_uninit_turn pre k m p : looping (pmain p) = false -> over (pmain p) = false ->
  frame_rest (pmain p) = [] -> looping k = false -> frame_rest k = [] ->
  (forall done, uninit_so_far mods (pmain p) done ->
     uninit_so_far mods k (done ++ if Bool.eqb (IsPreInit m) pre then [GetName m] else []) /\
     (IsPreInit m = pre -> forall err, mUnInit m = Some err ->
        uninit_so_far mods (PExit (Some err)) (done ++ [GetName m]))) ->
  life mods ps tr0 p -> life mods ps tr0 (uninit_turn pre k m p).
Proof.
  intros Hl Ho Hfr Hlk Hfk Hu [H1 H2 H3 H4 H5 H6]. destruct (Hu _ H6) as [Hk Hs]. unfold uninit_turn.
  destruct (Bool.eqb (IsPreInit m) pre) eqn:E; [apply Bool.eqb_prop in E; destruct (mUnInit m) as [err|] eqn:Em|];
    (split; cbn -[uninit_so_far uninits];
     [done|intros _; by apply H2| | |autorewrite with life; cbn; autorewrite with life; exact H5|]).
  - by eapply phases_ending.
  - rewrite Hfr in H4. autorewrite with life in *. exact H4.
  - autorewrite with life. by apply Hs.
  - by eapply phases_ending.
  - rewrite Hfr in H4. rewrite Hfk. autorewrite with life in *. exact H4.
  - autorewrite with life. exact Hk.
  - eapply phases_moved; [|done]. by rewrite Hlk.
  - rewrite Hfk. by rewrite Hfr in H4.
  - rewrite app_nil_r in Hk. exact Hk.
Qed.

Lemma life_main_step p p' : main_step p p' -> life mods ps tr0 p -> life mods ps tr0 p'.
Proof.
  intros Hs. destruct Hs as [p l E Hr|p n m l E|p E|p l E Eg Hr|p n m l E|p l E Hr|p n m l E|p l p' E _ Hd].
  5: { apply life_uninit_turn; rewrite ?E; try done. intros done (u & Hu & ->). split.
       - exists (u ++ [(n, m)]). rewrite <- app_assoc. autorewrite with life. done.
       - intros Hp err Hm. exists (u ++ [(n, m)]), l, [], (map_to_list mods), n, m. rewrite <- app_assoc.
         autorewrite with life. rewrite Hp, Bool.eqb_reflx.
         refine (conj _ (conj _ (conj _ (conj _ Hm)))); [done|apply Permutation_refl|by autorewrite with life|].
         apply (ranges_lookup _ _ _ _ Hu). set_solver. }
  6: { apply life_uninit_turn; rewrite ?E; try done. intros done (u1 & u & H1 & Hu & ->). split.
       - exists u1, (u ++ [(n, m)]). rewrite <- !app_assoc. by autorewrite with life.
       - intros Hp err Hm. exists u1, [], (u ++ [(n, m)]), l, n, m. rewrite <- !app_assoc, app_nil_r.
         autorewrite with life. rewrite Hp, Bool.eqb_reflx.
         refine (conj _ (conj _ (conj _ (conj _ Hm)))); [done|done|by autorewrite with life|].
         apply (ranges_lookup _ _ _ _ Hu). set_solver. }
  all: intros [H1 H2 H3 H4 H5 H6]; rewrite E in *; cbn [uninit_so_far] in H6.
  - split; cbn; [done|intros _; by apply H2|done| |done|done]. rewrite app_nil_r in H4.
    rewrite H4. apply rounds_S. by rewrite <- H1.
  - split; cbn -[uninits]; [done|intros _; by apply H2|by eapply (phases_serving _ (PFrame ((n, m) :: l)))| | |].
    + autorewrite with life. cbn. rewrite <- app_assoc. exact H4.
    + autorewrite with life. exact H5.
    + autorewrite with life. exact H6.
  - split; cbn; [done|intros _; by apply H2|done|done|done|done].
  - split; cbn; [done|intros _; by apply H2|by eapply (phases_moved _ PLoop)|done| |].
    + unfold reloads_begun in *. by rewrite Eg in H5.
    + exists []. rewrite <- H1. done.
  - split; cbn; [done|intros _; by apply H2|done|done|done|]. destruct H6 as (u & Hu & ->).
    exists u, []. rewrite app_nil_r in Hu. rewrite <- H1 at 2. by rewrite app_nil_r.
  - destruct H6 as (u1 & u & Hu1 & Hu & Hn). rewrite app_nil_r in Hu. unfold destroy_turn in Hd.
    destruct (Plugin.Destroy l _) as [[e s]| |] eqn:Ed; simplify_eq; split; cbn; try done; by exists u1, u.
Qed.

Lemma life_sig_step p p' : over (pmain p) = false -> sig_step p p' -> life mods ps tr0 p -> life mods ps tr0 p'.
Proof.
  intros Ho Hs. destruct Hs as [p l E Hn|p l rf r E Hn Hr|p n m l E|p E]; intros [H1 H2 H3 H4 H5 H6].
  - split; cbn; try done. unfold reloads_begun in *. by rewrite E in H5.
  - assert (Hw : mtrace (reload_conf rf (pw p)) = mtrace (pw p) /\ modules (reload_conf rf (pw p)) = modules (pw p) /\
                 plugins (reload_conf rf (pw p)) = plugins (pw p)).
    { unfold reload_conf, App.Reload. destruct (Config.Reload _ _) as [e d]. cbn. by rewrite app_nil_r. }
    destruct Hw as (Hw1 & Hw2 & Hw3). split; cbn -[reload_conf]; rewrite ?Hw1, ?Hw2, ?Hw3; try done.
    unfold reloads_begun in *. rewrite E in H5. cbn in *. rewrite Nat.add_0_r, app_nil_r in H5.
    rewrite H5, Nat.add_1_r. apply rounds_S. by rewrite <- H1.
  - split; cbn -[uninits]; try done.
    + destruct (looping (pmain p)) eqn:El; [by eapply (phases_serving _ (pmain p))|by eapply (phases_ending _ (pmain p))].
    + autorewrite with life. exact H4.
    + autorewrite with life. cbn. unfold reloads_begun in *. rewrite E in H5. cbn in *. by rewrite <- app_assoc.
    + autorewrite with life. exact H6.
  - split; cbn; try done. unfold reloads_begun in *. rewrite E in H5. cbn in *. by rewrite Nat.add_0_r, Nat.add_1_r in *.
Qed.

Lemma life_reachable p p' : rtc proc_step p p' -> life mods ps tr0 p -> life mods ps tr0 p'.
Proof.
  induction 1 as [|p p1 p2 Hs _ IH]; [done|]. intros Hp. apply IH.
  destruct Hs as [p sig _|p p1 Hm|p p1 Ho Hg]; [by destruct Hp|by eapply life_main_step|by eapply life_sig_step].
Qed.
End Preserved.

(** ** What a run of the server is *)

(** The pre-init modules come before the others. *)
Definition pre_first (mods : gmap string ServerModule) (l : list string) : Prop :=
  exists a b, l = a ++ b /\ (forall n, n ∈ a -> exists m, mods !! n = Some m /\ IsPreInit m = true) /\
    (forall n, n ∈ b -> exists m, mods !! n = Some m /\ IsPreInit m = false).

Lemma pre_first_of_kind mods u1 r1 u2 r2 : named mods -> ranges mods (u1 ++ r1) -> ranges mods (u2 ++ r2) ->
  pre_first mods (of_kind true u1 ++ of_kind false u2).
Proof.
  intros Hn H1 H2. exists (of_kind true u1), (of_kind false u2). split; [done|].
  split; intros n Hin; (eapply of_kind_elem; [exact Hn| |rewrite of_kind_app; apply elem_of_app; left; exact Hin]); done.
Qed.

Lemma uninit_split mods c done : uninit_so_far mods c done ->
  exists u1 r1 u2 r2, ranges mods (u1 ++ r1) /\ ranges mods (u2 ++ r2) /\
    done = of_kind true u1 ++ of_kind false u2.
Proof.
  assert (Hr : ranges mods ([] ++ map_to_list mods)) by apply Permutation_refl.
  destruct c as [|l|l|l|[err|]|msg]; cbn.
  - intros ->. by exists [], (map_to_list mods), [], (map_to_list mods).
  - intros ->. by exists [], (map_to_list mods), [], (map_to_list mods).
  - intros (u & Hu & ->). exists u, l, [], (map_to_list mods). by rewrite of_kind_nil, app_nil_r.
  - intros (u1 & u & H1 & Hu & ->). exists u1, [], u, l. by rewrite app_nil_r.
  - intros (u1 & r1 & u2 & r2 & n & m & H1 & H2 & -> & _). by exists u1, r1, u2, r2.
  - intros (u1 & u2 & H1 & H2 & ->). exists u1, [], u2, []. by rewrite !app_nil_r.
  - intros (u1 & u2 & H1 & H2 & ->). exists u1, [], u2, []. by rewrite !app_nil_r.
Qed.

Lemma uninit_part mods u1 r1 u2 r2 : named mods -> ranges mods (u1 ++ r1) -> ranges mods (u2 ++ r2) ->
  exists rest, (of_kind true u1 ++ of_kind false u2) ++ rest ≡ₚ (map_to_list mods).*1.
Proof.
  intros Hn H1 H2. exists (of_kind true r1 ++ of_kind false r2).
  rewrite <- (of_kind_all mods _ _ Hn H1 H2), !of_kind_app. solve_Permutation.
Qed.

Lemma names_of_named mods : named mods -> names_of (map_to_list mods) = (map_to_list mods).*1.
Proof.
  intros Hn. unfold names_of. apply list_fmap_ext. intros i [n m] Hx. cbn. apply Hn.
  apply elem_of_map_to_list. by eapply list_elem_of_lookup_2.
Qed.

(** The loop begins after the inits. *)
Lemma start_life w inits : mtrace w = MInit <$> inits -> life (modules w) (plugins w) (mtrace w) (proc_start w).
Proof.
  intros Htr. assert (Hq : forall f : mevent -> option string, (forall n, f (MInit n) = None) -> omap f (MInit <$> inits) = []).
  { intros f Hf. clear Htr. induction inits as [|n l IH]; [done|]. cbn. by rewrite Hf. }
  split; cbn -[mainloops reloads uninits]; rewrite ?Htr.
  - done.
  - done.
  - exists [], []. by rewrite !app_nil_r.
  - unfold mainloops. by rewrite Hq.
  - unfold reloads. by rewrite Hq.
  - unfold uninits. by rewrite Hq.
Qed.

Lemma main_start_life env ml w w1 : main_start env ml w = Done (Running w1) -> mtrace w = [] ->
  mtrace w1 = MInit <$> of_kind true (e_mods1 env) ++ of_kind false (e_mods2 env) /\
  life (modules w) (plugins w1) (mtrace w1) (proc_start w1).
Proof.
  intros Hs Ht. unfold main_start in Hs. apply bind_Done_inv in Hs as (e & Hi & Hs).
  destruct e as [[err|] w0|]; [done| |done]. apply bind_Done_inv in Hs as (p & _ & Hs). simplify_eq.
  apply Init_None in Hi as [Htr Hm]. cbn in Htr, Hm. rewrite Ht in Htr. cbn in Htr. rewrite <- fmap_app in Htr.
  split; [done|]. rewrite <- Hm. by eapply (start_life (set_plugins w0 p)).
Qed.

(** C19. The life of the server.  In every interleaving of the main goroutine, the
    signal goroutine and arriving signals, from a successful start to any
    point of the run: every module has been initialised exactly once, the
    pre-init modules first, before the first frame; then only [Mainloop] and
    [OnReload] are called, then, once the loop has ended, only [UnInit] and
    [OnReload]; no module is un-initialised twice, and the pre-init modules
    go first; a clean exit has un-initialised all of them.  Every frame
    that has ended has called every module's [Mainloop] once, and every reload
    that has ended every module's [OnReload] once. *)
Theorem server_life (env : startEnv) (ml : list (string * inst)) (w w1 : world) (p : proc) :
  named (modules w) -> mtrace w = [] ->
  ranges (modules w) (e_mods1 env) -> ranges (modules w) (e_mods2 env) ->
  main_start env ml w = Done (Running w1) -> rtc proc_step (proc_start w1) p ->
  let keys := (map_to_list (modules w)).*1 in
  exists inits mid fin,
    mtrace (pw p) = (MInit <$> inits) ++ mid ++ fin /\
    inits ≡ₚ keys /\ pre_first (modules w) inits /\
    Forall serving mid /\ Forall ending fin /\ (looping (pmain p) = true -> fin = []) /\
    pre_first (modules w) (uninits (mtrace (pw p))) /\
    (exists rest, uninits (mtrace (pw p)) ++ rest ≡ₚ keys) /\
    (pmain p = PExit None -> uninits (mtrace (pw p)) ≡ₚ keys) /\
    (frame_rest (pmain p) = [] -> mainloops (mtrace (pw p)) ≡ₚ mjoin (replicate (pframes p) keys)) /\
    (psig p = GIdle -> reloads (mtrace (pw p)) ≡ₚ mjoin (replicate (preloads p) keys)).
Proof.
  intros Hn Ht R1 R2 Hs Hr keys. destruct (main_start_life env ml w w1 Hs Ht) as [Htr H0].
  pose proof (life_reachable _ _ _ _ _ Hr H0) as [_ _ (mid & fin & Hph & Hm & Hf & Hl) Hfr Hre Hu].
  rewrite Htr in Hph. exists (of_kind true (e_mods1 env) ++ of_kind false (e_mods2 env)), mid, fin.
  unfold rounds in Hfr, Hre. rewrite names_of_named in Hfr, Hre by done.
  destruct (uninit_split _ _ _ Hu) as (u1 & r1 & u2 & r2 & U1 & U2 & Hd).
  repeat match goal with |- _ /\ _ => split end.
  - exact Hph.
  - by apply of_kind_all.
  - apply (pre_first_of_kind _ _ [] _ []); by rewrite ?app_nil_r.
  - exact Hm.
  - exact Hf.
  - exact Hl.
  - rewrite Hd. by eapply pre_first_of_kind.
  - rewrite Hd. by eapply uninit_part.
  - intros Hx. rewrite Hx in Hu. destruct Hu as (v1 & v2 & V1 & V2 & ->). by apply of_kind_all.
  - intros Hx. rewrite Hx, app_nil_r in Hfr. exact Hfr.
  - intros Hx. unfold reloads_begun in Hre. rewrite Hx, app_nil_r, Nat.add_0_r in Hre. exact Hre.
Qed.

(** ** The end of the server *)

(** The turns of the main goroutine left once the loop has ended; [n] is the
    number of modules. *)
Definition turns_left (n : nat) (c : mainCode) : nat :=
  match c with
  | PFini1 l => (length l + n + 2)%nat
  | PFini2 l => S (length l)
  | _ => O
  end.

Lemma turns_left_main n p p' : looping (pmain p) = false -> size (modules (pw p)) = n -> main_step p p' ->
  looping (pmain p') = false /\ (turns_left n (pmain p') < turns_left n (pmain p))%nat.
Proof.
  intros Hl Hn Hs. destruct Hs as [p l E Hr|p x m l E|p E|p l E Eg Hr|p x m l E|p l E Hr|p x m l E|p l p' E _ Hd];
    rewrite E in *; try done.
  - unfold uninit_turn. repeat case_match; cbn; (split; [done|lia]).
  - cbn. split; [done|]. rewrite (ranges_length _ _ Hr). lia.
  - unfold uninit_turn. repeat case_match; cbn; (split; [done|lia]).
  - unfold destroy_turn in Hd. repeat case_match; simplify_eq; cbn; (split; [done|lia]).
Qed.

Lemma sig_step_main p p' : sig_step p p' -> pmain p' = pmain p.
Proof. by destruct 1. Qed.

Section Ending.
Context (mods : gmap string ServerModule) (ps : pluginState string inst) (tr0 : list mevent).
Hypothesis destroys : forall l, ranges (insts ps) l -> exists r, Plugin.Destroy l ps = Done r.

Lemma main_progress p : life mods ps tr0 p -> looping (pmain p) = false -> over (pmain p) = false ->
  exists p', main_step p p'.
Proof.
  intros Hp Hl Ho. destruct (pmain p) as [|l|l|l|err|msg] eqn:E; try done.
  - destruct l as [|[n m] l]; eexists; [eapply main_fini2; [done|apply Permutation_refl]|by eapply main_uninit1].
  - destruct l as [|[n m] l]; [|eexists; by eapply main_uninit2].
    pose proof (life_plugins _ _ _ _ Hp) as Hps. rewrite E in Hps. specialize (Hps eq_refl).
    destruct (destroys (map_to_list (insts ps))) as [[e s] Hd]; [apply Permutation_refl|].
    eexists. eapply (main_destroy p (map_to_list (insts ps))); [done|rewrite Hps; apply Permutation_refl|].
    unfold destroy_turn. by rewrite Hps, Hd.
Qed.

Lemma main_no_crash p p' : life mods ps tr0 p -> over (pmain p) = false -> main_step p p' ->
  forall msg, pmain p' <> PCrash msg.
Proof.
  intros Hp Ho Hs msg. destruct Hs as [p l E Hr|p x m l E|p E|p l E Eg Hr|p x m l E|p l E Hr|p x m l E|p l p' E Hr Hd];
    try done; try (unfold uninit_turn; by repeat case_match).
  pose proof (life_plugins _ _ _ _ Hp Ho) as Hps. rewrite Hps in Hr.
  unfold destroy_turn in Hd. rewrite Hps in Hd. destruct (destroys l Hr) as [[e s] Hs]. rewrite Hs in Hd. by simplify_eq.
Qed.

(** Left to itself, the main goroutine ends the process. *)
Lemma fini_exits k : forall p, (turns_left (size mods) (pmain p) <= k)%nat -> life mods ps tr0 p ->
  looping (pmain p) = false -> over (pmain p) = false ->
  exists p' err, rtc proc_step p p' /\ pmain p' = PExit err.
Proof.
  induction k as [|k IH]; intros p Hk Hp Hl Ho.
  { destruct (pmain p); cbn in *; try done; lia. }
  destruct (main_progress p Hp Hl Ho) as [p1 Hs].
  destruct (turns_left_main (size mods) p p1 Hl) as [Hl1 Hlt]; [by rewrite (life_mods _ _ _ _ Hp)|done|].
  pose proof (main_no_crash p p1 Hp Ho Hs) as Hc.
  destruct (over (pmain p1)) eqn:Ho1.
  - destruct (pmain p1) as [| | | |err|msg] eqn:E1; try done; [|by destruct (Hc msg)].
    exists p1, err. split; [apply rtc_once; by apply proc_main|done].
  - destruct (IH p1) as (p' & err & Hr & He); [lia|by eapply life_main_step|done|done|].
    exists p', err. split; [|done]. eapply rtc_l; [by apply proc_main|done].
Qed.
End Ending.

(** The main goroutine finishes its frame. *)
Lemma frame_ends l : forall p, pmain p = PFrame l ->
  exists p', rtc proc_step p p' /\ pmain p' = PLoop /\ psig p' = psig p /\ modules (pw p') = modules (pw p).
Proof.
  induction l as [|[n m] l IH]; intros p E.
  - exists (at_main PLoop p). split; [|done]. apply rtc_once, proc_main. by apply main_frame_end.
  - destruct (IH (at_main (PFrame l) (called (MMainloop (GetName m)) p)) eq_refl) as (p' & Hr & H1 & H2 & H3).
    exists p'. split; [|done]. eapply rtc_l; [apply proc_main; by eapply main_call|done].
Qed.

Lemma quit_leaves_loop p : looping (pmain p) = true -> psig p = GQuit ->
  exists p', rtc proc_step p p' /\ looping (pmain p') = false /\ over (pmain p') = false.
Proof.
  intros Hl Hg.
  assert (exists p1, rtc proc_step p p1 /\ pmain p1 = PLoop /\ psig p1 = GQuit) as (p1 & Hr & E1 & E2).
  { destruct (pmain p) as [|l| | | |] eqn:E; try done; [by exists p|].
    destruct (frame_ends l p E) as (p1 & Hr & H1 & H2 & _). exists p1. by rewrite H2. }
  eexists. split; [eapply rtc_r; [exact Hr|]|].
  - apply proc_main. eapply main_finish; [done|done|apply Permutation_refl].
  - done.
Qed.

(** The signal goroutine finishes a reload. *)
Lemma reload_ends l : forall p, psig p = GReload l -> over (pmain p) = false ->
  exists p', rtc proc_step p p' /\ psig p' = GIdle /\ pmain p' = pmain p /\ psigs p' = psigs p.
Proof.
  induction l as [|[n m] l IH]; intros p E Ho.
  - eexists. split; [apply rtc_once, proc_sig; [done|by apply sig_reload_end]|done].
  - destruct (IH (at_sig (GReload l) (called (MReload (GetName m)) p)) eq_refl Ho) as (p' & Hr & H1 & H2 & H3).
    exists p'. split; [|done]. eapply rtc_l; [apply proc_sig; [done|by eapply sig_call]|done].
Qed.

Lemma queued_quit_handled q : forall p, queue (psigs p) = q -> Forall (fun s => is_Some (handlers !! s)) q ->
  over (pmain p) = false -> psig p = GIdle -> (exists s, s ∈ q /\ handlers !! s = Some HQuit) ->
  exists p', rtc proc_step p p' /\ psig p' = GQuit /\ pmain p' = pmain p.
Proof.
  induction q as [|s q IH]; intros p Hq Hf Ho Hg (s0 & Hin & Hs0); [by apply not_elem_of_nil in Hin|].
  apply Forall_cons in Hf as [[[] Hh] Hf].
  - eexists. split; [apply rtc_once, proc_sig; [done|]|].
    + eapply sig_quit; [done|]. unfold handleNext. by rewrite Hq, Hh.
    + done.
  - apply elem_of_cons in Hin as [->|Hin]; [congruence|].
    pose (p1 := MkProc (pmain p) (GReload (map_to_list (modules (pw p)))) (MkListener (subscribed (psigs p)) q)
                  (reload_conf (fun _ => Err "no such file or directory") (pw p)) (pframes p) (preloads p)).
    assert (H1 : proc_step p p1).
    { apply proc_sig; [done|]. eapply sig_reload; [done| |apply Permutation_refl].
      unfold handleNext. by rewrite Hq, Hh. }
    destruct (reload_ends _ p1 eq_refl Ho) as (p2 & Hr2 & E1 & E2 & E3).
    destruct (IH p2) as (p3 & Hr3 & E4 & E5); [by rewrite E3|done|by rewrite E2|done|by exists s0|].
    exists p3. split; [|by rewrite E5]. eapply rtc_l; [exact H1|]. by etrans.
Qed.

(** A request to quit is handled after what is queued before it. *)
Lemma quit_handled w p : rtc proc_step (proc_start w) p -> over (pmain p) = false ->
  SIGINT ∈ queue (psigs p) \/ SIGUSR1 ∈ queue (psigs p) \/ psig p = GQuit ->
  exists p', rtc proc_step p p' /\ psig p' = GQuit /\ pmain p' = pmain p.
Proof.
  intros Hr Ho Hq. destruct (sys_inv_reachable _ (proc_refines_sys w p Hr)) as [_ Hi]. cbn in Hi.
  assert (Hin : psig p <> GQuit -> exists s, s ∈ queue (psigs p) /\ handlers !! s = Some HQuit).
  { intros Hg. destruct Hq as [Hq|[Hq|Hq]]; [by eexists|by eexists|done]. }
  destruct (psig p) as [|l|] eqn:Eg; [| |by exists p].
  - by apply (queued_quit_handled _ p eq_refl Hi Ho Eg), Hin.
  - destruct (reload_ends l p Eg Ho) as (p0 & Hr0 & F1 & F2 & F3).
    destruct (queued_quit_handled _ p0 eq_refl) as (p1 & H1 & H2 & H3); rewrite ?F2, ?F3; [done|done|done|by apply Hin|].
    exists p1. rewrite H3, F2. split; [by etrans|done].
Qed.

(** Every plugin instance of a running server has its factory. *)
Lemma Mainloop_kept l : forall s s' : pluginState string inst, Plugin.Mainloop l s = Done s' ->
  factories s' = factories s /\ insts s' = insts s.
Proof.
  induction l as [|[k i] l IH]; intros s s' Hm; cbn [Plugin.Mainloop] in Hm; [by simplify_eq|].
  destruct (getPluginFactoryByKey k s); [|done]. by apply IH in Hm.
Qed.

Lemma main_start_managed env ml w w1 : insts (plugins w) = ∅ -> main_start env ml w = Done (Running w1) ->
  managed (plugins w1).
Proof.
  intros He Hs. unfold main_start in Hs. apply bind_Done_inv in Hs as (e & Hi & Hs).
  destruct e as [[err|] w0|]; [done| |done]. apply bind_Done_inv in Hs as (s & Hm & Hs). simplify_eq.
  apply Mainloop_kept in Hm as [Hf Hin]. cbn. unfold managed. rewrite Hf, Hin. change (managed (plugins w0)).
  unfold App.Init in Hi. destruct (Config.Init _ _) as [[e|] d]; [by simplify_eq|].
  destruct (GetConfig d) as [c|]; [|done].
  destruct (initInputParam _ _ _) as [[e w2|]|] eqn:Hp; [|by simplify_eq|].
  { unfold initInputParam in Hp. repeat case_bool_decide; by simplify_eq. }
  destruct (KillPre _ _) as [e o]. cbn -[initTcp initModules Plugin.Init] in Hi.
  apply bind_Done_inv in Hi as ([err p] & Hpi & Hi). destruct err; [by simplify_eq|].
  apply Init_managed in Hpi; [|intros k; rewrite He, lookup_empty; by intros []].
  apply bind_Done_inv in Hi as (p' & Ht & Hi). unfold initTcp in Ht.
  destruct (GetPluginInst _ _ _) as [[t| |]|] eqn:Hg; try done. destruct (Tcp.Init _ _ t) as [e1 t1]. simplify_eq.
  assert (plugins w0 = registerPluginInst (constructPluginKey "transport" "tcp") (TcpInst t1) p) as ->.
  { unfold initModules in Hi. repeat case_match; by simplify_eq. }
  intros k. cbn. destruct (decide (k = constructPluginKey "transport" "tcp")) as [->|Hne].
  - intros _. apply Hpi. by eexists.
  - rewrite lookup_insert_ne by done. apply Hpi.
Qed.

(** C20. The server stops.  In every reachable state of a server whose plugins'
    [Destroy] returns: while the loop runs and SIGINT or SIGUSR1 is queued or being
    handled, the goroutines can go on until the process exits; once the loop
    has ended, the main goroutine can always go on, every turn of it brings
    the exit nearer, and neither signals nor reloads ever put it off: at most
    two turns per module and two more are left. *)
Theorem server_stops (env : startEnv) (ml : list (string * inst)) (w w1 : world) (p : proc) :
  mtrace w = [] -> insts (plugins w) = ∅ -> main_start env ml w = Done (Running w1) ->
  (forall k f i, factories (plugins w1) !! k = Some f -> exists e, fDestroy f i = Done e) ->
  rtc proc_step (proc_start w1) p -> over (pmain p) = false ->
  let left q := turns_left (size (modules w)) (pmain q) in
  (looping (pmain p) = true -> SIGINT ∈ queue (psigs p) \/ SIGUSR1 ∈ queue (psigs p) \/ psig p = GQuit ->
     exists p' err, rtc proc_step p p' /\ pmain p' = PExit err) /\
  (looping (pmain p) = false ->
     (left p <= 2 * size (modules w) + 2)%nat /\ (exists p', main_step p p') /\
     forall p', proc_step p p' -> (left p' <= left p)%nat /\ (main_step p p' -> (left p' < left p)%nat)).
Proof.
  intros Ht Hin Hs Hf Hr Ho left. destruct (main_start_life env ml w w1 Hs Ht) as [_ H0].
  assert (Hd : forall l, ranges (insts (plugins w1)) l -> exists r, Plugin.Destroy l (plugins w1) = Done r).
  { intros l Hl. eexists. apply Destroy_managed; [by eapply main_start_managed| |done].
    apply Forall_forall. intros [k i] Hx. apply (ranges_lookup _ _ _ _ Hl) in Hx. by exists i. }
  pose proof (life_reachable _ _ _ _ _ Hr H0) as Hp. split.
  - intros Hl Hq.
    destruct (quit_handled w1 p Hr Ho Hq) as (p1 & Hr1 & E1 & E2).
    destruct (quit_leaves_loop p1) as (p2 & Hr2 & L2 & O2); [by rewrite E2|done|].
    assert (Hr12 : rtc proc_step p p2) by by etrans.
    destruct (fini_exits (modules w) _ (mtrace w1) Hd _ p2 (le_n _)) as (p3 & err & Hr3 & E3); [by eapply life_reachable|done|done|].
    exists p3, err. split; [by etrans|done].
  - intros Hl. split; [|split].
    + pose proof (life_uninit _ _ _ _ Hp) as Hu. unfold left. destruct (pmain p) as [|l|l|l|err|msg]; try done; cbn.
      * destruct Hu as (u & Hu & _). apply ranges_length in Hu. rewrite length_app in Hu. lia.
      * destruct Hu as (u1 & u & _ & Hu & _). apply ranges_length in Hu. rewrite length_app in Hu. lia.
    + by eapply main_progress.
    + assert (Hm : forall p', main_step p p' -> (left p' < left p)%nat).
      { intros p' Hp'. apply turns_left_main; [done|by rewrite (life_mods _ _ _ _ Hp)|done]. }
      intros p' Hst. split; [|by apply Hm]. destruct Hst as [p sig _|p p' Hx|p p' _ Hx]; [done|by apply Nat.lt_le_incl, Hm|].
      unfold left. by rewrite (sig_step_main _ _ Hx).
Qed.

(** A reload can reach a module that is already un-initialised: the signal
    goroutine keeps handling signals while the main goroutine runs [Fini].
    Any pre-init module of any running server can be reloaded after its
    [UnInit]. *)
Theorem reload_after_uninit (w1 : world) (n : string) (m : ServerModule) :
  modules w1 !! n = Some m -> IsPreInit m = true -> mUnInit m = None ->
  exists p tr, rtc proc_step (proc_start w1) p /\
    mtrace (pw p) = tr ++ [MUnInit (GetName m); MReload (GetName m)].
Proof.
  intros Hl Hp Hu.
  assert (exists rest, ranges (modules w1) ((n, m) :: rest)) as [rest Hr].
  { apply elem_of_map_to_list in Hl. apply list_elem_of_split in Hl as (a & b & Hab). exists (a ++ b).
    unfold ranges. rewrite Hab. apply Permutation_middle. }
  pose (l0 := MkListener (dom handlers) []).
  assert (Hd : forall s, handlers !! s <> None -> deliver s l0 = MkListener (dom handlers) [s]).
  { intros s Hs. unfold deliver, l0. cbn [subscribed queue]. rewrite bool_decide_true; [done|].
    by apply elem_of_dom, not_eq_None_Some. }
  exists (at_sig (GReload rest) (called (MReload (GetName m))
    (MkProc (PFini1 rest) (GReload ((n, m) :: rest)) l0 (reload_conf (fun _ => Err "")
       (set_mtrace w1 (mtrace w1 ++ [MUnInit (GetName m)]))) 0 0))), (mtrace w1).
  split.
  - eapply rtc_l; [by apply (proc_arrive _ SIGINT)|]. cbn [psigs proc_start pmain psig pw pframes preloads].
    rewrite Hd by by rewrite handlers_lookup.
    eapply rtc_l; [apply proc_sig; [done|eapply sig_quit; [done|by vm_compute]]|].
    eapply rtc_l; [apply proc_main, (main_finish _ ((n, m) :: rest)); done|].
    eapply rtc_l; [apply proc_main; by eapply main_uninit1|]. unfold uninit_turn. rewrite Hp, Hu. cbn [Bool.eqb].
    eapply rtc_l; [by apply (proc_arrive _ SIGUSR2)|]. cbn.
    change (MkListener (dom handlers) []) with l0. rewrite Hd by by rewrite handlers_lookup.
    eapply rtc_l; [apply proc_sig; [done|eapply sig_reload; [done|by vm_compute|exact Hr]]|].
    apply rtc_once, proc_sig; [done|]. by eapply sig_call.
  - cbn. unfold reload_conf, App.Reload. destruct (Config.Reload _ _) as [e d]. cbn.
    by rewrite app_nil_r, <- app_assoc.
Qed.

(** ** Witnesses *)

Definition demo_running : world :=
  match main_start demo_env [] demo_world with Done (Running w) => w | _ => demo_world end.
Definition demo_listener : listener := MkListener (dom handlers) [].

(** One frame. *)
Definition demo_frame : proc :=
  MkProc PLoop GIdle demo_listener (set_mtrace demo_running (mtrace demo_running ++ [MMainloop "a"; MMainloop "b"])) 1 0.

Definition demo_order : list (string * ServerModule) :=
  [("a", MkServerModule "a" true None None); ("b", MkServerModule "b" false None None)].

Lemma demo_ranges : ranges (modules demo_running) demo_order.
Proof. unfold ranges. replace (map_to_list (modules demo_running)) with demo_order by by vm_compute. done. Qed.

Lemma demo_frame_run : rtc proc_step (proc_start demo_running) demo_frame.
Proof.
  unfold demo_frame. pose proof demo_ranges as Hr. revert Hr. generalize demo_running. intros w Hr.
  eapply rtc_l; [apply proc_main, (main_tick _ demo_order); [done|exact Hr]|].
  eapply rtc_l; [apply proc_main; by eapply main_call|]. eapply rtc_l; [apply proc_main; by eapply main_call|].
  eapply rtc_l; [apply proc_main; by apply main_frame_end|].
  unfold at_main, called, in_world, set_mtrace. cbn. rewrite <- app_assoc. done.
Qed.

Lemma demo_named : named (modules demo_world).
Proof. do 2 apply registerModule_named. intros n m Hn. by rewrite lookup_empty in Hn. Qed.

Lemma server_life_witness :
  mainloops (mtrace (pw demo_frame)) ≡ₚ mjoin (replicate 1 (map_to_list demo_mods).*1) /\
  uninits (mtrace (pw demo_frame)) = [].
Proof.
  destruct (server_life demo_env [] demo_world demo_running demo_frame demo_named) as (i & mid & fin & H1 & H2 & H3 & H4 & H5 & H6 & H7 & H8 & H9 & H10 & H11).
  - reflexivity.
  - apply Permutation_refl.
  - apply Permutation_refl.
  - vm_compute. reflexivity.
  - exact demo_frame_run.
  - split; [exact (H10 eq_refl)|reflexivity].
Defined.

Definition demo_quitting : proc :=
  MkProc PLoop GIdle (MkListener (dom handlers) [SIGINT]) demo_running 0 0.

Lemma server_stops_witness : exists p' err, rtc proc_step demo_quitting p' /\ pmain p' = PExit err.
Proof.
  apply (server_stops demo_env [] demo_world demo_running demo_quitting).
  - reflexivity.
  - reflexivity.
  - vm_compute. reflexivity.
  - intros k f i Hf. change (factories (plugins demo_running)) with (factories (plugins demo_world)) in Hf.
    unfold demo_world, RegisterPluginFactory in Hf. cbn in Hf.
    apply lookup_insert_Some in Hf as [[_ <-]|[_ Hf]]; [by exists None|by rewrite lookup_empty in Hf].
  - apply rtc_once. apply (proc_arrive (proc_start demo_running) SIGINT). reflexivity.
  - reflexivity.
  - reflexivity.
  - left. by_decide.
Defined.

Lemma reload_after_uninit_witness :
  exists p tr, rtc proc_step (proc_start demo_running) p /\ mtrace (pw p) = tr ++ [MUnInit "a"; MReload "a"].
Proof.
  apply (reload_after_uninit demo_running "a" (MkServerModule "a" true None None)); reflexivity.
Defined.
