(* ===== verification/ServerNet.v ===== *)
(** * The server process with its connections

    [Server] and [Conns] put together: the main goroutine from the start of the
    transport in [serverApp.Init] on, the signal goroutine, and the goroutines of
    the transport over the registry of handlers, which the [Init] of the
    modules fills while the transport already accepts.  The registry is taken
    to change only there.  [Uninit] of the transport is called by nobody. *)

From S2P Require Import Prelude Uid TransportCodec Tcp Msg Conns Process Plugin Config Signal App Server.

(** Where the main goroutine is: in one of the loops of [Init] over the modules
    ([pre]: the first), after the start, or ended by a panic. *)
Inductive phase :=
  | Starting (pre : bool) (l : list (string * ServerModule)) (w : world)
  | Serving (p : proc)
  | Failed (msg : string).

Definition running (c : phase) : bool :=
  match c with Starting _ _ _ => true | Serving p => negb (over (pmain p)) | Failed _ => false end.

Section Whole.
Context {Message : Type} `{ProtoLib Message} {S : Type}.
Context (cfg0 : TcpTransportCfg) (registers : string -> MsgHandlerMgr Message S -> MsgHandlerMgr Message S).

Record whole := MkWhole { code : phase; registry : MsgHandlerMgr Message S; net : netState S }.

(** The [Init] of module [m] in the loop of its kind. *)
Definition init_turn (pre : bool) (m : ServerModule) (l : list (string * ServerModule)) (w : world)
    (reg : MsgHandlerMgr Message S) : phase * MsgHandlerMgr Message S :=
  if Bool.eqb (IsPreInit m) pre then
    let w := set_mtrace w (mtrace w ++ [MInit (GetName m)]) in
    match mInit m with
    | Some err => (Failed err, reg)
    | None => (Starting pre l w, registers (GetName m) reg)
    end
  else (Starting pre l w, reg).

(** [Mainloop] up to its loop. *)
Definition mainloop_turn (ml : list (string * inst)) (w : world) : option phase :=
  match Plugin.Mainloop ml (plugins w) with
  | Done p => Some (Serving (proc_start (set_plugins w p)))
  | Panic msg => Some (Failed msg)
  | Hang => None
  end.

Inductive whole_step : whole -> whole -> Prop :=
| whole_init s pre n m l w : code s = Starting pre ((n, m) :: l) w -> crashed (net s) = None ->
    whole_step s (MkWhole (init_turn pre m l w (registry s)).1 (init_turn pre m l w (registry s)).2 (net s))
| whole_second s w l : code s = Starting true [] w -> crashed (net s) = None -> ranges (modules w) l ->
    whole_step s (MkWhole (Starting false l w) (registry s) (net s))
| whole_mainloop s w ml c : code s = Starting false [] w -> crashed (net s) = None -> mainloop_turn ml w = Some c ->
    whole_step s (MkWhole c (registry s) (net s))
| whole_proc s p p' : code s = Serving p -> crashed (net s) = None -> proc_step p p' ->
    whole_step s (MkWhole (Serving p') (registry s) (net s))
| whole_net s net' : running (code s) = true -> net_step cfg0 (eventTcp (registry s)) (net s) net' ->
    ctxCancel net' = ctxCancel (net s) -> whole_step s (MkWhole (code s) (registry s) net').

(** ** The start *)

(** The registrations of the modules one kind of loop calls. *)
Definition register_all (pre : bool) (l : list (string * ServerModule)) (reg : MsgHandlerMgr Message S) :=
  foldl (fun reg n => registers n reg) reg (of_kind pre l).

Lemma init_loop pre l : forall w reg st tr, crashed st = None -> moduleLoop mInit MInit pre l (mtrace w) = (None, tr) ->
  rtc whole_step (MkWhole (Starting pre l w) reg st)
    (MkWhole (Starting pre [] (set_mtrace w tr)) (register_all pre l reg) st).
Proof.
  induction l as [|[n m] l IH]; intros w reg st tr Hc Hl; cbn [moduleLoop] in Hl.
  { injection Hl as <-. destruct w. apply rtc_refl. }
  pose proof (whole_init (MkWhole (Starting pre ((n, m) :: l) w) reg st) pre n m l w eq_refl Hc) as Hs.
  unfold init_turn in Hs. unfold register_all, of_kind. rewrite filter_cons. cbn [snd]. destruct (Bool.eqb (IsPreInit m) pre) eqn:E.
  - destruct (mInit m); [done|]. apply Bool.eqb_prop in E. rewrite decide_True by done. eapply rtc_l; [exact Hs|].
    exact (IH (set_mtrace w (mtrace w ++ [MInit (GetName m)])) (registers (GetName m) reg) st tr Hc Hl).
  - apply Bool.eqb_false_iff in E. rewrite decide_False by done. eapply rtc_l; [exact Hs|]. by apply IH.
Qed.

(** A start of the server that succeeds is a run of the whole in which no
    connection moves: the registry is then that of all modules. *)
Lemma start_runs env ml w w1 reg st : main_start env ml w = Done (Server.Running w1) ->
  ranges (modules w) (e_mods2 env) -> crashed st = None ->
  exists w0, modules w0 = modules w /\ mtrace w0 = mtrace w /\
    rtc whole_step (MkWhole (Starting true (e_mods1 env) w0) reg st)
    (MkWhole (Serving (proc_start w1)) (register_all false (e_mods2 env) (register_all true (e_mods1 env) reg)) st).
Proof.
  intros Hs R2 Hc. unfold main_start in Hs. apply bind_Done_inv in Hs as (e & Hi & Hs).
  destruct e as [[err|] w2|]; [done| |done]. apply bind_Done_inv in Hs as (p & Hml & [= <-]).
  apply Init_modules in Hi as (w0 & Ht & Hm & Hi). cbn [modules mtrace] in Hm, Ht. unfold initModules in Hi.
  destruct (moduleLoop mInit MInit true _ _) as [[e1|] tr1] eqn:H1; [by simplify_eq|].
  destruct (moduleLoop mInit MInit false _ _) as [e2 tr2] eqn:H2. injection Hi as -> <-.
  exists w0. split; [done|]. split; [done|]. etrans; [by apply init_loop|]. eapply rtc_l; [apply (whole_second _ (set_mtrace w0 tr1) (e_mods2 env)); [done|done|by rewrite <- Hm in R2]|].
  cbn [registry net]. etrans; [by apply (init_loop false (e_mods2 env) (set_mtrace w0 tr1))|].
  apply rtc_once, (whole_mainloop (MkWhole (Starting false [] (set_mtrace w0 tr2)) _ st) (set_mtrace w0 tr2) ml); [done|done|].
  unfold mainloop_turn. by rewrite Hml.
Qed.

Lemma register_all_snoc pre l n m reg : register_all pre (l ++ [(n, m)]) reg =
  if Bool.eqb (IsPreInit m) pre then registers (GetName m) (register_all pre l reg) else register_all pre l reg.
Proof.
  unfold register_all. rewrite of_kind_app, of_kind_one. destruct (Bool.eqb (IsPreInit m) pre); [by rewrite foldl_snoc|by rewrite app_nil_r].
Qed.

(** *** Where a start is, modules initialised and handlers registered *)

(** The modules are ranged over as [l1], then as some [l2]. *)
Definition booted (mods : gmap string ServerModule) (l1 : list (string * ServerModule)) (s : whole) : Prop :=
  let inits u1 u2 := MInit <$> (of_kind true u1 ++ of_kind false u2) in
  let handlers u1 u2 := register_all false u2 (register_all true u1 newMsgHandlerMgr) in
  match code s with
  | Starting true l w =>
      exists u, l1 = u ++ l /\ modules w = mods /\ mtrace w = inits u [] /\ registry s = handlers u []
  | Starting false l w =>
      exists u, ranges mods (u ++ l) /\ modules w = mods /\ mtrace w = inits l1 u /\ registry s = handlers l1 u
  | Serving p =>
      exists u w, ranges mods u /\ modules w = mods /\ mtrace w = inits l1 u /\ registry s = handlers l1 u /\
        rtc proc_step (proc_start w) p
  | Failed _ => True
  end.

Lemma booted_step mods l1 s s' : whole_step s s' -> booted mods l1 s -> booted mods l1 s'.
Proof.
  intros Hs Hb. destruct Hs as [s pre n m l w E _|s w l E _ Hl|s w ml c E _ Hm|s p p' E _ Hp|s net' _ _ _]; unfold booted in *;
    cbn [code registry]; rewrite ?E in Hb; [| | | |done].
  - unfold init_turn. destruct pre.
    + destruct Hb as (u & -> & H2 & H3 & H4). destruct (Bool.eqb (IsPreInit m) true) eqn:K; [destruct (mInit m); [done|]|];
        cbn [fst snd]; (exists (u ++ [(n, m)]); rewrite <- app_assoc; split; [done|]; split; [done|]; cbn;
        rewrite register_all_snoc, K, of_kind_app, of_kind_one, K, H3, H4; cbn; by rewrite ?app_nil_r, ?fmap_app).
    + destruct Hb as (u & H1 & H2 & H3 & H4). destruct (Bool.eqb (IsPreInit m) false) eqn:K; [destruct (mInit m); [done|]|];
        cbn [fst snd]; (exists (u ++ [(n, m)]); rewrite <- app_assoc; split; [done|]; split; [done|]; cbn;
        rewrite register_all_snoc, K, of_kind_app, of_kind_one, K, H3, H4; cbn; by rewrite ?app_nil_r, ?fmap_app, <- ?app_assoc).
  - destruct Hb as (u & -> & H2 & H3 & H4). exists []. cbn [app]. rewrite (app_nil_r u). split; [by rewrite <- H2|done].
  - destruct Hb as (u & H1 & H2 & H3 & H4). rewrite app_nil_r in H1. unfold mainloop_turn in Hm.
    destruct (Plugin.Mainloop ml (plugins w)) as [q|msg|]; simplify_eq; [|done].
    exists u, (set_plugins w q). by split_and!.
  - destruct Hb as (u & w & H1 & H2 & H3 & H4 & H5). exists u, w. split_and!; [done..|]. by eapply rtc_r.
Qed.

(** As long as modules are still to be initialised. *)
Definition registering (c : phase) : bool :=
  match c with Starting false [] _ => false | Starting _ _ _ => true | _ => false end.

Definition unopened (g : goroutine) : Prop := match g with GOpening _ => True | _ => False end.

(** A step after which no connection has been opened to handlers that are still
    being registered.  Connections are accepted at any time. *)
Definition patient_step (s s' : whole) : Prop :=
  whole_step s s' /\ (registering (code s') = true -> Forall unopened (gs (net s'))).
End Whole.
Arguments whole Message S : clear implicits.

(** C38. The transport accepts before the modules have registered their handlers.
    Whatever the modules, the plugins and the client: when the first client
    connects while [serverApp.Init] has not yet called the first module, the
    process can crash on the call of a nil handler, with no module
    initialised, and nothing takes another step. *)
Theorem early_client_crashes_start {Message : Type} `{ProtoLib Message} {S : Type} (cfg0 : TcpTransportCfg)
    (registers : string -> MsgHandlerMgr Message S -> MsgHandlerMgr Message S) (l : list (string * ServerModule)) (w : world)
    (conn : TCPConn) (evs : list acceptEvent) (ins : uidGeneratorIns) (s0 : S) :
  exists s, rtc (whole_step cfg0 registers)
      (MkWhole (Starting true l w) newMsgHandlerMgr (net_start (Accepted conn :: evs) ins s0)) s /\
    code s = Starting true l w /\ crashed (net s) = Some "nil function call" /\
    forall s', ~ whole_step cfg0 registers s s'.
Proof.
  destruct (NewTcpConn 0 ins conn) as [c ins'] eqn:En.
  set (msg := "nil function call"). pose (none := newMsgHandlerMgr : MsgHandlerMgr Message S).
  set (c' := (Close_left (env_at cfg0 (eventTcp none) 0 false) 0 false c s0).1).
  pose (at_net := fun g x => MkWhole (Starting true l w) none (MkNet [g] s0 false (ASelect evs) ins' x)).
  exists (at_net (GDying c' msg) (Some msg)). split; [|split; [done|split; [done|]]].
  - eapply rtc_l; [by apply whole_net; [|by eapply net_select|]|].
    eapply rtc_l; [apply whole_net; [done|by apply (net_accept _ _ _ 0)|]|]; cbn [code registry net]; unfold accept; cbn; rewrite En; [done|].
    assert (Hturn : forall g g', turn cfg0 (eventTcp none) 0 false g s0 = Done (g', s0) ->
      whole_step cfg0 registers (at_net g None) (at_net g' None)).
    { intros g g' Ht. apply (whole_net cfg0 registers (at_net g None)); [done| |done]. by apply (net_turn _ _ (net (at_net g None)) 0 0%nat g). }
    apply (rtc_l _ _ (at_net (GPanicking c msg) None)); [by apply Hturn|].
    apply (rtc_l _ _ (at_net (GDying c' msg) None)).
    { apply Hturn. unfold c'. cbn [turn]. unfold closing, Close, Close_left. by destruct (bufio_Flush (writer c)) as [e wr]. }
    apply rtc_once. apply (whole_net cfg0 registers (at_net (GDying c' msg) None)); [done| |done].
    by apply (net_panic _ _ (net (at_net (GDying c' msg) None)) 0 0%nat (GDying c' msg)).
  - intros s' Hs. inversion Hs as [? ? ? ? ? ? _ Hx|? ? ? _ Hx|? ? ? ? _ Hx|? ? ? _ Hx|? ? _ Hn]; subst; try discriminate.
    by inversion Hn.
Qed.

(** ** The server with its clients *)

Lemma opening_turn {S} cfg0 (eh : EventHandler S) now ctx c s g' s' : turn cfg0 eh now ctx (GOpening c) s = Done (g', s') -> ~ unopened g'.
Proof.
  cbn [turn]. unfold panicking. destruct (OnConnOpened _ _ _) as [[s1 acts]|w|]; cbn [on_panic]; [|intros [= <- _] []|done].
  destruct (perform _ _ _ _ _) as [[c1 s2]|w|]; cbn [on_panic]; [intros [= <- _] []|intros [= <- _] []|done].
Qed.

Section Served.
Context {Message : Type} `{L : ProtoLaws Message} {S : Type} (cfg0 : TcpTransportCfg).
Context (registers : string -> MsgHandlerMgr Message S -> MsgHandlerMgr Message S).
Context (start : Z -> S -> S) (stop : Z -> unit -> S -> S * list bytes).
Context (fs : gmap Z (Z -> CSHead * Message -> S -> S * list bytes)).
Context (reqs : nat -> list (CSHead * Message)) (ends : nat -> option rerr) (s0 : S).
Context (mods : gmap string ServerModule) (l1 : list (string * ServerModule)).
Hypothesis Hfs : forall msgid f, fs !! msgid = Some f -> forall id r s, Forall packet_ok (f id r s).2.
Hypothesis Hstop : forall id s, Forall packet_ok (stop id () s).2.
Hypothesis Hreg : forall l2, ranges mods l2 ->
  register_all registers false l2 (register_all registers true l1 newMsgHandlerMgr) = mgr_of start stop fs.

Let linear_now := linear start (dispatch fs) (fun id s => stop id () s) reqs ends s0.

(** The connections, while none is opened and after. *)
Record online (s : whole Message S) : Prop := {
  online_booted : booted registers mods l1 s;
  online_linear : exists h, linear_now h (net s);
  online_ctx : ctxCancel (net s) = false;
  online_waits : registering (code s) = true -> Forall unopened (gs (net s))
}.

(** A step of the transport that opens no connection keeps the history. *)
Lemma unopened_step eh h st st' : net_step cfg0 eh st st' -> ctxCancel st' = ctxCancel st ->
  Forall unopened (gs st) -> Forall unopened (gs st') -> linear_now h st -> linear_now h st'.
Proof.
  intros Hs Hx Hu Hu' Hl. destruct Hs as [st evs _ Ha|st now conn evs _ Ha|st t evs _ Ha|st _|st now k g g' s' _ Hk Ht|st now k g why _ Hk Ht].
  - destruct Hl as [H1 H2 H3 H4 H5]. rewrite Ha in H4. split; cbn; try done. by destruct (ctxCancel st).
  - by apply linear_accept.
  - destruct Hl as [H1 H2 H3 H4 H5]. rewrite Ha in H4. split; cbn; try done. by destruct t.
  - destruct Hl as [H1 H2 H3 H4 H5]. cbn in Hx. split; cbn; try done. by rewrite Hx.
  - exfalso. pose proof (proj1 (Forall_lookup _ _) Hu k g Hk) as Hg. destruct g; try done. apply opening_turn in Ht. apply Ht.
    apply (proj1 (Forall_lookup _ _) Hu' k). cbn. apply list_lookup_insert_eq. by eapply lookup_lt_Some.
  - exfalso. pose proof (proj1 (Forall_lookup _ _) Hu k g Hk) as Hg. destruct g; try done. cbn [turn] in Ht.
    destruct (OnConnOpened _ _ _) as [[s1 acts]|w|]; cbn [on_panic] in Ht; [|done|done].
    by destruct (perform _ _ _ _ _) as [[c1 s2]|w|].
Qed.

(** Once every module has registered, the handlers are those of the program. *)
Lemma online_registry s : online s -> running (code s) = true -> registering (code s) = false -> registry s = mgr_of start stop fs.
Proof.
  intros [Hb _ _ _] Hrun Hr. unfold booted in Hb. destruct (code s) as [[] [|x l] w|p|msg]; try done.
  - destruct Hb as (u & H1 & _ & _ & ->). rewrite app_nil_r in H1. by apply Hreg.
  - destruct Hb as (u & w & H1 & _ & _ & -> & _). by apply Hreg.
Qed.

Lemma online_step s s' : patient_step cfg0 registers s s' -> online s -> online s'.
Proof.
  intros [Hs Hw] Ho. pose proof Ho as [Hb [h Hl] Hc Hu]. assert (Hb' : booted registers mods l1 s') by (by eapply booted_step).
  destruct Hs as [s pre n m l w E _|s w l E _ Hx|s w ml c E _ Hx|s p p' E _ Hx|s net' Hrun Hn Hx]; try (split; [done|by exists h|done|done]).
  split; [done| |cbn [net]; by rewrite Hx|done]. cbn [net code] in *. destruct (registering (code s)) eqn:Er.
  - exists h. eapply unopened_step; [exact Hn|done|by apply Hu|by apply Hw|done].
  - rewrite (online_registry s Ho Hrun Er) in Hn. eapply (linear_step (D := mgr_of_dispatches start stop fs Hfs Hstop) _ _ _ cfg0 reqs ends s0 _ (fun _ => True)); [|exact Hn|exact Hl].
    intros k. by apply Forall_true.
Qed.

Lemma online_run s s' : rtc (patient_step cfg0 registers) s s' -> online s -> online s'.
Proof. induction 1 as [|s s1 s2 Hs _ IH]; [done|]. intros Ho. apply IH. by eapply online_step. Qed.
End Served.


(** C39. Messages reach modules that have ended.  When the main goroutine has
    un-initialised every module and is about to destroy the plugins, a packet
    that arrives on a connection is still handed to the handler of its
    module. *)
Theorem messages_after_uninit {Message : Type} `{L : ProtoLaws Message} {S : Type} (cfg0 : TcpTransportCfg)
    (registers : string -> MsgHandlerMgr Message S -> MsgHandlerMgr Message S)
    (start : Z -> S -> S) (stop : Z -> unit -> S -> S * list bytes)
    (fs : gmap Z (Z -> CSHead * Message -> S -> S * list bytes)) (env : startEnv) (ml : list (string * inst)) (w w1 : world)
    (p : proc) (s : whole Message S) (k : nat) (c : tcpConn) (l rest pk : bytes) (e : option rerr) (r : CSHead * Message) :
  (forall msgid f, fs !! msgid = Some f -> forall id r s, Forall packet_ok (f id r s).2) ->
  (forall id s, Forall packet_ok (stop id () s).2) ->
  named (modules w) -> mtrace w = [] -> main_start env ml w = Done (Server.Running w1) ->
  rtc proc_step (proc_start w1) p -> pmain p = PFini2 [] ->
  code s = Serving p -> registry s = mgr_of start stop fs -> crashed (net s) = None ->
  gs (net s) !! k = Some (GReading c) -> open_conn c (connID c) l (wire pk ++ rest) e -> encoded r pk ->
  uninits (mtrace (pw p)) ≡ₚ (map_to_list (modules w)).*1 /\
  exists s', whole_step cfg0 registers s s' /\ code s' = code s /\
    shared (net s') = (dispatch fs (connID c) r (shared (net s))).1.
Proof.
  intros Hfs Hstop Hn Ht Hs Hr Hp Hc Hreg Ha Hg Ho He. split.
  - destruct (main_start_life env ml w w1 Hs Ht) as [_ H0]. pose proof (life_uninit _ _ _ _ (life_reachable _ _ _ _ _ Hr H0)) as Hu.
    rewrite Hp in Hu. destruct Hu as (u1 & u & H1 & H2 & ->). rewrite app_nil_r in H2. by apply of_kind_all.
  - destruct (turn_packet (D := mgr_of_dispatches start stop fs Hfs Hstop) cfg0 _ _ _ _ _ 0 (ctxCancel (net s)) c _ l r pk rest e
      (shared (net s)) Ho He I) as (c' & Hturn & _).
    eexists. split; [apply (whole_net cfg0 registers s); [by rewrite Hc; cbn; rewrite Hp| |]|].
    + rewrite Hreg. apply (net_turn cfg0 _ (net s) 0 k _ _ _ Ha Hg Hturn).
    + done.
    + done.
Qed.

(** ** Witnesses *)

#[local] Existing Instance toy_proto.
#[local] Existing Instance toy_laws.

(** Module "a" registers the handlers. *)
Definition demo_registers (n : string) (reg : MsgHandlerMgr (string * bytes) nat) : MsgHandlerMgr (string * bytes) nat :=
  if String.eqb n "a" then
    let '(_, reg) := RegisterConnMsgHandler CONN_EVENT_START (fun id s => Done (demo_start id s, [])) reg in
    let '(_, reg) := RegisterConnMsgHandler CONN_EVENT_STOP (fun id s => answers demo_stop id () s) reg in
    let '(_, reg) := RegisterClientMsgHandler CSMessageID_cs_login (msg_handler count_login) reg in
    reg
  else reg.

Lemma demo_registered l2 : ranges (modules demo_world) l2 ->
  register_all demo_registers false l2 (register_all demo_registers true (e_mods1 demo_env) newMsgHandlerMgr) =
  mgr_of demo_start demo_stop demo_handlers.
Proof.
  intros Hl. unfold register_all at 1. pose proof (of_kind_perm false _ _ Hl) as Hp.
  assert (Hb : of_kind false (map_to_list (modules demo_world)) = ["b"]) by (by vm_compute). rewrite Hb in Hp.
  apply Permutation_singleton_r in Hp. rewrite Hp. by vm_compute.
Qed.


(** After a quit: both modules have ended, the plugins have not. *)
Definition demo_ended : proc :=
  MkProc (PFini2 []) GIdle demo_listener (set_mtrace demo_running (mtrace demo_running ++ [MUnInit "a"; MUnInit "b"])) 0 0.

Lemma demo_ended_run : rtc proc_step (proc_start demo_running) demo_ended.
Proof.
  unfold demo_ended. pose proof demo_ranges as Hr. revert Hr. generalize demo_running. intros w Hr.
  pose (at_end := fun c w => MkProc c GIdle demo_listener w 0 0). pose (mb := MkServerModule "b" false None None). pose (ma := MkServerModule "a" true None None). pose (b := ("b", mb)).
  pose (w1 := set_mtrace w (mtrace w ++ [MUnInit "a"])).
  apply (rtc_l _ _ (MkProc PLoop GIdle (MkListener (dom handlers) [SIGINT]) w 0 0)); [by apply (proc_arrive (proc_start w) SIGINT)|].
  apply (rtc_l _ _ (MkProc PLoop GQuit demo_listener w 0 0)); [apply proc_sig; [done|]; by apply (sig_quit (MkProc PLoop GIdle (MkListener (dom handlers) [SIGINT]) w 0 0) demo_listener)|].
  apply (rtc_l _ _ (at_end (PFini1 demo_order) w)); [apply proc_main, (main_finish (MkProc PLoop GQuit demo_listener w 0 0) demo_order); [done|done|exact Hr]|].
  apply (rtc_l _ _ (at_end (PFini1 [b]) w1)); [apply proc_main; by apply (main_uninit1 (at_end (PFini1 demo_order) w) "a" ma [b])|].
  apply (rtc_l _ _ (at_end (PFini1 []) w1)); [apply proc_main; by apply (main_uninit1 (at_end (PFini1 [b]) w1) "b" mb [])|].
  apply (rtc_l _ _ (at_end (PFini2 demo_order) w1)); [apply proc_main, (main_fini2 (at_end (PFini1 []) w1) demo_order); [done|exact Hr]|].
  apply (rtc_l _ _ (at_end (PFini2 [b]) w1)); [apply proc_main; by apply (main_uninit2 (at_end (PFini2 demo_order) w1) "a" ma [b])|].
  change [MUnInit "a"; MUnInit "b"] with ([MUnInit "a"] ++ [MUnInit "b"]). rewrite app_assoc.
  apply rtc_once, proc_main. by apply (main_uninit2 (at_end (PFini2 [b]) w1) "b" mb []).
Qed.

Definition demo_late : whole (string * bytes) nat :=
  MkWhole (Serving demo_ended) (mgr_of demo_start demo_stop demo_handlers)
    (MkNet [GReading (fst (NewTcpConn 0 None demo_conn))] 0%nat false (ASelect []) None None).

Lemma messages_after_uninit_witness :
  exists s', whole_step demo_cfg demo_registers demo_late s' /\ shared (net s') = 1%nat.
Proof.
  destruct (messages_after_uninit demo_cfg demo_registers demo_start demo_stop demo_handlers demo_env [] demo_world demo_running
    demo_ended demo_late 0 (fst (NewTcpConn 0 None demo_conn)) [] [] login_packet (Some EOF) login) as (_ & s' & H1 & _ & H2).
  - exact demo_handlers_ok.
  - intros id s. constructor.
  - exact demo_named.
  - reflexivity.
  - vm_compute. reflexivity.
  - exact demo_ended_run.
  - reflexivity.
  - reflexivity.
  - reflexivity.
  - reflexivity.
  - reflexivity.
  - split; reflexivity.
  - apply login_encoded.
  - exists s'. split; [exact H1|]. rewrite H2. reflexivity.
Defined.
