(* ===== verification/PbSupport.v ===== *)
(** * plugin/db/pbsupport: protobuf records as maps of columns

    A record is a message descriptor and the populated fields.  Scalars are
    stored as text, everything else ("blobs": bytes, messages, repeated
    fields) as the field's slice of the wire format.  The protobuf runtime is a
    class of operations; the slices [MarshalToMap] keeps alias the marshalled
    buffer and are modelled as ranges of it.  Fields are proto3 fields without
    presence: setting the zero value unpopulates a field.  Log calls are left
    out. *)

From S2P Require Import Prelude GoStrings.

(** ** Descriptors and values *)

Inductive Kind :=
| BoolKind | EnumKind | Int32Kind | Sint32Kind | Uint32Kind | Int64Kind | Sint64Kind | Uint64Kind
| Sfixed32Kind | Fixed32Kind | FloatKind | Sfixed64Kind | Fixed64Kind | DoubleKind
| StringKind | BytesKind | MessageKind | GroupKind.

#[global] Instance Kind_eq_dec : EqDecision Kind.
Proof. solve_decision. Defined.

Record FieldDescriptor := MkFd { fdName : string; fdNumber : Z; fdKind : Kind; fdRepeated : bool }.

(** [mdPrimaryKey] is the message option tcaplus_primary_key ("" if absent). *)
Record MessageDescriptor := MkMd {
  mdName : string; mdFullName : string; mdFields : list FieldDescriptor; mdPrimaryKey : string
}.

(** The options of the tcaplus service, as pbsupport.go declares them. *)
Inductive optionsType := MessageOptions | FieldOptions.
Inductive goType := TString | TStrings | TUint32 | TBool.
Record ExtensionInfo := MkExt {
  ExtendedType : optionsType; ExtensionType : goType; extField : Z; extName : string; extTag : string; Filename : string
}.

Definition extTypes : list ExtensionInfo :=
  let file := "tcaplusservice.optionv1.proto" in
  [MkExt MessageOptions TString 60000 "tcaplusservice.tcaplus_primary_key" "bytes,60000,opt,name=tcaplus_primary_key" file;
   MkExt MessageOptions TStrings 60001 "tcaplusservice.tcaplus_index" "bytes,60001,rep,name=tcaplus_index" file;
   MkExt MessageOptions TString 60002 "tcaplusservice.tcaplus_field_cipher_suite"
     "bytes,60002,opt,name=tcaplus_field_cipher_suite" file;
   MkExt MessageOptions TString 60003 "tcaplusservice.tcaplus_record_cipher_suite"
     "bytes,60003,opt,name=tcaplus_record_cipher_suite" file;
   MkExt MessageOptions TString 60004 "tcaplusservice.tcaplus_cipher_md5" "bytes,60004,opt,name=tcaplus_cipher_md5" file;
   MkExt MessageOptions TString 60005 "tcaplusservice.tcaplus_sharding_key" "bytes,60005,opt,name=tcaplus_sharding_key" file;
   MkExt MessageOptions TString 60006 "tcaplusservice.tcaplus_customattr" "bytes,60006,opt,name=tcaplus_customattr" file;
   MkExt FieldOptions TUint32 60000 "tcaplusservice.tcaplus_size" "varint,60000,opt,name=tcaplus_size" file;
   MkExt FieldOptions TString 60001 "tcaplusservice.tcaplus_desc" "bytes,60001,opt,name=tcaplus_desc" file;
   MkExt FieldOptions TBool 60002 "tcaplusservice.tcaplus_crypto" "varint,60002,opt,name=tcaplus_crypto" file].

Definition E_TcaplusPrimaryKey : option ExtensionInfo := extTypes !! 0%nat.

#[global] Instance optionsType_eq_dec : EqDecision optionsType.
Proof. solve_decision. Defined.

(** No two options of messages, or of fields, share a number. *)
Lemma extTypes_distinct : NoDup ((fun x => (ExtendedType x, extField x)) <$> extTypes).
Proof. by_decide. Qed.

Inductive Value :=
| VBool (b : bool)
| VInt (n : Z)            (* signed kinds and enums *)
| VUint (n : Z)
| VFloat (text : string)  (* a float, by its canonical text *)
| VString (s : string)
| VBlob (b : list ascii). (* by its wire format *)

Abbreviation Message := (gmap string Value).

Definition ByName (d : MessageDescriptor) (n : string) : option FieldDescriptor :=
  List.find (fun fd => String.eqb (fdName fd) n) (mdFields d).
Definition ByNumber (d : MessageDescriptor) (n : Z) : option FieldDescriptor :=
  List.find (fun fd => fdNumber fd =? n) (mdFields d).

(** The protobuf runtime and float parsing; [valid_blob] says which bytes are
    the wire format of a field. *)
Class ProtoRuntime := {
  valid_blob : FieldDescriptor -> list ascii -> Prop;
  MarshalMsg : MessageDescriptor -> Message -> result error (list ascii);
  ConsumeField : list ascii -> Z * Z;     (* field number, length or a negative code *)
  UnmarshalMerge : MessageDescriptor -> list ascii -> Message -> result error Message;
  merge_left : MessageDescriptor -> list ascii -> Message -> Message;   (* what a failed merge leaves *)
  ParseFloat : string -> option string
}.

Definition blobKind (k : Kind) : bool :=
  match k with BytesKind | MessageKind | GroupKind => true | _ => false end.

Definition increaseAbleKind (k : Kind) : bool :=
  match k with Int32Kind | Uint32Kind | Int64Kind | Sint64Kind | Uint64Kind => true | _ => false end.

Definition IsFdMarshalToBlob (fd : FieldDescriptor) : bool :=
  if fdRepeated fd then true else blobKind (fdKind fd).

(** [protoreflect.Value.String] *)
Definition value_String (v : Value) : string :=
  match v with
  | VBool b => if b then "true" else "false"
  | VInt n => FormatInt n
  | VUint n => FormatUint n
  | VFloat t => t
  | VString s => s
  | VBlob b => of_chars b
  end.

Definition marshalScalar (fd : FieldDescriptor) (v : Value) : string :=
  match fdKind fd, v with
  | BoolKind, VBool true => "1"
  | BoolKind, VBool false => "0"
  | _, _ => value_String v
  end.

(** [strings.Index(fs, ".")] and the part of the string before it. *)
Fixpoint before_dot (l : list ascii) : option (list ascii) :=
  match l with
  | [] => None
  | c :: l => if bool_decide (c = "."%char) then Some [] else
              match before_dot l with None => None | Some p => Some (c :: p) end
  end.

Definition filter_key (d : MessageDescriptor) (fs : string) : option string :=
  match ByName d fs with
  | Some _ => Some fs
  | None =>
      match before_dot (chars fs) with
      | None => None
      | Some p =>
          match ByName d (of_chars p) with
          | Some _ => Some (of_chars p)
          | None => None
          end
      end
  end.

(** [None]: a nil map, no filter. *)
Definition DirtyFilter (d : MessageDescriptor) (fields : list string) : option (gset string) :=
  match fields with
  | [] => None
  | _ => Some (list_to_set (omap (M := list) (filter_key d) fields))
  end.

(** What a column of the result holds: text, or a range of the buffer. *)
Inductive column := CStr (s : string) | CRange (lo hi : Z).

(** [copy] of [src] into the buffer at [at_]. *)
Definition overwrite (buf : list ascii) (at_ : Z) (src : list ascii) : list ascii :=
  take (Z.to_nat at_) buf ++ src ++ drop (Z.to_nat at_ + length src) buf.

Section Runtime.
Context `{ProtoRuntime}.

(** The texts of the populated scalar fields. *)
Definition rawStrMap (d : MessageDescriptor) (msg : Message) : gmap string string :=
  map_imap (fun n v => match ByName d n with
                       | Some fd => if IsFdMarshalToBlob fd then None else Some (marshalScalar fd v)
                       | None => None
                       end) msg.

(** The loop of [MarshalToMap].  [append] to a slice of the buffer writes into
    the buffer, which has room up to its end. *)
Fixpoint split_loop (fuel : nat) (d : MessageDescriptor) (flt : option (gset string)) (raw : gmap string string)
    (cur : Z) (buf : list ascii) (wm : gmap string column)
  : outcome (result error (list ascii * gmap string column)) :=
  if cur <? Z.of_nat (length buf) then
    match fuel with
    | O => Hang
    | S fuel =>
        tail ← slice_from buf cur;
        let '(num, n) := ConsumeField tail in
        if n <? 0 then Done (Err "wire consume field") else
        let next := i32 (cur + i32 n) in
        match ByNumber d num with
        | None => Done (Err "unknow field num")
        | Some fd =>
            let name := fdName fd in
            if match flt with Some f => negb (bool_decide (name ∈ f)) | None => false end
            then split_loop fuel d flt raw next buf wm
            else match raw !! name with
            | Some rstr => split_loop fuel d flt raw next buf (<[name := CStr rstr]> wm)
            | None =>
                chunk ← slice buf cur next;
                match wm !! name with
                | None => split_loop fuel d flt raw next buf (<[name := CRange cur next]> wm)
                | Some (CRange lo hi) =>
                    split_loop fuel d flt raw next (overwrite buf hi chunk)
                      (<[name := CRange lo (hi + (next - cur))]> wm)
                | Some (CStr _) => Panic "interface conversion"
                end
            end
        end
    end
  else Done (Ok (buf, wm)).

(** A column's contents, as the database gets them. *)
Definition column_data (buf : list ascii) (c : column) : string :=
  match c with
  | CStr s => s
  | CRange lo hi => of_chars (take (Z.to_nat (hi - lo)) (drop (Z.to_nat lo) buf))
  end.

Definition columns (buf : list ascii) (wm : gmap string column) : gmap string string :=
  column_data buf <$> wm.

Definition MarshalToMap (d : MessageDescriptor) (msg : Message) (fields : list string)
  : outcome (result error (gmap string string)) :=
  let raw := rawStrMap d msg in
  let fdFilter := DirtyFilter d fields in
  match MarshalMsg d msg with
  | Err err => Done (Err ("marshal to map err:" +:+ err))
  | Ok marshalBytes =>
      r ← split_loop (length marshalBytes) d fdFilter raw 0 marshalBytes ∅;
      match r with
      | Err e => Done (Err e)
      | Ok (buf, wm) => Done (Ok (columns buf wm))
      end
  end.

Definition unmarshalScalarByStr (fd : FieldDescriptor) (str : string) : result error Value :=
  let bad := Err ("invalid value for fd=" +:+ fdName fd +:+ " value=" +:+ str) in
  match fdKind fd with
  | StringKind => Ok (VString str)
  | BoolKind =>
      if bool_decide (str ∈ ["true"; "1"]) then Ok (VBool true)
      else if bool_decide (str ∈ ["false"; "0"; ""]) then Ok (VBool false) else bad
  | Int32Kind | Sint32Kind | Sfixed32Kind =>
      match ParseInt str 32 with Ok n => Ok (VInt n) | Err _ => bad end
  | Int64Kind | Sint64Kind | Sfixed64Kind =>
      match ParseInt str 64 with Ok n => Ok (VInt n) | Err _ => bad end
  | Uint32Kind | Fixed32Kind =>
      match ParseUint str 32 with Ok n => Ok (VUint n) | Err _ => bad end
  | Uint64Kind | Fixed64Kind =>
      match ParseUint str 64 with Ok n => Ok (VUint n) | Err _ => bad end
  | DoubleKind | FloatKind =>
      match ParseFloat str with Some t => Ok (VFloat t) | None => bad end
  | _ => bad
  end.

Definition is_zero (v : Value) : bool :=
  match v with
  | VBool b => negb b
  | VInt n | VUint n => n =? 0
  | VFloat t => bool_decide (t = "0")
  | VString s => bool_decide (s = "")
  | VBlob b => bool_decide (b = [])
  end.

(** [rf.Set(fd, v)] with a valid value. *)
Definition set_field (msg : Message) (n : string) (v : Value) : Message :=
  if is_zero v then delete n msg else <[n := v]> msg.

(** The loop of [UnmarshalFromMap] over the columns in the order [l].  The
    error of [unmarshalScalarByStr] is not looked at ([err] is, and is nil):
    the zero [Value] it comes with makes [rf.Set] panic. *)
Fixpoint unmarshal_loop (d : MessageDescriptor) (l : list (string * string)) (buf : list ascii) (msg : Message)
  : outcome (list ascii * Message) :=
  match l with
  | [] => Done (buf, msg)
  | (k, s) :: l =>
      if String.prefix "_" k then unmarshal_loop d l buf msg else
      match ByName d k with
      | None => unmarshal_loop d l buf msg
      | Some fd =>
          if IsFdMarshalToBlob fd then unmarshal_loop d l (buf ++ chars s) msg
          else match unmarshalScalarByStr fd s with
               | Err _ => Panic "invalid value: invalid type"
               | Ok v => unmarshal_loop d l buf (set_field msg k v)
               end
      end
  end.

(** [UnmarshalFromMap]: its error, and the record after it, which a failed call
    has changed too. *)
Definition UnmarshalInto (d : MessageDescriptor) (msg : Message) (l : list (string * string))
  : outcome (option error * Message) :=
  '(buf, msg) ← unmarshal_loop d l [] msg;
  Done (match UnmarshalMerge d buf msg with
        | Ok msg' => (None, msg')
        | Err e => (Some e, merge_left d buf msg)
        end).

(** The record of a call that succeeds. *)
Definition UnmarshalFromMap (d : MessageDescriptor) (msg : Message) (l : list (string * string))
  : outcome (result error Message) :=
  '(e, msg) ← UnmarshalInto d msg l;
  Done (match e with None => Ok msg | Some e => Err e end).

Lemma UnmarshalFromMap_eq d msg l :
  UnmarshalFromMap d msg l = ('(buf, msg) ← unmarshal_loop d l [] msg; Done (UnmarshalMerge d buf msg)).
Proof.
  unfold UnmarshalFromMap, UnmarshalInto. destruct (unmarshal_loop d l [] msg) as [[buf m]| |]; [|done|done].
  rewrite !bind_Done. by destruct (UnmarshalMerge d buf m).
Qed.

Lemma UnmarshalInto_ok d msg l m : UnmarshalFromMap d msg l = Done (Ok m) -> UnmarshalInto d msg l = Done (None, m).
Proof.
  unfold UnmarshalFromMap. destruct (UnmarshalInto d msg l) as [[[e|] m']| |]; rewrite ?bind_Done; intros E; by simplify_eq.
Qed.

Lemma UnmarshalInto_panics d msg l w : unmarshal_loop d l [] msg = Panic w -> panics (UnmarshalInto d msg l).
Proof. intros E. unfold UnmarshalInto. rewrite E. by eexists. Qed.
End Runtime.

(** ** Keys and counters *)

Definition FindPrimaryKey (d : MessageDescriptor) : list string :=
  if bool_decide (mdPrimaryKey d = "") then [] else Split (mdPrimaryKey d) ","%char.

(** A key that is no field yields nil. *)
Definition FindFds (d : MessageDescriptor) (keyNames : list string) : list (option FieldDescriptor) :=
  ByName d <$> keyNames.

Definition BuildKeyFieldsMap (d : MessageDescriptor) : gset string := list_to_set (FindPrimaryKey d).

Definition BuildIncreaseableFieldsMap (d : MessageDescriptor) : gset string :=
  let keys := BuildKeyFieldsMap d in
  list_to_set (fdName <$> filter (fun fd =>
    fdRepeated fd = false /\ (fdName fd ∉ keys) /\ increaseAbleKind (fdKind fd) = true) (mdFields d)).

(** ** What the runtime documents *)

(** A group is a field and its wire records. *)
Abbreviation group := (string * list (list ascii))%type.
Definition group_bytes (g : group) : list ascii := concat g.2.
Definition wire_bytes (gs : list group) : list ascii := concat (group_bytes <$> gs).

(** A value of the kind of its field. *)
Definition typed `{ProtoRuntime} (fd : FieldDescriptor) (v : Value) : Prop :=
  if IsFdMarshalToBlob fd then match v with VBlob b => valid_blob fd b | _ => False end else
  match fdKind fd, v with
  | BoolKind, VBool _ => True
  | (Int32Kind | Sint32Kind | Sfixed32Kind | EnumKind), VInt n => fits_s 32 n
  | (Int64Kind | Sint64Kind | Sfixed64Kind), VInt n => fits_s 64 n
  | (Uint32Kind | Fixed32Kind), VUint n => fits_u 32 n
  | (Uint64Kind | Fixed64Kind), VUint n => fits_u 64 n
  | (DoubleKind | FloatKind), VFloat _ => True
  | StringKind, VString _ => True
  | _, _ => False
  end.

Record msg_ok `{ProtoRuntime} (d : MessageDescriptor) (msg : Message) : Prop := {
  ok_names : NoDup (fdName <$> mdFields d);
  ok_numbers : NoDup (fdNumber <$> mdFields d);
  ok_values : forall n v, msg !! n = Some v ->
    exists fd, ByName d n = Some fd /\ typed fd v /\ is_zero v = false
}.

(** Marshalling writes each populated field once, as one or more non-empty
    records that [ConsumeField] finds again; a blob is its own records; and
    merging the blobs of a message, in any order, sets their fields. *)
Class RuntimeLaws `{ProtoRuntime} := {
  wire_groups : MessageDescriptor -> Message -> list group;
  marshal_groups : forall d msg, msg_ok d msg -> MarshalMsg d msg = Ok (wire_bytes (wire_groups d msg));
  groups_fields : forall d msg, msg_ok d msg -> (wire_groups d msg).*1 ≡ₚ (map_to_list msg).*1;
  groups_records : forall d msg n rs, msg_ok d msg -> (n, rs) ∈ wire_groups d msg ->
    rs <> [] /\ forall r fd rest, r ∈ rs -> ByName d n = Some fd ->
      r <> [] /\ ConsumeField (r ++ rest) = (fdNumber fd, Z.of_nat (length r));
  groups_blob : forall d msg n b rs, msg_ok d msg -> msg !! n = Some (VBlob b) ->
    (n, rs) ∈ wire_groups d msg -> b = concat rs;
  merge_blobs : forall d msg (l : list (string * list ascii)) base, msg_ok d msg -> NoDup l.*1 ->
    (forall n b, (n, b) ∈ l -> msg !! n = Some (VBlob b) /\ base !! n = None) ->
    UnmarshalMerge d (concat l.*2) base = Ok (list_to_map (prod_map id VBlob <$> l) ∪ base)
}.

(** ** Splitting the wire format *)

Lemma ByName_elem d n fd : ByName d n = Some fd -> fd ∈ mdFields d /\ fdName fd = n.
Proof.
  intros Hf. apply List.find_some in Hf as [Hin Hn]. apply String.eqb_eq in Hn.
  split; [by apply list_elem_of_In|done].
Qed.

Lemma ByNumber_of_field d fd : NoDup (fdNumber <$> mdFields d) -> fd ∈ mdFields d ->
  ByNumber d (fdNumber fd) = Some fd.
Proof.
  intros Hnd Hin. apply (find_unique fdNumber); [done|done|]. intros y _. apply Z.eqb_eq.
Qed.

Lemma overwrite_same pre mid post :
  overwrite (pre ++ mid ++ post) (Z.of_nat (length pre)) mid = pre ++ mid ++ post.
Proof.
  unfold overwrite. rewrite Nat2Z.id, take_app_length. f_equal. f_equal.
  rewrite app_assoc. apply drop_app_length'. by rewrite length_app.
Qed.

Section Split.
Context `{RuntimeLaws} (d : MessageDescriptor) (flt : option (gset string)) (raw : gmap string string).

Definition dropped (n : string) : bool :=
  match flt with Some f => negb (bool_decide (n ∈ f)) | None => false end.

(** The columns after the groups [gs] laid out from position [pos]. *)
Fixpoint add_groups (pos : nat) (gs : list group) (wm : gmap string column) : gmap string column :=
  match gs with
  | [] => wm
  | g :: gs =>
      let hi := (pos + length (group_bytes g))%nat in
      add_groups hi gs
        (if dropped g.1 then wm else
         match raw !! g.1 with
         | Some r => <[g.1 := CStr r]> wm
         | None => <[g.1 := CRange (Z.of_nat pos) (Z.of_nat hi)]> wm
         end)
  end.

Definition group_ok (g : group) : Prop :=
  g.2 <> [] /\ exists fd, ByName d g.1 = Some fd /\ ByNumber d (fdNumber fd) = Some fd /\
    forall r rest, r ∈ g.2 -> r <> [] /\ ConsumeField (r ++ rest) = (fdNumber fd, Z.of_nat (length r)).

(** One record. *)
Lemma split_record fuel pre r post wm fd :
  r <> [] -> (forall rest, ConsumeField (r ++ rest) = (fdNumber fd, Z.of_nat (length r))) ->
  ByNumber d (fdNumber fd) = Some fd -> Z.of_nat (length (pre ++ r ++ post)) < 2 ^ 31 ->
  split_loop (S fuel) d flt raw (Z.of_nat (length pre)) (pre ++ r ++ post) wm =
  (let next := Z.of_nat (length (pre ++ r)) in
   if dropped (fdName fd) then split_loop fuel d flt raw next (pre ++ r ++ post) wm else
   match raw !! fdName fd with
   | Some rstr => split_loop fuel d flt raw next (pre ++ r ++ post) (<[fdName fd := CStr rstr]> wm)
   | None =>
       match wm !! fdName fd with
       | None => split_loop fuel d flt raw next (pre ++ r ++ post)
                   (<[fdName fd := CRange (Z.of_nat (length pre)) next]> wm)
       | Some (CRange lo hi) =>
           split_loop fuel d flt raw next (overwrite (pre ++ r ++ post) hi r)
             (<[fdName fd := CRange lo (hi + Z.of_nat (length r))]> wm)
       | Some (CStr _) => Panic "interface conversion"
       end
   end).
Proof.
  intros Hne Hc Hn Hsz. cbn [split_loop]. rewrite !length_app in *.
  assert (length r <> 0%nat) by (by destruct r).
  destruct (Z.ltb_spec (Z.of_nat (length pre)) (Z.of_nat (length pre + (length r + length post)))); [|lia].
  rewrite slice_from_Done by (rewrite ?length_app; lia). go_run. rewrite Nat2Z.id, drop_app_length, Hc.
  destruct (Z.ltb_spec (Z.of_nat (length r)) 0); [lia|]. rewrite Hn.
  rewrite (wrap_s_small 32 (Z.of_nat (length r))), wrap_s_small by (unfold fits_s; lia).
  rewrite <- Nat2Z.inj_add. unfold dropped. cbv zeta.
  destruct (match flt with Some f => _ | None => false end); [done|].
  destruct (raw !! fdName fd); [done|].
  rewrite slice_Done by (rewrite ?length_app; lia). go_run.
  rewrite Nat2Z.id, drop_app_length.
  replace (Z.to_nat (Z.of_nat (length pre + length r) - Z.of_nat (length pre))) with (length r) by lia.
  rewrite take_app_length. destruct (wm !! fdName fd) as [[|lo hi]|]; [done| |done].
  do 3 f_equal. lia.
Qed.

(** The columns while the group of [n] is read: it started at [lo] and [hi] is
    reached. *)
Definition col (n : string) (lo hi : nat) (wm : gmap string column) : gmap string column :=
  if dropped n then wm else
  match raw !! n with
  | Some r => <[n := CStr r]> wm
  | None => <[n := CRange (Z.of_nat lo) (Z.of_nat hi)]> wm
  end.

(** The records of a group after the first. *)
Lemma split_rest fd lo wm : ByNumber d (fdNumber fd) = Some fd ->
  forall rs fuel pre post,
  (forall r rest, r ∈ rs -> r <> [] /\ ConsumeField (r ++ rest) = (fdNumber fd, Z.of_nat (length r))) ->
  Z.of_nat (length (pre ++ concat rs ++ post)) < 2 ^ 31 -> (length (concat rs) <= fuel)%nat ->
  exists fuel', (fuel - length (concat rs) <= fuel')%nat /\
    split_loop fuel d flt raw (Z.of_nat (length pre)) (pre ++ concat rs ++ post)
      (col (fdName fd) lo (length pre) wm) =
    split_loop fuel' d flt raw (Z.of_nat (length (pre ++ concat rs))) (pre ++ concat rs ++ post)
      (col (fdName fd) lo (length (pre ++ concat rs)) wm).
Proof.
  intros Hnum. induction rs as [|r rs IH]; intros fuel pre post Hr Hsz Hf.
  { exists fuel. split; [lia|]. cbn [concat]. by rewrite app_nil_r. }
  cbn [concat] in *. rewrite <- (app_assoc r) in *. rewrite length_app in Hf.
  destruct (Hr r [] ltac:(left)) as [Hne _]. assert (length r <> 0%nat) by (by destruct r).
  destruct fuel as [|fuel]; [lia|].
  rewrite split_record with (fd := fd); [|done|intros rest; by apply Hr; left|done|done].
  cbv zeta. specialize (IH fuel (pre ++ r) post).
  rewrite <- !(app_assoc pre) in IH. destruct IH as (fuel' & Hf' & IH); [|done|lia|].
  { intros r' rest Hr'. apply Hr. by right. }
  exists fuel'. split; [rewrite length_app; lia|]. rewrite <- IH. clear IH.
  unfold col. destruct (dropped (fdName fd)); [done|].
  destruct (raw !! fdName fd) as [x|]; [by rewrite insert_insert_eq|].
  rewrite lookup_insert_eq, overwrite_same, insert_insert_eq.
  by rewrite length_app, Nat2Z.inj_add.
Qed.

Lemma split_groups gs : forall fuel pre wm,
  Forall group_ok gs -> NoDup gs.*1 -> (forall n, n ∈ gs.*1 -> wm !! n = None) ->
  Z.of_nat (length (pre ++ wire_bytes gs)) < 2 ^ 31 -> (length (wire_bytes gs) <= fuel)%nat ->
  split_loop fuel d flt raw (Z.of_nat (length pre)) (pre ++ wire_bytes gs) wm =
  Done (Ok (pre ++ wire_bytes gs, add_groups (length pre) gs wm)).
Proof.
  induction gs as [|[n rs] gs IH]; intros fuel pre wm Hok Hnd Hwm Hsz Hf.
  { cbn. rewrite app_nil_r. destruct fuel; cbn [split_loop]; by rewrite Z.ltb_irrefl. }
  apply Forall_cons in Hok as [(Hne & fd & Hname & Hnum & Hr) Hok]. cbn [fst snd] in *.
  apply NoDup_cons in Hnd as [Hn Hnd]. apply ByName_elem in Hname as [_ Hname].
  unfold wire_bytes in *. cbn [fmap list_fmap concat] in *. set (post := concat (group_bytes <$> gs)) in *.
  change (group_bytes (n, rs)) with (concat rs) in *.
  destruct rs as [|r rs]; [done|]. clear Hne. cbn [concat] in *. rewrite <- (app_assoc r) in *.
  destruct (Hr r [] ltac:(left)) as [Hne _]. assert (length r <> 0%nat) by (by destruct r).
  rewrite !length_app in Hf. destruct fuel as [|fuel]; [lia|].
  rewrite split_record with (fd := fd); [|done|intros rest; by apply Hr; left|done|done].
  cbv zeta. rewrite Hname, (Hwm n) by left.
  transitivity (split_loop fuel d flt raw (Z.of_nat (length (pre ++ r))) (pre ++ r ++ concat rs ++ post)
    (col n (length pre) (length (pre ++ r)) wm)).
  { unfold col. destruct (dropped n); [done|]. by destruct (raw !! n). }
  destruct (split_rest fd (length pre) wm Hnum rs fuel (pre ++ r) post) as (fuel' & Hf' & Heq).
  { intros r' rest Hr'. apply Hr. by right. }
  { by rewrite <- app_assoc. }
  { lia. }
  rewrite Hname, <- !(app_assoc pre) in Heq. rewrite Heq.
  replace (pre ++ r ++ concat rs ++ post) with ((pre ++ r ++ concat rs) ++ post) by (by rewrite <- !app_assoc).
  rewrite (IH fuel' (pre ++ r ++ concat rs)); [|done|done| | |].
  - rewrite <- !app_assoc. do 3 f_equal. cbn [add_groups fst]. unfold col, group_bytes. cbn [snd concat].
    by rewrite !length_app.
  - intros n' Hn'. unfold col. assert (n' <> n) by (intros ->; done).
    destruct (dropped n); [by apply Hwm; right|].
    destruct (raw !! n); rewrite lookup_insert_ne by done; apply Hwm; by right.
  - rewrite <- !app_assoc. done.
  - fold post. lia.
Qed.
End Split.

Lemma add_groups_out flt raw gs n : forall pos wm, n ∉ gs.*1 ->
  add_groups flt raw pos gs wm !! n = wm !! n.
Proof.
  induction gs as [|[n' rs] gs IH]; intros pos wm Hn; [done|]. cbn [add_groups fst].
  apply not_elem_of_cons in Hn as [Hne Hn]. cbn [fst] in Hne. rewrite IH by done.
  destruct (dropped flt n'); [done|]. destruct (raw !! n'); by rewrite lookup_insert_ne.
Qed.

Lemma add_groups_in flt raw gs n rs : forall pre wm, NoDup gs.*1 -> (n, rs) ∈ gs -> wm !! n = None ->
  columns (pre ++ wire_bytes gs) (add_groups flt raw (length pre) gs wm) !! n =
  if dropped flt n then None else
  Some (match raw !! n with Some r => r | None => of_chars (concat rs) end).
Proof.
  induction gs as [|[n' rs'] gs IH]; intros pre wm Hnd Hin Hwm; [by apply not_elem_of_nil in Hin|].
  apply NoDup_cons in Hnd as [Hn Hnd]. cbn [fst] in Hn. cbn [add_groups fst].
  unfold wire_bytes in *. cbn [fmap list_fmap concat]. change (group_bytes (n', rs')) with (concat rs').
  apply elem_of_cons in Hin as [E|Hin].
  - simplify_eq. unfold columns. rewrite lookup_fmap, add_groups_out by done.
    destruct (dropped flt n'); [by rewrite Hwm|].
    destruct (raw !! n') as [r|]; rewrite lookup_insert_eq; cbn [fmap option_fmap option_map column_data]; [done|].
    rewrite Nat2Z.id, drop_app_length.
    replace (Z.to_nat _) with (length (concat rs')) by lia. by rewrite take_app_length.
  - assert (n <> n').
    { intros ->. apply Hn. by apply (list_elem_of_fmap_2 fst) in Hin. }
    rewrite (app_assoc pre), <- length_app. apply IH; [done|done|].
    destruct (dropped flt n'); [done|]. destruct (raw !! n'); by rewrite lookup_insert_ne.
Qed.

Section Records.
Context `{RuntimeLaws} (d : MessageDescriptor) (msg : Message).
Hypothesis Hok : msg_ok d msg.
Hypothesis Hsize : Z.of_nat (length (wire_bytes (wire_groups d msg))) < 2 ^ 31.

Lemma groups_ok : Forall (group_ok d) (wire_groups d msg).
Proof.
  apply Forall_forall. intros [n rs] Hin.
  destruct (groups_records d msg n rs Hok Hin) as [Hne Hr]. split; [done|]. cbn [fst snd].
  assert (Hn : n ∈ (map_to_list msg).*1).
  { rewrite <- (groups_fields d msg Hok). by apply (list_elem_of_fmap_2 fst) in Hin. }
  apply list_elem_of_fmap in Hn as ([n' v] & -> & Hv). apply elem_of_map_to_list in Hv. cbn [fst] in *.
  destruct (ok_values d msg Hok n' v Hv) as (fd & Hfd & _ & _). exists fd. split; [done|].
  split; [|intros r rest Hrin; by apply Hr].
  apply ByName_elem in Hfd as [Hfd _]. by apply ByNumber_of_field; [apply (ok_numbers d msg)|].
Qed.

Lemma rawStrMap_lookup n : rawStrMap d msg !! n =
  v ← msg !! n; fd ← ByName d n; if IsFdMarshalToBlob fd then None else Some (marshalScalar fd v).
Proof. unfold rawStrMap. rewrite map_lookup_imap. by destruct (msg !! n). Qed.

(** The text or bytes stored for a field. *)
Definition stored (n : string) : option string :=
  v ← msg !! n; fd ← ByName d n; Some (marshalScalar fd v).

Lemma MarshalToMap_spec fields : exists m, MarshalToMap d msg fields = Done (Ok m) /\
  forall n, m !! n = if dropped (DirtyFilter d fields) n then None else stored n.
Proof.
  unfold MarshalToMap. rewrite marshal_groups by done.
  assert (Hnd : NoDup (wire_groups d msg).*1).
  { rewrite groups_fields by done. apply NoDup_fst_map_to_list. }
  pose proof (split_groups d (DirtyFilter d fields) (rawStrMap d msg) (wire_groups d msg)
    (length (wire_bytes (wire_groups d msg))) [] ∅ groups_ok Hnd) as Hs.
  simpl app in Hs. simpl length in Hs. change (Z.of_nat 0) with 0 in Hs.
  rewrite Hs; [|intros n _; apply lookup_empty|done|done]. go_run.
  eexists. split; [reflexivity|]. intros n. unfold stored.
  destruct (msg !! n) as [v|] eqn:Hv.
  - assert (Hn : n ∈ (wire_groups d msg).*1).
    { rewrite groups_fields by done. apply list_elem_of_fmap. exists (n, v). split; [done|].
      by apply elem_of_map_to_list. }
    apply list_elem_of_fmap in Hn as ([n' rs] & -> & Hin). cbn [fst] in *.
    pose proof (add_groups_in (DirtyFilter d fields) (rawStrMap d msg) (wire_groups d msg) n' rs [] ∅
      Hnd Hin (lookup_empty _)) as Ha. simpl app in Ha. simpl length in Ha. rewrite Ha. clear Ha.
    destruct (dropped (DirtyFilter d fields) n'); [done|]. rewrite rawStrMap_lookup, Hv. cbn [mbind option_bind].
    destruct (ok_values d msg Hok n' v Hv) as (fd & Hfd & Hty & _). rewrite Hfd. cbn [mbind option_bind].
    f_equal. destruct (IsFdMarshalToBlob fd) eqn:Hb; [|done].
    unfold typed in Hty. rewrite Hb in Hty. destruct v as [| | | | |b]; try done.
    rewrite (groups_blob d msg n' b rs Hok Hv Hin). unfold marshalScalar. by destruct (fdKind fd).
  - unfold columns. rewrite lookup_fmap, add_groups_out, lookup_empty.
    + cbn. by destruct (dropped _ n).
    + rewrite groups_fields by done. intros Hn. apply list_elem_of_fmap in Hn as ([n' v] & -> & Hin).
      apply elem_of_map_to_list in Hin. cbn [fst] in Hv. congruence.
Qed.

(** *** Reading back *)

Definition text_kind (k : Kind) : bool :=
  match k with EnumKind | FloatKind | DoubleKind => false | _ => true end.

(** Every populated scalar has a kind that is read back from its text. *)
Hypothesis Hkinds : forall n v fd, msg !! n = Some v -> ByName d n = Some fd ->
  IsFdMarshalToBlob fd = false -> text_kind (fdKind fd) = true.
Hypothesis Hunder : forall n, is_Some (msg !! n) -> String.prefix "_" n = false.

Lemma scalar_roundtrip fd v : IsFdMarshalToBlob fd = false -> text_kind (fdKind fd) = true -> typed fd v ->
  unmarshalScalarByStr fd (marshalScalar fd v) = Ok v.
Proof.
  intros Hb Hk Hty. unfold typed in Hty. rewrite Hb in Hty.
  unfold unmarshalScalarByStr, marshalScalar.
  destruct (fdKind fd); try done; destruct v as [b|n|n|t|t|b]; try done; cbn [value_String];
    rewrite ?ParseInt_FormatInt, ?ParseUint_FormatUint by (done || lia); try done. by destruct b.
Qed.

(** The columns of [l] for which [f] gives a value. *)
Definition select (f : string -> option Value) (l : list (string * string)) : list (string * Value) :=
  omap (M := list) (fun x => match f x.1 with Some v => Some (x.1, v) | None => None end) l.

Lemma select_lookup f l k : NoDup l.*1 ->
  (list_to_map (select f l) : Message) !! k = if decide (k ∈ l.*1) then f k else None.
Proof.
  induction l as [|[k' s] l IH]; intros Hnd; [done|]. apply NoDup_cons in Hnd as [Hk Hnd].
  unfold select in *. rewrite omap_cons_eq. cbn [fst fmap list_fmap] in *.
  destruct (decide (k = k')) as [->|Hne].
  - rewrite decide_True by left. destruct (f k') as [v|] eqn:E.
    + cbn [list_to_map foldr fst snd]. by rewrite lookup_insert_eq.
    + rewrite IH, decide_False by done. done.
  - assert (Ek : (if decide (k ∈ k' :: l.*1) then f k else None) = if decide (k ∈ l.*1) then f k else None).
    { destruct (decide (k ∈ l.*1)); [by rewrite decide_True by (by right)|].
      rewrite decide_False; [done|]. by intros [?|?]%elem_of_cons. }
    rewrite Ek. destruct (f k') as [v|]; [|by apply IH].
    cbn [list_to_map foldr fst snd]. rewrite lookup_insert_ne by done. by apply IH.
Qed.

Definition scalar_of (k : string) : option Value :=
  match msg !! k with Some (VBlob _) | None => None | Some v => Some v end.
Definition blob_of (k : string) : option Value :=
  match msg !! k with Some (VBlob b) => Some (VBlob b) | _ => None end.

Definition blobs (l : list (string * string)) : list (string * list ascii) :=
  omap (M := list) (fun x => match msg !! x.1 with Some (VBlob b) => Some (x.1, b) | _ => None end) l.
Definition scalars (l : list (string * string)) : Message := list_to_map (select scalar_of l).

Lemma blobs_select l : prod_map id VBlob <$> blobs l = select blob_of l.
Proof.
  unfold blobs, select, blob_of. induction l as [|[k s] l IH]; [done|]. rewrite !omap_cons_eq. cbn [fst].
  destruct (msg !! k) as [[]|]; [done..| |done]. cbn [fmap list_fmap prod_map id]. by f_equal.
Qed.

Lemma typed_blob fd v : typed fd v -> IsFdMarshalToBlob fd = true -> exists b, v = VBlob b.
Proof. unfold typed. intros Ht Hb. rewrite Hb in Ht. destruct v; try done. by eexists. Qed.

Lemma typed_scalar fd v : typed fd v -> IsFdMarshalToBlob fd = false -> forall b, v <> VBlob b.
Proof. unfold typed. intros Ht Hb b ->. rewrite Hb in Ht. by destruct (fdKind fd). Qed.

Lemma marshalScalar_blob fd b : marshalScalar fd (VBlob b) = of_chars b.
Proof. unfold marshalScalar. by destruct (fdKind fd). Qed.

Lemma unmarshal_loop_spec l : forall buf acc, NoDup l.*1 ->
  (forall k s, (k, s) ∈ l -> stored k = Some s) ->
  unmarshal_loop d l buf acc = Done (buf ++ concat (blobs l).*2, scalars l ∪ acc).
Proof.
  induction l as [|[k s] l IH]; intros buf acc Hnd Hst.
  { cbn. rewrite app_nil_r. unfold scalars. cbn. by rewrite (left_id_L ∅ (∪)). }
  apply NoDup_cons in Hnd as [Hk Hnd]. cbn [fst] in Hk.
  pose proof (Hst k s ltac:(left)) as Hs. unfold stored in Hs.
  destruct (msg !! k) as [v|] eqn:Hv; [|done]. cbn [mbind option_bind] in Hs.
  destruct (ok_values d msg Hok k v Hv) as (fd & Hfd & Hty & Hz). rewrite Hfd in Hs.
  cbn [mbind option_bind] in Hs. injection Hs as <-. cbn [unmarshal_loop].
  rewrite Hunder by (by eexists). rewrite Hfd.
  assert (Hst' : forall k s, (k, s) ∈ l -> stored k = Some s) by (intros; apply Hst; by right).
  destruct (IsFdMarshalToBlob fd) eqn:Hb.
  - destruct (typed_blob fd v Hty Hb) as [b ->]. rewrite IH; [|done|done].
    unfold blobs, scalars, select, scalar_of. rewrite !omap_cons_eq. cbn [fst]. rewrite Hv.
    cbn [fmap list_fmap snd concat].
    by rewrite marshalScalar_blob, chars_of_chars, <- app_assoc.
  - rewrite (scalar_roundtrip fd v Hb (Hkinds k v fd Hv Hfd Hb) Hty). unfold set_field. rewrite Hz.
    rewrite IH; [|done|done].
      assert (Hsc : scalars l !! k = None) by (unfold scalars; by rewrite select_lookup, decide_False).
      pose proof (typed_scalar fd v Hty Hb) as Hnb.
      unfold blobs, scalars, select, scalar_of in *. rewrite !omap_cons_eq. cbn [fst]. rewrite Hv.
      destruct v; try (by exfalso; eapply Hnb); cbn [list_to_map foldr fst snd];
        by rewrite <- insert_union_l, <- insert_union_r.
Qed.

Lemma elem_of_blobs l k b : (k, b) ∈ blobs l <-> k ∈ l.*1 /\ msg !! k = Some (VBlob b).
Proof.
  unfold blobs. rewrite list_elem_of_omap. split.
  - intros ([k' s] & Hx & Hv). cbn [fst] in Hv. destruct (msg !! k') as [[]|] eqn:E; simplify_eq.
    split; [by apply (list_elem_of_fmap_2 fst) in Hx|done].
  - intros [Hk Hv]. apply list_elem_of_fmap in Hk as ([k' s] & -> & Hx). exists (k', s).
    cbn [fst] in *. by rewrite Hv.
Qed.

Lemma blobs_NoDup l : NoDup l.*1 -> NoDup (blobs l).*1.
Proof.
  induction l as [|[k s] l IH]; intros Hnd; [constructor|]. apply NoDup_cons in Hnd as [Hk Hnd].
  unfold blobs in *. rewrite omap_cons_eq. cbn [fst] in *.
  destruct (msg !! k) as [[]|] eqn:E; try by apply IH. cbn [fmap list_fmap fst]. constructor; [|by apply IH].
  intros Hin. apply list_elem_of_fmap in Hin as ([k' b'] & Ek & Hin). cbn in Ek. subst.
  by apply (elem_of_blobs l) in Hin as [Hin _].
Qed.

(** Reading into a message that has none of the blobs: its other fields stay. *)
Lemma roundtrip_over m l base : (forall n, m !! n = stored n) -> ranges m l ->
  (forall n b, msg !! n = Some (VBlob b) -> base !! n = None) ->
  UnmarshalFromMap d base l = Done (Ok (msg ∪ base)).
Proof.
  intros Hm Hl Hbase. pose proof (ranges_NoDup m l Hl) as Hnd. rewrite UnmarshalFromMap_eq.
  assert (Hin : forall k, k ∈ l.*1 <-> is_Some (msg !! k)).
  { intros k. rewrite list_elem_of_fmap. split.
    - intros ([k' s] & -> & Hx). apply (ranges_lookup _ _ _ _ Hl) in Hx. rewrite Hm in Hx.
      unfold stored in Hx. cbn [fst]. destruct (msg !! k'); [by eexists|done].
    - intros [v Hv]. destruct (ok_values d msg Hok k v Hv) as (fd & Hfd & _).
      exists (k, marshalScalar fd v). split; [done|]. apply (ranges_lookup _ _ _ _ Hl).
      rewrite Hm. unfold stored. by rewrite Hv; cbn; rewrite Hfd. }
  rewrite unmarshal_loop_spec; [|done|].
  2:{ intros k s Hx. apply (ranges_lookup _ _ _ _ Hl) in Hx. by rewrite <- Hm. }
  go_run. simpl app. rewrite (merge_blobs d msg); [|done|by apply blobs_NoDup|].
  - do 2 f_equal. rewrite blobs_select. apply map_eq. intros k. unfold scalars.
    rewrite !lookup_union, !select_lookup by done. unfold scalar_of, blob_of.
    destruct (decide (k ∈ l.*1)) as [Hk|Hk].
    + apply Hin in Hk as [v Hv]. rewrite Hv. by destruct v, (base !! k).
    + destruct (msg !! k) eqn:Hv; [|by destruct (base !! k)]. exfalso. apply Hk, Hin. by eexists.
  - intros n b Hb. apply elem_of_blobs in Hb as [Hn Hb]. split; [done|]. unfold scalars.
    rewrite lookup_union, select_lookup, decide_True by done. unfold scalar_of. by rewrite Hb, (Hbase n b Hb).
Qed.

(** Reading into a message that already has some of the scalars, the key say. *)
Lemma roundtrip m l base : (forall n, m !! n = stored n) -> ranges m l ->
  (forall n v, base !! n = Some v -> msg !! n = Some v /\ forall b, v <> VBlob b) ->
  UnmarshalFromMap d base l = Done (Ok msg).
Proof.
  intros Hm Hl Hbase. rewrite (roundtrip_over m l base Hm Hl).
  - do 2 f_equal. apply map_eq. intros k. rewrite lookup_union.
    destruct (base !! k) as [v|] eqn:Eb; [|by destruct (msg !! k)]. destruct (Hbase k v Eb) as [-> _]. done.
  - intros n b Hb. destruct (base !! n) as [v|] eqn:Eb; [|done]. destruct (Hbase n v Eb) as [Hv Hnb].
    rewrite Hb in Hv. simplify_eq. by exfalso; eapply Hnb.
Qed.
End Records.

(** Columns of a record.  [MarshalToMap] succeeds on every well-formed
    record below 2 GiB; with no field list it yields a column for exactly the
    populated fields, with a list for the populated ones among the listed
    (a listed path "a.b" standing for its top-level field "a"); scalars as text
    and all others as their wire format, although the slices it stores share
    the marshalled buffer. *)
Theorem pb_marshal_columns `{RuntimeLaws} (d : MessageDescriptor) (msg : Message) (fields : list string) :
  msg_ok d msg -> Z.of_nat (length (wire_bytes (wire_groups d msg))) < 2 ^ 31 ->
  exists m, MarshalToMap d msg fields = Done (Ok m) /\
    forall n, m !! n = (if decide (fields = [] \/ n ∈ omap (M := list) (filter_key d) fields)
                        then stored d msg n else None).
Proof.
  intros Hok Hsz. destruct (MarshalToMap_spec d msg Hok Hsz fields) as (m & Hm & Hl).
  exists m. split; [done|]. intros n. rewrite Hl. unfold dropped, DirtyFilter.
  destruct fields as [|f fields]; [by rewrite decide_True by (by left)|].
  set (k := omap (filter_key d) (f :: fields)). case_bool_decide as Hn; cbn [negb]; rewrite elem_of_list_to_set in Hn.
  - by rewrite decide_True by (by right).
  - rewrite decide_False; [done|]. by intros [?|?].
Qed.

(** C9. Records round-trip through the database.  Writing a record with
    [MarshalToMap] and reading its columns back with [UnmarshalFromMap], in any
    order of Go's map iteration, restores the record, if its populated scalars
    are strings, booleans and integers and no field name starts with an
    underscore. *)
Theorem pb_roundtrip `{RuntimeLaws} (d : MessageDescriptor) (msg : Message) (m : gmap string string)
    (l : list (string * string)) :
  msg_ok d msg -> Z.of_nat (length (wire_bytes (wire_groups d msg))) < 2 ^ 31 ->
  (forall n v fd, msg !! n = Some v -> ByName d n = Some fd -> IsFdMarshalToBlob fd = false ->
     text_kind (fdKind fd) = true) ->
  (forall n, is_Some (msg !! n) -> String.prefix "_" n = false) ->
  MarshalToMap d msg [] = Done (Ok m) -> ranges m l ->
  UnmarshalFromMap d ∅ l = Done (Ok msg).
Proof.
  intros Hok Hsz Hk Hu Hm Hl. destruct (MarshalToMap_spec d msg Hok Hsz []) as (m' & Hm' & Hs).
  rewrite Hm in Hm'. simplify_eq. by eapply roundtrip.
Qed.

Lemma unmarshal_loop_panics `{ProtoRuntime} d l k s fd e : (k, s) ∈ l -> String.prefix "_" k = false ->
  ByName d k = Some fd -> IsFdMarshalToBlob fd = false -> unmarshalScalarByStr fd s = Err e ->
  forall buf acc, panics (unmarshal_loop d l buf acc).
Proof.
  intros Hin Hu Hfd Hb He. induction l as [|[k' s'] l IH]; intros buf acc; [by apply not_elem_of_nil in Hin|].
  apply elem_of_cons in Hin as [E|Hin].
  - simplify_eq. cbn [unmarshal_loop]. rewrite Hu, Hfd, Hb, He. by eexists.
  - cbn [unmarshal_loop]. specialize (IH Hin). repeat case_match; try apply IH. by eexists.
Qed.

(** A column that cannot be parsed crashes the reader.  If any column of a
    scalar field does not parse, [UnmarshalFromMap] panics, whatever the order
    of the columns, because it tests the wrong error variable; and no text of
    an enum field parses, so a record with a populated enum field can be
    written but never read back. *)
Theorem pb_unparsable_column_panics `{ProtoRuntime} (d : MessageDescriptor) (msg : Message)
    (l : list (string * string)) (k s : string) (fd : FieldDescriptor) :
  (k, s) ∈ l -> String.prefix "_" k = false -> ByName d k = Some fd -> IsFdMarshalToBlob fd = false ->
  (exists e, unmarshalScalarByStr fd s = Err e) \/ fdKind fd = EnumKind ->
  panics (UnmarshalFromMap d msg l).
Proof.
  intros Hin Hu Hfd Hb He.
  assert (exists e, unmarshalScalarByStr fd s = Err e) as [e Hs].
  { destruct He as [He|He]; [done|]. unfold unmarshalScalarByStr. rewrite He. by eexists. }
  rewrite UnmarshalFromMap_eq. destruct (unmarshal_loop_panics d l k s fd e Hin Hu Hfd Hb Hs [] msg) as [w ->].
  by eexists.
Qed.

(** ** What is read is well typed *)

Lemma unmarshalScalar_typed `{ProtoRuntime} fd s v : IsFdMarshalToBlob fd = false ->
  unmarshalScalarByStr fd s = Ok v -> typed fd v.
Proof.
  intros Hb. unfold unmarshalScalarByStr, typed. rewrite Hb. destruct (fdKind fd); try done.
  all: repeat case_match; try done; intros [= <-]; try done.
  all: first [by eapply ParseInt_fits; [|done] | by eapply ParseUint_fits; [|done]].
Qed.

Lemma set_field_ok `{ProtoRuntime} d msg k fd v : msg_ok d msg -> ByName d k = Some fd -> typed fd v ->
  msg_ok d (set_field msg k v).
Proof.
  intros [H1 H2 H3] Hfd Hv. split; [done|done|]. intros n w. unfold set_field.
  destruct (is_zero v) eqn:Hz.
  - intros [_ Hw]%lookup_delete_Some. by apply H3.
  - intros [[<- <-]|[_ Hw]]%lookup_insert_Some; [by exists fd|by apply H3].
Qed.

(** A column of a scalar field whose text does not parse. *)
Definition bad_column `{ProtoRuntime} (d : MessageDescriptor) (c : string * string) : Prop :=
  String.prefix "_" c.1 = false /\ exists fd e, ByName d c.1 = Some fd /\ IsFdMarshalToBlob fd = false /\
    unmarshalScalarByStr fd c.2 = Err e.

(** Without one the loop returns, and keeps the message well typed. *)
Lemma unmarshal_loop_typed `{ProtoRuntime} d l : forall buf msg, msg_ok d msg ->
  (exists c, c ∈ l /\ bad_column d c) \/
  exists buf' msg', unmarshal_loop d l buf msg = Done (buf', msg') /\ msg_ok d msg'.
Proof.
  induction l as [|[k s] l IH]; intros buf msg Hok; [right; by do 2 eexists|]. cbn [unmarshal_loop].
  assert (Hgo : forall buf msg, msg_ok d msg -> (exists c, c ∈ (k, s) :: l /\ bad_column d c) \/
    exists buf' msg', unmarshal_loop d l buf msg = Done (buf', msg') /\ msg_ok d msg').
  { intros buf1 msg1 Hok1. destruct (IH buf1 msg1 Hok1) as [(c & Hc & Hbad)|?]; [|by right].
    left. exists c. split; [by right|done]. }
  destruct (String.prefix "_" k) eqn:Hu; [by apply Hgo|]. destruct (ByName d k) as [fd|] eqn:Hfd; [|by apply Hgo].
  destruct (IsFdMarshalToBlob fd) eqn:Hb; [by apply Hgo|].
  destruct (unmarshalScalarByStr fd s) as [v|e] eqn:Hs.
  - apply Hgo. eapply set_field_ok; [done|done|]. by eapply unmarshalScalar_typed.
  - left. exists (k, s). split; [left|]. split; [done|]. by exists fd, e.
Qed.

(** C13. Reading a record is type safe.  For any columns, in any order: if the text
    of some scalar column does not parse, [UnmarshalFromMap] panics; otherwise
    it returns, and the message it leaves has only fields of its descriptor,
    each with a value of the field's kind and width, the zero values left out -
    provided merging the blobs keeps a well-typed message so. *)
Theorem pb_unmarshal_well_typed `{ProtoRuntime} (d : MessageDescriptor) (msg : Message) (l : list (string * string)) :
  msg_ok d msg ->
  (forall buf m m', msg_ok d m -> UnmarshalMerge d buf m = Ok m' -> msg_ok d m') ->
  ((exists c, c ∈ l /\ bad_column d c) /\ panics (UnmarshalFromMap d msg l)) \/
  (~ (exists c, c ∈ l /\ bad_column d c)) /\
    exists r, UnmarshalFromMap d msg l = Done r /\ forall m', r = Ok m' -> msg_ok d m'.
Proof.
  intros Hok Hmerge.
  assert (Hpanic : (exists c, c ∈ l /\ bad_column d c) -> panics (unmarshal_loop d l [] msg)).
  { intros ([k s] & Hin & Hu & fd & e & Hfd & Hb & Hs). by eapply unmarshal_loop_panics. }
  rewrite UnmarshalFromMap_eq. destruct (unmarshal_loop_typed d l [] msg Hok) as [Hbad|(buf & m & Hl & Hm)].
  - left. split; [done|]. destruct (Hpanic Hbad) as [w ->]. by eexists.
  - right. split.
    + intros Hbad. destruct (Hpanic Hbad) as [w Hw]. congruence.
    + rewrite Hl, bind_Done. eexists. split; [done|]. intros m'. by apply Hmerge.
Qed.

(** ** A runtime for the witnesses

    A record is the field number and the payload length in unary, then the
    payload; a blob is one record. *)

Fixpoint ones (l : list ascii) : option (nat * list ascii) :=
  match l with
  | [] => None
  | c :: l => if bool_decide (c = "1"%char)
              then match ones l with Some (n, r) => Some (S n, r) | None => None end
              else Some (0%nat, l)
  end.

Definition unary (n : nat) : list ascii := replicate n "1"%char ++ ["0"%char].

Lemma ones_unary n r : ones (unary n ++ r) = Some (n, r).
Proof. unfold unary. induction n as [|n IH]; cbn; [done|]. cbn in IH. by rewrite IH. Qed.

Definition rec (num : Z) (p : list ascii) : list ascii := unary (encode_nat num) ++ unary (length p) ++ p.

Definition toy_consume (l : list ascii) : Z * Z :=
  match ones l with
  | Some (a, r1) =>
      match ones r1 with
      | Some (k, _) => (default 0 (decode_nat a), Z.of_nat (a + 1 + k + 1 + k))
      | None => (0, -1)
      end
  | None => (0, -1)
  end.

Lemma toy_consume_rec num p rest : toy_consume (rec num p ++ rest) = (num, Z.of_nat (length (rec num p))).
Proof.
  unfold toy_consume, rec. rewrite <- !app_assoc, ones_unary, ones_unary, decode_encode_nat. cbn [default].
  f_equal. unfold unary. rewrite !length_app, !length_replicate. cbn [length]. lia.
Qed.

Definition toy_record (d : MessageDescriptor) (x : string * Value) : list ascii :=
  match x.2 with
  | VBlob b => b
  | v => match ByName d x.1 with Some fd => rec (fdNumber fd) (chars (value_String v)) | None => [] end
  end.

(** Reads back the records, keyed by field name. *)
Fixpoint toy_merge (fuel : nat) (d : MessageDescriptor) (l : list ascii) (base : Message) : Message :=
  match fuel, l with
  | S fuel, _ :: _ =>
      let '(num, n) := toy_consume l in
      match ByNumber d num with
      | Some fd => <[fdName fd := VBlob (take (Z.to_nat n) l)]> (toy_merge fuel d (drop (Z.to_nat n) l) base)
      | None => base
      end
  | _, _ => base
  end.

#[local] Instance toy_runtime : ProtoRuntime := {|
  valid_blob fd b := exists p, b = rec (fdNumber fd) p;
  MarshalMsg d msg := Ok (concat (toy_record d <$> map_to_list msg));
  ConsumeField := toy_consume;
  UnmarshalMerge d l base := Ok (toy_merge (length l) d l base);
  merge_left _ _ base := base;
  ParseFloat s := Some s
|}.

Lemma toy_record_rec d msg n v : msg_ok d msg -> msg !! n = Some v ->
  exists fd p, ByName d n = Some fd /\ ByNumber d (fdNumber fd) = Some fd /\
               toy_record d (n, v) = rec (fdNumber fd) p.
Proof.
  intros Hok Hv. destruct (ok_values d msg Hok n v Hv) as (fd & Hfd & Hty & _). exists fd.
  assert (Hnum : ByNumber d (fdNumber fd) = Some fd).
  { apply ByNumber_of_field; [apply (ok_numbers d msg Hok)|]. by apply ByName_elem in Hfd as [? _]. }
  unfold toy_record. cbn [fst snd]. rewrite Hfd. unfold typed in Hty.
  destruct v as [| | | | |b]; try by eexists.
  destruct (IsFdMarshalToBlob fd); [|by destruct (fdKind fd)]. destruct Hty as [p ->]. by exists p.
Qed.

Lemma rec_nonempty num p : rec num p <> [].
Proof. unfold rec, unary. by destruct (encode_nat num). Qed.

Lemma toy_merge_spec d msg l base : msg_ok d msg -> NoDup l.*1 ->
  (forall n b, (n, b) ∈ l -> msg !! n = Some (VBlob b)) -> forall fuel,
  (length (concat l.*2) <= fuel)%nat ->
  toy_merge fuel d (concat l.*2) base = list_to_map (prod_map id VBlob <$> l) ∪ base.
Proof.
  intros Hok. induction l as [|[n b] l IH]; intros Hnd Hl fuel Hf.
  { cbn. rewrite (left_id_L ∅ (∪)). by destruct fuel. }
  apply NoDup_cons in Hnd as [Hn Hnd]. cbn [fmap list_fmap concat snd] in *.
  destruct (toy_record_rec d msg n (VBlob b) Hok (Hl n b ltac:(left))) as (fd & p & Hfd & Hnum & Hb).
  unfold toy_record in Hb. cbn [snd] in Hb. subst b.
  pose proof (rec_nonempty (fdNumber fd) p) as Hne. rewrite length_app in Hf.
  assert (0 < length (rec (fdNumber fd) p))%nat by (destruct (rec (fdNumber fd) p); [done|cbn; lia]).
  destruct fuel as [|fuel]; [lia|].
  assert (E : toy_merge (S fuel) d (rec (fdNumber fd) p ++ concat l.*2) base =
    <[n := VBlob (rec (fdNumber fd) p)]> (toy_merge fuel d (concat l.*2) base)).
  { cbn [toy_merge]. destruct (rec (fdNumber fd) p ++ concat l.*2) eqn:El.
    { by apply app_eq_nil in El as [El _]. }
    rewrite <- El, toy_consume_rec, Hnum. apply ByName_elem in Hfd as [_ ->].
    rewrite Nat2Z.id, take_app_length, drop_app_length. done. }
  rewrite E, IH; [|done|intros; apply Hl; by right|lia].
  cbn [prod_map id list_to_map foldr fst snd]. by rewrite insert_union_l.
Qed.

#[local] Instance toy_runtime_laws : RuntimeLaws.
Proof.
  refine {| wire_groups d msg := (fun x => (x.1, [toy_record d x])) <$> map_to_list msg |}.
  - intros d msg _. cbn. f_equal. unfold wire_bytes. f_equal. rewrite <- list_fmap_compose.
    apply list_fmap_ext. intros _ [n v] _. unfold group_bytes. cbn. by rewrite app_nil_r.
  - intros d msg _. rewrite <- list_fmap_compose. done.
  - intros d msg n rs Hok Hin. apply list_elem_of_fmap in Hin as ([n' v] & E & Hin). simplify_eq. cbn [fst snd] in *.
    split; [done|]. intros r fd rest Hr Hfd. apply list_elem_of_singleton in Hr as ->.
    apply elem_of_map_to_list in Hin. destruct (toy_record_rec d msg _ v Hok Hin) as (fd' & p & Hfd' & _ & ->).
    rewrite Hfd in Hfd'. simplify_eq. split; [apply rec_nonempty|apply toy_consume_rec].
  - intros d msg n b rs Hok Hv Hin. apply list_elem_of_fmap in Hin as ([n' v] & E & Hin). simplify_eq. cbn [fst snd] in *.
    apply elem_of_map_to_list in Hin. rewrite Hin in Hv. simplify_eq. cbn. by rewrite app_nil_r.
  - intros d msg l base Hok Hnd Hl. cbn. f_equal. eapply toy_merge_spec; [done|done|by apply Hl|done].
Defined.

(** A record with an integer key, a name and a blob. *)
Definition demo_desc : MessageDescriptor :=
  MkMd "Acnt" "db.Acnt"
    [MkFd "id" 1 Int64Kind false; MkFd "name" 2 StringKind false; MkFd "bag" 3 BytesKind false;
     MkFd "sex" 4 EnumKind false] "id".
Definition demo_msg : Message :=
  {[ "id" := VInt (-7); "bag" := VBlob (rec 3 (chars "xy")); "name" := VString "bob" ]}.

Lemma demo_msg_elem n v : demo_msg !! n = Some v ->
  (n, v) ∈ [("id", VInt (-7)); ("bag", VBlob (rec 3 (chars "xy"))); ("name", VString "bob")].
Proof.
  unfold demo_msg. rewrite !lookup_insert_Some, lookup_singleton_Some. intros [[<- <-]|[_ [[<- <-]|[_ [<- <-]]]]];
    [left|right; left|right; right; left].
Qed.

Lemma demo_msg_ok : msg_ok demo_desc demo_msg.
Proof.
  split; [by_decide|by_decide|]. intros n v Hv. apply demo_msg_elem in Hv.
  repeat (apply elem_of_cons in Hv as [[= -> ->]|Hv]); [..|by apply not_elem_of_nil in Hv].
  - eexists. split; [reflexivity|]. split; [split; by vm_compute|done].
  - eexists. split; [reflexivity|]. split; [by eexists|done].
  - eexists. split; [reflexivity|done].
Qed.

Lemma pb_marshal_columns_witness :
  exists m, MarshalToMap demo_desc demo_msg ["name"; "bag.x"] = Done (Ok m) /\
    m !! "name" = Some "bob" /\ m !! "id" = None.
Proof.
  destruct (pb_marshal_columns demo_desc demo_msg ["name"; "bag.x"]) as (m & Hm & Hl);
    [apply demo_msg_ok|by vm_compute|].
  exists m. split; [exact Hm|]. rewrite !Hl. split; vm_compute; reflexivity.
Defined.

Lemma pb_roundtrip_witness : exists m, MarshalToMap demo_desc demo_msg [] = Done (Ok m) /\
  UnmarshalFromMap demo_desc ∅ (map_to_list m) = Done (Ok demo_msg).
Proof.
  eexists. split; [vm_compute; reflexivity|].
  eapply pb_roundtrip; [apply demo_msg_ok|by vm_compute| | |vm_compute; reflexivity|apply Permutation_refl].
  - intros n v fd Hv Hfd Hb. apply demo_msg_elem in Hv.
    repeat (apply elem_of_cons in Hv as [[= -> ->]|Hv]); [..|by apply not_elem_of_nil in Hv];
      vm_compute in Hfd; by simplify_eq.
  - intros n [v Hv]. apply demo_msg_elem in Hv.
    repeat (apply elem_of_cons in Hv as [[= -> ->]|Hv]); [..|by apply not_elem_of_nil in Hv]; done.
Defined.

Lemma pb_unparsable_column_panics_witness :
  panics (UnmarshalFromMap demo_desc ∅ [("name", "bob"); ("sex", "1")]).
Proof.
  apply (pb_unparsable_column_panics demo_desc ∅ _ "sex" "1" (MkFd "sex" 4 EnumKind false));
    [right; left|reflexivity|reflexivity|reflexivity|right; reflexivity].
Defined.

(** A runtime that knows no blobs. *)
Definition scalar_runtime : ProtoRuntime := {|
  valid_blob _ _ := False;
  MarshalMsg _ _ := Err "unsupported";
  ConsumeField _ := (0, -1);
  UnmarshalMerge _ buf m := match buf with [] => Ok m | _ => Err "cannot parse" end;
  merge_left _ _ m := m;
  ParseFloat _ := None
|}.

Lemma pb_unmarshal_well_typed_witness :
  exists r, UnmarshalFromMap (H := scalar_runtime) demo_desc ∅ [("name", "bob"); ("id", "-7"); ("_v", "x")] = Done r /\
    forall m', r = Ok m' -> msg_ok (H := scalar_runtime) demo_desc m'.
Proof.
  destruct (pb_unmarshal_well_typed (H := scalar_runtime) demo_desc ∅ [("name", "bob"); ("id", "-7"); ("_v", "x")])
    as [[_ [w Hw]]|[_ Hr]].
  - split; [by_decide|by_decide|]. intros n v Hv. by rewrite lookup_empty in Hv.
  - intros buf m m' Hm. cbn. destruct buf; [by intros [= <-]|done].
  - vm_compute in Hw. discriminate.
  - exact Hr.
Defined.
