(* ===== verification/Redis.v ===== *)
(** * plugin/db/redis: records in Redis hashes

    Key construction and the cache of record metadata (pb2redis.go), the simple
    operations (simple.go) over a Redis client and its server, opening the
    database and the plugin factory (redis.go), and the asynchronous operations,
    which do nothing (async.go).  The commands of the client are parameters,
    the record [redisClient]; [RedisServer] states what Redis documents of
    them, the effect of the two Lua scripts included.  A server that is a map
    of hashes shows that the laws can hold. *)

From S2P Require Import Prelude GoStrings Plugin PbSupport.

(** ** pb2redis.go *)

Record DBProtoMeta := MkMeta {
  keyFds : list (option FieldDescriptor);   (* what [BuildKey] closes over *)
  prefix : string;
  fdNameToFd : gmap string FieldDescriptor;
  fdNumToName : gmap Z string;
  increaseableKeys : gset string
}.

(** [rf.Get(fd).String()]: the value, or the default of the kind. *)
Definition default_text (k : Kind) : string :=
  match k with
  | StringKind | BytesKind | MessageKind | GroupKind => ""
  | BoolKind => "false"
  | _ => "0"
  end.

Definition get_text (msg : Message) (fd : FieldDescriptor) : string :=
  match msg !! fdName fd with
  | Some v => value_String v
  | None => default_text (fdKind fd)
  end.

Definition newMeta (d : MessageDescriptor) : DBProtoMeta :=
  {| keyFds := FindFds d (FindPrimaryKey d);
     prefix := mdName d;
     fdNameToFd := foldl (fun m fd => <[fdName fd := fd]> m) ∅ (mdFields d);
     fdNumToName := foldl (fun m fd => <[fdNumber fd := fdName fd]> m) ∅ (mdFields d);
     increaseableKeys := BuildIncreaseableFieldsMap d |}.

(** [_metaMap], by full name: look up, or make and keep.  The maps of Redis and
    MySQL work the same way, on different metadata. *)
Definition cached {A} (make : MessageDescriptor -> A) (d : MessageDescriptor) (cache : gmap string A) : A * gmap string A :=
  match cache !! mdFullName d with
  | Some meta => (meta, cache)
  | None => let meta := make d in (meta, <[mdFullName d := meta]> cache)
  end.

Definition GetDBProtoMeta (d : MessageDescriptor) (cache : gmap string DBProtoMeta)
  : DBProtoMeta * gmap string DBProtoMeta := cached newMeta d cache.

(** The text of each key field; a key name that is no field makes [rf.Get]
    panic. *)
Fixpoint key_texts (fds : list (option FieldDescriptor)) (msg : Message) : outcome (list string) :=
  match fds with
  | [] => Done []
  | None :: _ => Panic "invalid memory address or nil pointer dereference"
  | Some fd :: fds => l ← key_texts fds msg; Done (get_text msg fd :: l)
  end.

(** [DBProtoMeta.BuildKey] is nil for a record without primary key. *)
Definition meta_BuildKey (meta : DBProtoMeta) (msg : Message) : outcome string :=
  match keyFds meta with
  | [] => Panic "nil function call"
  | fds => l ← key_texts fds msg; Done (prefix meta +:+ ":{" +:+ Join l "-" +:+ "}")
  end.

Definition BuildKey (d : MessageDescriptor) (msg : Message) : outcome string := meta_BuildKey (newMeta d) msg.

Definition IncreaseAble (meta : DBProtoMeta) (fields : list string) : bool :=
  match fields with
  | [] => false
  | _ => forallb (fun fs => match fdNameToFd meta !! fs with
                            | None => false
                            | Some fd => bool_decide (fdName fd ∈ increaseableKeys meta)
                            end) fields
  end.

(** ** The Redis server *)

(** What a script answers: a text, or something else. *)
Inductive reply := RText (s : string) | RNotText.

(** A command of a pipeline: [HINCRBY key field by]. *)
Record incrCmd := MkIncr { icKey : string; icField : string; icBy : Z }.

(** The commands the package sends, as the Redis client offers them, over the
    state [St] of a server: the answer, and for those that write the state
    after it.  [HMGet] answers nil ([None]) for a field that is not there;
    [PipeExec] is Exec of a pipeline, which answers its first error. *)
Record redisClient (St : Type) := MkClient {
  HGetAll : string -> St -> result error (gmap string string);
  HMGet : string -> list string -> St -> result error (list (option string));
  Eval : string -> list string -> list string -> St -> result error reply * St;
  HMSet : string -> gmap string string -> St -> result error bool * St;
  Del : string -> St -> result error Z * St;
  HIncrBy : string -> string -> Z -> St -> result error Z * St;
  PipeExec : list incrCmd -> St -> option error * St
}.
Arguments MkClient {St} _ _ _ _ _ _ _.
Arguments HGetAll {St} _ _ _.
Arguments HMGet {St} _ _ _ _.
Arguments Eval {St} _ _ _ _ _.
Arguments HMSet {St} _ _ _ _.
Arguments Del {St} _ _ _.
Arguments HIncrBy {St} _ _ _ _ _.
Arguments PipeExec {St} _ _ _.

(** ** simple.go *)

(** The two scripts, line by line. *)
Definition updateScript : string :=
"
			local k = KEYS[1]
			local ret = redis.pcall('exists', k)
			if ret ~= 1 then
				return 'NotExist'
			end
			return redis.pcall('hmset',k,unpack(ARGV))
		".

Definition insertScript : string :=
"
			local k = KEYS[1]
			local ret = redis.pcall('exists', k)
			if ret == 1 then
				return 'AlreadyExists'
			end
			return redis.pcall('hmset',k,unpack(ARGV))
		".

(** The arguments of a script: each column and its value. *)
Definition flatten (l : list (string * string)) : list string := concat ((fun x => [x.1; x.2]) <$> l).

Definition _redisOk : string := "OK".
Definition ErrRecordNotExist : error := "RecordNotExistErr".

(** What the caller gets for the answer to a script. *)
Definition script_error (what : string) (ret : result error reply) : option error :=
  match ret with
  | Err e => Some ("redis ret err:" +:+ e)
  | Ok RNotText => Some "redis result not string"
  | Ok (RText r) => if String.eqb r _redisOk then None else Some (what +:+ " record ret=" +:+ r)
  end.

(** The columns of an answer of [HMGet], in the order asked; [m] are those
    already read. *)
Fixpoint hmget (fields : list string) (ret : list (option string)) (m : gmap string string)
  : result error (gmap string string) :=
  match fields, ret with
  | f :: fields, Some s :: ret => hmget fields ret (<[f := s]> m)
  | f :: _, _ => Err ("result type field=" +:+ f)
  | [], _ => Ok m
  end.

Section Simple.
Context `{ProtoRuntime} (d : MessageDescriptor) {St : Type} (cl : redisClient St).
Context (order : gmap string string -> list (string * string)).

(** [SimpleGet] returns its error and the record after the call; [order] is the
    order in which a map is ranged over. *)
Definition SimpleGet (st : St) (record : Message) (fields : list string) : outcome (option error * Message) :=
  k ← BuildKey d record;
  match fields with
  | [] =>
      match HGetAll cl k st with
      | Err e => Done (Some ("redis ret err:" +:+ e), record)
      | Ok ret => if decide (ret = ∅) then Done (Some ErrRecordNotExist, record)
                  else UnmarshalInto d record (order ret)
      end
  | _ =>
      match HMGet cl k fields st with
      | Err e => Done (Some ("redis ret err:" +:+ e), record)
      | Ok ret =>
          if negb (length ret =? length fields)%nat then Done (Some "redis ret err:%!w(<nil>)", record) else
          match hmget fields ret ∅ with
          | Err e => Done (Some e, record)
          | Ok m => UnmarshalInto d record (order m)
          end
      end
  end.

Definition SimpleBatchGet (record : list Message) : option error := None.

Definition SimpleUpdate (st : St) (record : Message) (fields : list string) : outcome (option error * St) :=
  mm ← MarshalToMap d record fields;
  match mm with
  | Err _ => Done (Some "marshal map failed", st)
  | Ok m =>
      k ← BuildKey d record;
      let '(ret, st) := Eval cl updateScript [k] (flatten (order m)) st in
      Done (script_error "update" ret, st)
  end.

Definition SimpleInsert (st : St) (record : Message) : outcome (option error * St) :=
  mm ← MarshalToMap d record [];
  match mm with
  | Err _ => Done (Some "marshal map failed", st)
  | Ok m =>
      k ← BuildKey d record;
      let '(ret, st) := Eval cl insertScript [k] (flatten (order m)) st in
      Done (script_error "insert" ret, st)
  end.

Definition SimpleReplace (st : St) (record : Message) : outcome (option error * St) :=
  mm ← MarshalToMap d record [];
  match mm with
  | Err _ => Done (Some "marshal map failed", st)
  | Ok m =>
      k ← BuildKey d record;
      let '(ret, st) := HMSet cl k m st in
      Done (match ret with
            | Err e => Some ("redis ret err:" +:+ e)
            | Ok false => Some "redis ret false"
            | Ok true => None
            end, st)
  end.

(** [SimpleDelete]; with [resultFlag] 3 the data is read first.  The error of
    that read is ignored, and what it made of the record is kept. *)
Definition SimpleDelete (st : St) (record : Message) (resultFlag : Z) : outcome (option error * Message * St) :=
  record ← (if resultFlag =? 3 then '(_, record) ← SimpleGet st record []; Done record else Done record);
  k ← BuildKey d record;
  let '(ret, st) := Del cl k st in
  Done (match ret with Err e => Some ("redis ret err:" +:+ e) | Ok _ => None end, record, st).

Definition SimpleIncrease (st : St) (record : Message) (fields : list string) : outcome (option error * St) :=
  if negb (IncreaseAble (newMeta d) fields)
  then Done (Some ("cannot increase fields=" +:+ Join fields ","), st) else
  k ← BuildKey d record;
  match fields with
  | [f] => let '(ret, st) := HIncrBy cl k f 1 st in
           Done (match ret with Err e => Some ("redis ret err:" +:+ e) | Ok _ => None end, st)
  | _ => Done (PipeExec cl ((fun f => MkIncr k f 1) <$> fields) st)
  end.
End Simple.

(** ** redis.go *)

Record dbCfg := MkDbCfg { cfgAddr : string; cfgPoolSize : Z; ConnTimeout : Z; cfgPassword : string }.

(** Options of the Redis client; times in nanoseconds. *)
Record Options := MkOptions {
  Addr : string; Password : string;
  DialTimeout : Z; ReadTimeout : Z; WriteTimeout : Z; PoolTimeout : Z; IdleTimeout : Z;
  MaxRetries : Z; PoolSize : Z; IdleCheckFrequency : Z
}.

Definition Millisecond : Z := 1000000.
Definition Second : Z := 1000 * Millisecond.

(** [client] is nil, or made with its options. *)
Record DB := MkDB { client : option Options }.

(** [None] for the configuration: the dynamic type is another one;
    [newClient] tells whether the client made is not nil. *)
Definition Open (newClient : Options -> bool) (config : option dbCfg) (t : DB) : option error * DB :=
  match config with
  | None => (Some "config type not TcaplusDBCfg", t)
  | Some cfg =>
      if cfgPoolSize cfg =? 0 then (Some "pool must > 0", t) else
      let defaultTimeout := i64 (Second * ConnTimeout cfg) in
      let opt := MkOptions (cfgAddr cfg) (cfgPassword cfg) defaultTimeout defaultTimeout defaultTimeout
                   (30 * Second) (60 * Second) (-1) (cfgPoolSize cfg) (100 * Millisecond) in
      if newClient opt then (None, MkDB (Some opt)) else (Some "new redis client nil", MkDB None)
  end.

Definition DBOpen (newClient : Options -> bool) (config : dbCfg) : result error DB :=
  match Open newClient (Some config) (MkDB None) with
  | (Some e, _) => Err e
  | (None, d) => Ok d
  end.

Definition NewRequest {Req} (t : DB) : option Req := None.
Definition Exec {Res} (t : DB) : result error Res := Err "not support customize request".

(** What the callback is called with. *)
Definition ExecAsync {Res} (t : DB) : list (result error Res) := [Err "not support customize request"].

Definition factory {C I} (newClient : Options -> bool) (wrap : DB -> I) (Unmarshal : C -> result error dbCfg)
  : PluginFactory C I :=
  MkPluginFactory "db" "redis"
    (fun v => match v with
              | None => Panic "invalid memory address or nil pointer dereference"
              | Some section =>
                  match Unmarshal section with
                  | Err err => Done (Err err)
                  | Ok cfg => Done (match DBOpen newClient cfg with Err e => Err e | Ok ins => Ok (wrap ins) end)
                  end
              end)
    (fun _ => Done None) (fun _ _ => Done None).

(** ** async.go *)

(** The error returned and the results the callback is called with: nothing is
    done, and nothing is reported. *)
Abbreviation asyncAnswer := (option error * list (list Message * option error))%type.

Definition OnTick (t : DB) : DB := t.
Definition AsyncGet (record : Message) (fields : list string) : asyncAnswer := (None, []).
Definition AsyncBatchGet (record : list Message) : asyncAnswer := (None, []).
Definition AsyncUpdate (record : Message) (fields : list string) : asyncAnswer := (None, []).
Definition AsyncInsert (record : Message) : asyncAnswer := (None, []).
Definition AsyncReplace (record : Message) : asyncAnswer := (None, []).
Definition AsyncDelete (record : Message) (resultFlag : Z) : asyncAnswer := (None, []).
Definition AsyncIncrease (record : Message) (fields : list string) : asyncAnswer := (None, []).

(** ** Metadata is computed once and is always the descriptor's *)

(** Full names are unique among the descriptors of a program, [ds]. *)
Lemma cached_coherent {A} (make : MessageDescriptor -> A) (cache : gmap string A) (ds : list MessageDescriptor) d :
  (forall d1 d2, d1 ∈ ds -> d2 ∈ ds -> mdFullName d1 = mdFullName d2 -> d1 = d2) -> d ∈ ds ->
  (forall n meta, cache !! n = Some meta -> exists d', d' ∈ ds /\ mdFullName d' = n /\ meta = make d') ->
  let '(meta, cache') := cached make d cache in
  meta = make d /\
  forall n meta, cache' !! n = Some meta -> exists d', d' ∈ ds /\ mdFullName d' = n /\ meta = make d'.
Proof.
  intros Hinj Hd Hc. unfold cached. destruct (cache !! mdFullName d) as [meta|] eqn:E.
  - split; [|done]. destruct (Hc _ _ E) as (d' & Hd' & Hn & ->). by rewrite (Hinj d' d).
  - split; [done|]. intros n meta. rewrite lookup_insert_Some. intros [[<- <-]|[_ Hm]]; [by exists d|by apply Hc].
Qed.

(** ** Keys *)

Lemma Join_inj l1 : forall l2, length l1 = length l2 ->
  Forall (fun s => "-"%char ∉ chars s) l1 -> Forall (fun s => "-"%char ∉ chars s) l2 ->
  Join l1 "-" = Join l2 "-" -> l1 = l2.
Proof.
  induction l1 as [|s1 l1 IH]; intros [|s2 l2] Hl H1 H2 E; simplify_eq/=; [done|].
  apply Forall_cons in H1 as [Hs1 H1]. apply Forall_cons in H2 as [Hs2 H2].
  destruct l1 as [|x1 l1], l2 as [|x2 l2]; simplify_eq/=; [done|].
  change (match l1 with [] => x1 | _ => x1 +:+ "-" +:+ Join l1 "-" end) with (Join (x1 :: l1) "-") in E.
  change (match l2 with [] => x2 | _ => x2 +:+ "-" +:+ Join l2 "-" end) with (Join (x2 :: l2) "-") in E.
  apply (f_equal String.list_ascii_of_string) in E. rewrite !chars_app in E.
  apply app_sep_inj in E as [Es El]; [|done|done].
  apply chars_inj in Es as ->. f_equal. apply IH; [cbn; lia|done|done|]. by apply chars_inj.
Qed.

Lemma key_texts_length fds : forall msg l, key_texts fds msg = Done l -> length l = length fds.
Proof.
  induction fds as [|[fd|] fds IH]; intros msg l Hk; cbn in Hk; [by simplify_eq| |done].
  apply bind_Done_inv in Hk as (l' & Hl & Hk). simplify_eq. cbn. by rewrite (IH msg l').
Qed.

Lemma BuildKey_texts d msg k : BuildKey d msg = Done k ->
  exists l, key_texts (keyFds (newMeta d)) msg = Done l /\ k = mdName d +:+ ":{" +:+ Join l "-" +:+ "}".
Proof.
  unfold BuildKey, meta_BuildKey. destruct (keyFds (newMeta d)) as [|fd fds] eqn:E; [done|].
  intros Hk. apply bind_Done_inv in Hk as (l & Hl & Hk). exists l. split; [done|]. by simplify_eq.
Qed.

(** C30. Redis keys.  Two records of a type get the same key only if their key
    fields have the same texts, provided no text contains a '-'; texts that do
    can collide, and the two records are then one hash. *)
Theorem redis_key_injective (d : MessageDescriptor) (m1 m2 : Message) (k : string) (l1 l2 : list string) :
  BuildKey d m1 = Done k -> BuildKey d m2 = Done k ->
  key_texts (keyFds (newMeta d)) m1 = Done l1 -> key_texts (keyFds (newMeta d)) m2 = Done l2 ->
  Forall (fun s => "-"%char ∉ chars s) l1 -> Forall (fun s => "-"%char ∉ chars s) l2 -> l1 = l2.
Proof.
  intros H1 H2 Hl1 Hl2 Hn1 Hn2.
  apply BuildKey_texts in H1 as (l1' & Hk1 & E1). apply BuildKey_texts in H2 as (l2' & Hk2 & E2).
  rewrite Hl1 in Hk1. rewrite Hl2 in Hk2. simplify_eq.
  apply (f_equal String.list_ascii_of_string) in E2. rewrite !chars_app in E2.
  repeat apply app_inv_head in E2. apply app_inv_tail, chars_inj in E2.
  apply Join_inj; [|done|done|done].
  by rewrite (key_texts_length _ _ _ Hl1), (key_texts_length _ _ _ Hl2).
Qed.

Definition pair_desc : MessageDescriptor :=
  MkMd "Pair" "db.Pair" [MkFd "a" 1 StringKind false; MkFd "b" 2 StringKind false; MkFd "n" 3 Int64Kind false] "a,b".

Lemma redis_key_injective_witness :
  let m : Message := {[ "a" := VString "x"; "b" := VString "y" ]} in
  BuildKey pair_desc m = Done "Pair:{x-y}" /\
  (forall l, key_texts (keyFds (newMeta pair_desc)) m = Done l -> l = ["x"; "y"]) /\
  BuildKey pair_desc {[ "a" := VString "x-y"; "b" := VString "z" ]} =
  BuildKey pair_desc {[ "a" := VString "x"; "b" := VString "y-z" ]}.
Proof.
  intros m. split; [by vm_compute|]. split; [|by vm_compute].
  intros l Hl. apply (redis_key_injective pair_desc m m "Pair:{x-y}"); [by vm_compute|by vm_compute|done|by vm_compute|..].
  - vm_compute in Hl. injection Hl as <-. by_decide.
  - by_decide.
Defined.

(** ** Storing and reading records *)

Section Storing.
Context `{RuntimeLaws} (d : MessageDescriptor).

(** A record the database can hold and give back. *)
Record storable (msg : Message) : Prop := {
  st_ok : msg_ok d msg;
  st_size : Z.of_nat (length (wire_bytes (wire_groups d msg))) < 2 ^ 31;
  st_kinds : forall n v fd, msg !! n = Some v -> ByName d n = Some fd -> IsFdMarshalToBlob fd = false ->
    text_kind (fdKind fd) = true;
  st_names : forall n, is_Some (msg !! n) -> String.prefix "_" n = false
}.

(** The columns of a record. *)
Definition cols (msg : Message) : gmap string string :=
  map_imap (fun n v => match ByName d n with Some fd => Some (marshalScalar fd v) | None => None end) msg.

Lemma cols_lookup msg n : cols msg !! n = stored d msg n.
Proof.
  unfold cols, stored. rewrite map_lookup_imap. destruct (msg !! n); [|done]. cbn. by destruct (ByName d n).
Qed.

Lemma MarshalToMap_all msg : storable msg -> MarshalToMap d msg [] = Done (Ok (cols msg)).
Proof.
  intros [Hok Hsz _ _]. destruct (MarshalToMap_spec d msg Hok Hsz []) as (m & -> & Hm).
  do 2 f_equal. apply map_eq. intros n. by rewrite Hm, cols_lookup.
Qed.

Lemma cols_nonempty msg : msg_ok d msg -> msg <> ∅ -> cols msg <> ∅.
Proof.
  intros Hok Hne Hc. apply Hne. apply map_eq. intros n. rewrite lookup_empty.
  destruct (msg !! n) as [v|] eqn:Hv; [|done]. exfalso.
  destruct (ok_values d msg Hok n v Hv) as (fd & Hfd & _).
  assert (Hn : cols msg !! n = None) by (by rewrite Hc, lookup_empty).
  rewrite cols_lookup in Hn. unfold stored in Hn. rewrite Hv in Hn. cbn in Hn. by rewrite Hfd in Hn.
Qed.

(** A record as the store holds it. *)
Record kept (msg : Message) : Prop := {
  kept_ok : msg_ok d msg;
  kept_kinds : forall n v fd, msg !! n = Some v -> ByName d n = Some fd -> IsFdMarshalToBlob fd = false ->
    text_kind (fdKind fd) = true;
  kept_names : forall n, is_Some (msg !! n) -> String.prefix "_" n = false
}.

Lemma storable_kept msg : storable msg -> kept msg.
Proof. intros [H1 _ H2 H3]. by split. Qed.

Lemma union_nonempty (m1 m2 : Message) : m1 <> ∅ -> m1 ∪ m2 <> ∅.
Proof.
  intros Hne He. apply Hne. apply map_eq. intros n. rewrite lookup_empty.
  destruct (m1 !! n) eqn:Hv; [|done]. assert (Hx : (m1 ∪ m2) !! n = None) by (by rewrite He).
  by rewrite lookup_union, Hv in Hx; destruct (m2 !! n).
Qed.

Lemma kept_union m1 m2 : kept m1 -> kept m2 -> kept (m1 ∪ m2).
Proof.
  intros K1 K2. assert (Hu : forall n v, (m1 ∪ m2) !! n = Some v -> m1 !! n = Some v \/ m2 !! n = Some v).
  { intros n v Hv. apply lookup_union_Some_raw in Hv as [Hv|[_ Hv]]; [by left|by right]. }
  split.
  - destruct K1 as [K1 _ _], K2 as [K2 _ _]. split; [apply K1|apply K1|].
    intros n v [Hv|Hv]%Hu; [by apply (ok_values d m1 K1)|by apply (ok_values d m2 K2)].
  - intros n v fd [Hv|Hv]%Hu; [by eapply (kept_kinds m1 K1)|by eapply (kept_kinds m2 K2)].
  - intros n [v [Hv|Hv]%Hu]; [by eapply (kept_names m1 K1)|by eapply (kept_names m2 K2)].
Qed.

(** No more columns than fields. *)
Lemma cols_size msg : (size (cols msg) <= length (mdFields d))%nat.
Proof.
  rewrite <- (length_fmap fdName), <- length_map_to_list, <- (length_fmap fst).
  apply submseteq_length, NoDup_submseteq; [apply NoDup_fst_map_to_list|]. intros n Hn.
  apply list_elem_of_fmap in Hn as ([n' s] & -> & Hn). apply elem_of_map_to_list in Hn. cbn [fst].
  assert (is_Some (cols msg !! n')) as Hs by (by rewrite Hn). revert Hs. rewrite cols_lookup. unfold stored.
  destruct (msg !! n'); [|by intros [? ?]]. cbn. destruct (ByName d n') as [fd|] eqn:Hfd; [|by intros [? ?]]. intros _.
  apply ByName_elem in Hfd as [Hfd <-]. by apply list_elem_of_fmap_2.
Qed.

Lemma cols_union m1 m2 : msg_ok d m1 -> cols (m1 ∪ m2) = cols m1 ∪ cols m2.
Proof.
  intros Hok. apply map_eq. intros n. rewrite lookup_union, !cols_lookup. unfold stored.
  rewrite lookup_union. destruct (m1 !! n) as [v|] eqn:Hv.
  - destruct (ok_values d m1 Hok n v Hv) as (fd & Hfd & _).
    rewrite Hfd. by destruct (m2 !! n).
  - by destruct (m2 !! n); cbn; destruct (ByName d n).
Qed.
End Storing.

(** ** What Redis documents *)

(** The texts Redis takes for a 64-bit integer: those an integer prints as,
    without sign + or leading zeros. *)
Definition redis_int (s : string) : option Z :=
  match ParseInt s 64 with
  | Ok n => if decide (FormatInt n = s) then Some n else None
  | Err _ => None
  end.

Abbreviation store := (gmap string (gmap string string)).

(** A command that succeeds with an answer, or is refused, and the hashes it
    leaves. *)
Section Effects.
Context {St A : Type} (up : St -> Prop) (hashes : St -> store).

Definition answers (p : result error A * St) (a : A) (h : store) : Prop := p.1 = Ok a /\ up p.2 /\ hashes p.2 = h.
Definition refuses (p : result error A * St) (h : store) : Prop := (exists e, p.1 = Err e) /\ up p.2 /\ hashes p.2 = h.
End Effects.

(** The commands of a pipeline, one after another, and the first error. *)
Fixpoint pipeline {St} (cl : redisClient St) (cmds : list incrCmd) (st : St) : option error * St :=
  match cmds with
  | [] => (None, st)
  | c :: cmds =>
      let '(ret, st) := HIncrBy cl (icKey c) (icField c) (icBy c) st in
      let '(e, st) := pipeline cl cmds st in
      (match ret with Err e => Some e | Ok _ => e end, st)
  end.

(** A server that answers ([up]) and has only hashes: [hashes] by their keys.
    The two scripts set the columns in their arguments if the hash exists, or
    if it does not, as one step; Lua can unpack [script_room] arguments, and
    setting no column is an error.  [HINCRBY] adds at 64 bits, takes a column
    that is not there for 0, and refuses a text that is no integer and a sum
    that does not fit. *)
Class RedisServer {St : Type} (cl : redisClient St) := {
  up : St -> Prop;
  hashes : St -> store;
  script_room : nat;
  redis_hgetall : forall st k, up st -> HGetAll cl k st = Ok (default ∅ (hashes st !! k));
  redis_hmget : forall st k fields, up st -> fields <> [] ->
    HMGet cl k fields st = Ok ((fun f => default ∅ (hashes st !! k) !! f) <$> fields);
  redis_update : forall st k l, up st -> NoDup l.*1 -> (2 * length l <= script_room)%nat ->
    let p := Eval cl updateScript [k] (flatten l) st in
    match hashes st !! k with
    | None => answers up hashes p (RText "NotExist") (hashes st)
    | Some h => if decide (l = []) then refuses up hashes p (hashes st)
                else answers up hashes p (RText "OK") (<[k := list_to_map l ∪ h]> (hashes st))
    end;
  redis_insert : forall st k l, up st -> NoDup l.*1 -> (2 * length l <= script_room)%nat ->
    let p := Eval cl insertScript [k] (flatten l) st in
    match hashes st !! k with
    | Some _ => answers up hashes p (RText "AlreadyExists") (hashes st)
    | None => if decide (l = []) then refuses up hashes p (hashes st)
              else answers up hashes p (RText "OK") (<[k := list_to_map l]> (hashes st))
    end;
  redis_hmset : forall st k m, up st ->
    if decide (m = ∅) then refuses up hashes (HMSet cl k m st) (hashes st)
    else answers up hashes (HMSet cl k m st) true (<[k := m ∪ default ∅ (hashes st !! k)]> (hashes st));
  redis_del : forall st k, up st -> exists n, answers up hashes (Del cl k st) n (delete k (hashes st));
  redis_hincrby : forall st k f by_, up st ->
    let h := default ∅ (hashes st !! k) in
    match redis_int (default "0" (h !! f)) with
    | None => refuses up hashes (HIncrBy cl k f by_ st) (hashes st)
    | Some n =>
        if decide (fits_s 64 (n + by_))
        then answers up hashes (HIncrBy cl k f by_ st) (n + by_) (<[k := <[f := FormatInt (n + by_)]> h]> (hashes st))
        else refuses up hashes (HIncrBy cl k f by_ st) (hashes st)
    end;
  redis_pipeline : forall st cmds, up st -> PipeExec cl cmds st = pipeline cl cmds st
}.

(** ** The writing operations on such a server *)

(** An operation ends with the error [e], and the server has the hashes [h]. *)
Definition ends {St} `{RedisServer St cl} (res : outcome (option error * St)) (e : option error -> Prop) (h : store) : Prop :=
  exists e' st', res = Done (e', st') /\ e e' /\ up st' /\ hashes st' = h.

Section Operations.
Context `{RuntimeLaws} (d : MessageDescriptor) {St : Type} (cl : redisClient St) `{R : !RedisServer cl}.
Context (order : gmap string string -> list (string * string)).
Hypothesis Hord : forall m, ranges m (order m).
Hypothesis Hroom : (2 * length (mdFields d) <= script_room)%nat.

(** The arguments of a script for the columns of a record. *)
Lemma script_args msg : NoDup (order (cols d msg)).*1 /\ (2 * length (order (cols d msg)) <= script_room)%nat /\
  list_to_map (order (cols d msg)) = cols d msg /\ (order (cols d msg) = [] <-> cols d msg = ∅).
Proof.
  pose proof (Hord (cols d msg)) as Ho. pose proof (ranges_length _ _ Ho) as Hl. pose proof (cols_size d msg) as Hs.
  split; [by eapply ranges_NoDup|]. split; [lia|]. split; [by apply ranges_list_to_map|].
  rewrite <- map_size_empty_iff, <- Hl. by destruct (order (cols d msg)).
Qed.

Lemma update_spec st record fields msg k : MarshalToMap d record fields = Done (Ok (cols d msg)) -> BuildKey d record = Done k -> up st ->
  let res := SimpleUpdate d cl order st record fields in
  match hashes st !! k with
  | None => ends res (fun e => e = Some "update record ret=NotExist") (hashes st)
  | Some h => if decide (cols d msg = ∅) then ends res (fun e => e <> None) (hashes st)
              else ends res (fun e => e = None) (<[k := cols d msg ∪ h]> (hashes st))
  end.
Proof.
  intros Hm Hk Hup. unfold SimpleUpdate. rewrite Hm. go_run. rewrite Hk. go_run.
  destruct (script_args msg) as (Hnd & Hlen & Hmap & Hnil). pose proof (redis_update st k _ Hup Hnd Hlen) as Hx. cbv zeta in Hx.
  rewrite Hmap in Hx. unfold answers, refuses in Hx. destruct (Eval cl updateScript [k] _ st) as [ret st']. cbn [fst snd] in Hx.
  destruct (hashes st !! k) as [h|]; [|by destruct Hx as (-> & Hu & Hh); do 2 eexists].
  rewrite (decide_ext _ _ _ _ Hnil) in Hx. case_decide.
  - destruct Hx as ([e ->] & Hu & Hh). by do 2 eexists.
  - destruct Hx as (-> & Hu & Hh). by do 2 eexists.
Qed.

Lemma insert_spec st record msg k : MarshalToMap d record [] = Done (Ok (cols d msg)) -> BuildKey d record = Done k -> up st ->
  let res := SimpleInsert d cl order st record in
  match hashes st !! k with
  | Some _ => ends res (fun e => e = Some "insert record ret=AlreadyExists") (hashes st)
  | None => if decide (cols d msg = ∅) then ends res (fun e => e <> None) (hashes st)
            else ends res (fun e => e = None) (<[k := cols d msg]> (hashes st))
  end.
Proof.
  intros Hm Hk Hup. unfold SimpleInsert. rewrite Hm. go_run. rewrite Hk. go_run.
  destruct (script_args msg) as (Hnd & Hlen & Hmap & Hnil). pose proof (redis_insert st k _ Hup Hnd Hlen) as Hx. cbv zeta in Hx.
  rewrite Hmap in Hx. unfold answers, refuses in Hx. destruct (Eval cl insertScript [k] _ st) as [ret st']. cbn [fst snd] in Hx.
  destruct (hashes st !! k) as [h|]; [by destruct Hx as (-> & Hu & Hh); do 2 eexists|].
  rewrite (decide_ext _ _ _ _ Hnil) in Hx. case_decide.
  - destruct Hx as ([e ->] & Hu & Hh). by do 2 eexists.
  - destruct Hx as (-> & Hu & Hh). by do 2 eexists.
Qed.

Lemma replace_spec st record m k : MarshalToMap d record [] = Done (Ok m) -> BuildKey d record = Done k -> up st ->
  let res := SimpleReplace d cl st record in
  if decide (m = ∅) then ends res (fun e => e <> None) (hashes st)
  else ends res (fun e => e = None) (<[k := m ∪ default ∅ (hashes st !! k)]> (hashes st)).
Proof.
  intros Hm Hk Hup. unfold SimpleReplace. rewrite Hm. go_run. rewrite Hk. go_run.
  pose proof (redis_hmset st k m Hup) as Hx. unfold answers, refuses in Hx. destruct (HMSet cl k m st) as [ret st']. cbn [fst snd] in Hx. case_decide.
  - destruct Hx as ([e ->] & Hu & Hh). by do 2 eexists.
  - destruct Hx as (-> & Hu & Hh). by do 2 eexists.
Qed.

(** Reading a hash that holds the columns of [msg] into a record of its key
    that has none of its blobs. *)
Lemma SimpleGet_over st k msg base :
  kept d msg -> msg <> ∅ -> up st -> hashes st !! k = Some (cols d msg) -> BuildKey d base = Done k ->
  (forall n b, msg !! n = Some (VBlob b) -> base !! n = None) ->
  SimpleGet d cl order st base [] = Done (None, msg ∪ base).
Proof.
  intros [Hok Hk Hu] Hne Hup Hst Hkey Hbase. unfold SimpleGet. rewrite Hkey. go_run.
  rewrite redis_hgetall, Hst by done. cbn [default from_option id]. rewrite decide_False by (by apply cols_nonempty).
  apply UnmarshalInto_ok. eapply (roundtrip_over d msg); [done|done|done| |apply Hord|done]. apply cols_lookup.
Qed.
End Operations.

(** ** A server that is a map of hashes *)

Fixpoint unflatten (l : list string) : list (string * string) :=
  match l with a :: b :: l => (a, b) :: unflatten l | _ => [] end.

Lemma unflatten_flatten l : unflatten (flatten l) = l.
Proof. induction l as [|[a b] l IH]; [done|]. cbn. by rewrite <- IH at 2. Qed.

Definition set_columns (k : string) (l : list (string * string)) (st : store) : result error reply * store :=
  match l with
  | [] => (Err "ERR wrong number of arguments for 'hmset' command", st)
  | _ => (Ok (RText "OK"), <[k := list_to_map l ∪ default ∅ (st !! k)]> st)
  end.

(** The scripts are known by their texts. *)
Definition map_Eval (script : string) (keys args : list string) (st : store) : result error reply * store :=
  match keys with
  | [k] =>
      if decide (script = updateScript) then
        match st !! k with None => (Ok (RText "NotExist"), st) | Some _ => set_columns k (unflatten args) st end
      else if decide (script = insertScript) then
        match st !! k with Some _ => (Ok (RText "AlreadyExists"), st) | None => set_columns k (unflatten args) st end
      else (Err "ERR unknown script", st)
  | _ => (Err "ERR keys", st)
  end.

Definition map_HIncrBy (k f : string) (by_ : Z) (st : store) : result error Z * store :=
  let h := default ∅ (st !! k) in
  match redis_int (default "0" (h !! f)) with
  | None => (Err "ERR hash value is not an integer", st)
  | Some n => if decide (fits_s 64 (n + by_)) then (Ok (n + by_), <[k := <[f := FormatInt (n + by_)]> h]> st)
              else (Err "ERR increment or decrement would overflow", st)
  end.

Definition map_commands (exec : list incrCmd -> store -> option error * store) : redisClient store := {|
  HGetAll k st := Ok (default ∅ (st !! k));
  HMGet k fields st := Ok ((fun f => default ∅ (st !! k) !! f) <$> fields);
  Eval := map_Eval;
  HMSet k m st := if decide (m = ∅) then (Err "ERR wrong number of arguments for 'hmset' command", st)
                  else (Ok true, <[k := m ∪ default ∅ (st !! k)]> st);
  Del k st := (Ok (if decide (st !! k = None) then 0 else 1), delete k st);
  HIncrBy := map_HIncrBy;
  PipeExec := exec
|}.

Definition map_server : redisClient store := map_commands (pipeline (map_commands (fun _ st => (None, st)))).

#[global] Instance map_server_laws : RedisServer map_server.
Proof.
  refine {| up _ := True; hashes st := st; script_room := 1000 |}; cbn [HGetAll HMGet Eval HMSet Del HIncrBy PipeExec map_server map_commands].
  - done.
  - done.
  - intros st k l _ _ _. cbv zeta. unfold map_Eval. rewrite decide_True, unflatten_flatten by done.
    destruct (st !! k) as [h|] eqn:E; [|done]. unfold set_columns. rewrite E. by destruct l; [split; [by eexists|]|].
  - intros st k l _ _ _. cbv zeta. unfold map_Eval. rewrite decide_False, decide_True, unflatten_flatten by done.
    destruct (st !! k) as [h|] eqn:E; [done|]. unfold set_columns. rewrite E. destruct l; [by split; [by eexists|]|].
    split; [done|]. split; [done|]. cbn [snd default from_option]. by rewrite (right_id_L ∅ (∪)).
  - intros st k m _. case_decide; by repeat (done || eexists || split).
  - intros st k _. by eexists.
  - intros st k f by_ _. cbv zeta. unfold map_HIncrBy. destruct (redis_int _) as [n|]; [|by repeat (done || eexists || split)].
    case_decide; by repeat (done || eexists || split).
  - intros st cmds _. revert st. induction cmds as [|c cmds IH]; intros st; [done|]. cbn [pipeline HIncrBy map_commands map_server].
    destruct (map_HIncrBy _ _ _ st) as [ret st']. by rewrite IH.
Defined.

(** *** Witnesses *)

#[local] Existing Instance toy_runtime.
#[local] Existing Instance toy_runtime_laws.

Lemma demo_storable : storable demo_desc demo_msg.
Proof.
  split; [apply demo_msg_ok|by vm_compute|..].
  - intros n v fd Hv Hfd Hb. apply demo_msg_elem in Hv.
    repeat (apply elem_of_cons in Hv as [[= -> ->]|Hv]); [..|by apply not_elem_of_nil in Hv];
      vm_compute in Hfd; by simplify_eq.
  - intros n [v Hv]. apply demo_msg_elem in Hv.
    repeat (apply elem_of_cons in Hv as [[= -> ->]|Hv]); [..|by apply not_elem_of_nil in Hv]; done.
Qed.

Definition demo_key : Message := {[ "id" := VInt (-7) ]}.

Lemma demo_key_sub n v : demo_key !! n = Some v -> demo_msg !! n = Some v /\ forall b, v <> VBlob b.
Proof. unfold demo_key. rewrite lookup_singleton_Some. intros [<- <-]. by split. Qed.

Lemma demo_key_storable : storable demo_desc demo_key.
Proof.
  split; [split; [by_decide|by_decide|]|by vm_compute|..].
  - intros n v Hv. apply demo_key_sub in Hv as [Hv _]. by apply (ok_values demo_desc demo_msg demo_msg_ok).
  - intros n v fd Hv. apply demo_key_sub in Hv as [Hv _]. by eapply (st_kinds demo_desc demo_msg demo_storable).
  - intros n [v Hv]. apply demo_key_sub in Hv as [Hv _]. apply (st_names demo_desc demo_msg demo_storable). by eexists.
Qed.
