(* ===== verification/Mysql.v ===== *)
(** * plugin/db/mysql: records as rows

    The SQL text and parameters built for a record (pb2sql.go), the create-table
    text (newTableInfo), and the simple operations (simple.go) against a server
    given by what it answers to a statement.  A map the code ranges over is
    given as the list of its entries in iteration order.  Opening the database
    and the plugin factory (mysql.go) are here too; the asynchronous operations
    (async.go) do nothing. *)

From S2P Require Import Prelude GoStrings Plugin PbSupport Redis.

(** ** Table definitions *)

(** [fmt.Sprintf] of one of the column formats with the column name; the
    missing format of Fixed64 is the empty string, to which Sprintf appends
    its complaint about the extra argument. *)
Definition quoted (n : string) : string := "`" +:+ n +:+ "`".

Definition blobCreate (n : string) : string := quoted n +:+ " blob".

Definition FdKindToSQLCreate (k : Kind) (n : string) : string :=
  match k with
  | BoolKind => quoted n +:+ " tinyint NOT NULL DEFAULT 0"
  | EnumKind | Int32Kind | Sint32Kind | Sfixed32Kind | Fixed32Kind => quoted n +:+ " int NOT NULL DEFAULT 0"
  | Uint32Kind => quoted n +:+ " int UNSIGNED NOT NULL DEFAULT 0"
  | Int64Kind | Sint64Kind | Sfixed64Kind => quoted n +:+ " bigint NOT NULL DEFAULT 0"
  | Uint64Kind => quoted n +:+ " bigint UNSIGNED NOT NULL DEFAULT 0"
  | FloatKind => quoted n +:+ " float NOT NULL DEFAULT 0"
  | DoubleKind => quoted n +:+ " double NOT NULL DEFAULT 0"
  | StringKind => quoted n +:+ " text"
  | BytesKind | MessageKind | GroupKind => blobCreate n
  | Fixed64Kind => "%!(EXTRA protoreflect.Name=" +:+ n +:+ ")"
  end.

Definition StringKindPrimaryKey (n : string) : string := quoted n +:+ " varchar(255) NOT NULL".

Record TableInfo := MkTableInfo {
  TableName : string; DescFullName : string; PrimaryKeys : string; CreateSQLs : list string
}.

Definition column_sql (keysMap : gset string) (fd : FieldDescriptor) : string :=
  if IsFdMarshalToBlob fd then blobCreate (fdName fd)
  else if bool_decide (fdKind fd = StringKind) && bool_decide (fdName fd ∈ keysMap)
       then StringKindPrimaryKey (fdName fd)
       else FdKindToSQLCreate (fdKind fd) (fdName fd).

Definition newTableInfo (d : MessageDescriptor) : result error TableInfo :=
  match FindPrimaryKey d with
  | [] => Err ("no primkey msg=" +:+ mdFullName d)
  | primkeys =>
      let keysMap := BuildKeyFieldsMap d in
      Ok {| TableName := mdName d; DescFullName := mdFullName d; PrimaryKeys := Join primkeys ",";
            CreateSQLs := column_sql keysMap <$> mdFields d |}
  end.

(** [_CreateTableTemplate] executed on a table description. *)
Definition nl : string := String (ascii_of_N 10) "".
Definition tab : string := String (ascii_of_N 9) "".
Definition createTableText (ti : TableInfo) : string :=
  "CREATE TABLE IF NOT EXISTS " +:+ TableName ti +:+ " (" +:+ nl +:+ tab
  +:+ Join ((fun c => nl +:+ tab +:+ tab +:+ c +:+ " ," +:+ nl +:+ tab) <$> CreateSQLs ti) ""
  +:+ nl +:+ tab +:+ "PRIMARY KEY ( " +:+ PrimaryKeys ti +:+ " )" +:+ nl +:+ tab
  +:+ ") ENGINE=InnoDB DEFAULT CHARSET=utf8mb4 COMMENT='" +:+ DescFullName ti +:+ "'".

(** ** Statements *)

Record sqlPkg := MkSqlPkg { str : string; params : list string }.

Definition eq_param (k : string) : string := k +:+ "=?".

(** What the closures of [GetDBProtoMeta] close over: the where clause, the key
    fields, the primary keys and the fields that can be increased. *)
Definition where_keys (d : MessageDescriptor) : string := Join (eq_param <$> FindPrimaryKey d) ",".
Definition key_fds (d : MessageDescriptor) : list (option FieldDescriptor) := FindFds d (FindPrimaryKey d).

Definition SelectFieldsPkg (d : MessageDescriptor) (msg : Message) (fields : list string) : outcome sqlPkg :=
  params ← key_texts (key_fds d) msg;
  Done (MkSqlPkg
    ("select " +:+ (match fields with [] => "*" | _ => Join fields "," end)
     +:+ " from " +:+ mdName d +:+ " where " +:+ where_keys d) params).

Definition ReplacePkg (d : MessageDescriptor) (m : list (string * string)) : option sqlPkg :=
  match m with
  | [] => None
  | _ => Some (MkSqlPkg ("replace into " +:+ mdName d +:+ " set " +:+ Join (eq_param <$> m.*1) ",") m.*2)
  end.

Definition UpdatePkg (d : MessageDescriptor) (msg : Message) (m : list (string * string)) : outcome (option sqlPkg) :=
  match m with
  | [] => Done None
  | _ =>
      let sets := filter (fun x => x.1 ∉ BuildKeyFieldsMap d) m in
      ks ← key_texts (key_fds d) msg;
      Done (Some (MkSqlPkg
        ("update " +:+ mdName d +:+ " set " +:+ Join (eq_param <$> sets.*1) "," +:+ " where " +:+ where_keys d)
        (sets.*2 ++ ks)))
  end.

Definition IncreasePkg (d : MessageDescriptor) (msg : Message) (fields : list string) : outcome (option sqlPkg) :=
  match fields with
  | [] => Done None
  | _ =>
      if forallb (fun k => bool_decide (k ∈ BuildIncreaseableFieldsMap d)) fields then
        ks ← key_texts (key_fds d) msg;
        Done (Some (MkSqlPkg
          ("update " +:+ mdName d +:+ " set " +:+ Join ((fun k => k +:+ "=" +:+ k +:+ "+1") <$> fields) ","
           +:+ " where " +:+ where_keys d) ks))
      else Done None
  end.

(** [strings.Repeat("?,", cnt-1) + "?"] *)
Definition placeholders (cnt : nat) : string := Join (replicate cnt "?") ",".

Definition InsertPkg (d : MessageDescriptor) (m : list (string * string)) : option sqlPkg :=
  match m with
  | [] => None
  | _ => Some (MkSqlPkg
      ("insert into " +:+ mdName d +:+ " (" +:+ Join m.*1 "," +:+ ") values (" +:+ placeholders (length m) +:+ ") ")
      m.*2)
  end.

Definition DeleteSQLPkg (d : MessageDescriptor) (msg : Message) : outcome sqlPkg :=
  params ← key_texts (key_fds d) msg;
  Done (MkSqlPkg ("delete from " +:+ mdName d +:+ " where " +:+ where_keys d) params).

(** The builders of one record type, and [_metaMap]. *)
Record DBProtoMeta := MkDBProtoMeta {
  m_SelectFieldsPkg : Message -> list string -> outcome sqlPkg;
  m_ReplacePkg : list (string * string) -> option sqlPkg;
  m_InsertPkg : list (string * string) -> option sqlPkg;
  m_UpdatePkg : Message -> list (string * string) -> outcome (option sqlPkg);
  m_IncreasePkg : Message -> list string -> outcome (option sqlPkg);
  m_DeleteSQLPkg : Message -> outcome sqlPkg
}.

Definition newMeta (d : MessageDescriptor) : DBProtoMeta :=
  MkDBProtoMeta (SelectFieldsPkg d) (ReplacePkg d) (InsertPkg d) (UpdatePkg d) (IncreasePkg d) (DeleteSQLPkg d).

Definition GetDBProtoMeta (d : MessageDescriptor) (cache : gmap string DBProtoMeta)
  : DBProtoMeta * gmap string DBProtoMeta := cached newMeta d cache.

(** ** simple.go *)

(** The operations fetch the metadata of the record's descriptor first; by
    [cached_coherent] it is [newMeta d] in every call, whose builders they use. *)

(** The server, over its state: rows affected or an error per statement; for a
    query the row it returns, columns with NULL as [None], if there is one. *)
Record server (St : Type) := MkServer {
  exec : sqlPkg -> St -> result error Z * St;
  query : sqlPkg -> St -> result error (option (list (string * option string)))
}.
Arguments MkServer {St} _ _.
Arguments exec {St} _ _ _.
Arguments query {St} _ _ _.

Section Simple.
Context `{ProtoRuntime} (d : MessageDescriptor) {St : Type} (sv : server St).
Context (order : gmap string string -> list (string * string)).

(** The error, and the record after the call. *)
Definition SimpleGet (st : St) (record : Message) (fields : list string) : outcome (option error * Message) :=
  pkg ← SelectFieldsPkg d record fields;
  match query sv pkg st with
  | Err e => Done (Some e, record)
  | Ok None => Done (Some ErrRecordNotExist, record)
  | Ok (Some row) =>
      let retMap : gmap string string := list_to_map (reverse (prod_map id (default "") <$> row)) in
      UnmarshalInto d record (order retMap)
  end.

(** ExecContext, with the error wrapped as all callers but [SimpleUpdate] do. *)
Definition exec_err (pkg : sqlPkg) (st : St) : option error * St :=
  let '(r, st) := exec sv pkg st in
  (match r with Err e => Some ("mysql exec err:" +:+ e) | Ok _ => None end, st).

Definition SimpleUpdate (st : St) (record : Message) (fields : list string) : outcome (option error * St) :=
  mm ← MarshalToMap d record fields;
  match mm with
  | Err _ => Done (Some "marshal map failed", st)
  | Ok m =>
      p ← UpdatePkg d record (order m);
      match p with
      | None => Done (Some ("build sql fullname:" +:+ mdFullName d), st)
      | Some pkg =>
          let '(r, st) := exec sv pkg st in
          match r with
          | Err e => Done (Some ("mysql exec err:" +:+ e), st)
          | Ok n => Done (if n =? 0 then Some "affect 0" else None, st)
          end
      end
  end.

Definition SimpleInsert (st : St) (record : Message) : outcome (option error * St) :=
  mm ← MarshalToMap d record [];
  match mm with
  | Err _ => Done (Some "marshal map failed", st)
  | Ok m =>
      match InsertPkg d (order m) with
      | None => Done (Some ("build sql fullname:" +:+ mdFullName d), st)
      | Some pkg => Done (exec_err pkg st)
      end
  end.

(** The result of [ReplacePkg] is used without a test for nil. *)
Definition SimpleReplace (st : St) (record : Message) : outcome (option error * St) :=
  mm ← MarshalToMap d record [];
  match mm with
  | Err _ => Done (Some "marshal map failed", st)
  | Ok m =>
      match ReplacePkg d (order m) with
      | None => Panic "invalid memory address or nil pointer dereference"
      | Some pkg => Done (exec_err pkg st)
      end
  end.

(** The error of the get is not looked at, and what it made of the record is
    kept. *)
Definition SimpleDelete (st : St) (record : Message) (resultFlag : Z) : outcome (option error * Message * St) :=
  record ← (if resultFlag =? 3 then '(_, record) ← SimpleGet st record []; Done record else Done record);
  pkg ← DeleteSQLPkg d record;
  let '(e, st) := exec_err pkg st in
  Done (e, record, st).

Definition SimpleIncrease (st : St) (record : Message) (fields : list string) : outcome (option error * St) :=
  p ← IncreasePkg d record fields;
  match p with
  | None => Done (Some ("increase sql build fullname:" +:+ mdFullName d), st)
  | Some pkg => Done (exec_err pkg st)
  end.

(** *** table.go *)

Definition plain_err (pkg : sqlPkg) (st : St) : option error * St :=
  let '(r, st) := exec sv pkg st in (match r with Err e => Some e | Ok _ => None end, st).

Definition CreateTable (st : St) : option error * St :=
  match newTableInfo d with
  | Err e => (Some e, st)
  | Ok ti => plain_err (MkSqlPkg (createTableText ti) []) st
  end.
Definition DropTable (st : St) : option error * St :=
  plain_err (MkSqlPkg ("drop table if exists " +:+ mdName d) []) st.
Definition ExistTable (st : St) : bool * St :=
  let '(e, st) := plain_err (MkSqlPkg ("desc " +:+ mdName d) []) st in (bool_decide (e = None), st).
End Simple.

Definition SimpleBatchGet (record : list Message) : option error := None.

(** ** mysql.go *)

Record dbCfg := MkDbCfg { DataSource : string; IdleConns : Z; MaxLifeTime : Z }.

(** A database handle with its settings. *)
Record sqlDB := MkSqlDB { source : string; maxIdle : Z; maxLife : Z }.

(** [sql] is nil before [Open]. *)
Record DB := MkDB { sql : option sqlDB }.

(** [open] is the driver's check of the data source, [ping] the first contact
    with the server.  [None] for the configuration: another dynamic type. *)
Definition Open (open ping : string -> option error) (config : option dbCfg) (t : DB) : option error * DB :=
  match config with
  | None => (Some "config type not TcaplusDBCfg", t)
  | Some cfg =>
      match open (DataSource cfg) with
      | Some err => (Some ("open mysql datasource=" +:+ DataSource cfg +:+ ", err:" +:+ err), t)
      | None =>
          let dbsql := MkSqlDB (DataSource cfg) (IdleConns cfg) (i64 (MaxLifeTime cfg * Redis.Second)) in
          match ping (DataSource cfg) with
          | Some _ => (Some ("failed to ping mysql datasource=" +:+ DataSource cfg), t)
          | None => (None, MkDB (Some dbsql))
          end
      end
  end.

Definition DBOpen (open ping : string -> option error) (config : dbCfg) : result error DB :=
  match Open open ping (Some config) (MkDB None) with
  | (Some e, _) => Err e
  | (None, d) => Ok d
  end.

Definition NewRequest {Req} (t : DB) : option Req := None.
Definition Exec {Res} (t : DB) : result error Res := Err "not support customize request".
Definition ExecAsync {Res} (t : DB) : list (result error Res) := [Err "not support customize request"].

Definition factory {C I} (open ping : string -> option error) (wrap : DB -> I) (Unmarshal : C -> result error dbCfg)
  : PluginFactory C I :=
  MkPluginFactory "db" "mysql"
    (fun v => match v with
              | None => Panic "invalid memory address or nil pointer dereference"
              | Some section =>
                  match Unmarshal section with
                  | Err err => Done (Err err)
                  | Ok cfg => Done (match DBOpen open ping cfg with Err e => Err e | Ok ins => Ok (wrap ins) end)
                  end
              end)
    (fun _ => Done None) (fun _ _ => Done None).

(** ** async.go *)

Definition OnTick (t : DB) : DB := t.
Definition AsyncGet (record : Message) (fields : list string) : asyncAnswer := (None, []).
Definition AsyncBatchGet (record : list Message) : asyncAnswer := (None, []).
Definition AsyncUpdate (record : Message) (fields : list string) : asyncAnswer := (None, []).
Definition AsyncInsert (record : Message) : asyncAnswer := (None, []).
Definition AsyncReplace (record : Message) : asyncAnswer := (None, []).
Definition AsyncDelete (record : Message) (resultFlag : Z) : asyncAnswer := (None, []).
Definition AsyncIncrease (record : Message) (fields : list string) : asyncAnswer := (None, []).

(** ** Parameters match placeholders *)

Definition count_q (s : string) : nat := length (filter (fun c => c = "?"%char) (chars s)).

(** No question mark in a name. *)
Definition plain (s : string) : Prop := count_q s = 0%nat.

Lemma count_q_app a b : count_q (a +:+ b) = (count_q a + count_q b)%nat.
Proof. unfold count_q. by rewrite chars_app, filter_app, length_app. Qed.

Lemma count_q_Join sep l : plain sep -> count_q (Join l sep) = sum_list_with count_q l.
Proof.
  intros Hs. induction l as [|s l IH]; [done|]. cbn [sum_list_with]. destruct l as [|s' l].
  { cbn [Join sum_list_with]. by rewrite Nat.add_0_r. }
  change (Join (s :: s' :: l) sep) with (s +:+ sep +:+ Join (s' :: l) sep).
  by rewrite !count_q_app, IH, Hs.
Qed.

Lemma count_q_params sep l : plain sep -> Forall plain l -> count_q (Join (eq_param <$> l) sep) = length l.
Proof.
  intros Hs HF. rewrite count_q_Join by done. induction HF as [|x l Hx _ IH]; [done|].
  rewrite fmap_cons. cbn [sum_list_with length]. rewrite IH. unfold eq_param. by rewrite count_q_app, Hx.
Qed.

Lemma count_q_plain sep l : plain sep -> Forall plain l -> count_q (Join l sep) = 0%nat.
Proof.
  intros Hs HF. rewrite count_q_Join by done. induction HF as [|x l Hx _ IH]; [done|].
  cbn [sum_list_with]. by rewrite Hx.
Qed.

Lemma count_q_placeholders n : count_q (placeholders n) = n.
Proof.
  unfold placeholders. rewrite count_q_Join by done. induction n as [|n IH]; [done|].
  cbn [replicate sum_list_with]. by rewrite IH.
Qed.

(** The names that go into statements. *)
Record plain_desc (d : MessageDescriptor) : Prop := {
  plain_table : plain (mdName d);
  plain_keys : Forall plain (FindPrimaryKey d)
}.

Lemma key_params d msg l : plain_desc d -> key_texts (key_fds d) msg = Done l ->
  count_q (where_keys d) = length l.
Proof.
  intros [_ Hk] Hl. unfold where_keys. rewrite count_q_params by done.
  rewrite (key_texts_length _ _ _ Hl). unfold key_fds, FindFds. by rewrite length_fmap.
Qed.

(** The statement has a parameter for every placeholder. *)
Definition balanced (p : sqlPkg) : Prop := count_q (str p) = length (params p).

Ltac count_statement :=
  rewrite !count_q_app; repeat match goal with
  | |- context [count_q (String ?a ?b)] => let n := eval vm_compute in (count_q (String a b)) in
      change (count_q (String a b)) with n
  end.

(** C31. Every statement is parameterised correctly: if the table, key and
    column names contain no '?', each of the six statements the package builds
    has exactly as many placeholders as parameters, whatever the values are;
    values never enter the text. *)
Theorem mysql_statements_balanced (d : MessageDescriptor) (msg : Message) (fields : list string)
    (m : list (string * string)) :
  plain_desc d -> Forall plain fields -> Forall plain m.*1 ->
  (forall p, SelectFieldsPkg d msg fields = Done p -> balanced p) /\
  (forall p, ReplacePkg d m = Some p -> balanced p) /\
  (forall p, UpdatePkg d msg m = Done (Some p) -> balanced p) /\
  (forall p, IncreasePkg d msg fields = Done (Some p) -> balanced p) /\
  (forall p, InsertPkg d m = Some p -> balanced p) /\
  (forall p, DeleteSQLPkg d msg = Done p -> balanced p).
Proof.
  intros Hd Hf Hm. pose proof (plain_table d Hd) as Ht. unfold plain in Ht. unfold balanced.
  assert (Hm' : Forall (fun x => plain x.1) m) by exact (proj1 (Forall_fmap _ _ _) Hm).
  split; [|split; [|split; [|split; [|split]]]]; intros p Hp.
  - apply bind_Done_inv in Hp as (l & Hl & Hp). simplify_eq. cbn [str params]. count_statement.
    rewrite Ht, (key_params d msg l Hd Hl). destruct fields as [|f fields]; [done|].
    by rewrite count_q_plain.
  - unfold ReplacePkg in Hp. destruct m as [|x m]; [done|]. simplify_eq. cbn [str params]. count_statement.
    rewrite Ht, count_q_params by done. by rewrite !length_fmap.
  - unfold UpdatePkg in Hp. destruct m as [|x m']; [done|]. cbv beta iota in Hp. remember (x :: m') as m eqn:E. clear E.
    apply bind_Done_inv in Hp as (l & Hl & Hp). simplify_eq. cbn [str params]. count_statement.
    rewrite Ht, (key_params d msg l Hd Hl), count_q_params; [rewrite length_app, !length_fmap; lia|done|].
    apply Forall_fmap. apply Forall_list_filter. exact Hm'.
  - unfold IncreasePkg in Hp. destruct fields as [|f fs]; [done|]. cbv beta iota in Hp.
    remember (f :: fs) as fields eqn:E. clear E.
    destruct (forallb _ _); [|done]. apply bind_Done_inv in Hp as (l & Hl & Hp). simplify_eq.
    cbn [str params]. count_statement. rewrite Ht, (key_params d msg l Hd Hl), count_q_plain; [done|done|].
    apply Forall_fmap. eapply Forall_impl; [exact Hf|]. intros k Hk.
    change (count_q (k +:+ "=" +:+ k +:+ "+1") = 0%nat). unfold plain in Hk. by rewrite !count_q_app, Hk.
  - unfold InsertPkg in Hp. destruct m as [|x m']; [done|]. cbv beta iota in Hp. remember (x :: m') as m eqn:E. clear E. simplify_eq.
    cbn [str params]. count_statement. rewrite Ht, count_q_plain, count_q_placeholders by done.
    rewrite length_fmap. lia.
  - apply bind_Done_inv in Hp as (l & Hl & Hp). simplify_eq. cbn [str params]. count_statement.
    by rewrite Ht, (key_params d msg l Hd Hl).
Qed.

Lemma mysql_statements_balanced_witness :
  let msg : Message := {[ "a" := VString "?"; "b" := VString "y" ]} in
  exists p, SelectFieldsPkg pair_desc msg ["n"] = Done p /\ str p = "select n from Pair where a=?,b=?" /\ balanced p.
Proof.
  intros msg. eexists. split; [vm_compute; reflexivity|]. split; [reflexivity|].
  destruct (mysql_statements_balanced pair_desc msg ["n"] []) as [Hs _];
    [split; [reflexivity|by_decide]|by_decide|constructor|].
  apply Hs. vm_compute. reflexivity.
Defined.

(** ** Defects of the statements *)

(** What the statements are for unusual records.  With two primary keys the
    where clause is "k1=?,k2=?", joined by a comma instead of "and".  A record
    whose only populated fields are its keys is updated with an empty set
    clause.  A record with nothing populated is refused by [SimpleInsert] but
    makes [SimpleReplace] panic. *)
Theorem mysql_degenerate_statements `{ProtoRuntime} (d : MessageDescriptor) {St : Type} (sv : server St) (st : St)
    (order : gmap string string -> list (string * string)) (k1 k2 : string) (msg : Message)
    (p : sqlPkg) :
  FindPrimaryKey d = [k1; k2] -> (forall m, ranges m (order m)) ->
  (DeleteSQLPkg d msg = Done p -> str p = "delete from " +:+ mdName d +:+ " where " +:+ k1 +:+ "=?," +:+ k2 +:+ "=?") /\
  (UpdatePkg d msg [(k1, "x"); (k2, "y")] = Done (Some p) ->
     str p = "update " +:+ mdName d +:+ " set " +:+ " where " +:+ k1 +:+ "=?," +:+ k2 +:+ "=?") /\
  (MarshalToMap d msg [] = Done (Ok ∅) ->
     SimpleInsert d sv order st msg = Done (Some ("build sql fullname:" +:+ mdFullName d), st) /\
     panics (SimpleReplace d sv order st msg)).
Proof.
  intros Hk Hord.
  assert (Hw : where_keys d = k1 +:+ "=?," +:+ k2 +:+ "=?").
  { unfold where_keys. rewrite Hk.
    change (Join (eq_param <$> [k1; k2]) ",") with ((k1 +:+ "=?") +:+ "," +:+ (k2 +:+ "=?")).
    by rewrite string_assoc. }
  split; [|split].
  - intros Hp. apply bind_Done_inv in Hp as (l & _ & Hp). injection Hp as <-.
    cbn [str]. by rewrite Hw.
  - intros Hp. unfold UpdatePkg in Hp. apply bind_Done_inv in Hp as (l & _ & Hp).
    assert (Hs : filter (fun x : string * string => x.1 ∉ BuildKeyFieldsMap d) [(k1, "x"); (k2, "y")] = []).
    { unfold BuildKeyFieldsMap. rewrite Hk. rewrite !filter_cons, !decide_False by set_solver. done. }
    rewrite Hs in Hp. injection Hp as <-. cbn [str]. by rewrite Hw.
  - intros Hm. assert (Ho : order ∅ = []).
    { specialize (Hord ∅). unfold ranges in Hord. rewrite map_to_list_empty in Hord.
      by apply Permutation_nil_r in Hord. }
    unfold SimpleInsert, SimpleReplace. rewrite Hm. go_run. rewrite Ho. split; [done|by eexists].
Qed.

#[local] Existing Instance toy_runtime.

Lemma mysql_degenerate_statements_witness :
  panics (SimpleReplace pair_desc (MkServer (fun _ st => (Ok 1, st)) (fun _ _ => Ok None)) map_to_list () ∅).
Proof.
  destruct (mysql_degenerate_statements pair_desc (MkServer (fun _ st => (Ok 1, st)) (fun _ _ => Ok None)) () map_to_list
    "a" "b" ∅ (MkSqlPkg "" [])) as (_ & _ & Hp); [by vm_compute|intros m; apply Permutation_refl|].
  apply Hp. by vm_compute.
Defined.
