(* ===== verification/Db.v ===== *)
(** * plugin/db: the interface of the databases, and what its clients may rely on

    The interfaces of db.go as classes of operations over the state of a
    database, with the Redis and MySQL packages as instances.  The comments of
    IDBSimpleExecutor describe a table of records: an abstract table is the
    contract, sequences of calls are proved against it for any database that
    satisfies it, and the Redis package is shown to satisfy it. *)

From S2P Require Import Prelude GoStrings Plugin PbSupport Redis Mysql.

(** ** The interfaces *)

(** A call returns its error; those that pass data out through the record return
    the record too. *)
Class IDBSimpleExecutor (DB : Type) := {
  SimpleGet : DB -> Message -> list string -> outcome (option error * Message);
  SimpleBatchGet : DB -> list Message -> option error;
  SimpleUpdate : DB -> Message -> list string -> outcome (option error * DB);
  SimpleInsert : DB -> Message -> outcome (option error * DB);
  SimpleReplace : DB -> Message -> outcome (option error * DB);
  SimpleDelete : DB -> Message -> Z -> outcome (option error * Message * DB);
  SimpleIncrease : DB -> Message -> list string -> outcome (option error * DB)
}.

(** The error returned and the calls of the callback. *)
Class IDBAsyncExecutor (DB : Type) := {
  AsyncGet : DB -> Message -> list string -> asyncAnswer;
  AsyncBatchGet : DB -> list Message -> asyncAnswer;
  AsyncUpdate : DB -> Message -> list string -> asyncAnswer;
  AsyncInsert : DB -> Message -> asyncAnswer;
  AsyncReplace : DB -> Message -> asyncAnswer;
  AsyncDelete : DB -> Message -> Z -> asyncAnswer;
  AsyncIncrease : DB -> Message -> list string -> asyncAnswer
}.

Section Instances.
Context `{ProtoRuntime} (d : MessageDescriptor) (order : gmap string string -> list (string * string)).

Definition redis_simple {St : Type} (cl : redisClient St) : IDBSimpleExecutor St := {|
  SimpleGet := Redis.SimpleGet d cl order;
  SimpleBatchGet _ ms := Redis.SimpleBatchGet ms;
  SimpleUpdate := Redis.SimpleUpdate d cl order;
  SimpleInsert := Redis.SimpleInsert d cl order;
  SimpleReplace := Redis.SimpleReplace d cl;
  SimpleDelete := Redis.SimpleDelete d cl order;
  SimpleIncrease := Redis.SimpleIncrease d cl
|}.

Definition mysql_simple {St : Type} (sv : Mysql.server St) : IDBSimpleExecutor St := {|
  SimpleGet := Mysql.SimpleGet d sv order;
  SimpleBatchGet _ ms := Mysql.SimpleBatchGet ms;
  SimpleUpdate := Mysql.SimpleUpdate d sv order;
  SimpleInsert := Mysql.SimpleInsert d sv order;
  SimpleReplace := Mysql.SimpleReplace d sv order;
  SimpleDelete := Mysql.SimpleDelete d sv order;
  SimpleIncrease := Mysql.SimpleIncrease d sv
|}.
End Instances.

Definition redis_async {St : Type} : IDBAsyncExecutor St := {|
  AsyncGet _ := Redis.AsyncGet; AsyncBatchGet _ := Redis.AsyncBatchGet; AsyncUpdate _ := Redis.AsyncUpdate;
  AsyncInsert _ := Redis.AsyncInsert; AsyncReplace _ := Redis.AsyncReplace; AsyncDelete _ := Redis.AsyncDelete;
  AsyncIncrease _ := Redis.AsyncIncrease
|}.

Definition mysql_async {St : Type} : IDBAsyncExecutor St := {|
  AsyncGet _ := Mysql.AsyncGet; AsyncBatchGet _ := Mysql.AsyncBatchGet; AsyncUpdate _ := Mysql.AsyncUpdate;
  AsyncInsert _ := Mysql.AsyncInsert; AsyncReplace _ := Mysql.AsyncReplace; AsyncDelete _ := Mysql.AsyncDelete;
  AsyncIncrease _ := Mysql.AsyncIncrease
|}.

(** ** The contract *)

(** A call on whole records, and what the caller learns from it. *)
Inductive dbOp := OInsert (m : Message) | OUpdate (m : Message) | OReplace (m : Message) | ODelete (m : Message) | OGet (m : Message).
Inductive dbRes := RDone (ok : bool) | RGot (m : option Message).

Definition op_record (o : dbOp) : Message :=
  match o with OInsert m | OUpdate m | OReplace m | ODelete m | OGet m => m end.

Definition res_of (e : option error) : dbRes := RDone (bool_decide (e = None)).

Section Calls.
Context {DB : Type} `{IDBSimpleExecutor DB}.

Definition run_op (o : dbOp) (db : DB) : outcome (dbRes * DB) :=
  match o with
  | OInsert m => '(e, db) ← SimpleInsert db m; Done (res_of e, db)
  | OUpdate m => '(e, db) ← SimpleUpdate db m []; Done (res_of e, db)
  | OReplace m => '(e, db) ← SimpleReplace db m; Done (res_of e, db)
  | ODelete m => '(e, _, db) ← SimpleDelete db m 0; Done (res_of e, db)
  | OGet m => '(e, m) ← SimpleGet db m []; Done (RGot (match e with None => Some m | Some _ => None end), db)
  end.

Fixpoint run_all (os : list dbOp) (db : DB) : outcome (list dbRes * DB) :=
  match os with
  | [] => Done ([], db)
  | o :: os => '(r, db) ← run_op o db; '(rs, db) ← run_all os db; Done (r :: rs, db)
  end.
End Calls.

(** Records by key. *)
Abbreviation table := (gmap string Message).

(** What the calls do to a table of Redis: an insert needs a free key and an update a
    record; an update or replace completes the new record by the old one; a get
    completes the stored record by the one passed in. *)
Definition table_op (k : string) (o : dbOp) (T : table) : dbRes * table :=
  match o, T !! k with
  | OInsert _, Some _ => (RDone false, T)
  | OInsert m, None => (RDone true, <[k := m]> T)
  | OUpdate m, Some old => (RDone true, <[k := m ∪ old]> T)
  | OUpdate _, None => (RDone false, T)
  | OReplace m, old => (RDone true, <[k := m ∪ default ∅ old]> T)
  | ODelete _, _ => (RDone true, delete k T)
  | OGet m, Some old => (RGot (Some (old ∪ m)), T)
  | OGet _, None => (RGot None, T)
  end.

(** A sequence of calls on a table whose calls are [spec]. *)
Fixpoint table_all (spec : string -> dbOp -> table -> dbRes * table) (key : Message -> string) (os : list dbOp)
    (T : table) : list dbRes * table :=
  match os with
  | [] => ([], T)
  | o :: os =>
      let '(r, T) := spec (key (op_record o)) o T in
      let '(rs, T) := table_all spec key os T in (r :: rs, T)
  end.

(** A database is a table of the records [ok] accepts, under [key], with the
    calls [spec]. *)
Class TableContract {DB : Type} `{IDBSimpleExecutor DB} (spec : string -> dbOp -> table -> dbRes * table)
    (ok : dbOp -> Prop) (key : Message -> string) (repr : table -> DB -> Prop) :=
  contract : forall o T db, ok o -> repr T db ->
    exists db', run_op o db = Done ((spec (key (op_record o)) o T).1, db') /\
      repr (spec (key (op_record o)) o T).2 db'.

(** Any sequence of calls on such a database does what it does to the table. *)
Lemma run_all_table {DB : Type} `{TableContract DB} os : Forall ok os -> forall T db, repr T db ->
  exists db', run_all os db = Done ((table_all spec key os T).1, db') /\ repr (table_all spec key os T).2 db'.
Proof.
  induction 1 as [|o os Ho _ IH]; intros T db HT; [by exists db|]. cbn [run_all table_all].
  destruct (contract o T db Ho HT) as (db1 & -> & H1). rewrite bind_Done.
  destruct (spec (key (op_record o)) o T) as [r T1]. cbn [fst snd] in *.
  destruct (IH T1 db1 H1) as (db2 & -> & H2). rewrite bind_Done. exists db2.
  by destruct (table_all spec key os T1) as [rs T2].
Qed.

(** ** Redis keeps the contract *)

Section Redis.
Context `{RuntimeLaws} (d : MessageDescriptor) {St : Type} (cl : redisClient St) `{R : !RedisServer cl}.
Context (order : gmap string string -> list (string * string)).
Hypothesis Hord : forall m, ranges m (order m).

#[local] Instance redis_here : IDBSimpleExecutor St := redis_simple d order cl.

Definition redis_key (m : Message) : string := match BuildKey d m with Done k => k | _ => "" end.

(** Records that can be stored and have a key; a get passes no blobs in. *)
Definition redis_ok (o : dbOp) : Prop :=
  storable d (op_record o) /\ op_record o <> ∅ /\ BuildKey d (op_record o) = Done (redis_key (op_record o)) /\
  match o with OGet m => forall n b, m !! n <> Some (VBlob b) | _ => True end.

(** A server that answers, whose scripts take all the fields of a record, with
    the hashes of the table. *)
Definition redis_repr (T : table) (st : St) : Prop :=
  up st /\ (2 * length (mdFields d) <= script_room)%nat /\ hashes st = cols d <$> T /\
  forall k m, T !! k = Some m -> kept d m /\ m <> ∅.

Lemma repr_insert T st st' k m : redis_repr T st -> kept d m -> m <> ∅ -> up st' ->
  hashes st' = <[k := cols d m]> (hashes st) -> redis_repr (<[k := m]> T) st'.
Proof.
  intros (_ & Hroom & Hs & HT) Hk Hne Hup Hst. split; [done|]. split; [done|]. split; [by rewrite Hst, Hs, fmap_insert|].
  intros k' m' [[_ <-]|[_ Hm]]%lookup_insert_Some; [done|by eapply HT].
Qed.

Lemma repr_hmset T st st' k m : redis_repr T st -> kept d m -> m <> ∅ -> up st' ->
  hashes st' = <[k := cols d m ∪ default ∅ (hashes st !! k)]> (hashes st) ->
  redis_repr (<[k := m ∪ default ∅ (T !! k)]> T) st'.
Proof.
  intros Hr Hk Hne Hup Hst. pose proof Hr as (_ & _ & Hs & HT). eapply repr_insert; [done| |by apply union_nonempty|done|].
  - destruct (T !! k) as [old|] eqn:E; cbn [default from_option].
    + apply kept_union; [done|]. by eapply HT.
    + replace (m ∪ ∅) with m by (by rewrite (right_id_L ∅ (∪))). exact Hk.
  - rewrite Hst. f_equal. rewrite cols_union by apply Hk. rewrite Hs, lookup_fmap. by destruct (T !! k).
Qed.

Lemma repr_same T st st' : redis_repr T st -> up st' -> hashes st' = hashes st -> redis_repr T st'.
Proof. intros (_ & Hroom & Hs & HT) Hup Hst. split; [done|]. split; [done|]. by rewrite Hst. Qed.

(** A stored blob is not among the scalars of a well-typed record. *)
Lemma no_blob_of m m' n b : kept d m -> storable d m' -> (forall n b, m' !! n <> Some (VBlob b)) ->
  m !! n = Some (VBlob b) -> m' !! n = None.
Proof.
  intros [Hok _ _] [Hok' _ _ _] Hnb Hm. destruct (m' !! n) as [v|] eqn:Hv; [|done]. exfalso.
  destruct (ok_values d m Hok n _ Hm) as (fd & Hfd & Ht & _).
  destruct (ok_values d m' Hok' n v Hv) as (fd' & Hfd' & Ht' & _). rewrite Hfd in Hfd'. simplify_eq.
  destruct (IsFdMarshalToBlob fd') eqn:Hb.
  - destruct (typed_blob fd' v Ht' Hb) as [b' ->]. by eapply Hnb.
  - exact (typed_scalar fd' _ Ht Hb b eq_refl).
Qed.

#[local] Instance redis_contract : TableContract table_op redis_ok redis_key redis_repr.
Proof.
  intros o T st (Hst & Hne & Hk & Hg) HT. pose proof HT as (Hup & Hroom & Hs & HK).
  pose proof (storable_kept d _ Hst) as Hkept. pose proof (MarshalToMap_all d _ Hst) as Hm.
  pose proof (cols_nonempty d _ (st_ok d _ Hst) Hne) as Hc.
  assert (Hlk : hashes st !! redis_key (op_record o) = cols d <$> T !! redis_key (op_record o)) by (by rewrite Hs, lookup_fmap).
  set (k := redis_key (op_record o)) in *. unfold table_op.
  destruct o as [m|m|m|m|m]; cbn [op_record] in *; cbn [run_op SimpleInsert SimpleUpdate SimpleReplace SimpleDelete SimpleGet redis_here redis_simple].
  - pose proof (insert_spec d cl order Hord Hroom st m m k Hm Hk Hup) as Hx. cbv zeta in Hx. rewrite Hlk, decide_False in Hx by done.
    destruct (T !! k) as [old|]; destruct Hx as (e & st' & -> & -> & Hu & Hh); rewrite bind_Done; exists st'; (split; [done|]).
    + by eapply repr_same.
    + by eapply repr_insert.
  - pose proof (update_spec d cl order Hord Hroom st m [] m k Hm Hk Hup) as Hx. cbv zeta in Hx. rewrite Hlk in Hx.
    destruct (T !! k) as [old|] eqn:E; cbn [fmap option_fmap option_map] in Hx; [rewrite decide_False in Hx by done|];
      destruct Hx as (e & st' & -> & -> & Hu & Hh); rewrite bind_Done; exists st'; (split; [done|]).
    + pose proof (repr_hmset T st st' k m HT Hkept Hne Hu) as Hr. rewrite E, Hlk in Hr. by apply Hr.
    + by eapply repr_same.
  - pose proof (replace_spec d cl st m (cols d m) k Hm Hk Hup) as Hx. cbv zeta in Hx. rewrite decide_False in Hx by done.
    destruct Hx as (e & st' & -> & -> & Hu & Hh). rewrite bind_Done. exists st'. split; [done|]. by eapply repr_hmset.
  - unfold Redis.SimpleDelete. cbn [Z.eqb]. rewrite bind_Done, Hk, bind_Done. destruct (redis_del st k Hup) as (n & Hx).
    unfold answers in Hx. destruct (Del cl k st) as [ret st']. cbn [fst snd] in Hx. destruct Hx as (-> & Hu & Hh).
    rewrite bind_Done. exists st'. split; [done|]. split; [done|]. split; [done|]. split; [cbn [snd]; by rewrite Hh, Hs, fmap_delete|].
    cbn [snd]. intros k' m' [_ Hx]%lookup_delete_Some. by eapply HK.
  - destruct (T !! k) as [old|] eqn:E; cbn [fst snd].
    + destruct (HK k old E) as [Ko Eo].
      rewrite (SimpleGet_over d cl order Hord st k old m); [|done|done|done|by rewrite Hlk|done|].
      * rewrite bind_Done. by exists st.
      * intros n b Hb. by eapply no_blob_of.
    + unfold Redis.SimpleGet. rewrite Hk, bind_Done, redis_hgetall, Hlk by done. cbn [fmap option_fmap option_map default from_option].
      rewrite decide_True by done. rewrite bind_Done. by exists st.
Qed.
End Redis.

(** The Redis package, over any server that behaves as Redis documents, is a
    table of records.  Any sequence of inserts,
    updates, replaces, deletes and gets of whole records, from any of its
    clients, answers exactly as the abstract table does, and leaves the hashes
    of the final table: an insert is refused iff the key is taken, an update
    iff it is free, deletes always succeed, a get yields the record of its key
    or reports that there is none; an update or replace completes the record by
    the fields already stored. *)
Theorem redis_refines_table `{RuntimeLaws} (d : MessageDescriptor)
    {St : Type} (cl : redisClient St) `{R : !RedisServer cl}
    (order : gmap string string -> list (string * string)) (os : list dbOp) (T : table) (st : St) :
  (forall m, ranges m (order m)) -> Forall (redis_ok d) os -> redis_repr d cl T st ->
  exists st', run_all (H := redis_simple d order cl) os st = Done ((table_all table_op (redis_key d) os T).1, st') /\
    redis_repr d cl (table_all table_op (redis_key d) os T).2 st'.
Proof.
  intros Hord Hos HT. exact (run_all_table (H0 := redis_contract d cl order Hord) os Hos T st HT).
Qed.

#[local] Existing Instance toy_runtime.
#[local] Existing Instance toy_runtime_laws.

(** Insert, insert again, get by key, delete, update. *)
Lemma redis_refines_table_witness :
  exists r', run_all (H := redis_simple demo_desc map_to_list map_server)
      [OInsert demo_msg; OInsert demo_msg; OGet demo_key; ODelete demo_key; OUpdate demo_msg] ∅ =
    Done ([RDone true; RDone false; RGot (Some (demo_msg ∪ demo_key)); RDone true; RDone false], r').
Proof.
  destruct (redis_refines_table demo_desc map_server map_to_list
    [OInsert demo_msg; OInsert demo_msg; OGet demo_key; ODelete demo_key; OUpdate demo_msg] ∅ ∅)
    as (r' & H1 & _).
  - intros m. apply Permutation_refl.
  - assert (Hm : forall o, op_record o = demo_msg -> match o with OGet _ => False | _ => True end -> redis_ok demo_desc o).
    { intros o Ho Hg. split; [rewrite Ho; apply demo_storable|]. split; [by rewrite Ho|].
      split; [rewrite Ho; by vm_compute|by destruct o]. }
    assert (Hk : forall o, op_record o = demo_key -> redis_ok demo_desc o).
    { intros o Ho. split; [rewrite Ho; apply demo_key_storable|]. split; [by rewrite Ho|].
      split; [rewrite Ho; by vm_compute|]. destruct o; [done..|]. cbn in Ho. subst.
      intros n b Hb. apply demo_key_sub in Hb as [_ Hb]. by eapply Hb. }
    apply Forall_forall. intros o Ho.
    repeat (apply elem_of_cons in Ho as [->|Ho]; [first [by apply Hm|by apply Hk]|]). by apply not_elem_of_nil in Ho.
  - split; [done|]. split; [cbn; lia|]. split; [by rewrite fmap_empty|]. intros k m Hm. by rewrite lookup_empty in Hm.
  - exists r'. exact H1.
Defined.
