(* ===== verification/DbMysql.v ===== *)
(** * plugin/db over MySQL: the table a MySQL server keeps

    What the statements of the MySQL package do, given what MySQL documents of
    them ([MySQL], over any server), and the table its simple operations
    therefore implement: that of Redis except that a replace forgets the old
    record, a get returns the stored record alone, and an update that changes
    nothing is reported as failed.  A server that parses the statements is the
    witness. *)

From S2P Require Import Prelude GoStrings Plugin PbSupport Redis Mysql Db.

(** ** Reading a complete row *)

(** What a column without a value holds (newTableInfo): numbers 0, texts and
    blobs NULL.  A row is its columns that are not NULL. *)
Definition default_column (fd : FieldDescriptor) : option string :=
  if IsFdMarshalToBlob fd then None else if bool_decide (fdKind fd = StringKind) then None else Some "0".

Definition defaults (d : MessageDescriptor) : gmap string string :=
  list_to_map (omap (M := list) (fun fd => match default_column fd with Some s => Some (fdName fd, s) | None => None end)
    (mdFields d)).

(** The row of a record whose columns are [m], and what a query returns of it. *)
Definition complete (d : MessageDescriptor) (m : gmap string string) : gmap string string := m ∪ defaults d.
Definition row_columns (d : MessageDescriptor) (row : gmap string string) : list (string * option string) :=
  (fun fd => (fdName fd, row !! fdName fd)) <$> mdFields d.

(** Record types whose every column can be read back. *)
Record readable (d : MessageDescriptor) : Prop := {
  rd_names : NoDup (fdName <$> mdFields d);
  rd_kinds : forall fd, fd ∈ mdFields d -> IsFdMarshalToBlob fd = false -> text_kind (fdKind fd) = true;
  rd_under : forall fd, fd ∈ mdFields d -> String.prefix "_" (fdName fd) = false
}.

Lemma ByName_in d fd : NoDup (fdName <$> mdFields d) -> fd ∈ mdFields d -> ByName d (fdName fd) = Some fd.
Proof.
  intros Hnd Hin. unfold ByName. apply (find_unique fdName); [done|done|]. intros y _. apply String.eqb_eq.
Qed.

Lemma defaults_lookup d fd : NoDup (fdName <$> mdFields d) -> fd ∈ mdFields d ->
  defaults d !! fdName fd = default_column fd.
Proof.
  intros Hnd Hin. unfold defaults. induction (mdFields d) as [|f l IH]; [by apply not_elem_of_nil in Hin|].
  cbn [fmap list_fmap] in Hnd. apply NoDup_cons in Hnd as [Hf Hnd]. rewrite omap_cons_eq.
  assert (Hout : forall n, n ∉ (fdName <$> l) -> (list_to_map (omap (M := list) (fun fd => match default_column fd with
    Some s => Some (fdName fd, s) | None => None end) l) : gmap string string) !! n = None).
  { intros n Hn. apply not_elem_of_list_to_map_1. intros Hx. apply Hn.
    apply list_elem_of_fmap in Hx as ([n' s] & -> & Hx). apply list_elem_of_omap in Hx as (f' & Hf' & Hx).
    destruct (default_column f'); simplify_eq. cbn [fst]. by apply list_elem_of_fmap_2. }
  apply elem_of_cons in Hin as [->|Hin].
  - destruct (default_column f) as [s|]; [|by apply Hout]. cbn. by rewrite lookup_insert_eq.
  - assert (fdName f <> fdName fd). { intros E. apply Hf. rewrite E. by apply list_elem_of_fmap_2. }
    destruct (default_column f) as [s|]; [cbn; rewrite lookup_insert_ne by done|]; by apply IH.
Qed.

Section ReadRow.
Context `{RuntimeLaws} (d : MessageDescriptor) (Hd : readable d) (msg : Message) (Hk : kept d msg).

(** A column whose text is what [msg] has in its field. *)
Definition reads_as (k s : string) : Prop := exists fd, ByName d k = Some fd /\ String.prefix "_" k = false /\
  if IsFdMarshalToBlob fd then chars s = match msg !! k with Some (VBlob b) => b | _ => [] end
  else exists v, unmarshalScalarByStr fd s = Ok v /\ msg !! k = (if is_zero v then None else Some v).

Definition scalar_column (n : string) : bool :=
  match ByName d n with Some fd => negb (IsFdMarshalToBlob fd) | None => false end.

Lemma unmarshal_loop_reads l : forall buf acc, NoDup l.*1 -> (forall k s, (k, s) ∈ l -> reads_as k s) ->
  exists acc', unmarshal_loop d l buf acc = Done (buf ++ concat (blobs msg l).*2, acc') /\
    forall n, acc' !! n = if decide (n ∈ l.*1 /\ scalar_column n = true) then msg !! n else acc !! n.
Proof.
  induction l as [|[k s] l IH]; intros buf acc Hnd Hr.
  { exists acc. split; [cbn; by rewrite app_nil_r|]. intros n. rewrite decide_False; [done|]. by intros [?%not_elem_of_nil _]. }
  apply NoDup_cons in Hnd as [Hn Hnd]. cbn [fst] in Hn.
  destruct (Hr k s ltac:(left)) as (fd & Hfd & Hu & Hs). cbn [unmarshal_loop]. rewrite Hu, Hfd.
  assert (Hr' : forall k s, (k, s) ∈ l -> reads_as k s) by (intros; apply Hr; by right).
  destruct (IsFdMarshalToBlob fd) eqn:Hb.
  - destruct (IH (buf ++ chars s) acc Hnd Hr') as (acc' & -> & Ha). exists acc'. split.
    + rewrite <- app_assoc. do 3 f_equal. unfold blobs. rewrite omap_cons_eq. cbn [fst].
      destruct (msg !! k) as [[]|]; cbn; by rewrite Hs.
    + intros n. rewrite Ha. cbn [fmap list_fmap fst]. destruct (decide (n = k)) as [->|Hne].
      * assert (Hsc : scalar_column k = false) by (unfold scalar_column; by rewrite Hfd, Hb).
        rewrite !decide_False; [done| |]; intros [_ Hx]; congruence.
      * apply decide_ext. rewrite elem_of_cons. tauto.
  - destruct Hs as (v & Hv & Hm). rewrite Hv. destruct (IH buf (set_field acc k v) Hnd Hr') as (acc' & -> & Ha).
    assert (Hsc : scalar_column k = true) by (unfold scalar_column; by rewrite Hfd, Hb).
    exists acc'. split.
    + do 3 f_equal. unfold blobs. rewrite omap_cons_eq. cbn [fst]. destruct (msg !! k) as [v'|] eqn:E; [|done].
      destruct (ok_values d msg (kept_ok d msg Hk) k v' E) as (fd' & Hfd' & Ht & _). rewrite Hfd in Hfd'. simplify_eq.
      pose proof (typed_scalar fd' v' Ht Hb) as Hnb. destruct v'; try done. by exfalso; eapply Hnb.
    + intros n. rewrite Ha. cbn [fmap list_fmap fst]. destruct (decide (n = k)) as [->|Hne].
      * rewrite decide_False by (by intros [? _]). rewrite decide_True by (split; [left|done]).
        rewrite Hm. unfold set_field. destruct (is_zero v); [by rewrite lookup_delete_eq|by rewrite lookup_insert_eq].
      * replace (set_field acc k v !! n) with (acc !! n).
        2: { unfold set_field. destruct (is_zero v); [by rewrite lookup_delete_ne|by rewrite lookup_insert_ne]. }
        apply decide_ext. rewrite elem_of_cons. tauto.
Qed.

(** The text of an unset column is read as the zero value. *)
Lemma default_reads fd : text_kind (fdKind fd) = true -> IsFdMarshalToBlob fd = false ->
  exists v, unmarshalScalarByStr fd (default "" (default_column fd)) = Ok v /\ is_zero v = true.
Proof.
  intros Ht Hb. unfold default_column. rewrite Hb. unfold IsFdMarshalToBlob in Hb.
  destruct (fdRepeated fd); [done|]. unfold unmarshalScalarByStr.
  destruct (fdKind fd); try done; cbn; (eexists; split; [reflexivity|reflexivity]).
Qed.

Lemma row_reads fd : fd ∈ mdFields d -> reads_as (fdName fd) (default "" (complete d (cols d msg) !! fdName fd)).
Proof.
  intros Hin. pose proof (rd_names d Hd) as Hnd. pose proof (ByName_in d fd Hnd Hin) as Hfd.
  exists fd. split; [done|]. split; [by apply (rd_under d Hd)|].
  unfold complete. rewrite lookup_union, (defaults_lookup d fd Hnd Hin), cols_lookup. unfold stored. rewrite Hfd.
  destruct (msg !! fdName fd) as [v|] eqn:Hv; cbn [mbind option_bind].
  - destruct (ok_values d msg (kept_ok d msg Hk) _ v Hv) as (fd' & Hfd' & Ht & Hz). rewrite Hfd in Hfd'. simplify_eq.
    assert (Hdef : union (Some (marshalScalar fd' v)) (default_column fd') = Some (marshalScalar fd' v))
      by (by destruct (default_column fd')). rewrite Hdef. cbn [default from_option id].
    destruct (IsFdMarshalToBlob fd') eqn:Hb.
    + destruct (typed_blob fd' v Ht Hb) as [b ->]. by rewrite marshalScalar_blob, chars_of_chars.
    + exists v. rewrite (scalar_roundtrip fd' v Hb (rd_kinds d Hd fd' Hin Hb) Ht). split; [done|]. by rewrite Hz.
  - rewrite (left_id_L None (∪)). destruct (IsFdMarshalToBlob fd) eqn:Hb.
    + unfold default_column. by rewrite Hb.
    + destruct (default_reads fd (rd_kinds d Hd fd Hin Hb) Hb) as (v & -> & Hz). exists v. by rewrite Hz.
Qed.

(** The columns of a query result are those of the fields. *)
Lemma row_entries l :
  ranges (list_to_map (reverse (prod_map id (default "") <$> row_columns d (complete d (cols d msg)))) : gmap string string) l ->
  (forall k s, (k, s) ∈ l -> reads_as k s) /\ (forall k, k ∈ l.*1 <-> is_Some (ByName d k)).
Proof.
  intros Hl. pose proof (rd_names d Hd) as Hnd. set (row := complete d (cols d msg)) in *.
  set (kv := prod_map id (default "") <$> row_columns d row) in *.
  assert (Ekv : kv = (fun fd => (fdName fd, default "" (row !! fdName fd))) <$> mdFields d).
  { unfold kv, row_columns. by rewrite <- list_fmap_compose. }
  assert (Hin : forall k s, (k, s) ∈ l <-> exists fd, (k, s) = (fdName fd, default "" (row !! fdName fd)) /\ fd ∈ mdFields d).
  { intros k s. rewrite (ranges_lookup _ _ _ _ Hl), <- elem_of_list_to_map.
    - rewrite elem_of_reverse, Ekv. apply list_elem_of_fmap.
    - rewrite fmap_reverse, reverse_Permutation, Ekv, <- list_fmap_compose. exact Hnd. }
  split.
  - intros k s Hx. apply Hin in Hx as (fd & E & Hfd). simplify_eq. by apply row_reads.
  - intros k. rewrite list_elem_of_fmap. split.
    + intros ([k' s] & -> & Hx). apply Hin in Hx as (fd & E & Hfd). simplify_eq. exists fd. by apply ByName_in.
    + intros [fd Hfd]. apply ByName_elem in Hfd as [Hfd <-]. exists (fdName fd, default "" (row !! fdName fd)).
      split; [done|]. apply Hin. by exists fd.
Qed.

(** The value of a well-typed record in a field, by what the field is. *)
Lemma blob_field m n b : msg_ok d m -> m !! n = Some (VBlob b) -> is_Some (ByName d n) /\ scalar_column n = false.
Proof.
  intros Hok Hv. destruct (ok_values d m Hok n _ Hv) as (fd & Hfd & Ht & _). unfold scalar_column. rewrite Hfd.
  split; [by eexists|]. destruct (IsFdMarshalToBlob fd) eqn:Hb; [done|]. by destruct (typed_scalar fd _ Ht Hb b).
Qed.

Lemma other_field m n v : msg_ok d m -> m !! n = Some v -> (forall b, v <> VBlob b) ->
  is_Some (ByName d n) /\ scalar_column n = true.
Proof.
  intros Hok Hv Hnb. destruct (ok_values d m Hok n _ Hv) as (fd & Hfd & Ht & _). unfold scalar_column. rewrite Hfd.
  split; [by eexists|]. destruct (IsFdMarshalToBlob fd) eqn:Hb; [|done].
  destruct (typed_blob fd v Ht Hb) as [b ->]. by destruct (Hnb b).
Qed.

(** Reading a row into a record without blobs gives the stored record, whatever
    the record had before. *)
Lemma row_roundtrip base l : msg_ok d base -> (forall n b, base !! n <> Some (VBlob b)) ->
  ranges (list_to_map (reverse (prod_map id (default "") <$> row_columns d (complete d (cols d msg)))) : gmap string string) l ->
  UnmarshalFromMap d base l = Done (Ok msg).
Proof.
  intros Hbase Hnb Hl. destruct (row_entries l Hl) as [Hreads Hin]. pose proof (ranges_NoDup _ _ Hl) as Hnd.
  pose proof (kept_ok d msg Hk) as Hok. rewrite UnmarshalFromMap_eq.
  destruct (unmarshal_loop_reads l [] base Hnd Hreads) as (acc & -> & Ha). go_run. cbn [app].
  assert (Hold : forall n v, base !! n = Some v -> is_Some (ByName d n) /\ scalar_column n = true).
  { intros n v Hv. eapply other_field; [exact Hbase|exact Hv|]. intros b ->. by destruct (Hnb n b). }
  rewrite (merge_blobs d msg); [|done|by apply blobs_NoDup|].
  - do 2 f_equal. rewrite blobs_select. apply map_eq. intros n. rewrite lookup_union, select_lookup, Ha by done.
    unfold blob_of. destruct (msg !! n) as [v|] eqn:Hv.
    + assert ((exists b, v = VBlob b) \/ (forall b, v <> VBlob b)) as [[b ->]|Hno] by (destruct v; (by right) || (left; by eexists)).
      * destruct (blob_field msg n b Hok Hv) as [Hf Hs]. rewrite decide_True by by apply Hin.
        rewrite decide_False by (intros [_ Hx]; congruence).
        destruct (base !! n) as [v|] eqn:Ev; [|done]. destruct (Hold n v Ev) as [_ Hx]. congruence.
      * destruct (other_field msg n v Hok Hv) as [Hf Hs]; [done|].
        rewrite decide_True by by apply Hin. rewrite decide_True by (split; [by apply Hin|done]).
        by destruct v.
    + replace (if decide (n ∈ l.*1) then None else None) with (@None Value) by (by destruct (decide (n ∈ l.*1))).
      rewrite (left_id_L None (∪)). case_decide as Hx; [done|]. destruct (base !! n) as [v|] eqn:Ev; [|done].
      exfalso. destruct (Hold n v Ev) as [Hf Hs]. apply Hx. by split; [apply Hin|].
  - intros n b Hb. apply elem_of_blobs in Hb as [_ Hb]. destruct (blob_field msg n b Hok Hb) as [_ Hs].
    split; [done|]. rewrite Ha, decide_False by (intros [_ Hx]; congruence).
    destruct (base !! n) as [v|] eqn:Ev; [|done]. destruct (Hold n v Ev) as [_ Hx]. congruence.
Qed.
End ReadRow.

(** Two records with the same row are the same. *)
Lemma complete_inj `{RuntimeLaws} d m1 m2 : readable d -> kept d m1 -> kept d m2 ->
  complete d (cols d m1) = complete d (cols d m2) -> m1 = m2.
Proof.
  intros Hd K1 K2 E. assert (He : msg_ok d ∅).
  { split; [apply (kept_ok d m1 K1)|apply (kept_ok d m1 K1)|]. intros n v Hv. by rewrite lookup_empty in Hv. }
  pose proof (row_roundtrip d Hd m1 K1 ∅ _ He ltac:(done) (Permutation_refl _)) as H1.
  pose proof (row_roundtrip d Hd m2 K2 ∅ _ He ltac:(done) (Permutation_refl _)) as H2.
  rewrite E in H1. congruence.
Qed.

(** ** What MySQL documents *)

(** Columns and values for a statement: columns of the table, each once, with
    values the column takes and gives back unchanged. *)
Definition columns_ok (d : MessageDescriptor) (holds : FieldDescriptor -> string -> Prop) (l : list (string * string)) : Prop :=
  NoDup l.*1 /\ forall n s, (n, s) ∈ l -> exists fd, ByName d n = Some fd /\ holds fd s.

(** The text of an integer; other texts that MySQL reads as the same number, as
    007 for 7, are not said to be the same key. *)
Definition int_text (k : string) : Prop := exists n, k = FormatInt n \/ k = FormatUint n.

(** A server with the table of [d], made by its create-table statement, with the
    integer column [kc] as primary key: [rows] by the text of their key.  An
    insert of a key that is taken is an error; a replace deletes the old row
    first; an update answers the number of rows it changed; an empty list of
    assignments is no statement. *)
Class MySQL (d : MessageDescriptor) (kc : string) {St : Type} (sv : server St) := {
  holds : FieldDescriptor -> string -> Prop;
  rows : St -> gmap string (gmap string string);
  sql_insert : forall st l k, columns_ok d holds l -> (kc, k) ∈ l ->
    let pkg := MkSqlPkg ("insert into " +:+ mdName d +:+ " (" +:+ Join l.*1 "," +:+ ") values ("
                 +:+ placeholders (length l) +:+ ") ") l.*2 in
    match rows st !! k with
    | Some _ => exists e, exec sv pkg st = (Err e, st)
    | None => exists st', exec sv pkg st = (Ok 1, st') /\ rows st' = <[k := complete d (list_to_map l)]> (rows st)
    end;
  sql_replace : forall st l k, columns_ok d holds l -> (kc, k) ∈ l ->
    exists n st', exec sv (MkSqlPkg ("replace into " +:+ mdName d +:+ " set " +:+ Join (eq_param <$> l.*1) ",") l.*2) st
      = (Ok n, st') /\ rows st' = <[k := complete d (list_to_map l)]> (rows st);
  sql_update : forall st l k, columns_ok d holds l -> kc ∉ l.*1 -> int_text k ->
    let pkg := MkSqlPkg ("update " +:+ mdName d +:+ " set " +:+ Join (eq_param <$> l.*1) "," +:+ " where "
                 +:+ eq_param kc) (l.*2 ++ [k]) in
    match l, rows st !! k with
    | [], _ => exists e, exec sv pkg st = (Err e, st)
    | _, None => exists st', exec sv pkg st = (Ok 0, st') /\ rows st' = rows st
    | _, Some row => exists st', exec sv pkg st = (Ok (if decide (list_to_map l ∪ row = row) then 0 else 1), st') /\
        rows st' = <[k := list_to_map l ∪ row]> (rows st)
    end;
  sql_delete : forall st k, int_text k ->
    exists n st', exec sv (MkSqlPkg ("delete from " +:+ mdName d +:+ " where " +:+ eq_param kc) [k]) st = (Ok n, st') /\
      rows st' = delete k (rows st);
  sql_select : forall st k, int_text k ->
    query sv (MkSqlPkg ("select " +:+ "*" +:+ " from " +:+ mdName d +:+ " where " +:+ eq_param kc) [k]) st
      = Ok (row_columns d <$> rows st !! k)
}.

(** ** The table *)

#[global] Instance Value_eq_dec : EqDecision Value.
Proof. solve_decision. Defined.

Definition mysql_op (k : string) (o : dbOp) (T : table) : dbRes * table :=
  match o, T !! k with
  | OInsert _, Some _ => (RDone false, T)
  | OInsert m, None => (RDone true, <[k := m]> T)
  | OUpdate m, Some old => (RDone (bool_decide (m ∪ old <> old)), <[k := m ∪ old]> T)
  | OUpdate _, None => (RDone false, T)
  | OReplace m, _ => (RDone true, <[k := m]> T)
  | ODelete _, _ => (RDone true, delete k T)
  | OGet _, Some old => (RGot (Some old), T)
  | OGet _, None => (RGot None, T)
  end.

Definition int_kind (k : Kind) : bool :=
  match k with
  | Int32Kind | Sint32Kind | Uint32Kind | Int64Kind | Sint64Kind | Uint64Kind | Sfixed32Kind | Fixed32Kind | Sfixed64Kind => true
  | _ => false
  end.

(** One integer key. *)
Definition int_key (d : MessageDescriptor) (kc : string) : Prop :=
  FindPrimaryKey d = [kc] /\ exists kfd, ByName d kc = Some kfd /\ int_kind (fdKind kfd) = true /\ fdRepeated kfd = false.

Section Contract.
Context `{RuntimeLaws} (d : MessageDescriptor) (kc : string) {St : Type} (sv : server St) `{M : !MySQL d kc sv}.
Context (order : gmap string string -> list (string * string)).
Hypothesis Hord : forall m, ranges m (order m).
Hypothesis Hd : readable d.
Hypothesis Hkc : int_key d kc.

#[local] Instance mysql_here : IDBSimpleExecutor St := mysql_simple d order sv.

Definition mysql_key (m : Message) : string := match m !! kc with Some v => value_String v | None => "" end.

(** Records that can be stored, with their key, and whose columns hold their
    values; a get passes no blobs in. *)
Definition mysql_ok (o : dbOp) : Prop :=
  storable d (op_record o) /\ is_Some (op_record o !! kc) /\
  (forall n s fd, cols d (op_record o) !! n = Some s -> ByName d n = Some fd -> holds fd s) /\
  match o with OGet m => forall n b, m !! n <> Some (VBlob b) | _ => True end.

Definition mysql_repr (T : table) (st : St) : Prop :=
  rows st = (fun m => complete d (cols d m)) <$> T /\
  forall k m, T !! k = Some m -> kept d m /\ is_Some (m !! kc) /\ mysql_key m = k.

Lemma key_col m : msg_ok d m -> is_Some (m !! kc) -> cols d m !! kc = Some (mysql_key m).
Proof.
  intros Hok [v Hv]. destruct Hkc as [_ (kfd & Hkfd & Hi & _)]. rewrite cols_lookup. unfold stored, mysql_key. rewrite Hv, Hkfd. cbn.
  unfold marshalScalar. by destruct (fdKind kfd).
Qed.

Lemma key_int m : msg_ok d m -> is_Some (m !! kc) -> int_text (mysql_key m).
Proof.
  intros Hok [v Hv]. destruct Hkc as [_ (kfd & Hkfd & Hi & Hr)]. destruct (ok_values d m Hok kc v Hv) as (fd & Hfd & Ht & _).
  rewrite Hkfd in Hfd. simplify_eq. unfold mysql_key. rewrite Hv. unfold typed, IsFdMarshalToBlob in Ht. rewrite Hr in Ht.
  destruct (fdKind fd); try done; cbn in Ht; destruct v; try done; eexists; (by left) || (by right).
Qed.

Lemma key_text_one m : is_Some (m !! kc) -> key_texts (key_fds d) m = Done [mysql_key m].
Proof.
  intros [v Hv]. destruct Hkc as [Hp (kfd & Hkfd & _)]. unfold key_fds, FindFds. rewrite Hp. cbn. rewrite Hkfd. cbn.
  unfold get_text, mysql_key. apply ByName_elem in Hkfd as [_ Hn]. by rewrite Hn, Hv.
Qed.

Lemma where_key : where_keys d = eq_param kc.
Proof. unfold where_keys. by rewrite (proj1 Hkc). Qed.

(** The columns of a record, in the order of the map. *)
Lemma order_ok m : storable d m -> is_Some (m !! kc) ->
  (forall n s fd, cols d m !! n = Some s -> ByName d n = Some fd -> holds fd s) ->
  columns_ok d holds (order (cols d m)) /\ (kc, mysql_key m) ∈ order (cols d m) /\
  list_to_map (order (cols d m)) = cols d m.
Proof.
  intros Hst Hk Hh. pose proof (Hord (cols d m)) as Ho. pose proof (ranges_NoDup _ _ Ho) as Hnd. split; [|split].
  - split; [done|]. intros n s Hx. apply (ranges_lookup _ _ _ _ Ho) in Hx. pose proof Hx as Hx'. rewrite cols_lookup in Hx. unfold stored in Hx.
    destruct (m !! n); [|done]. cbn in Hx. destruct (ByName d n) as [fd|] eqn:Hfd; [|done]. exists fd. split; [done|]. by eapply Hh.
  - apply (ranges_lookup _ _ _ _ Ho). by apply key_col; [apply (st_ok d m Hst)|].
  - apply map_eq. intros n. apply option_eq. intros s. rewrite <- elem_of_list_to_map by done. by apply ranges_lookup.
Qed.

Lemma repr_put T st st' k m : mysql_repr T st -> kept d m -> is_Some (m !! kc) -> mysql_key m = k ->
  rows st' = <[k := complete d (cols d m)]> (rows st) -> mysql_repr (<[k := m]> T) st'.
Proof.
  intros [Hr HT] Hk Hs Hm Hst. split; [by rewrite Hst, Hr, fmap_insert|].
  intros k' m' [[<- <-]|[_ Hx]]%lookup_insert_Some; [done|by apply HT].
Qed.

(** *** Each operation *)

Lemma mysql_insert_spec T st m : mysql_ok (OInsert m) -> mysql_repr T st ->
  exists st', run_op (OInsert m) st = Done ((mysql_op (mysql_key m) (OInsert m) T).1, st') /\
    mysql_repr (mysql_op (mysql_key m) (OInsert m) T).2 st'.
Proof.
  intros (Hst & Hk & Hh & _) HT. cbn [op_record] in *. pose proof HT as [Hr _].
  destruct (order_ok m Hst Hk Hh) as (Hc & Hin & Hm). cbn [run_op SimpleInsert mysql_here mysql_simple]. unfold Mysql.SimpleInsert.
  rewrite (MarshalToMap_all d m Hst), !bind_Done. set (l := order (cols d m)) in *.
  assert (HI : InsertPkg d l = Some (MkSqlPkg ("insert into " +:+ mdName d +:+ " (" +:+ Join l.*1 "," +:+ ") values ("
                 +:+ placeholders (length l) +:+ ") ") l.*2)) by (by destruct l; [apply not_elem_of_nil in Hin|]).
  rewrite HI, bind_Done. unfold exec_err. pose proof (sql_insert st l (mysql_key m) Hc Hin) as Hx. cbv zeta in Hx.
  rewrite Hr, lookup_fmap in Hx. unfold mysql_op. destruct (T !! mysql_key m) as [old|]; cbn [fmap option_fmap option_map] in Hx.
  - destruct Hx as [e ->]. by exists st.
  - destruct Hx as (st' & -> & Hst'). exists st'. split; [done|]. rewrite Hm, <- Hr in Hst'.
    eapply repr_put; [done|by apply storable_kept|done|done|done].
Qed.

Lemma mysql_replace_spec T st m : mysql_ok (OReplace m) -> mysql_repr T st ->
  exists st', run_op (OReplace m) st = Done ((mysql_op (mysql_key m) (OReplace m) T).1, st') /\
    mysql_repr (mysql_op (mysql_key m) (OReplace m) T).2 st'.
Proof.
  intros (Hst & Hk & Hh & _) HT. cbn [op_record] in *.
  destruct (order_ok m Hst Hk Hh) as (Hc & Hin & Hm). cbn [run_op SimpleReplace mysql_here mysql_simple]. unfold Mysql.SimpleReplace.
  rewrite (MarshalToMap_all d m Hst), !bind_Done. set (l := order (cols d m)) in *.
  assert (HI : ReplacePkg d l = Some (MkSqlPkg ("replace into " +:+ mdName d +:+ " set " +:+ Join (eq_param <$> l.*1) ",") l.*2))
    by (by destruct l; [apply not_elem_of_nil in Hin|]).
  rewrite HI, bind_Done. unfold exec_err. destruct (sql_replace st l (mysql_key m) Hc Hin) as (n & st' & -> & Hst').
  exists st'. split; [done|]. rewrite Hm in Hst'. eapply repr_put; [done|by apply storable_kept|done|done|done].
Qed.

(** The assignments of an update: all columns but the key. *)
Lemma update_sets m : storable d m -> is_Some (m !! kc) ->
  (forall n s fd, cols d m !! n = Some s -> ByName d n = Some fd -> holds fd s) ->
  let sets := filter (fun x => x.1 ∉ BuildKeyFieldsMap d) (order (cols d m)) in
  columns_ok d holds sets /\ (kc ∉ sets.*1) /\ list_to_map sets = delete kc (cols d m).
Proof.
  intros Hst Hk Hh sets. destruct (order_ok m Hst Hk Hh) as ([Hnd Hc] & _ & Hm). set (l := order (cols d m)) in *.
  assert (HK : forall n, n ∈ BuildKeyFieldsMap d <-> n = kc).
  { intros n. unfold BuildKeyFieldsMap. rewrite (proj1 Hkc), elem_of_list_to_set, list_elem_of_singleton. done. }
  assert (Hin : forall n s, (n, s) ∈ sets <-> n <> kc /\ (n, s) ∈ l).
  { intros n s. unfold sets. rewrite list_elem_of_filter. cbn [fst]. by rewrite HK. }
  assert (Hnd' : NoDup sets.*1).
  { unfold sets. clear -Hnd. induction l as [|[n s] l IH]; [constructor|]. apply NoDup_cons in Hnd as [Hn Hnd].
    rewrite filter_cons. case_decide; [|by apply IH]. cbn. constructor; [|by apply IH]. cbn in Hn. intros Hx. apply Hn.
    apply list_elem_of_fmap in Hx as (x & -> & Hx). apply list_elem_of_filter in Hx as [_ Hx]. by apply list_elem_of_fmap_2. }
  split; [|split].
  - split; [done|]. intros n s [_ Hx]%Hin. by apply Hc.
  - intros Hx. apply list_elem_of_fmap in Hx as ([n s] & -> & Hx). by apply Hin in Hx as [Hne _].
  - apply map_eq. intros n. apply option_eq. intros s. rewrite <- elem_of_list_to_map, Hin by done.
    rewrite lookup_delete_Some, <- Hm, <- elem_of_list_to_map by done. split; intros [? ?]; split; congruence || done.
Qed.

(** What an update makes of a row. *)
Lemma updated_row m old : msg_ok d m -> msg_ok d old -> is_Some (m !! kc) -> is_Some (old !! kc) -> mysql_key m = mysql_key old ->
  delete kc (cols d m) ∪ complete d (cols d old) = complete d (cols d (m ∪ old)).
Proof.
  intros Hm Ho Hkm Hko He. unfold complete. rewrite cols_union, (assoc_L (∪)) by done. f_equal. apply map_eq. intros n.
  rewrite !lookup_union. destruct (decide (n = kc)) as [->|Hne].
  - by rewrite lookup_delete_eq, (key_col m), (key_col old), He.
  - by rewrite lookup_delete_ne.
Qed.

(** The same record under its key keeps the key. *)
Lemma union_key (m old : Message) : is_Some (m !! kc) -> mysql_key (m ∪ old) = mysql_key m /\ is_Some ((m ∪ old) !! kc).
Proof. intros [v Hv]. unfold mysql_key. rewrite lookup_union, Hv. by destruct (old !! kc). Qed.

Lemma update_only_key m old : msg_ok d m -> msg_ok d old -> delete kc (cols d m) = ∅ -> kept d m -> kept d old ->
  is_Some (m !! kc) -> is_Some (old !! kc) -> mysql_key m = mysql_key old -> m ∪ old = old.
Proof.
  intros Hm Ho Hdel Km Ko Hkm Hko He. eapply complete_inj; [done|by apply kept_union|done|].
  rewrite <- updated_row by done. by rewrite Hdel, (left_id_L ∅ (∪)).
Qed.

Lemma mysql_update_spec T st m : mysql_ok (OUpdate m) -> mysql_repr T st ->
  exists st', run_op (OUpdate m) st = Done ((mysql_op (mysql_key m) (OUpdate m) T).1, st') /\
    mysql_repr (mysql_op (mysql_key m) (OUpdate m) T).2 st'.
Proof.
  intros (Hst & Hk & Hh & _) HT. cbn [op_record] in *. pose proof HT as [Hr HK]. pose proof (storable_kept d m Hst) as Km.
  destruct (order_ok m Hst Hk Hh) as (_ & Hin & _). destruct (update_sets m Hst Hk Hh) as (Hc & Hnk & Hmap).
  cbn [run_op SimpleUpdate mysql_here mysql_simple]. unfold Mysql.SimpleUpdate.
  rewrite (MarshalToMap_all d m Hst), !bind_Done. unfold UpdatePkg. set (l := order (cols d m)) in *.
  set (sets := filter _ l) in *. destruct l as [|x l'] eqn:El; [by apply not_elem_of_nil in Hin|].
  rewrite (key_text_one m Hk), !bind_Done, where_key. cbv beta iota.
  pose proof (sql_update st sets (mysql_key m) Hc Hnk (key_int m (st_ok d m Hst) Hk)) as Hx. cbv zeta in Hx. rewrite Hr, lookup_fmap, Hmap in Hx.
  unfold mysql_op. destruct (T !! mysql_key m) as [old|] eqn:Eo; cbn [fmap option_fmap option_map] in Hx.
  - destruct (HK _ _ Eo) as (Ko & Hko & Heq). pose proof (kept_ok d m Km) as Om. pose proof (kept_ok d old Ko) as Oo.
    rewrite updated_row in Hx by done. destruct (union_key m old Hk) as [Hu1 Hu2].
    destruct (decide (sets = [])) as [->|Hne].
    + destruct Hx as [e ->]. exists st. rewrite bind_Done.
      rewrite (update_only_key m old) by (done || by rewrite <- Hmap). rewrite bool_decide_false by tauto.
      split; [done|]. cbn [snd]. by rewrite insert_id.
    + assert (exists st', exec sv (MkSqlPkg ("update " +:+ mdName d +:+ " set " +:+ Join (eq_param <$> sets.*1) "," +:+ " where "
          +:+ eq_param kc) (sets.*2 ++ [mysql_key m])) st =
          (Ok (if decide (complete d (cols d (m ∪ old)) = complete d (cols d old)) then 0 else 1), st') /\
          rows st' = <[mysql_key m := complete d (cols d (m ∪ old))]> ((fun m => complete d (cols d m)) <$> T)) as (st' & -> & Hst')
        by (by destruct sets).
      clear Hx. exists st'. split.
      * rewrite bind_Done. do 2 f_equal. unfold res_of. cbn [fst].
        destruct (decide (complete d (cols d (m ∪ old)) = complete d (cols d old))) as [E|E].
        -- apply complete_inj in E; [|done|by apply kept_union|done]. rewrite E. by rewrite (bool_decide_false (old <> old)) by tauto.
        -- rewrite (bool_decide_true (m ∪ old <> old)); [done|]. intros E'. apply E. by rewrite E'.
      * rewrite <- Hr in Hst'. eapply repr_put; [done|by apply kept_union|done|done|done].
  - assert (exists n st', exec sv (MkSqlPkg ("update " +:+ mdName d +:+ " set " +:+ Join (eq_param <$> sets.*1) "," +:+ " where "
          +:+ eq_param kc) (sets.*2 ++ [mysql_key m])) st = (n, st') /\ rows st' = rows st /\ (n = Ok 0 \/ exists e, n = Err e))
      as (n & st' & -> & Hst' & Hn).
    { destruct sets; [destruct Hx as [e Hx]; exists (Err e), st|destruct Hx as (st' & Hx & Hs); exists (Ok 0), st'].
      - split; [done|]. split; [done|]. right. by exists e.
      - split; [done|]. split; [by rewrite Hs, Hr|by left]. }
    exists st'. split; [by destruct Hn as [->|[e ->]]|]. split; [by rewrite Hst'|done].
Qed.

Lemma mysql_delete_spec T st m : mysql_ok (ODelete m) -> mysql_repr T st ->
  exists st', run_op (ODelete m) st = Done ((mysql_op (mysql_key m) (ODelete m) T).1, st') /\
    mysql_repr (mysql_op (mysql_key m) (ODelete m) T).2 st'.
Proof.
  intros (Hst & Hk & _ & _) [Hr HT]. cbn [op_record] in *. cbn [run_op SimpleDelete mysql_here mysql_simple]. unfold Mysql.SimpleDelete.
  cbn [Z.eqb]. rewrite !bind_Done. unfold DeleteSQLPkg. rewrite (key_text_one m Hk), !bind_Done, where_key. unfold exec_err.
  destruct (sql_delete st (mysql_key m) (key_int m (st_ok d m Hst) Hk)) as (n & st' & -> & Hst'). exists st'. split; [done|]. cbn [snd mysql_op].
  split; [by rewrite Hst', Hr, fmap_delete|]. intros k m' [_ Hx]%lookup_delete_Some. by apply HT.
Qed.

Lemma mysql_get_spec T st m : mysql_ok (OGet m) -> mysql_repr T st ->
  run_op (OGet m) st = Done ((mysql_op (mysql_key m) (OGet m) T).1, st).
Proof.
  intros (Hst & Hk & _ & Hnb) [Hr HT]. cbn [op_record] in *. cbn [run_op SimpleGet mysql_here mysql_simple]. unfold Mysql.SimpleGet.
  unfold SelectFieldsPkg. rewrite (key_text_one m Hk), !bind_Done, where_key, sql_select, Hr, lookup_fmap by (by apply key_int; [apply (st_ok d m Hst)|]). unfold mysql_op.
  destruct (T !! mysql_key m) as [old|] eqn:Eo; cbn [fmap option_fmap option_map]; [|done].
  destruct (HT _ _ Eo) as (Ko & _ & _). rewrite (UnmarshalInto_ok d m _ old); [done|].
  apply (row_roundtrip d Hd old Ko m); [apply (st_ok d m Hst)|done|apply Hord].
Qed.

#[local] Instance mysql_contract : TableContract mysql_op mysql_ok mysql_key mysql_repr.
Proof.
  intros o T st Ho HT. destruct o as [m|m|m|m|m]; cbn [op_record].
  - by apply mysql_insert_spec.
  - by apply mysql_update_spec.
  - by apply mysql_replace_spec.
  - by apply mysql_delete_spec.
  - exists st. split; [by apply mysql_get_spec|]. unfold mysql_op. by destruct (T !! mysql_key m).
Qed.
End Contract.


(** A record type with an enum field can be written to MySQL but never read:
    a row has a value in every number column, populated or not, no text of an
    enum parses, and the failure to parse panics. *)
Theorem mysql_enum_unreadable `{ProtoRuntime} (d : MessageDescriptor) (kc : string) {St : Type} (sv : server St)
    `{M : !MySQL d kc sv} (order : gmap string string -> list (string * string)) (st : St) (m : Message)
    (fd : FieldDescriptor) :
  (forall m, ranges m (order m)) -> int_key d kc -> is_Some (m !! kc) -> NoDup (fdName <$> mdFields d) ->
  fd ∈ mdFields d -> fdKind fd = EnumKind -> fdRepeated fd = false -> String.prefix "_" (fdName fd) = false ->
  int_text (mysql_key kc m) -> is_Some (rows st !! mysql_key kc m) ->
  panics (Mysql.SimpleGet d sv order st m []).
Proof.
  intros Hord Hkc Hk Hnd Hin He Hrep Hu Hint [row Hrow]. unfold Mysql.SimpleGet, SelectFieldsPkg.
  rewrite (key_text_one d kc Hkc m Hk), !bind_Done, (where_key d kc Hkc), sql_select, Hrow by done. cbn [fmap option_fmap option_map].
  set (retMap := list_to_map _ : gmap string string).
  assert (Hb : IsFdMarshalToBlob fd = false) by (unfold IsFdMarshalToBlob; by rewrite Hrep, He).
  assert (Hr : retMap !! fdName fd = Some (default "" (row !! fdName fd))).
  { unfold retMap. apply elem_of_list_to_map.
    - rewrite fmap_reverse, reverse_Permutation. unfold row_columns. by rewrite <- !list_fmap_compose.
    - apply elem_of_reverse. unfold row_columns. rewrite <- list_fmap_compose. apply list_elem_of_fmap. by exists fd. }
  assert (exists e, unmarshalScalarByStr fd (default "" (row !! fdName fd)) = Err e) as [e Hs].
  { unfold unmarshalScalarByStr. rewrite He. by eexists. }
  destruct (unmarshal_loop_panics d (order retMap) (fdName fd) (default "" (row !! fdName fd)) fd e) with (buf := @nil ascii) (acc := m)
    as [w Hw]; [|done| |done|done|by eapply UnmarshalInto_panics].
  - by apply (ranges_lookup _ _ _ _ (Hord retMap)).
  - by apply ByName_in.
Qed.

(** ** A server that reads the statements *)

Section Toy.
Context (d : MessageDescriptor) (kc : string).

Fixpoint strip (p s : list ascii) : option (list ascii) :=
  match p, s with
  | [], _ => Some s
  | a :: p, b :: s => if bool_decide (a = b) then strip p s else None
  | _, [] => None
  end.

Fixpoint until (c : ascii) (l : list ascii) : list ascii :=
  match l with
  | [] => []
  | x :: l => if bool_decide (x = c) then [] else x :: until c l
  end.

(** The names of "a,b" and of "a=?,b=?". *)
Definition names (l : list ascii) : list string := Split (of_chars l) ","%char.
Definition assigned (l : list ascii) : list string := (fun s => of_chars (until "=" (chars s))) <$> names l.

Definition put (l : list (string * string)) (k : string) (st : gmap string (gmap string string)) :=
  <[k := complete d (list_to_map l)]> st.

Definition sql_exec (pkg : sqlPkg) (st : gmap string (gmap string string)) : result error Z * gmap string (gmap string string) :=
  let text := chars (str pkg) in
  match strip (chars ("insert into " +:+ mdName d +:+ " (")) text with
  | Some rest =>
      let l := zip (names (until ")" rest)) (params pkg) in
      match (list_to_map l : gmap string string) !! kc with
      | None => (Err "no key", st)
      | Some k => match st !! k with Some _ => (Err "duplicate entry", st) | None => (Ok 1, put l k st) end
      end
  | None =>
  match strip (chars ("replace into " +:+ mdName d +:+ " set ")) text with
  | Some rest =>
      let l := zip (assigned rest) (params pkg) in
      match (list_to_map l : gmap string string) !! kc with
      | None => (Err "no key", st)
      | Some k => (Ok 1, put l k st)
      end
  | None =>
  match strip (chars ("update " +:+ mdName d +:+ " set ")) text with
  | Some rest =>
      match until " " rest with
      | [] => (Err "syntax error", st)
      | sets =>
          let k := List.last (params pkg) "" in
          let l := zip (assigned sets) (params pkg) in
          match st !! k with
          | None => (Ok 0, st)
          | Some row => (Ok (if decide (list_to_map l ∪ row = row) then 0 else 1), <[k := list_to_map l ∪ row]> st)
          end
      end
  | None =>
  match strip (chars ("delete from " +:+ mdName d +:+ " where ")) text, params pkg with
  | Some _, [k] => (Ok 1, delete k st)
  | _, _ => (Err "syntax error", st)
  end end end end.

Definition sql_query (pkg : sqlPkg) (st : gmap string (gmap string string)) : result error (option (list (string * option string))) :=
  match params pkg with [k] => Ok (row_columns d <$> st !! k) | _ => Err "syntax error" end.

Definition sql_server : server (gmap string (gmap string string)) := MkServer sql_exec sql_query.

Lemma strip_app p s : strip p (p ++ s) = Some s.
Proof. induction p as [|a p IH]; [done|]. cbn. by rewrite bool_decide_true. Qed.

Lemma until_app c a b : c ∉ a -> until c (a ++ c :: b) = a.
Proof.
  induction a as [|x a IH]; intros Hn; cbn; [by rewrite bool_decide_true|].
  apply not_elem_of_cons in Hn as [Hx Hn]. rewrite bool_decide_false, IH by done. done.
Qed.

Lemma Split_Join l : l <> [] -> Forall (fun s => ","%char ∉ chars s) l -> Split (Join l ",") ","%char = l.
Proof.
  intros Hne HF. induction HF as [|s l Hs HF IH]; [done|]. destruct l as [|s' l]; [by apply Split_absent|].
  change (Join (s :: s' :: l) ",") with (s +:+ "," +:+ Join (s' :: l) ","). by rewrite Split_field, IH.
Qed.

Lemma chars_Join_free c l : c <> ","%char -> Forall (fun s => c ∉ chars s) l -> c ∉ chars (Join l ",").
Proof.
  intros Hc HF. induction HF as [|s l Hs HF IH]; [apply not_elem_of_nil|]. destruct l as [|s' l]; [done|].
  change (Join (s :: s' :: l) ",") with (s +:+ "," +:+ Join (s' :: l) ","). rewrite !chars_app, !elem_of_app.
  intros [?|[Hx|?]]; [done| |done]. by apply list_elem_of_singleton in Hx.
Qed.

(** Names without the characters the statements are read by. *)
Definition plain_name (s : string) : Prop :=
  (","%char ∉ chars s) /\ (")"%char ∉ chars s) /\ ("="%char ∉ chars s) /\ (" "%char ∉ chars s).
Hypothesis Hplain : Forall (fun fd => plain_name (fdName fd)) (mdFields d).

Lemma columns_plain hs l : columns_ok d hs l -> Forall plain_name l.*1.
Proof.
  intros [_ Hc]. apply Forall_fmap, Forall_forall. intros [n s] Hx. destruct (Hc n s Hx) as (fd & Hfd & _).
  apply ByName_elem in Hfd as [Hfd <-]. rewrite Forall_forall in Hplain. by apply Hplain.
Qed.

Lemma names_Join l : l <> [] -> Forall plain_name l -> names (chars (Join l ",")) = l.
Proof.
  intros Hne Hl. unfold names. rewrite of_chars_chars. apply Split_Join; [done|].
  eapply Forall_impl; [exact Hl|]. by intros s (? & _).
Qed.

Lemma assigned_Join l : l <> [] -> Forall plain_name l -> assigned (chars (Join (eq_param <$> l) ",")) = l.
Proof.
  intros Hne Hl. unfold assigned, names. rewrite of_chars_chars, Split_Join.
  - rewrite <- list_fmap_compose. clear Hne. induction Hl as [|s l (_ & _ & He & _) _ IH]; [done|]. cbn [fmap list_fmap].
    f_equal; [|exact IH]. cbn. unfold eq_param. rewrite chars_app. cbn [chars]. rewrite until_app by done. apply of_chars_chars.
  - by destruct l.
  - apply Forall_fmap. eapply Forall_impl; [exact Hl|]. intros s (Hc & _). cbn. unfold eq_param. rewrite chars_app, elem_of_app.
    assert (","%char ∉ chars "=?") by by_decide. tauto.
Qed.

Lemma list_to_map_key (l : list (string * string)) k : NoDup l.*1 -> (kc, k) ∈ l ->
  (list_to_map l : gmap string string) !! kc = Some k.
Proof. intros Hnd Hin. by apply elem_of_list_to_map. Qed.

Lemma zip_last (l : list (string * string)) k : zip l.*1 (l.*2 ++ [k]) = l /\ List.last (l.*2 ++ [k]) "" = k.
Proof. split; [induction l as [|[a b] l IH]; [done|]; cbn; by f_equal|by rewrite List.last_last]. Qed.

Lemma strip_app3 (a b c s : list ascii) : strip (a ++ b ++ c) (a ++ b ++ c ++ s) = Some s.
Proof. rewrite (app_assoc b), (app_assoc a), !app_assoc. rewrite <- (app_assoc a). apply strip_app. Qed.

(** What the server makes of each statement. *)
Lemma exec_insert st l k : columns_ok d (fun _ _ => True) l -> (kc, k) ∈ l ->
  sql_exec (MkSqlPkg ("insert into " +:+ mdName d +:+ " (" +:+ Join l.*1 "," +:+ ") values (" +:+ placeholders (length l) +:+ ") ") l.*2) st
  = match st !! k with Some _ => (Err "duplicate entry", st) | None => (Ok 1, put l k st) end.
Proof.
  intros Hc Hin. pose proof (columns_plain _ l Hc) as Hp. unfold sql_exec. cbn [str params]. rewrite !chars_app, strip_app3.
  rewrite (until_app ")" (chars (Join l.*1 ",")) (chars " values (" ++ chars (placeholders (length l)) ++ chars ") ")).
  - rewrite names_Join, zip_fst_snd, (list_to_map_key l k); [done|apply Hc|done|by destruct l; [apply not_elem_of_nil in Hin|]|done].
  - apply chars_Join_free; [done|]. eapply Forall_impl; [exact Hp|]. by intros s (_ & ? & _).
Qed.

Lemma exec_replace st l k : columns_ok d (fun _ _ => True) l -> (kc, k) ∈ l ->
  sql_exec (MkSqlPkg ("replace into " +:+ mdName d +:+ " set " +:+ Join (eq_param <$> l.*1) ",") l.*2) st = (Ok 1, put l k st).
Proof.
  intros Hc Hin. pose proof (columns_plain _ l Hc) as Hp. unfold sql_exec. cbn [str params]. rewrite !chars_app, strip_app3.
  rewrite assigned_Join, zip_fst_snd, (list_to_map_key l k); [reflexivity|apply Hc|done|by destruct l; [apply not_elem_of_nil in Hin|]|done].
Qed.

Lemma exec_update st l k : columns_ok d (fun _ _ => True) l ->
  sql_exec (MkSqlPkg ("update " +:+ mdName d +:+ " set " +:+ Join (eq_param <$> l.*1) "," +:+ " where " +:+ eq_param kc) (l.*2 ++ [k])) st
  = match l, st !! k with
    | [], _ => (Err "syntax error", st)
    | _, None => (Ok 0, st)
    | _, Some row => (Ok (if decide (list_to_map l ∪ row = row) then 0 else 1), <[k := list_to_map l ∪ row]> st)
    end.
Proof.
  intros Hc. pose proof (columns_plain _ l Hc) as Hp. unfold sql_exec. cbn [str params]. rewrite !chars_app, strip_app3.
  rewrite (until_app " " (chars (Join (eq_param <$> l.*1) ",")) (chars "where " ++ chars (eq_param kc))).
  - destruct (zip_last l k) as [Hz Hl]. destruct l as [|x l']; [reflexivity|]. set (l := x :: l') in *.
    destruct (chars (Join (eq_param <$> l.*1) ",")) as [|c cs] eqn:E.
    { exfalso. revert E. unfold l, eq_param. destruct x as [n s], l'; cbn [fmap list_fmap fst Join]; rewrite !chars_app;
        by destruct (chars n). }
    rewrite <- E, assigned_Join, Hz, Hl by done. reflexivity.
  - apply chars_Join_free; [done|]. apply Forall_fmap. eapply Forall_impl; [exact Hp|]. intros s (_ & _ & _ & Hs). cbn.
    unfold eq_param. rewrite chars_app, elem_of_app. assert (" "%char ∉ chars "=?") by by_decide. tauto.
Qed.

#[local] Instance sql_laws : MySQL d kc sql_server.
Proof.
  refine {| holds _ _ := True; rows st := st |}; cbn [exec query sql_server].
  - intros st l k Hc Hin. cbv zeta. rewrite (exec_insert st l k) by done. destruct (st !! k); by eexists.
  - intros st l k Hc Hin. rewrite (exec_replace st l k) by done. by eexists _, _.
  - intros st l k Hc Hin _. cbv zeta. rewrite (exec_update st l k) by done.
    destruct l; [by eexists|]. destruct (st !! k); by eexists.
  - intros st k _. exists 1, (delete k st). split; [|done]. unfold sql_exec. cbn [str params]. rewrite !chars_app, strip_app3.
    reflexivity.
  - done.
Defined.
End Toy.

(** ** The demo table *)

#[local] Existing Instance toy_runtime.
#[local] Existing Instance toy_runtime_laws.

Definition acnt_desc : MessageDescriptor :=
  MkMd "Acnt" "db.Acnt"
    [MkFd "id" 1 Int64Kind false; MkFd "name" 2 StringKind false; MkFd "bag" 3 BytesKind false] "id".

Lemma acnt_sql : MySQL acnt_desc "id" (sql_server acnt_desc "id").
Proof. apply sql_laws. repeat constructor; by_decide. Defined.

Lemma demo_sql : MySQL demo_desc "id" (sql_server demo_desc "id").
Proof. apply sql_laws. repeat constructor; by_decide. Defined.

Lemma acnt_readable : readable acnt_desc.
Proof.
  split; [by_decide|..]; intros fd Hin; repeat (apply elem_of_cons in Hin as [->|Hin]; [done|]); by apply not_elem_of_nil in Hin.
Qed.

Lemma acnt_int_key : int_key acnt_desc "id".
Proof. split; [by vm_compute|]. by eexists. Qed.

(** A part of the demo record is storable without its enum column too. *)
Lemma acnt_storable m : m ⊆ demo_msg -> Z.of_nat (length (wire_bytes (wire_groups acnt_desc m))) < 2 ^ 31 ->
  storable acnt_desc m.
Proof.
  intros Hs Hsz. assert (Hin : forall n v, m !! n = Some v ->
    (n, v) ∈ [("id", VInt (-7)); ("bag", VBlob (rec 3 (chars "xy"))); ("name", VString "bob")])
    by (intros n v Hv; apply demo_msg_elem; by eapply lookup_weaken).
  split; [split; [by_decide|by_decide|]|done|..].
  - intros n v Hv%Hin. repeat (apply elem_of_cons in Hv as [[= -> ->]|Hv]); [..|by apply not_elem_of_nil in Hv];
      (eexists; split; [reflexivity|]); split; try done; first [split; by vm_compute|by eexists].
  - intros n v fd Hv%Hin Hfd _. repeat (apply elem_of_cons in Hv as [[= -> ->]|Hv]); [..|by apply not_elem_of_nil in Hv];
      vm_compute in Hfd; by simplify_eq.
  - intros n [v Hv%Hin]. repeat (apply elem_of_cons in Hv as [[= -> ->]|Hv]); [done..|by apply not_elem_of_nil in Hv].
Qed.

Lemma acnt_ok o : op_record o ⊆ demo_msg -> op_record o !! "id" = Some (VInt (-7)) ->
  Z.of_nat (length (wire_bytes (wire_groups acnt_desc (op_record o)))) < 2 ^ 31 ->
  match o with OGet m => m = demo_key | _ => True end -> mysql_ok acnt_desc "id" _ (M := acnt_sql) o.
Proof.
  intros Hs Hk Hsz Hg. split; [by apply acnt_storable|]. split; [by rewrite Hk|]. split; [done|].
  destruct o; try done. subst. intros n b Hb. apply demo_key_sub in Hb as [_ Hb]. by eapply Hb.
Qed.


(** A row whose enum was never set. *)
Lemma mysql_enum_unreadable_witness :
  panics (Mysql.SimpleGet demo_desc (sql_server demo_desc "id") map_to_list
    {["-7" := complete demo_desc {["id" := "-7"]}]} demo_key []).
Proof.
  apply (mysql_enum_unreadable demo_desc "id" (sql_server demo_desc "id") (M := demo_sql) map_to_list _ demo_key
    (MkFd "sex" 4 EnumKind false)).
  - intros m. apply Permutation_refl.
  - split; [by vm_compute|]. by eexists.
  - done.
  - by_decide.
  - right; right; right; left.
  - done.
  - done.
  - done.
  - exists (-7). by left.
  - by eexists.
Defined.
