(* ===== verification/DbFields.v ===== *)
(** * plugin/db over Redis: calls on some fields of a record

    The calls of IDBSimpleExecutor that [Db] leaves out: updates and gets of
    listed fields, deletes that pass the record out, and increments.  After an
    increment a hash can hold a column with the text 0, which a record never
    has; the abstract table therefore keeps rows, in which a zero is a value
    like any other.  Every sequence of calls is shown to do to the hashes what
    it does to the rows, as long as no counter outgrows the type of its field;
    what happens then is a theorem of its own. *)

From S2P Require Import Prelude GoStrings Plugin PbSupport Redis Mysql Db DbMysql.

(** ** Rows *)

(** The columns of a hash, by their values. *)
Abbreviation row := (gmap string Value).

(** Reading a row into a record: a zero clears the field. *)
Definition shown (v : Value) : option Value := if is_zero v then None else Some v.
Definition read_over (m : row) (base : Message) : Message :=
  merge (fun a b => match a with Some v => shown v | None => b end) m base.
Definition visible (m : row) : Message := omap shown m.

(** The fields of a record that a list of fields selects, and those of a row. *)
Definition listed (d : MessageDescriptor) (fields : list string) (m : Message) : Message :=
  filter (fun x => fields = [] \/ x.1 ∈ omap (M := list) (filter_key d) fields) m.
Definition asked (fields : list string) (m : row) : row := filter (fun x => fields = [] \/ x.1 ∈ fields) m.

Lemma read_over_lookup m base n :
  read_over m base !! n = match m !! n with Some v => shown v | None => base !! n end.
Proof. unfold read_over. rewrite lookup_merge. by destruct (m !! n), (base !! n). Qed.

Lemma visible_lookup m n v : visible m !! n = Some v <-> m !! n = Some v /\ is_zero v = false.
Proof.
  unfold visible. rewrite lookup_omap. destruct (m !! n) as [w|]; cbn; [|by split; [done|intros [? ?]]].
  unfold shown. destruct (is_zero w) eqn:E; (split; [intros|intros [? ?]]); try split; congruence.
Qed.

Section Rows.
Context `{RuntimeLaws} (d : MessageDescriptor).

(** A row whose every column can be read. *)
Definition value_ok (n : string) (v : Value) : Prop :=
  exists fd, ByName d n = Some fd /\ typed fd v /\ String.prefix "_" n = false /\
    if IsFdMarshalToBlob fd then is_zero v = false else text_kind (fdKind fd) = true.

Definition names_ok : Prop := NoDup (fdName <$> mdFields d) /\ NoDup (fdNumber <$> mdFields d).

Definition row_ok (m : row) : Prop := names_ok /\ map_Forall value_ok m.

Lemma storable_row m : storable d m -> row_ok m.
Proof.
  intros [Hok _ Hk Hu]. split; [by split; apply Hok|]. intros n v Hv.
  destruct (ok_values d m Hok n v Hv) as (fd & Hfd & Ht & Hz). exists fd.
  split; [done|]. split; [done|]. split; [by apply Hu; eexists|].
  destruct (IsFdMarshalToBlob fd) eqn:Hb; [done|by eapply Hk].
Qed.

Lemma row_ok_sub m m' : row_ok m -> m' ⊆ m -> row_ok m'.
Proof. intros [Hn Hm] Hs. split; [done|]. intros n v Hv. apply Hm. by eapply lookup_weaken. Qed.

Lemma row_ok_union m1 m2 : row_ok m1 -> row_ok m2 -> row_ok (m1 ∪ m2).
Proof. intros [Hn H1] [_ H2]. split; [done|]. by apply map_Forall_union_2. Qed.

Lemma row_ok_insert f v m : row_ok m -> value_ok f v -> row_ok (<[f := v]> m).
Proof. intros [Hn Hm] Hv. split; [done|]. by apply map_Forall_insert_2. Qed.

Lemma visible_kept m : row_ok m -> kept d (visible m).
Proof.
  intros [[Hn1 Hn2] Hm]. split; [split; [done|done|]|..].
  - intros n v [Hv Hz]%visible_lookup. destruct (Hm n v Hv) as (fd & Hfd & Ht & _). by exists fd.
  - intros n v fd [Hv _]%visible_lookup Hfd Hb. destruct (Hm n v Hv) as (fd' & Hfd' & _ & _ & Hk).
    rewrite Hfd in Hfd'. simplify_eq. by rewrite Hb in Hk.
  - intros n [v [Hv _]%visible_lookup]. by destruct (Hm n v Hv) as (fd & _ & _ & Hu & _).
Qed.

(** *** Columns *)

Lemma cols_Some m n v fd : m !! n = Some v -> ByName d n = Some fd -> cols d m !! n = Some (marshalScalar fd v).
Proof. intros Hv Hfd. rewrite cols_lookup. unfold stored. by rewrite Hv; cbn; rewrite Hfd. Qed.

Lemma cols_is_Some m n : row_ok m -> is_Some (cols d m !! n) <-> is_Some (m !! n).
Proof.
  intros [_ Hm]. rewrite cols_lookup. unfold stored. destruct (m !! n) as [v|] eqn:Hv; [|by split; intros [??]].
  destruct (Hm n v Hv) as (fd & Hfd & _). cbn. rewrite Hfd. by split; eexists.
Qed.

Lemma cols_empty m : row_ok m -> cols d m = ∅ <-> m = ∅.
Proof.
  intros Hm. split; [|intros ->; apply map_eq; intros n; by rewrite cols_lookup].
  intros Hc. apply map_eq. intros n. rewrite lookup_empty. apply eq_None_not_Some. intros Hv.
  apply (cols_is_Some m n Hm) in Hv. rewrite Hc, lookup_empty in Hv. by destruct Hv.
Qed.

Lemma cols_insert m f v fd : ByName d f = Some fd -> cols d (<[f := v]> m) = <[f := marshalScalar fd v]> (cols d m).
Proof.
  intros Hfd. apply map_eq. intros n. destruct (decide (f = n)) as [<-|Hne].
  - rewrite lookup_insert_eq. by eapply cols_Some; [apply lookup_insert_eq|].
  - rewrite lookup_insert_ne, !cols_lookup by done. unfold stored. by rewrite lookup_insert_ne.
Qed.

(** *** Reading *)

(** Every column of a row is the text of its value. *)
Lemma row_reads_as m k s : row_ok m -> cols d m !! k = Some s -> reads_as d (visible m) k s.
Proof.
  intros [_ Hm] Hs. rewrite cols_lookup in Hs. unfold stored in Hs. destruct (m !! k) as [v|] eqn:Hv; [|done].
  destruct (Hm k v Hv) as (fd & Hfd & Ht & Hu & Hk). cbn in Hs. rewrite Hfd in Hs. cbn in Hs. simplify_eq.
  exists fd. split; [done|]. split; [done|]. unfold visible. rewrite lookup_omap, Hv. cbn. unfold shown.
  destruct (IsFdMarshalToBlob fd) eqn:Hb.
  - rewrite Hk. destruct (typed_blob fd v Ht Hb) as [b ->]. by rewrite marshalScalar_blob, chars_of_chars.
  - exists v. by rewrite (scalar_roundtrip fd v Hb Hk Ht).
Qed.

Lemma row_blob m n b : row_ok m -> m !! n = Some (VBlob b) -> scalar_column d n = false.
Proof.
  intros [_ Hm] Hv. destruct (Hm n _ Hv) as (fd & Hfd & Ht & _). unfold scalar_column. rewrite Hfd.
  destruct (IsFdMarshalToBlob fd) eqn:Hb; [done|]. by destruct (typed_scalar fd _ Ht Hb b).
Qed.

Lemma row_scalar m n v : row_ok m -> m !! n = Some v -> (forall b, v <> VBlob b) -> scalar_column d n = true.
Proof.
  intros [_ Hm] Hv Hnb. destruct (Hm n _ Hv) as (fd & Hfd & Ht & _). unfold scalar_column. rewrite Hfd.
  destruct (IsFdMarshalToBlob fd) eqn:Hb; [|done]. destruct (typed_blob fd v Ht Hb) as [b ->]. by destruct (Hnb b).
Qed.

(** Reading the columns of a row, in any order, into a record that has none of
    its blobs. *)
Lemma read_row m l base : row_ok m -> ranges (cols d m) l ->
  (forall n b, m !! n = Some (VBlob b) -> base !! n = None) ->
  UnmarshalFromMap d base l = Done (Ok (read_over m base)).
Proof.
  intros Hm Hl Hbase. pose proof (ranges_NoDup _ _ Hl) as Hnd. pose proof (visible_kept m Hm) as Hk.
  assert (Hin : forall n, n ∈ l.*1 <-> is_Some (m !! n)).
  { intros n. rewrite <- (cols_is_Some m n Hm), list_elem_of_fmap. split.
    - intros ([k s] & -> & Hx). apply (ranges_lookup _ _ _ _ Hl) in Hx. by eexists.
    - intros [s Hs]. exists (n, s). by rewrite (ranges_lookup _ _ _ _ Hl). }
  rewrite UnmarshalFromMap_eq. destruct (unmarshal_loop_reads d (visible m) Hk l [] base Hnd) as (acc & -> & Ha).
  { intros k s Hx. apply row_reads_as; [done|]. by apply (ranges_lookup _ _ _ _ Hl). }
  go_run. cbn [app]. rewrite (merge_blobs d (visible m)); [|apply Hk|by apply blobs_NoDup|].
  - do 2 f_equal. rewrite blobs_select. apply map_eq. intros n.
    rewrite lookup_union, select_lookup, Ha, read_over_lookup by done. unfold blob_of, visible. rewrite lookup_omap.
    destruct (m !! n) as [v|] eqn:Hv; cbn [mbind option_bind].
    + assert (Hn : n ∈ l.*1) by (apply Hin; by rewrite Hv). rewrite decide_True by done.
      assert ((exists b, v = VBlob b) \/ (forall b, v <> VBlob b)) as [[b ->]|Hno] by (destruct v; (by right) || (left; by eexists)).
      * rewrite decide_False by (intros [_ Hx]; by rewrite (row_blob m n b Hm Hv) in Hx). rewrite (Hbase n b Hv).
        unfold shown. by destruct (is_zero (VBlob b)).
      * rewrite decide_True by (split; [done|by eapply row_scalar]). unfold shown.
        destruct (is_zero v); [done|]. by destruct v.
    + rewrite !decide_False; [by destruct (base !! n)|..]; rewrite Hin, Hv; [intros [[??] _]|intros [??]]; done.
  - intros n b Hb. apply elem_of_blobs in Hb as [_ Hb]. split; [done|]. apply visible_lookup in Hb as [Hb _].
    rewrite Ha, decide_False; [by eapply Hbase|]. intros [_ Hx]. by rewrite (row_blob m n b Hm Hb) in Hx.
Qed.
End Rows.

(** ** Calls *)

(** A call, and the record the caller holds. *)
Inductive dbCall :=
| CInsert (m : Message) | CUpdate (m : Message) (fields : list string) | CReplace (m : Message)
| CDelete (m : Message) (resultFlag : Z) | CGet (m : Message) (fields : list string)
| CIncrease (m : Message) (fields : list string).

Definition call_record (c : dbCall) : Message :=
  match c with CInsert m | CUpdate m _ | CReplace m | CDelete m _ | CGet m _ | CIncrease m _ => m end.

(** What a caller learns: whether the call succeeded, and its record after it. *)
Abbreviation callRes := (bool * Message)%type.

Definition ok_of (e : option error) : bool := bool_decide (e = None).

Section RunCalls.
Context {DB : Type} `{IDBSimpleExecutor DB}.

Definition run_call (c : dbCall) (db : DB) : outcome (callRes * DB) :=
  match c with
  | CInsert m => '(e, db) ← SimpleInsert db m; Done ((ok_of e, m), db)
  | CUpdate m fields => '(e, db) ← SimpleUpdate db m fields; Done ((ok_of e, m), db)
  | CReplace m => '(e, db) ← SimpleReplace db m; Done ((ok_of e, m), db)
  | CDelete m flag => '(e, m, db) ← SimpleDelete db m flag; Done ((ok_of e, m), db)
  | CGet m fields => '(e, m) ← SimpleGet db m fields; Done ((ok_of e, m), db)
  | CIncrease m fields => '(e, db) ← SimpleIncrease db m fields; Done ((ok_of e, m), db)
  end.

Fixpoint run_calls (cs : list dbCall) (db : DB) : outcome (list callRes * DB) :=
  match cs with
  | [] => Done ([], db)
  | c :: cs => '(r, db) ← run_call c db; '(rs, db) ← run_calls cs db; Done (r :: rs, db)
  end.
End RunCalls.

(** ** The table of rows *)

Section Spec.
Context (d : MessageDescriptor) (key : Message -> string).

Definition count (m : row) (f : string) : Z :=
  match m !! f with Some (VInt n | VUint n) => n | _ => 0 end.

(** The value of a counter, if its type has it. *)
Definition counter (k : Kind) (n : Z) : option Value :=
  match k with
  | Int32Kind => if decide (fits_s 32 n) then Some (VInt n) else None
  | Int64Kind | Sint64Kind => if decide (fits_s 64 n) then Some (VInt n) else None
  | Uint32Kind => if decide (fits_u 32 n) then Some (VUint n) else None
  | Uint64Kind => if decide (fits_u 64 n) then Some (VUint n) else None
  | _ => None
  end.

(** One increment at 64 bits: [None] when the counter leaves its type, refused
    when it leaves the integers Redis has.  A row that is not there is made. *)
Definition bump (k f : string) (T : table) : option (bool * table) :=
  let m := default ∅ (T !! k) in
  let n := count m f + 1 in
  if decide (n < 2 ^ 63) then
    fd ← ByName d f; v ← counter (fdKind fd) n; Some (true, <[k := <[f := v]> m]> T)
  else Some (false, T).

Fixpoint bumps (k : string) (fields : list string) (T : table) : option (bool * table) :=
  match fields with
  | [] => Some (true, T)
  | f :: fields => '(b, T) ← bump k f T; '(b', T) ← bumps k fields T; Some (b && b', T)
  end.

(** A get of fields needs all of them in the row. *)
Definition get_row (k : string) (m : Message) (fields : list string) (T : table) : callRes :=
  match T !! k with
  | None => (false, m)
  | Some old => if decide (Forall (fun f => is_Some (old !! f)) fields)
                then (true, read_over (asked fields old) m) else (false, m)
  end.

(** What the calls do to the rows.  A delete that passes the record out deletes
    the key of the record it has read. *)
Definition row_call (c : dbCall) (T : table) : option (callRes * table) :=
  let k := key (call_record c) in
  match c with
  | CInsert m =>
      Some (match T !! k with
            | Some _ => (false, m, T)
            | None => if decide (m = ∅) then (false, m, T) else (true, m, <[k := m]> T)
            end)
  | CUpdate m fields =>
      Some (match T !! k with
            | None => (false, m, T)
            | Some old => if decide (listed d fields m = ∅) then (false, m, T)
                          else (true, m, <[k := listed d fields m ∪ old]> T)
            end)
  | CReplace m => Some (if decide (m = ∅) then (false, m, T) else (true, m, <[k := m ∪ default ∅ (T !! k)]> T))
  | CDelete m flag =>
      let m := if flag =? 3 then (get_row k m [] T).2 else m in Some (true, m, delete (key m) T)
  | CGet m fields => Some (get_row k m fields T, T)
  | CIncrease m fields =>
      if IncreaseAble (Redis.newMeta d) fields then '(b, T) ← bumps k fields T; Some (b, m, T) else Some (false, m, T)
  end.

Fixpoint row_calls (cs : list dbCall) (T : table) : option (list callRes * table) :=
  match cs with
  | [] => Some ([], T)
  | c :: cs => '(r, T) ← row_call c T; '(rs, T) ← row_calls cs T; Some (r :: rs, T)
  end.
End Spec.

(** ** Integers in Redis *)

Lemma redis_int_FormatInt n : fits_s 64 n -> redis_int (FormatInt n) = Some n.
Proof. intros Hn. unfold redis_int. by rewrite ParseInt_FormatInt, decide_True by (done || lia). Qed.

Lemma FormatInt_uint n : 0 <= n -> FormatInt n = FormatUint n.
Proof. intros Hn. unfold FormatInt. by rewrite (proj2 (Z.ltb_ge _ _)) by lia. Qed.

Lemma redis_int_large n : 2 ^ 63 <= n < 2 ^ 64 -> redis_int (FormatUint n) = None.
Proof.
  intros Hn. unfold redis_int. destruct (ParseInt (FormatUint n) 64) as [i|] eqn:E; [|done].
  rewrite decide_False; [done|]. intros Hi. pose proof (ParseInt_fits _ 64 i ltac:(lia) E) as Hf.
  destruct (decide (0 <= i)).
  - rewrite FormatInt_uint in Hi by done. apply (f_equal (fun s => ParseUint s 64)) in Hi.
    rewrite !ParseUint_FormatUint in Hi by (unfold fits_u, fits_s in *; lia). simplify_eq. unfold fits_s in Hf. lia.
  - apply (f_equal chars) in Hi. unfold FormatInt in Hi. rewrite (proj2 (Z.ltb_lt _ _)) in Hi by lia.
    rewrite chars_app, !chars_FormatUint in Hi. destruct (digits20 n) as (HF & Hne & _); [unfold fits_u; lia|].
    destruct (digits 20 n) as [|x l]; [done|]. apply Forall_cons in HF as [Hx _].
    destruct (digit_char_not_sign x Hx) as [_ Hs]. apply (f_equal head) in Hi. cbn [fmap list_fmap] in Hi. simpl head in Hi. by injection Hi as Hi.
Qed.

(** ** Counters *)

Section Counters.
Context `{RuntimeLaws} (d : MessageDescriptor).

(** A field [SimpleIncrease] accepts. *)
Definition counter_field (f : string) (fd : FieldDescriptor) : Prop :=
  ByName d f = Some fd /\ fdRepeated fd = false /\ increaseAbleKind (fdKind fd) = true.

Lemma fdNameToFd_elem f fd : fdNameToFd (Redis.newMeta d) !! f = Some fd -> fd ∈ mdFields d /\ fdName fd = f.
Proof.
  cbn [Redis.newMeta fdNameToFd]. induction (mdFields d) as [|x l IH] using rev_ind; [done|].
  rewrite foldl_snoc. intros [[<- ->]|[_ Hx]]%lookup_insert_Some; rewrite elem_of_app.
  - split; [right; by apply list_elem_of_singleton|done].
  - destruct (IH Hx). by split; [left|].
Qed.

Lemma IncreaseAble_fields fields : names_ok d -> IncreaseAble (Redis.newMeta d) fields = true ->
  fields <> [] /\ Forall (fun f => exists fd, counter_field f fd) fields.
Proof.
  intros [Hnd _] Hi. unfold IncreaseAble in Hi. destruct fields as [|f0 fields]; [done|]. split; [done|].
  apply Forall_forall. intros f Hf. apply list_elem_of_In in Hf. rewrite List.forallb_forall in Hi.
  specialize (Hi f Hf). destruct (fdNameToFd (Redis.newMeta d) !! f) as [fd|] eqn:E; [|done].
  apply fdNameToFd_elem in E as [Hin <-]. apply bool_decide_eq_true in Hi. exists fd.
  split; [by apply ByName_in|]. cbn in Hi. unfold BuildIncreaseableFieldsMap in Hi.
  apply elem_of_list_to_set, list_elem_of_fmap in Hi as (fd' & En & Hi).
  apply list_elem_of_filter in Hi as [(Hr & _ & Hk) Hin'].
  pose proof (ByName_in d fd Hnd Hin) as H1. rewrite En, (ByName_in d fd' Hnd Hin') in H1. by simplify_eq.
Qed.

(** The text of a counter, as Redis reads it. *)
Lemma counter_text m f fd : row_ok d m -> counter_field f fd ->
  - 2 ^ 63 <= count m f /\
  redis_int (default "0" (cols d m !! f)) = if decide (count m f < 2 ^ 63) then Some (count m f) else None.
Proof.
  intros [_ Hm] (Hfd & Hr & Hk). rewrite cols_lookup. unfold stored, count.
  destruct (m !! f) as [v|] eqn:Hv; [|by split; vm_compute]. cbn. rewrite Hfd. cbn.
  destruct (Hm f v Hv) as (fd' & Hfd' & Ht & _). rewrite Hfd in Hfd'. simplify_eq.
  unfold typed, IsFdMarshalToBlob, marshalScalar in *. rewrite Hr in Ht. unfold fits_s, fits_u in Ht.
  destruct (fdKind fd'); try done; cbn in Ht; destruct v as [|n|n| | |]; try done; cbn [value_String];
    (split; [lia|]); try rewrite <- FormatInt_uint by lia; case_decide; try lia;
    try (by apply redis_int_FormatInt; unfold fits_s; lia).
  rewrite FormatInt_uint by lia. apply redis_int_large. lia.
Qed.

(** The text of the next value of a counter. *)
Lemma counter_value k n v fd : counter k n = Some v -> fdKind fd = k -> fdRepeated fd = false ->
  marshalScalar fd v = FormatInt n /\ typed fd v /\ IsFdMarshalToBlob fd = false /\ text_kind k = true.
Proof.
  intros Hc Hk Hr. unfold marshalScalar, typed, IsFdMarshalToBlob. rewrite Hr, Hk.
  destruct k; try done; cbn in Hc; case_decide as Hf; try done; injection Hc as <-; cbn [blobKind value_String text_kind];
    repeat split; try done; try apply Hf; symmetry; apply FormatInt_uint, Hf.
Qed.
End Counters.

(** ** Redis implements the table of rows *)

(** Whether a command succeeded. *)
Definition ok_ret {A} (r : result error A) : bool := match r with Ok _ => true | Err _ => false end.

Section RedisRows.
Context `{RuntimeLaws} (d : MessageDescriptor) {St : Type} (cl : redisClient St) `{R : !RedisServer cl}.
Context (order : gmap string string -> list (string * string)).
Hypothesis Hord : forall m, ranges m (order m).

#[local] Instance redis_rows_here : IDBSimpleExecutor St := redis_simple d order cl.

(** A server that answers, whose scripts take all the fields of a record, with
    the hashes of the rows. *)
Definition rows_repr (T : table) (st : St) : Prop :=
  names_ok d /\ (2 * length (mdFields d) <= script_room)%nat /\ up st /\ hashes st = cols d <$> T /\
  map_Forall (fun _ m => row_ok d m /\ m <> ∅) T.

(** Records with a key; those that are written can be stored, those that are
    read into have no blobs, and no counter is hidden by an underscore. *)
Definition call_ok (c : dbCall) : Prop :=
  BuildKey d (call_record c) = Done (redis_key d (call_record c)) /\
  match c with
  | CInsert m | CUpdate m _ | CReplace m => storable d m
  | CGet m _ => msg_ok d m /\ forall n b, m !! n <> Some (VBlob b)
  | CDelete m flag => flag = 3 -> msg_ok d m /\ forall n b, m !! n <> Some (VBlob b)
  | CIncrease _ fields => Forall (fun f => String.prefix "_" f = false) fields
  end.

Lemma row_at T st k : rows_repr T st -> default ∅ (hashes st !! k) = cols d (default ∅ (T !! k)) /\ row_ok d (default ∅ (T !! k)).
Proof.
  intros (Hn & _ & _ & -> & HT). rewrite lookup_fmap. destruct (T !! k) as [m|] eqn:E; cbn [fmap option_fmap option_map default from_option id].
  - split; [done|]. by destruct (HT k m E).
  - split; [|split; [done|apply map_Forall_empty]]. apply map_eq. intros n. by rewrite cols_lookup.
Qed.

Lemma rows_same T st st' : rows_repr T st -> up st' -> hashes st' = hashes st -> rows_repr T st'.
Proof. intros (Hn & Hr & _ & Hs & HT) Hu Hh. unfold rows_repr. by rewrite Hh. Qed.

Lemma rows_put T st st' k m : rows_repr T st -> row_ok d m -> m <> ∅ -> up st' ->
  hashes st' = <[k := cols d m]> (hashes st) -> rows_repr (<[k := m]> T) st'.
Proof.
  intros (Hn & Hr & _ & Hs & HT) Hm Hne Hu Hh. split; [done|]. split; [done|]. split; [done|].
  split; [by rewrite Hh, Hs, fmap_insert|]. by apply map_Forall_insert_2.
Qed.

Lemma rows_hmset T st st' k m : rows_repr T st -> row_ok d m -> msg_ok d m -> m <> ∅ -> up st' ->
  hashes st' = <[k := cols d m ∪ default ∅ (hashes st !! k)]> (hashes st) -> rows_repr (<[k := m ∪ default ∅ (T !! k)]> T) st'.
Proof.
  intros HT Hm Hok Hne Hu Hh. destruct (row_at T st k HT) as [Ho Hold]. rewrite Ho, <- cols_union in Hh by done.
  eapply rows_put; [done|by apply row_ok_union|by apply union_nonempty|done|done].
Qed.

(** *** Increments *)

Lemma bump_spec T T' st k f fd b : rows_repr T st -> counter_field d f fd -> String.prefix "_" f = false ->
  bump d k f T = Some (b, T') -> exists ret st', HIncrBy cl k f 1 st = (ret, st') /\ ok_ret ret = b /\ rows_repr T' st'.
Proof.
  intros HT Hf Hu Hb. destruct (row_at T st k HT) as [Hh Hold]. destruct (counter_text d _ f fd Hold Hf) as [Hlo Hint].
  pose proof HT as (_ & _ & Hup & _). pose proof (redis_hincrby st k f 1 Hup) as Hx. cbv zeta in Hx. rewrite Hh, Hint in Hx.
  unfold answers, refuses in Hx. destruct (HIncrBy cl k f 1 st) as [ret st']. cbn [fst snd] in Hx. exists ret, st'. split; [done|].
  unfold bump in Hb. set (m := default ∅ (T !! k)) in *. destruct (decide (count m f + 1 < 2 ^ 63)) as [Hlt|Hge].
  - rewrite (proj1 Hf) in Hb. cbn [mbind option_bind] in Hb. destruct (counter (fdKind fd) (count m f + 1)) as [v|] eqn:Ev; [|done].
    simplify_eq/=. rewrite !decide_True in Hx by (unfold fits_s; lia). destruct Hx as (-> & Hu' & Hh'). split; [done|].
    destruct (counter_value _ _ v fd Ev eq_refl (proj1 (proj2 Hf))) as (Et & Ht & Hnb & Hk).
    rewrite <- Et, <- cols_insert in Hh' by apply Hf. eapply rows_put; [done| |apply insert_non_empty|done|done].
    apply row_ok_insert; [done|]. exists fd. rewrite Hnb. split; [apply Hf|]. done.
  - simplify_eq. destruct (decide (count m f < 2 ^ 63)); [rewrite decide_False in Hx by (unfold fits_s; lia)|];
      destruct Hx as ([e ->] & Hu' & Hh'); (split; [done|by eapply rows_same]).
Qed.

Definition incr_cmds (k : string) (fields : list string) : list incrCmd := (fun f => MkIncr k f 1) <$> fields.

Lemma bumps_spec k fields : Forall (fun f => exists fd, counter_field d f fd) fields ->
  Forall (fun f => String.prefix "_" f = false) fields -> forall T T' st b, rows_repr T st -> bumps d k fields T = Some (b, T') ->
  exists e st', pipeline cl (incr_cmds k fields) st = (e, st') /\ ok_of e = b /\ rows_repr T' st'.
Proof.
  induction 1 as [|f fields [fd Hf] _ IH]; intros Hu T T' st b HT Hb; cbn [bumps incr_cmds fmap list_fmap pipeline icKey icField icBy] in *;
    [simplify_eq; by do 2 eexists|].
  apply Forall_cons in Hu as [Hu Hus]. destruct (bump d k f T) as [[b1 T1]|] eqn:E1; [|done].
  destruct (bump_spec T T1 st k f fd b1 HT Hf Hu E1) as (e1 & st1 & -> & <- & H1). cbn [mbind option_bind] in Hb.
  destruct (bumps d k fields T1) as [[b2 T2]|] eqn:E2; [|done]. cbn in Hb. simplify_eq.
  destruct (IH Hus T1 T' st1 b2 H1 E2) as (e2 & st2 & Hp & <- & H2). fold (incr_cmds k fields). rewrite Hp.
  do 2 eexists. split; [reflexivity|]. split; [|done]. by destruct e1.
Qed.

(** *** Fields *)

Lemma hmget_all (h : gmap string string) fields : Forall (fun f => is_Some (h !! f)) fields -> forall m,
  hmget fields ((fun f => h !! f) <$> fields) m = Ok (filter (fun x => x.1 ∈ fields) h ∪ m).
Proof.
  induction 1 as [|f fields [s Hs] _ IH]; intros m; cbn [hmget fmap list_fmap].
  - f_equal. apply map_eq. intros n. rewrite lookup_union, (proj2 (map_lookup_filter_None _ h n)); [by destruct (m !! n)|].
    right. intros s _ Hx. by apply not_elem_of_nil in Hx.
  - rewrite Hs, IH. f_equal. apply map_eq. intros n. rewrite !lookup_union, !map_lookup_filter.
    destruct (decide (f = n)) as [<-|Hne].
    + rewrite lookup_insert_eq, Hs. cbn. rewrite (option_guard_True (f ∈ f :: fields)) by left. case_guard; by destruct (m !! f).
    + rewrite lookup_insert_ne by done. destruct (h !! n) as [t|]; [|by destruct (m !! n)]. cbn.
      destruct (decide (n ∈ fields)).
      * by rewrite !option_guard_True by (done || by right).
      * by rewrite !option_guard_False by (done || by intros [?|?]%elem_of_cons).
Qed.

Lemma hmget_some (h : gmap string string) fields : ~ Forall (fun f => is_Some (h !! f)) fields -> forall m,
  exists e, hmget fields ((fun f => h !! f) <$> fields) m = Err e.
Proof.
  induction fields as [|f fields IH]; intros Hf m; [by destruct Hf|]. cbn [hmget fmap list_fmap].
  destruct (h !! f) as [s|] eqn:Hs; [|by eexists]. apply IH. intros Hx. apply Hf. constructor; [by rewrite Hs|done].
Qed.

(** A get of listed fields reads their columns. *)
Lemma get_fields st base fields k : up st -> BuildKey d base = Done k -> fields <> [] ->
  Redis.SimpleGet d cl order st base fields =
  match hmget fields ((fun f => default ∅ (hashes st !! k) !! f) <$> fields) ∅ with
  | Err e => Done (Some e, base)
  | Ok m => UnmarshalInto d base (order m)
  end.
Proof.
  intros Hup Hk Hne. unfold Redis.SimpleGet. rewrite Hk. go_run. destruct fields as [|f fields]; [done|].
  rewrite redis_hmget by done. by rewrite length_fmap, Nat.eqb_refl.
Qed.

Lemma cols_asked m fields : fields <> [] -> cols d (asked fields m) = filter (fun x => x.1 ∈ fields) (cols d m).
Proof.
  intros Hne. apply map_eq. intros n. rewrite map_lookup_filter, !cols_lookup. unfold stored, asked.
  rewrite map_lookup_filter. destruct (m !! n) as [v|]; [|done]. cbn. destruct (decide (n ∈ fields)) as [Hn|Hn].
  - rewrite option_guard_True by (by right). cbn. destruct (ByName d n); [|done]. cbn. by rewrite option_guard_True.
  - rewrite option_guard_False by (by intros [?|?]). cbn. destruct (ByName d n); [|done]. cbn. by rewrite option_guard_False.
Qed.

Lemma asked_nil m : asked [] m = m.
Proof. unfold asked. apply map_filter_id. intros n v _. by left. Qed.

(** The columns [MarshalToMap] makes of the listed fields. *)
Lemma MarshalToMap_listed m fields : storable d m -> MarshalToMap d m fields = Done (Ok (cols d (listed d fields m))).
Proof.
  intros [Hok Hsz _ _]. destruct (MarshalToMap_spec d m Hok Hsz fields) as (m' & -> & Hm). do 2 f_equal.
  apply map_eq. intros n. rewrite Hm, cols_lookup. unfold stored, listed. rewrite map_lookup_filter.
  destruct (m !! n) as [v|]; cbn; [|by destruct (dropped _ n)]. unfold dropped, DirtyFilter.
  destruct fields as [|f fields]; [by rewrite option_guard_True by (by left)|].
  set (fs := omap (filter_key d) (f :: fields)). case_bool_decide as Hn; cbn [negb]; rewrite elem_of_list_to_set in Hn.
  - by rewrite option_guard_True by (by right).
  - by rewrite option_guard_False by (by intros [?|?]).
Qed.

Lemma listed_ok m fields : storable d m -> row_ok d (listed d fields m) /\ msg_ok d (listed d fields m).
Proof.
  intros Hs. assert (Hsub : listed d fields m ⊆ m) by apply map_filter_subseteq. split.
  - eapply row_ok_sub; [by apply storable_row|done].
  - destruct Hs as [Hok _ _ _]. split; [apply Hok|apply Hok|]. intros n v Hv. apply (ok_values d m Hok). by eapply lookup_weaken.
Qed.

(** A stored blob is not among the fields of a well-typed record without blobs. *)
Lemma row_no_blob m base n b : row_ok d m -> msg_ok d base -> (forall n b, base !! n <> Some (VBlob b)) ->
  m !! n = Some (VBlob b) -> base !! n = None.
Proof.
  intros Hm Hbase Hnb Hv. destruct (base !! n) as [v|] eqn:E; [|done]. exfalso.
  destruct (other_field d base n v Hbase E) as [_ Hs]; [intros b' ->; by destruct (Hnb n b')|].
  rewrite (row_blob d m n b Hm Hv) in Hs. done.
Qed.

Lemma get_spec T st m fields k : rows_repr T st -> BuildKey d m = Done k -> msg_ok d m -> (forall n b, m !! n <> Some (VBlob b)) ->
  exists e m', Redis.SimpleGet d cl order st m fields = Done (e, m') /\ get_row k m fields T = (ok_of e, m').
Proof.
  intros HT Hk Hok Hnb. destruct (row_at T st k HT) as [Hh Hold]. unfold get_row. pose proof HT as (_ & _ & Hup & _ & HF0).
  assert (Hnone : T !! k = None <-> default ∅ (T !! k) = ∅).
  { destruct (T !! k) as [m'|] eqn:E; [|done]. cbn. split; [done|]. by destruct (HF0 k m' E). }
  destruct (decide (fields = [])) as [->|Hne].
  - unfold Redis.SimpleGet. rewrite Hk. go_run. rewrite redis_hgetall, Hh by done. case_decide as He.
    + rewrite (cols_empty d) in He by done. rewrite (proj2 Hnone He). by do 2 eexists.
    + rewrite (cols_empty d) in He by done. destruct (T !! k) as [old|] eqn:E; [|done]. cbn in *.
      rewrite (UnmarshalInto_ok d m _ (read_over old m)) by (apply (read_row d old _ m Hold); [apply Hord|intros; by eapply row_no_blob]).
      do 2 eexists. split; [reflexivity|]. by rewrite decide_True, asked_nil.
  - rewrite (get_fields st m fields k), Hh by done.
    destruct (decide (Forall (fun f => is_Some (default ∅ (T !! k) !! f)) fields)) as [HF|HF].
    + destruct (T !! k) as [old|] eqn:E.
      2: { exfalso. destruct fields as [|f fields]; [done|]. apply Forall_cons in HF as [HF _]. cbn in HF. rewrite lookup_empty in HF. by destruct HF. }
      cbn [default from_option id] in *. rewrite hmget_all.
      2: { eapply Forall_impl; [exact HF|]. intros x Hx. cbn in Hx. by apply (cols_is_Some d old). }
      rewrite (right_id_L ∅ (∪)), <- cols_asked by done. rewrite decide_True by done.
      rewrite (UnmarshalInto_ok d m _ (read_over (asked fields old) m)); [by do 2 eexists|]. apply (read_row d (asked fields old) _ m).
      * eapply row_ok_sub; [exact Hold|]. apply map_filter_subseteq.
      * apply Hord.
      * intros n b Hv. eapply (row_no_blob old); [done|done|done|]. by eapply lookup_weaken; [exact Hv|apply map_filter_subseteq].
    + destruct (hmget_some (cols d (default ∅ (T !! k))) fields) with (m := ∅ : gmap string string) as [e ->].
      { intros HF'. apply HF. eapply Forall_impl; [exact HF'|]. intros x Hx. cbn in Hx. by apply (cols_is_Some d) in Hx. }
      do 2 eexists. split; [reflexivity|]. destruct (T !! k); [|done]. by rewrite decide_False.
Qed.

(** *** The calls *)

(** Keys are made for every record of a type or for none. *)
Lemma key_texts_all fds m m' l : key_texts fds m = Done l -> exists l', key_texts fds m' = Done l'.
Proof.
  revert l. induction fds as [|[fd|] fds IH]; intros l Hl; cbn in *; [by eexists| |done].
  apply bind_Done_inv in Hl as (l1 & Hl1 & _). destruct (IH l1 Hl1) as [l2 ->]. by eexists.
Qed.

Lemma BuildKey_all m m' k : BuildKey d m = Done k -> BuildKey d m' = Done (redis_key d m').
Proof.
  intros Hk. assert (exists k', BuildKey d m' = Done k') as [k' Hk']; [|unfold redis_key; by rewrite Hk'].
  unfold BuildKey, meta_BuildKey in *. destruct (keyFds (Redis.newMeta d)) as [|fd fds] eqn:E; [done|].
  apply bind_Done_inv in Hk as (l & Hl & _). destruct (key_texts_all _ m m' l Hl) as [l' ->]. by eexists.
Qed.

Lemma delete_spec T st k : rows_repr T st -> exists n st', Del cl k st = (Ok n, st') /\ rows_repr (delete k T) st'.
Proof.
  intros (Hn & Hr & Hup & Hs & HT). destruct (redis_del st k Hup) as (n & Hx). unfold answers in Hx.
  destruct (Del cl k st) as [ret st']. cbn [fst snd] in Hx. destruct Hx as (-> & Hu & Hh). exists n, st'. split; [done|].
  split; [done|]. split; [done|]. split; [done|]. split; [by rewrite Hh, Hs, fmap_delete|]. by apply map_Forall_delete.
Qed.

Lemma insert_row T st m res : call_ok (CInsert m) -> rows_repr T st -> row_call d (redis_key d) (CInsert m) T = Some res ->
  exists st', run_call (CInsert m) st = Done (res.1, st') /\ rows_repr res.2 st'.
Proof.
  intros [Hk Hs] HT. cbn [call_record] in Hk. pose proof HT as (_ & Hroom & Hup & Hst & _).
  cbn [run_call row_call call_record SimpleInsert redis_rows_here redis_simple]. pose proof (storable_row d m Hs) as Hm.
  pose proof (insert_spec d cl order Hord Hroom st m m _ (MarshalToMap_all d m Hs) Hk Hup) as Hx. cbv zeta in Hx.
  rewrite Hst, lookup_fmap, (decide_ext _ _ _ _ (cols_empty d m Hm)) in Hx.
  destruct (T !! redis_key d m) as [old|] eqn:E; cbn [fmap option_fmap option_map] in Hx; [|case_decide as He]; intros [= <-];
    destruct Hx as (e & st' & -> & He' & Hu & Hh); rewrite bind_Done; exists st'; cbn [fst snd];
    rewrite <- Hst in Hh.
  - rewrite He'. split; [done|by eapply rows_same].
  - split; [by destruct e|by eapply rows_same].
  - rewrite He'. split; [done|by eapply rows_put].
Qed.

Lemma update_row T st m fields res : call_ok (CUpdate m fields) -> rows_repr T st ->
  row_call d (redis_key d) (CUpdate m fields) T = Some res ->
  exists st', run_call (CUpdate m fields) st = Done (res.1, st') /\ rows_repr res.2 st'.
Proof.
  intros [Hk Hs] HT. cbn [call_record] in Hk. pose proof HT as (_ & Hroom & Hup & Hst & _).
  cbn [run_call row_call call_record SimpleUpdate redis_rows_here redis_simple]. destruct (listed_ok m fields Hs) as [Hm Hok].
  pose proof (update_spec d cl order Hord Hroom st m fields _ _ (MarshalToMap_listed m fields Hs) Hk Hup) as Hx. cbv zeta in Hx.
  rewrite Hst, lookup_fmap in Hx.
  destruct (T !! redis_key d m) as [old|] eqn:E; cbn [fmap option_fmap option_map] in Hx;
    [rewrite (decide_ext _ _ _ _ (cols_empty d _ Hm)) in Hx; case_decide as He|]; intros [= <-];
    destruct Hx as (e & st' & -> & He' & Hu & Hh); rewrite bind_Done; exists st'; cbn [fst snd]; rewrite <- Hst in Hh.
  - split; [by destruct e|by eapply rows_same].
  - rewrite He'. split; [done|]. pose proof (rows_hmset T st st' (redis_key d m) _ HT Hm Hok He Hu) as Hr.
    rewrite E, Hst, lookup_fmap, E, <- Hst in Hr. by apply Hr.
  - rewrite He'. split; [done|by eapply rows_same].
Qed.

Lemma replace_row T st m res : call_ok (CReplace m) -> rows_repr T st -> row_call d (redis_key d) (CReplace m) T = Some res ->
  exists st', run_call (CReplace m) st = Done (res.1, st') /\ rows_repr res.2 st'.
Proof.
  intros [Hk Hs] HT. cbn [call_record] in Hk. cbn [run_call row_call call_record SimpleReplace redis_rows_here redis_simple].
  pose proof HT as (_ & _ & Hup & _). pose proof (storable_row d m Hs) as Hm.
  pose proof (replace_spec d cl st m _ _ (MarshalToMap_all d m Hs) Hk Hup) as Hx. cbv zeta in Hx.
  rewrite (decide_ext _ _ _ _ (cols_empty d m Hm)) in Hx. case_decide as He; intros [= <-];
    destruct Hx as (e & st' & -> & He' & Hu & Hh); rewrite bind_Done; exists st'; cbn [fst snd].
  - split; [by destruct e|by eapply rows_same].
  - rewrite He'. split; [done|]. eapply rows_hmset; [done|done|apply Hs|done|done|done].
Qed.

Lemma delete_row T st m flag res : call_ok (CDelete m flag) -> rows_repr T st ->
  row_call d (redis_key d) (CDelete m flag) T = Some res ->
  exists st', run_call (CDelete m flag) st = Done (res.1, st') /\ rows_repr res.2 st'.
Proof.
  intros [Hk Hf] HT. cbn [call_record] in Hk. cbn [run_call row_call call_record SimpleDelete redis_rows_here redis_simple].
  unfold Redis.SimpleDelete. intros [= <-]. destruct (Z.eqb_spec flag 3) as [->|_].
  - destruct (Hf eq_refl) as [Hok Hnb]. destruct (get_spec T st m [] (redis_key d m) HT Hk Hok Hnb) as (e & m' & -> & ->).
    rewrite !bind_Done, (BuildKey_all m m' _ Hk), bind_Done. destruct (delete_spec T st (redis_key d m') HT) as (n & st' & -> & Hr).
    rewrite bind_Done. by exists st'.
  - rewrite bind_Done, Hk, bind_Done. destruct (delete_spec T st (redis_key d m) HT) as (n & st' & -> & Hr).
    rewrite bind_Done. by exists st'.
Qed.

Lemma increase_row T st m fields res : call_ok (CIncrease m fields) -> rows_repr T st ->
  row_call d (redis_key d) (CIncrease m fields) T = Some res ->
  exists st', run_call (CIncrease m fields) st = Done (res.1, st') /\ rows_repr res.2 st'.
Proof.
  intros [Hk Hu] HT. cbn [call_record] in Hk. cbn [run_call row_call call_record SimpleIncrease redis_rows_here redis_simple].
  unfold Redis.SimpleIncrease. destruct (IncreaseAble (Redis.newMeta d) fields) eqn:Hi; cbn [negb]; intros Hres.
  2: { simplify_eq. by eexists. }
  destruct (IncreaseAble_fields d fields (proj1 HT) Hi) as [Hne Hfs].
  destruct (bumps d (redis_key d m) fields T) as [[b T']|] eqn:Eb; [|done]. cbn in Hres. simplify_eq. cbn [fst snd].
  destruct (bumps_spec (redis_key d m) fields Hfs Hu T T' st b HT Eb) as (e & st' & Hr & He & HT').
  rewrite Hk, bind_Done. exists st'. split; [|done]. pose proof HT as (_ & _ & Hup & _).
  destruct fields as [|f1 [|f2 fields]]; [done| |].
  - cbn in Hr. destruct (HIncrBy cl (redis_key d m) f1 1 st) as [[r1|e1] st1]; cbn in Hr; simplify_eq; done.
  - rewrite redis_pipeline by done. unfold incr_cmds in Hr. rewrite Hr. cbn. by rewrite He.
Qed.

Lemma call_spec c T st res : call_ok c -> rows_repr T st -> row_call d (redis_key d) c T = Some res ->
  exists st', run_call c st = Done (res.1, st') /\ rows_repr res.2 st'.
Proof.
  intros Hc HT Hres. destruct c as [m|m fields|m|m flag|m fields|m fields].
  - by apply (insert_row T).
  - by apply (update_row T).
  - by apply (replace_row T).
  - by apply (delete_row T).
  - destruct Hc as [Hk [Hok Hnb]]. cbn [row_call call_record] in *. simplify_eq. exists st.
    destruct (get_spec T st m fields _ HT Hk Hok Hnb) as (e & m' & Hg & E). split; [|done].
    cbn [run_call SimpleGet redis_rows_here redis_simple]. rewrite Hg, bind_Done. cbn [fst]. by rewrite E.
  - by apply (increase_row T).
Qed.

Lemma calls_spec cs : Forall call_ok cs -> forall T st res, rows_repr T st -> row_calls d (redis_key d) cs T = Some res ->
  exists st', run_calls cs st = Done (res.1, st') /\ rows_repr res.2 st'.
Proof.
  induction 1 as [|c cs Hc _ IH]; intros T st res HT Hres; cbn [row_calls run_calls] in *; [simplify_eq; by exists st|].
  destruct (row_call d (redis_key d) c T) as [[a T1]|] eqn:E1; [|done]. cbn [mbind option_bind] in Hres.
  destruct (row_calls d (redis_key d) cs T1) as [[rs T2]|] eqn:E2; [|done]. cbn in Hres. simplify_eq.
  destruct (call_spec c T st _ Hc HT E1) as (st1 & -> & H1). rewrite bind_Done.
  destruct (IH T1 st1 _ H1 E2) as (st2 & -> & H2). rewrite bind_Done. by exists st2.
Qed.
End RedisRows.

(** Redis implements the rows, over any server that behaves as it documents.
    Any sequence of inserts, updates, replaces and deletes, of gets of all or of
    some fields, and of increments, answers what the table of rows answers and
    leaves its hashes, as long as no counter outgrows the type of its field.  So
    an update of listed fields changes these alone, and fails when none of them
    is set; a get of listed fields needs a column for each; an increment adds
    one to each listed counter, makes a row that is not there, and is refused
    beyond 64 bits for its column alone; the caller's record stays as it was. *)
Theorem redis_refines_rows `{RuntimeLaws} (d : MessageDescriptor) {St : Type} (cl : redisClient St) `{R : !RedisServer cl}
    (order : gmap string string -> list (string * string)) (cs : list dbCall) (T : table) (st : St) (res : list callRes * table) :
  (forall m, ranges m (order m)) -> Forall (call_ok d) cs -> rows_repr d cl T st -> row_calls d (redis_key d) cs T = Some res ->
  exists st', run_calls (H := redis_simple d order cl) cs st = Done (res.1, st') /\ rows_repr d cl res.2 st'.
Proof. intros Hord Hcs HT Hres. by eapply calls_spec. Qed.

Section Overflow.
Context `{RuntimeLaws} (d : MessageDescriptor) {St : Type} (cl : redisClient St) `{R : !RedisServer cl}.

(** The counters that leave their type, and the text they then have. *)
Lemma bump_overflow T st k f fd : rows_repr d cl T st -> counter_field d f fd -> bump d k f T = None ->
  let n := count (default ∅ (T !! k)) f + 1 in
  - 2 ^ 63 <= n - 1 < 2 ^ 63 - 1 /\ exists e, unmarshalScalarByStr fd (FormatInt n) = Err e.
Proof.
  intros HT Hf Hb n. destruct (row_at d cl T st k HT) as [_ Hm]. destruct (counter_text d _ f fd Hm Hf) as [Hlo _].
  unfold bump in Hb. fold n in Hb. case_decide as Hlt; [|done]. split; [lia|]. rewrite (proj1 Hf) in Hb. cbn [mbind option_bind] in Hb.
  destruct (counter (fdKind fd) n) eqn:Hc; [done|]. clear Hb. destruct Hf as (Hfd & Hr & Hk).
  assert (Ht : match default ∅ (T !! k) !! f with Some v => typed fd v | None => True end).
  { destruct (default ∅ (T !! k) !! f) as [v|] eqn:Hv; [|done]. destruct (proj2 Hm f v Hv) as (fd' & Hfd' & Ht & _).
    rewrite Hfd in Hfd'. by simplify_eq. }
  unfold count in n, Hlo. unfold typed, IsFdMarshalToBlob in Ht. rewrite Hr in Ht. unfold unmarshalScalarByStr.
  destruct (fdKind fd); try done; cbn in Ht, Hc; case_decide as Hn; try done; unfold fits_s, fits_u in *;
    destruct (default ∅ (T !! k) !! f) as [[|i|i| | |]|]; try done; cbn [Z.add] in n; try (exfalso; subst n; lia).
  - replace n with (2 ^ 31) by (subst n; lia). by eexists.
  - replace n with (2 ^ 32) by (subst n; lia). by eexists.
Qed.

(** Redis adds at 64 bits all the same. *)
Lemma overflow_incr T st k f fd : rows_repr d cl T st -> counter_field d f fd -> bump d k f T = None ->
  let n := count (default ∅ (T !! k)) f + 1 in
  exists st', HIncrBy cl k f 1 st = (Ok n, st') /\ up st' /\
    hashes st' = <[k := <[f := FormatInt n]> (cols d (default ∅ (T !! k)))]> (hashes st).
Proof.
  intros HT Hf Hb n. destruct (bump_overflow T st k f fd HT Hf Hb) as [Hn _]. fold n in Hn.
  destruct (row_at d cl T st k HT) as [Hh Hm]. destruct (counter_text d _ f fd Hm Hf) as [_ Hint]. pose proof HT as (_ & _ & Hup & _).
  pose proof (redis_hincrby st k f 1 Hup) as Hx. cbv zeta in Hx. rewrite Hh, Hint, !decide_True in Hx by (unfold fits_s; lia).
  unfold answers in Hx. destruct (HIncrBy cl k f 1 st) as [ret st']. cbn [fst snd] in Hx. destruct Hx as (-> & Hu & Hs). by exists st'.
Qed.

(** Reading a text its field does not take. *)
Lemma read_bad_column base h f s fd order : (forall m, ranges m (order m)) -> h !! f = Some s -> counter_field d f fd ->
  String.prefix "_" f = false -> (exists e, unmarshalScalarByStr fd s = Err e) -> panics (UnmarshalInto d base (order h)).
Proof.
  intros Hord Hs Hf Hu [e He]. destruct (unmarshal_loop_panics d (order h) f s fd e) with (buf := @nil ascii) (acc := base) as [w Hw];
    [|done|apply Hf| |done|by eapply UnmarshalInto_panics].
  - by apply (ranges_lookup h _ _ _ (Hord h)).
  - destruct Hf as (_ & Hr & Hkd). unfold IsFdMarshalToBlob. rewrite Hr. by destruct (fdKind fd).
Qed.
End Overflow.

(** C35. A counter that outgrows its type makes its record unreadable.  Redis adds at
    64 bits whatever the type of the field: an increment of a 32-bit field at
    its maximum succeeds.  Every get that reads the column then panics: a get
    of the whole record, and a get of listed fields that has it among them and
    finds them all.  A get of other listed fields is as before, and one that
    lists a field without a column still reports an error. *)
Theorem redis_increase_overflow `{RuntimeLaws} (d : MessageDescriptor) {St : Type} (cl : redisClient St) `{R : !RedisServer cl}
    (order : gmap string string -> list (string * string)) (T : table) (st : St) (m : Message) (k f : string) :
  (forall m, ranges m (order m)) -> rows_repr d cl T st -> BuildKey d m = Done k ->
  IncreaseAble (Redis.newMeta d) [f] = true -> String.prefix "_" f = false -> bump d k f T = None ->
  let found fields := Forall (fun g => g = f \/ is_Some (default ∅ (T !! k) !! g)) fields in
  exists st', Redis.SimpleIncrease d cl st m [f] = Done (None, st') /\
    forall base fields, BuildKey d base = Done k ->
      (fields = [] \/ (f ∈ fields /\ found fields) -> panics (Redis.SimpleGet d cl order st' base fields)) /\
      (fields <> [] -> f ∉ fields ->
         Redis.SimpleGet d cl order st' base fields = Redis.SimpleGet d cl order st base fields) /\
      (~ found fields -> exists e, Redis.SimpleGet d cl order st' base fields = Done (Some e, base)).
Proof.
  intros Hord HT Hk Hi Hu Hb found. destruct (IncreaseAble_fields d [f] (proj1 HT) Hi) as [_ [(fd & Hf) _]%Forall_cons].
  destruct (bump_overflow d cl T st k f fd HT Hf Hb) as [_ He]. destruct (row_at d cl T st k HT) as [Hh Hm]. pose proof HT as (_ & _ & Hup & _).
  destruct (overflow_incr d cl T st k f fd HT Hf Hb) as (st' & Hinc & Hup' & Hs). exists st'.
  split; [unfold Redis.SimpleIncrease; rewrite Hi, Hk; cbn [negb]; go_run; by rewrite Hinc|]. intros base fields Hkb.
  set (h := <[f := _]> _) in Hs. assert (Hh' : default ∅ (hashes st' !! k) = h) by (by rewrite Hs, lookup_insert_eq).
  assert (Hsome : forall g, is_Some (h !! g) <-> g = f \/ is_Some (default ∅ (T !! k) !! g)).
  { intros g. unfold h. rewrite lookup_insert_is_Some', (cols_is_Some d _ g Hm). by split; (intros [->|?]; [left|right]). }
  split; [|split].
  - intros [->|[Hin HF]].
    + unfold Redis.SimpleGet. rewrite Hkb. go_run. rewrite redis_hgetall, Hh' by done. rewrite decide_False by apply insert_non_empty.
      eapply read_bad_column; [done|apply lookup_insert_eq|done|done|done].
    + rewrite (get_fields d cl order st' base fields k), Hh' by (done || by intros ->; apply not_elem_of_nil in Hin). rewrite hmget_all.
      2: { eapply Forall_impl; [exact HF|]. intros g Hg. by apply Hsome. }
      eapply read_bad_column; [done| |done|done|done]. rewrite (right_id_L ∅ (∪)), map_lookup_filter. unfold h.
      rewrite lookup_insert_eq. cbn. by rewrite option_guard_True.
  - intros Hne Hnin. rewrite (get_fields d cl order st' base fields k), (get_fields d cl order st base fields k), Hh', Hh by done.
    replace ((fun g => h !! g) <$> fields) with ((fun g => cols d (default ∅ (T !! k)) !! g) <$> fields); [done|].
    apply list_fmap_ext. intros i g Hg. unfold h. rewrite lookup_insert_ne; [done|]. intros <-. apply Hnin. by eapply list_elem_of_lookup_2.
  - intros HF. rewrite (get_fields d cl order st' base fields k), Hh' by (done || by intros ->; destruct HF; constructor).
    destruct (hmget_some h fields) with (m := ∅ : gmap string string) as [e ->]; [|by eexists].
    intros HF'. apply HF. eapply Forall_impl; [exact HF'|]. intros g Hg. by apply Hsome.
Qed.

(** ** Increments of many clients *)

(** A client that notes the commands it is given, and the commands a call of
    SimpleIncrease sends. *)
Definition noting : redisClient (list incrCmd) := {|
  HGetAll _ _ := Err ""; HMGet _ _ _ := Err ""; Eval _ _ _ l := (Err "", l); HMSet _ _ l := (Err "", l); Del _ l := (Err "", l);
  HIncrBy k f by_ l := (Ok 0, l ++ [MkIncr k f by_]);
  PipeExec cmds l := (None, l ++ cmds)
|}.

Definition sent `{ProtoRuntime} (d : MessageDescriptor) (c : Message * list string) : list incrCmd :=
  match Redis.SimpleIncrease d noting [] c.1 c.2 with Done (_, l) => l | _ => [] end.

(** A server that gets commands one at a time. *)
Definition run_incrs {St} (cl : redisClient St) (cmds : list incrCmd) (st : St) : St :=
  foldl (fun st c => (HIncrBy cl (icKey c) (icField c) (icBy c) st).2) st cmds.

(** Fields that can be counted up: integers that are single and not of the key. *)
Definition countable_fields (d : MessageDescriptor) (fields : list string) : Prop :=
  fields <> [] /\ Forall (fun f => (f ∉ FindPrimaryKey d) /\
    Exists (fun fd => fdName fd = f /\ fdRepeated fd = false /\ increaseAbleKind (fdKind fd) = true) (mdFields d)) fields.

#[global] Instance countable_fields_dec d fields : Decision (countable_fields d fields).
Proof. unfold countable_fields. apply _. Defined.

(** How often the calls on the record [k] whose fields can all be counted up
    name [f]. *)
Definition namings (d : MessageDescriptor) (calls : list (Message * list string)) (k f : string) : Z :=
  Z.of_nat (length (filter (fun g => g = f)
    (concat (snd <$> filter (fun c => redis_key d c.1 = k /\ countable_fields d c.2) calls)))).

Lemma fdNameToFd_lookup d fd : NoDup (fdName <$> mdFields d) -> fd ∈ mdFields d ->
  fdNameToFd (Redis.newMeta d) !! fdName fd = Some fd.
Proof.
  cbn [Redis.newMeta fdNameToFd]. induction (mdFields d) as [|x l IH] using rev_ind; intros Hnd Hin; [by apply not_elem_of_nil in Hin|].
  rewrite foldl_snoc. rewrite fmap_app in Hnd. apply NoDup_app in Hnd as (Hnd & Hx & _).
  apply elem_of_app in Hin as [Hin|Hin%list_elem_of_singleton]; [|subst; apply lookup_insert_eq].
  rewrite lookup_insert_ne; [by apply IH|]. intros E. apply (Hx (fdName fd)); [by apply list_elem_of_fmap_2|]. rewrite <- E. left.
Qed.

Lemma IncreaseAble_countable d fields : NoDup (fdName <$> mdFields d) ->
  IncreaseAble (Redis.newMeta d) fields = true <-> countable_fields d fields.
Proof.
  intros Hnd. unfold IncreaseAble, countable_fields. destruct fields as [|f0 fs]; [by split; [|intros [? _]]|]. set (fields := f0 :: fs).
  rewrite List.forallb_forall, Forall_forall. split.
  - intros Hi. split; [done|]. intros f Hf. apply list_elem_of_In in Hf. specialize (Hi f Hf).
    destruct (fdNameToFd (Redis.newMeta d) !! f) as [fd|] eqn:E; [|done]. apply fdNameToFd_elem in E as [Hin <-].
    apply bool_decide_eq_true in Hi. cbn in Hi. unfold BuildIncreaseableFieldsMap in Hi.
    apply elem_of_list_to_set, list_elem_of_fmap in Hi as (fd' & En & Hi). apply list_elem_of_filter in Hi as [(Hr & Hk & Hi) Hin'].
    split; [rewrite En; by unfold BuildKeyFieldsMap in Hk; rewrite elem_of_list_to_set in Hk|].
    apply Exists_exists. exists fd'. by split.
  - intros [_ Hi] f Hf. apply list_elem_of_In in Hf. destruct (Hi f Hf) as [Hk Hx]. apply Exists_exists in Hx as (fd & Hin & <- & Hr & Hkd).
    rewrite (fdNameToFd_lookup d fd Hnd Hin). apply bool_decide_eq_true. cbn. unfold BuildIncreaseableFieldsMap, BuildKeyFieldsMap.
    apply elem_of_list_to_set, list_elem_of_fmap. exists fd. split; [done|]. apply list_elem_of_filter. by rewrite elem_of_list_to_set.
Qed.

Lemma sent_eq `{ProtoRuntime} d c : NoDup (fdName <$> mdFields d) -> BuildKey d c.1 = Done (redis_key d c.1) ->
  sent d c = if decide (countable_fields d c.2) then incr_cmds (redis_key d c.1) c.2 else [].
Proof.
  intros Hnd Hk. unfold sent, Redis.SimpleIncrease. case_decide as Hc.
  - rewrite (proj2 (IncreaseAble_countable d c.2 Hnd) Hc), Hk. cbn [negb]. go_run. by destruct c.2 as [|f1 [|f2 fs]].
  - destruct (IncreaseAble (Redis.newMeta d) c.2) eqn:E; [|done]. by apply (IncreaseAble_countable d c.2 Hnd) in E.
Qed.

(** The commands that add one to a column. *)
Definition times (k f : string) (cmds : list incrCmd) : Z :=
  Z.of_nat (length (filter (fun c => icKey c = k /\ icField c = f) cmds)).

Lemma times_cons k f c cmds : times k f (c :: cmds) = (if decide (icKey c = k /\ icField c = f) then 1 else 0) + times k f cmds.
Proof. unfold times. rewrite filter_cons. case_decide; cbn [length]; lia. Qed.

Lemma times_app k f l1 l2 : times k f (l1 ++ l2) = times k f l1 + times k f l2.
Proof. unfold times. rewrite filter_app, length_app. lia. Qed.

Lemma times_incr_cmds k f k' fields : times k f (incr_cmds k' fields) =
  if decide (k' = k) then Z.of_nat (length (filter (fun g => g = f) fields)) else 0.
Proof.
  induction fields as [|g fields IH]; [by case_decide|]. cbn [incr_cmds fmap list_fmap]. rewrite times_cons. fold (incr_cmds k' fields).
  rewrite IH, filter_cons. cbn [icKey icField]. repeat case_decide; cbn [length]; tauto || lia.
Qed.

Lemma times_sent `{ProtoRuntime} d calls k f : NoDup (fdName <$> mdFields d) ->
  (forall c, c ∈ calls -> BuildKey d c.1 = Done (redis_key d c.1)) -> times k f (concat (sent d <$> calls)) = namings d calls k f.
Proof.
  intros Hnd. unfold namings. induction calls as [|c calls IH]; intros Hk; [done|]. cbn [fmap list_fmap concat]. rewrite times_app.
  rewrite IH by (intros; apply Hk; by right). rewrite (sent_eq d c Hnd) by (apply Hk; left). rewrite filter_cons.
  destruct (decide (countable_fields d c.2)) as [Hc|Hc]; [rewrite times_incr_cmds|]; repeat case_decide; try tauto;
    cbn [fmap list_fmap concat]; rewrite ?filter_app, ?length_app; cbn [times length filter]; lia.
Qed.

Section ManyClients.
Context {St : Type} (cl : redisClient St) `{R : !RedisServer cl}.

(** The number in a column. *)
Definition column_int (st : St) (k f : string) : option Z := redis_int (default "0" (default ∅ (hashes st !! k) !! f)).

Lemma HIncrBy_effect st k f n : up st -> up (HIncrBy cl k f n st).2 /\
  (hashes (HIncrBy cl k f n st).2 = hashes st \/
   exists s, hashes (HIncrBy cl k f n st).2 = <[k := <[f := s]> (default ∅ (hashes st !! k))]> (hashes st)).
Proof.
  intros Hup. pose proof (redis_hincrby st k f n Hup) as Hx. cbv zeta in Hx. destruct (redis_int _) as [i|].
  - case_decide; destruct Hx as (_ & Hu & Hh); (split; [done|]); [right; by eexists|by left].
  - destruct Hx as (_ & Hu & Hh). split; [done|by left].
Qed.

Lemma HIncrBy_other st k f k' f' n : up st -> ~ (k' = k /\ f' = f) -> column_int (HIncrBy cl k' f' n st).2 k f = column_int st k f.
Proof.
  intros Hup Hne. unfold column_int. destruct (HIncrBy_effect st k' f' n Hup) as [_ [->|[s ->]]]; [done|].
  destruct (decide (k' = k)) as [->|Hk]; [|by rewrite lookup_insert_ne].
  rewrite lookup_insert_eq. cbn [default from_option id]. rewrite lookup_insert_ne by (intros ->; by apply Hne). done.
Qed.

Lemma HIncrBy_same st k f n : up st -> column_int st k f = Some n -> fits_s 64 (n + 1) ->
  column_int (HIncrBy cl k f 1 st).2 k f = Some (n + 1).
Proof.
  intros Hup Hn Hf. pose proof (redis_hincrby st k f 1 Hup) as Hx. cbv zeta in Hx. unfold column_int in *.
  rewrite Hn, decide_True in Hx by done. destruct Hx as (_ & _ & ->). rewrite lookup_insert_eq. cbn [default from_option id].
  rewrite lookup_insert_eq. by apply redis_int_FormatInt.
Qed.

Lemma run_incrs_column cmds k f : Forall (fun c => icBy c = 1) cmds -> forall st n, up st -> column_int st k f = Some n -> - 2 ^ 63 <= n ->
  n + times k f cmds < 2 ^ 63 -> column_int (run_incrs cl cmds st) k f = Some (n + times k f cmds).
Proof.
  induction 1 as [|[k' f' b] cmds Hb _ IH]; intros st n Hup Hn Hlo Hhi; cbn [run_incrs foldl icKey icField icBy].
  { by rewrite Hn, Z.add_0_r. }
  cbn in Hb. subst b. fold (run_incrs cl cmds (HIncrBy cl k' f' 1 st).2). rewrite times_cons in *. cbn [icKey icField] in *.
  assert (0 <= times k f cmds) by (unfold times; lia). destruct (HIncrBy_effect st k' f' 1 Hup) as [Hup' _].
  case_decide as Heq.
  - destruct Heq as [-> ->]. rewrite (IH _ (n + 1)); [f_equal; lia|done| |lia|lia]. apply HIncrBy_same; [done|done|unfold fits_s; lia].
  - rewrite (IH _ n); [done|done| |done|lia]. by rewrite HIncrBy_other.
Qed.

Lemma pipeline_run cmds : forall st, (pipeline cl cmds st).2 = run_incrs cl cmds st.
Proof.
  induction cmds as [|c cmds IH]; intros st; [done|]. cbn [pipeline run_incrs foldl].
  destruct (HIncrBy cl (icKey c) (icField c) (icBy c) st) as [ret st1]. specialize (IH st1).
  destruct (pipeline cl cmds st1) as [e st2]. exact IH.
Qed.

(** A call does to a server what its commands do. *)
Lemma SimpleIncrease_sent `{ProtoRuntime} d c st : NoDup (fdName <$> mdFields d) -> BuildKey d c.1 = Done (redis_key d c.1) -> up st ->
  exists e, Redis.SimpleIncrease d cl st c.1 c.2 = Done (e, run_incrs cl (sent d c) st) /\
    (~ countable_fields d c.2 -> e <> None /\ sent d c = []).
Proof.
  intros Hnd Hk Hup. rewrite sent_eq by done. unfold Redis.SimpleIncrease. case_decide as Hc.
  - rewrite (proj2 (IncreaseAble_countable d c.2 Hnd) Hc), Hk. cbn [negb]. go_run. destruct c.2 as [|f1 [|f2 fs]].
    + by destruct (proj1 Hc).
    + cbn. destruct (HIncrBy cl (redis_key d c.1) f1 1 st) as [ret st']. by eexists.
    + rewrite redis_pipeline by done. fold (incr_cmds (redis_key d c.1) (f1 :: f2 :: fs)). rewrite <- pipeline_run.
      destruct (pipeline cl (incr_cmds (redis_key d c.1) (f1 :: f2 :: fs)) st) as [e st']. by exists e.
  - destruct (IncreaseAble (Redis.newMeta d) c.2) eqn:E; [by apply (IncreaseAble_countable d c.2 Hnd) in E|]. by eexists.
Qed.
End ManyClients.

Lemma redis_int_bounds s n : redis_int s = Some n -> fits_s 64 n.
Proof.
  unfold redis_int. destruct (ParseInt s 64) as [i|] eqn:E; [|done]. case_decide; [|done]. intros [= <-].
  by apply (ParseInt_fits s 64 i).
Qed.

(** C15. No increment is lost.  On any server a call of SimpleIncrease does what the
    commands it sends do, and one whose fields cannot all be counted up sends
    none and returns an error.  However the commands that the calls of many
    clients send are interleaved at the server, every counter ends at its first
    value plus the number of times the calls with countable fields name it, as
    long as that is a 64-bit integer; a call that names a counter twice counts
    twice. *)
Theorem redis_increments_add_up `{ProtoRuntime} (d : MessageDescriptor) {St : Type} (cl : redisClient St) `{R : !RedisServer cl}
    (calls : list (Message * list string)) (cmds : list incrCmd) (st : St) (k f : string) (n : Z) :
  NoDup (fdName <$> mdFields d) -> (forall c, c ∈ calls -> BuildKey d c.1 = Done (redis_key d c.1)) -> up st ->
  cmds ≡ₚ concat (sent d <$> calls) -> column_int cl st k f = Some n -> n + namings d calls k f < 2 ^ 63 ->
  (forall c st0, c ∈ calls -> up st0 ->
     exists e, Redis.SimpleIncrease d cl st0 c.1 c.2 = Done (e, run_incrs cl (sent d c) st0) /\
       (~ countable_fields d c.2 -> e <> None /\ sent d c = [])) /\
  column_int cl (run_incrs cl cmds st) k f = Some (n + namings d calls k f).
Proof.
  intros Hnd Hk Hup Hp Hn Hhi. split; [intros c st0 Hc Hup0; apply (SimpleIncrease_sent cl); [done|by apply Hk|done]|].
  rewrite <- (times_sent d calls k f Hnd Hk) in *. assert (Ht : times k f cmds = times k f (concat (sent d <$> calls))) by (unfold times; by rewrite Hp).
  rewrite <- Ht in *. apply (run_incrs_column cl); [|done|done|apply (redis_int_bounds _ _ Hn)|done].
  rewrite Hp. apply Forall_concat, Forall_fmap, Forall_forall. intros c Hc. cbn. rewrite (sent_eq d c Hnd (Hk c Hc)).
  case_decide; [|constructor]. by apply Forall_fmap, Forall_forall.
Qed.

(** *** Witnesses *)

#[local] Existing Instance toy_runtime.
#[local] Existing Instance toy_runtime_laws.

Definition rank_desc : MessageDescriptor :=
  MkMd "Rank" "db.Rank" [MkFd "id" 1 Int64Kind false; MkFd "name" 2 StringKind false; MkFd "score" 3 Int64Kind false;
    MkFd "gold" 4 Int32Kind false] "id".

Definition rank_key : Message := {[ "id" := VInt 5 ]}.
Definition rank_msg : Message := {[ "id" := VInt 5; "name" := VString "bob"; "score" := VInt (-1) ]}.
Definition rank_new : Message := {[ "id" := VInt 5; "name" := VString "al"; "score" := VInt 9 ]}.

Lemma rank_names : names_ok rank_desc.
Proof. split; by_decide. Qed.

(** Records of scalars. *)
Lemma rank_storable m : map_Forall (fun n v => exists fd, ByName rank_desc n = Some fd /\ typed fd v /\ is_zero v = false) m ->
  Z.of_nat (length (wire_bytes (wire_groups rank_desc m))) < 2 ^ 31 -> storable rank_desc m.
Proof.
  intros Hm Hsz. assert (Hfds : forall n fd, ByName rank_desc n = Some fd -> text_kind (fdKind fd) = true /\ String.prefix "_" (fdName fd) = false).
  { intros n fd [Hin _]%ByName_elem. repeat (apply elem_of_cons in Hin as [->|Hin]; [done|]). by apply not_elem_of_nil in Hin. }
  split; [|done|..].
  - destruct rank_names. by split.
  - intros n v fd _ Hfd _. by apply (Hfds n).
  - intros n [v Hv]. destruct (Hm n v Hv) as (fd & Hfd & _). pose proof (ByName_elem _ _ _ Hfd) as [_ <-]. by eapply Hfds.
Qed.

Ltac rank_values :=
  repeat (apply map_Forall_insert_2; [eexists; split; [reflexivity|split; [(split; by vm_compute) || done|done]]|]);
  apply map_Forall_empty.

Lemma rank_key_ok : msg_ok rank_desc rank_key /\ forall n b, rank_key !! n <> Some (VBlob b).
Proof.
  split; [apply (rank_storable rank_key); [rank_values|by vm_compute]|].
  intros n b. unfold rank_key. by rewrite lookup_singleton_Some; intros [_ ?].
Qed.

(** A counter that reaches zero is cleared by a get and still has a column; a
    field that was never set has none; a delete passes the record out. *)
Definition rank_calls : list dbCall :=
  [CInsert rank_msg; CIncrease rank_key ["score"]; CGet rank_key []; CGet rank_key ["gold"];
   CIncrease rank_key ["score"; "gold"; "score"]; CUpdate rank_new ["name"]; CGet rank_key ["gold"; "score"]; CDelete rank_key 3;
   CGet rank_key []].

Lemma rank_calls_ok : Forall (call_ok rank_desc) rank_calls.
Proof.
  assert (Hm : storable rank_desc rank_msg) by (apply rank_storable; [rank_values|by vm_compute]).
  assert (Hn : storable rank_desc rank_new) by (apply rank_storable; [rank_values|by vm_compute]).
  unfold rank_calls. repeat apply Forall_cons_2; [..|by constructor]; (split; [by vm_compute|]).
  - exact Hm.
  - by_decide.
  - exact rank_key_ok.
  - exact rank_key_ok.
  - by_decide.
  - exact Hn.
  - exact rank_key_ok.
  - intros _. exact rank_key_ok.
  - exact rank_key_ok.
Qed.

Definition rank_answers : list callRes :=
  [(true, rank_msg); (true, rank_key); (true, {[ "id" := VInt 5; "name" := VString "bob" ]}); (false, rank_key);
   (true, rank_key); (true, rank_new); (true, {[ "id" := VInt 5; "gold" := VInt 1; "score" := VInt 2 ]});
   (true, {[ "id" := VInt 5; "name" := VString "al"; "gold" := VInt 1; "score" := VInt 2 ]}); (false, rank_key)].

Lemma rank_empty : rows_repr rank_desc map_server ∅ ∅.
Proof.
  split; [apply rank_names|]. split; [cbn; lia|]. split; [done|]. split; [by rewrite fmap_empty|apply map_Forall_empty].
Qed.

Lemma redis_refines_rows_witness :
  exists st', run_calls (H := redis_simple rank_desc map_to_list map_server) rank_calls ∅ = Done (rank_answers, st').
Proof.
  destruct (redis_refines_rows rank_desc map_server map_to_list rank_calls ∅ ∅ (rank_answers, ∅)) as (st' & Hr & _).
  - intros m. apply Permutation_refl.
  - apply rank_calls_ok.
  - apply rank_empty.
  - vm_compute. reflexivity.
  - exists st'. exact Hr.
Defined.

Definition rich_row : row := {[ "id" := VInt 5; "gold" := VInt 2147483647 ]}.
Definition rich_store : store := cols rank_desc <$> ({[ "Rank:{5}" := rich_row ]} : table).

(** The id can still be read. *)
Lemma redis_increase_overflow_witness :
  exists st', Redis.SimpleIncrease rank_desc map_server rich_store rank_key ["gold"] = Done (None, st') /\
    panics (Redis.SimpleGet rank_desc map_server map_to_list st' rank_key []) /\
    panics (Redis.SimpleGet rank_desc map_server map_to_list st' rank_key ["id"; "gold"]) /\
    Redis.SimpleGet rank_desc map_server map_to_list st' rank_key ["id"] =
      Redis.SimpleGet rank_desc map_server map_to_list rich_store rank_key ["id"].
Proof.
  destruct (redis_increase_overflow rank_desc map_server map_to_list {[ "Rank:{5}" := rich_row ]} rich_store rank_key "Rank:{5}" "gold")
    as (st' & H1 & H2).
  - intros m. apply Permutation_refl.
  - split; [apply rank_names|]. split; [cbn; lia|]. split; [done|]. split; [done|]. apply map_Forall_singleton. split; [|done].
    apply storable_row, rank_storable; [rank_values|by vm_compute].
  - by vm_compute.
  - by vm_compute.
  - done.
  - by vm_compute.
  - assert (Hk : BuildKey rank_desc rank_key = Done "Rank:{5}") by (by vm_compute). exists st'. split; [exact H1|].
    split; [|split].
    + apply (H2 rank_key [] Hk). by left.
    + apply (H2 rank_key ["id"; "gold"] Hk). right. split; [by_decide|].
      apply Forall_cons_2; [right|apply Forall_cons_2; [by left|by apply Forall_nil]]. vm_compute. by eexists.
    + apply (H2 rank_key ["id"] Hk); [done|by_decide].
Defined.

(** Three clients with their commands mixed: one names the score twice, and one
    asks for a field that is no counter, so that its score is not counted. *)
Definition rank_incrs : list (Message * list string) :=
  [(rank_key, ["score"; "gold"; "score"]); ({[ "id" := VInt 6 ]}, ["score"]); (rank_key, ["score"; "name"])].

Lemma redis_increments_add_up_witness :
  column_int map_server (run_incrs map_server
    [MkIncr "Rank:{5}" "score" 1; MkIncr "Rank:{6}" "score" 1; MkIncr "Rank:{5}" "gold" 1; MkIncr "Rank:{5}" "score" 1]
    {[ "Rank:{5}" := {[ "score" := "-7" ]} ]}) "Rank:{5}" "score" = Some (-5).
Proof.
  destruct (redis_increments_add_up rank_desc map_server rank_incrs
    [MkIncr "Rank:{5}" "score" 1; MkIncr "Rank:{6}" "score" 1; MkIncr "Rank:{5}" "gold" 1; MkIncr "Rank:{5}" "score" 1]
    {[ "Rank:{5}" := {[ "score" := "-7" ]} ]} "Rank:{5}" "score" (-7)) as [_ Hn].
  - apply rank_names.
  - intros c Hc. unfold rank_incrs in Hc. repeat (apply elem_of_cons in Hc as [->|Hc]; [by vm_compute|]). by apply not_elem_of_nil in Hc.
  - done.
  - change (concat (sent rank_desc <$> rank_incrs)) with
      [MkIncr "Rank:{5}" "score" 1; MkIncr "Rank:{5}" "gold" 1; MkIncr "Rank:{5}" "score" 1; MkIncr "Rank:{6}" "score" 1].
    apply Permutation_skip. eapply perm_trans; [apply perm_swap|]. apply Permutation_skip, perm_swap.
  - by vm_compute.
  - by vm_compute.
  - rewrite Hn. by vm_compute.
Defined.
