(* ===== verification/Database.v ===== *)
(** * plugin/db: databases as their clients hold them

    The interface IDatabase of db.go with its requests and results, and its two
    implementations: a handle, opened from a configuration, with the server
    behind it.  Calls on a handle that was never opened panic when they reach
    its nil client.  A handle that the plugin factory makes is open, so that
    what is proved of the calls holds of the database a program gets from the
    plugin registry. *)

From S2P Require Import Prelude GoStrings Plugin PbSupport Redis Mysql Db DbMysql DbFields.

(** ** The interfaces of db.go *)

(** [Any] is what an [interface{}] holds.  Nothing implements the requests and
    results: they are the values their methods make. *)
Inductive IDBRequest (Any : Type) := MkIDBRequest {
  Table : string -> IDBRequest Any;
  Model : Any -> IDBRequest Any;
  Limit : Z -> IDBRequest Any;
  Offset : Z -> IDBRequest Any;
  Keys : list string -> IDBRequest Any;
  Fields : list string -> IDBRequest Any;
  Option : string -> Any -> IDBRequest Any;
  DBVersion : Z -> IDBRequest Any;
  ResultFlag : Z -> IDBRequest Any
}.

(** [FetchData] fills the model it is given. *)
Record IDBResult (Any : Type) := MkIDBResult {
  ResultCode : Z;
  FetchData : Any -> outcome (Z * Z * option error * Any);
  RecordCount : Z;
  MatchCount : Z
}.

Record RecordResultTable := MkRecordResultTable { code : Z; Records : list Message }.

(** A database over its state; [Config] is the dynamic type Open expects, and
    [ExecAsync] gives the calls of the callback. *)
Class IDatabase (Any Config DB : Type) := {
  db_simple :: IDBSimpleExecutor DB;
  db_async :: IDBAsyncExecutor DB;
  Open : option Config -> DB -> option error * DB;
  NewRequest : DB -> option (IDBRequest Any);
  OnTick : DB -> DB;
  Exec : DB -> list Any -> result error (IDBResult Any);
  ExecAsync : DB -> list Any -> list (result error (IDBResult Any))
}.

(** ** Redis *)

(** The handle, and the state of the server its client talks to. *)
Record redisDB (St : Type) := MkRedisDB { redis_handle : Redis.DB; redis_server : St }.
Arguments MkRedisDB {St} _ _.
Arguments redis_handle {St} _.
Arguments redis_server {St} _.

Section RedisDatabase.
Context `{ProtoRuntime} (d : MessageDescriptor) (order : gmap string string -> list (string * string)).
Context {St : Type} (cl : redisClient St) (newClient : Options -> bool).

Abbreviation nil_client := (Panic "invalid memory address or nil pointer dereference").

(** The state after a call of the package on the server. *)
Definition on_server {A} (t : redisDB St) (res : outcome (A * St)) : outcome (A * redisDB St) :=
  '(a, r) ← res; Done (a, MkRedisDB (redis_handle t) r).

(** With a nil client a call ends where it first uses it: after the columns of
    the record were made, or the fields to increase were looked at. *)
Definition redis_db_simple : IDBSimpleExecutor (redisDB St) := {|
  SimpleGet t m fields :=
    match client (redis_handle t) with
    | Some _ => Redis.SimpleGet d cl order (redis_server t) m fields
    | None => k ← BuildKey d m; nil_client
    end;
  SimpleBatchGet _ ms := Redis.SimpleBatchGet ms;
  SimpleUpdate t m fields :=
    match client (redis_handle t) with
    | Some _ => on_server t (Redis.SimpleUpdate d cl order (redis_server t) m fields)
    | None => mm ← MarshalToMap d m fields;
              match mm with Err _ => Done (Some "marshal map failed", t) | Ok _ => nil_client end
    end;
  SimpleInsert t m :=
    match client (redis_handle t) with
    | Some _ => on_server t (Redis.SimpleInsert d cl order (redis_server t) m)
    | None => mm ← MarshalToMap d m [];
              match mm with Err _ => Done (Some "marshal map failed", t) | Ok _ => nil_client end
    end;
  SimpleReplace t m :=
    match client (redis_handle t) with
    | Some _ => on_server t (Redis.SimpleReplace d cl (redis_server t) m)
    | None => mm ← MarshalToMap d m [];
              match mm with Err _ => Done (Some "marshal map failed", t) | Ok _ => nil_client end
    end;
  SimpleDelete t m flag :=
    match client (redis_handle t) with
    | Some _ => on_server t (Redis.SimpleDelete d cl order (redis_server t) m flag)
    | None => k ← BuildKey d m; nil_client
    end;
  SimpleIncrease t m fields :=
    match client (redis_handle t) with
    | Some _ => on_server t (Redis.SimpleIncrease d cl (redis_server t) m fields)
    | None => if negb (IncreaseAble (Redis.newMeta d) fields)
              then Done (Some ("cannot increase fields=" +:+ Join fields ","), t) else nil_client
    end
|}.

Definition redis_database {Any} : IDatabase Any Redis.dbCfg (redisDB St) := {|
  db_simple := redis_db_simple;
  db_async := redis_async;
  Open config t := let '(e, h) := Redis.Open newClient config (redis_handle t) in (e, MkRedisDB h (redis_server t));
  NewRequest t := Redis.NewRequest (redis_handle t);
  OnTick t := MkRedisDB (Redis.OnTick (redis_handle t)) (redis_server t);
  Exec t _ := Redis.Exec (redis_handle t);
  ExecAsync t _ := Redis.ExecAsync (redis_handle t)
|}.
End RedisDatabase.

(** ** MySQL *)

Record mysqlDB (St : Type) := MkMysqlDB { mysql_handle : Mysql.DB; mysql_server : St }.
Arguments MkMysqlDB {St} _ _.
Arguments mysql_handle {St} _.
Arguments mysql_server {St} _.

Section MysqlDatabase.
Context `{ProtoRuntime} (d : MessageDescriptor) (order : gmap string string -> list (string * string)).
Context {St : Type} (sv : Mysql.server St) (open ping : string -> option error).

Definition on_mysql {A} (t : mysqlDB St) (res : outcome (A * St)) : outcome (A * mysqlDB St) :=
  '(a, st) ← res; Done (a, MkMysqlDB (mysql_handle t) st).

(** With a nil handle a statement is built and never run. *)
Definition nil_sql {A B} (pkg : outcome A) : outcome B :=
  _ ← pkg; Panic "invalid memory address or nil pointer dereference".

(** The same for an operation that builds it from the columns of the record, or
    has none to build. *)
Definition nil_write (t : mysqlDB St) (m : Message) (fields : list string)
    (build : gmap string string -> outcome (option sqlPkg)) : outcome (option error * mysqlDB St) :=
  mm ← MarshalToMap d m fields;
  match mm with
  | Err _ => Done (Some "marshal map failed", t)
  | Ok cs =>
      p ← build cs;
      match p with
      | None => Done (Some ("build sql fullname:" +:+ mdFullName d), t)
      | Some _ => Panic "invalid memory address or nil pointer dereference"
      end
  end.

Definition mysql_db_simple : IDBSimpleExecutor (mysqlDB St) := {|
  SimpleGet t m fields :=
    match sql (mysql_handle t) with
    | Some _ => Mysql.SimpleGet d sv order (mysql_server t) m fields
    | None => nil_sql (SelectFieldsPkg d m fields)
    end;
  SimpleBatchGet _ ms := Mysql.SimpleBatchGet ms;
  SimpleUpdate t m fields :=
    match sql (mysql_handle t) with
    | Some _ => on_mysql t (Mysql.SimpleUpdate d sv order (mysql_server t) m fields)
    | None => nil_write t m fields (fun cs => UpdatePkg d m (order cs))
    end;
  SimpleInsert t m :=
    match sql (mysql_handle t) with
    | Some _ => on_mysql t (Mysql.SimpleInsert d sv order (mysql_server t) m)
    | None => nil_write t m [] (fun cs => Done (InsertPkg d (order cs)))
    end;
  SimpleReplace t m :=
    match sql (mysql_handle t) with
    | Some _ => on_mysql t (Mysql.SimpleReplace d sv order (mysql_server t) m)
    | None => mm ← MarshalToMap d m [];
              match mm with
              | Err _ => Done (Some "marshal map failed", t)
              | Ok _ => Panic "invalid memory address or nil pointer dereference"
              end
    end;
  SimpleDelete t m flag :=
    match sql (mysql_handle t) with
    | Some _ => on_mysql t (Mysql.SimpleDelete d sv order (mysql_server t) m flag)
    | None => nil_sql (DeleteSQLPkg d m)
    end;
  SimpleIncrease t m fields :=
    match sql (mysql_handle t) with
    | Some _ => on_mysql t (Mysql.SimpleIncrease d sv (mysql_server t) m fields)
    | None =>
        p ← IncreasePkg d m fields;
        match p with
        | None => Done (Some ("increase sql build fullname:" +:+ mdFullName d), t)
        | Some _ => Panic "invalid memory address or nil pointer dereference"
        end
    end
|}.

Definition mysql_database {Any} : IDatabase Any Mysql.dbCfg (mysqlDB St) := {|
  db_simple := mysql_db_simple;
  db_async := mysql_async;
  Open config t := let '(e, h) := Mysql.Open open ping config (mysql_handle t) in (e, MkMysqlDB h (mysql_server t));
  NewRequest t := Mysql.NewRequest (mysql_handle t);
  OnTick t := MkMysqlDB (Mysql.OnTick (mysql_handle t)) (mysql_server t);
  Exec t _ := Mysql.Exec (mysql_handle t);
  ExecAsync t _ := Mysql.ExecAsync (mysql_handle t)
|}.
End MysqlDatabase.

(** ** Open databases *)

(** A database that the factory of the Redis plugin makes has a client. *)
Lemma redis_setup_open {C} newClient (Unmarshal : C -> result error Redis.dbCfg) v h :
  Setup (Redis.factory newClient id Unmarshal) v = Done (Ok h) -> is_Some (client h).
Proof.
  cbn. destruct v as [section|]; [|done]. destruct (Unmarshal section) as [cfg|e]; [|done].
  unfold Redis.DBOpen, Redis.Open. destruct (cfgPoolSize cfg =? 0); [done|].
  destruct (newClient _); [|done]. intros [= <-]. by eexists.
Qed.

Lemma mysql_setup_open {C} open ping (Unmarshal : C -> result error Mysql.dbCfg) v h :
  Setup (Mysql.factory open ping id Unmarshal) v = Done (Ok h) -> is_Some (sql h).
Proof.
  cbn. destruct v as [section|]; [|done]. destruct (Unmarshal section) as [cfg|e]; [|done].
  unfold Mysql.DBOpen, Mysql.Open. destruct (open _); [done|]. destruct (ping _); [done|]. intros [= <-]. by eexists.
Qed.

Section Opened.
Context `{ProtoRuntime} (d : MessageDescriptor) (order : gmap string string -> list (string * string)).
Context {St : Type} (cl : redisClient St).

(** Calls on an open database are those of the package on its server. *)
Lemma redis_opened_call c h st : is_Some (client h) ->
  run_call (H := redis_db_simple d order cl) c (MkRedisDB h st) =
  ('(a, st) ← run_call (H := redis_simple d order cl) c st; Done (a, MkRedisDB h st)).
Proof.
  intros [o Ho]. destruct c; cbn [run_call SimpleGet SimpleUpdate SimpleInsert SimpleReplace SimpleDelete SimpleIncrease
    redis_db_simple redis_simple redis_handle redis_server]; rewrite Ho; unfold on_server; cbn [redis_handle].
  - by destruct (Redis.SimpleInsert d cl order st m) as [[? ?]| |].
  - by destruct (Redis.SimpleUpdate d cl order st m fields) as [[? ?]| |].
  - by destruct (Redis.SimpleReplace d cl st m) as [[? ?]| |].
  - by destruct (Redis.SimpleDelete d cl order st m resultFlag) as [[[? ?] ?]| |].
  - by destruct (Redis.SimpleGet d cl order st m fields) as [[? ?]| |].
  - by destruct (Redis.SimpleIncrease d cl st m fields) as [[? ?]| |].
Qed.

Lemma redis_opened_calls cs h : is_Some (client h) -> forall st,
  run_calls (H := redis_db_simple d order cl) cs (MkRedisDB h st) =
  ('(a, st) ← run_calls (H := redis_simple d order cl) cs st; Done (a, MkRedisDB h st)).
Proof.
  intros Ho. induction cs as [|c cs IH]; intros st; [done|]. cbn [run_calls]. rewrite redis_opened_call by done.
  destruct (run_call c st) as [[a st1]| |]; [|done|done]. rewrite !bind_Done, IH.
  by destruct (run_calls cs st1) as [[? ?]| |].
Qed.
End Opened.

Section OpenedMysql.
Context `{ProtoRuntime} (d : MessageDescriptor) (order : gmap string string -> list (string * string)).
Context {St : Type} (sv : Mysql.server St).

Lemma mysql_opened_op o h st : is_Some (sql h) ->
  run_op (H := mysql_db_simple d order sv) o (MkMysqlDB h st) =
  ('(a, st) ← run_op (H := mysql_simple d order sv) o st; Done (a, MkMysqlDB h st)).
Proof.
  intros [q Hq]. destruct o; cbn [run_op SimpleGet SimpleUpdate SimpleInsert SimpleReplace SimpleDelete
    mysql_db_simple mysql_simple mysql_handle mysql_server]; rewrite Hq; unfold on_mysql; cbn [mysql_handle].
  - by destruct (Mysql.SimpleInsert d sv order st m) as [[? ?]| |].
  - by destruct (Mysql.SimpleUpdate d sv order st m []) as [[? ?]| |].
  - by destruct (Mysql.SimpleReplace d sv order st m) as [[? ?]| |].
  - by destruct (Mysql.SimpleDelete d sv order st m 0) as [[[? ?] ?]| |].
  - by destruct (Mysql.SimpleGet d sv order st m []) as [[? ?]| |].
Qed.

Lemma mysql_opened_all os h : is_Some (sql h) -> forall st,
  run_all (H := mysql_db_simple d order sv) os (MkMysqlDB h st) =
  ('(a, st) ← run_all (H := mysql_simple d order sv) os st; Done (a, MkMysqlDB h st)).
Proof.
  intros Hq. induction os as [|o os IH]; intros st; [done|]. cbn [run_all]. rewrite mysql_opened_op by done.
  destruct (run_op o st) as [[a st1]| |]; [|done|done]. rewrite !bind_Done, IH.
  by destruct (run_all os st1) as [[? ?]| |].
Qed.
End OpenedMysql.


#[local] Existing Instance toy_runtime.
#[local] Existing Instance toy_runtime_laws.

Definition rank_handle : Redis.DB :=
  Redis.MkDB (Some (Redis.MkOptions "h:6379" "pw" 0 0 0 30000000000 60000000000 (-1) 8 100000000)).


(** The same for MySQL, over any server that behaves as MySQL documents. *)
Theorem mysql_plugin_serves {Any C} `{RuntimeLaws} (d : MessageDescriptor) (kc : string) {St : Type} (sv : Mysql.server St)
    `{M : !MySQL d kc sv} (order : gmap string string -> list (string * string)) (open ping : string -> option error)
    (Unmarshal : C -> result error Mysql.dbCfg) (section : C) (ins : Mysql.DB) (os : list dbOp) (T : table) (st : St) :
  Setup (Mysql.factory open ping id Unmarshal) (Some section) = Done (Ok ins) ->
  (forall m, ranges m (order m)) -> readable d -> int_key d kc ->
  Forall (mysql_ok d kc sv) os -> mysql_repr d kc sv T st ->
  exists st', run_all (H := db_simple (IDatabase := mysql_database d order sv open ping (Any := Any))) os (MkMysqlDB ins st)
      = Done ((table_all mysql_op (mysql_key kc) os T).1, MkMysqlDB ins st') /\
    mysql_repr d kc sv (table_all mysql_op (mysql_key kc) os T).2 st'.
Proof.
  intros Hset Hord Hd Hkc Hos HT. apply mysql_setup_open in Hset.
  destruct (run_all_table (H0 := mysql_contract d kc sv order Hord Hd Hkc) os Hos T st HT) as (st' & Hr & HT').
  exists st'. split; [|done]. cbn [db_simple mysql_database]. rewrite (mysql_opened_all d order sv os ins Hset st).
  unfold mysql_here in Hr. by rewrite Hr.
Qed.

(** The databases differ on an increment of a record that is not there: Redis
    makes a record of that one column, and MySQL, whose count of changed rows is
    not looked at, reports success and does nothing. *)
Theorem increase_missing_record `{ProtoRuntime} (d : MessageDescriptor) {Sr : Type} (cl : redisClient Sr) `{R : !RedisServer cl}
    (r : Sr) (m : Message) (k f : string) {St : Type} (sv : Mysql.server St) (st st' : St) (pkg : sqlPkg) :
  up r -> hashes r !! k = None -> BuildKey d m = Done k -> IncreaseAble (Redis.newMeta d) [f] = true ->
  IncreasePkg d m [f] = Done (Some pkg) -> exec sv pkg st = (Ok 0, st') ->
  (exists r', Redis.SimpleIncrease d cl r m [f] = Done (None, r') /\ hashes r' = <[k := {[ f := "1" ]}]> (hashes r)) /\
  Mysql.SimpleIncrease d sv st m [f] = Done (None, st').
Proof.
  intros Hup Hr Hk Hi Hp He. split.
  - unfold Redis.SimpleIncrease. rewrite Hi, Hk. cbn [negb]. rewrite bind_Done. pose proof (redis_hincrby r k f 1 Hup) as Hx.
    cbv zeta in Hx. rewrite Hr in Hx. cbn [default from_option id] in Hx. rewrite lookup_empty in Hx. unfold answers in Hx.
    destruct (HIncrBy cl k f 1 r) as [ret r']. destruct Hx as (Hret & _ & Hh). cbn [fst snd] in *. subst ret. by exists r'.
  - unfold Mysql.SimpleIncrease. rewrite Hp, bind_Done. unfold exec_err. by rewrite He.
Qed.
