(* ===== verification/Event.v ===== *)
(** * server_base/event: topics and subscribers

    The registry of topics and the delivery of an event.  A subscriber's
    callback is represented by what it does with the channel it is given, and
    after how long; a delivery is then determined by these times and the
    topic's timeout.  Times are in nanoseconds. *)

From S2P Require Import Prelude.

Definition _maxTopicSubscriberNum : Z := 1024.
Definition _maxTopicTimeout : Z := 10 ^ 9.

(** What a callback does with its channel: signal that it is done, close it, or
    nothing. *)
Inductive callback := CSignal (after : Z) | CClose (after : Z) | CSilent.

Record Subscriber := MkSubscriber { sname : string; scallback : callback }.

Record Topic := MkTopic { timeout : Z; subscribers : list Subscriber }.

Definition Publisher : Type := gmap string Topic.

Definition NewTopic (name : string) (timeout : Z) (p : gmap string Topic) : option error * gmap string Topic :=
  match p !! name with
  | Some _ => (Some ("topic " +:+ name +:+ " has already exist"), p)
  | None => if timeout >? _maxTopicTimeout
            then (Some ("topic " +:+ name +:+ " time is too max"), p)
            else (None, <[name := MkTopic timeout []]> p)
  end.

Definition RegisterSubscriber (name : string) (sub : Subscriber) (p : gmap string Topic)
  : option error * gmap string Topic :=
  match p !! name with
  | None => (Some ("topic " +:+ name +:+ " not create"), p)
  | Some topic =>
      if Z.of_nat (length (subscribers topic)) >=? _maxTopicSubscriberNum
      then (Some ("topic " +:+ name +:+ " subscriber too many"), p)
      else if existsb (fun s => String.eqb (sname s) (sname sub)) (subscribers topic)
           then (Some ("subscriber " +:+ sname sub +:+ " has already subscriber topic " +:+ name), p)
           else (None, <[name := MkTopic (timeout topic) (subscribers topic ++ [sub])]> p)
  end.

(** [SendTopic]: how long it takes.  On return the channel is closed: a callback
    that signals or closes later panics, and so does the close itself if the
    callback already closed the channel.  A signal at the very moment of the
    timeout may lose. *)
Definition SendTopic (sub : Subscriber) (topic : Topic) : outcome Z :=
  if timeout topic >? 0 then
    match scallback sub with
    | CSignal t => if t <? timeout topic then Done t else Panic "send on closed channel"
    | CClose t => Panic "close of closed channel"
    | CSilent => Done (timeout topic)
    end
  else
    match scallback sub with
    | CSignal _ => Panic "send on closed channel"
    | CClose _ => Panic "close of closed channel"
    | CSilent => Done 0
    end.

(** The deliveries run in parallel: [Publish] takes as long as the longest. *)
Fixpoint deliverAll (subs : list Subscriber) (topic : Topic) : outcome Z :=
  match subs with
  | [] => Done 0
  | s :: subs => t ← SendTopic s topic; t' ← deliverAll subs topic; Done (Z.max t t')
  end.

Definition Publish (name : string) (p : gmap string Topic) : outcome (option error * Z) :=
  match p !! name with
  | None => Done (Some ("topic " +:+ name +:+ " not create"), 0)
  | Some topic => t ← deliverAll (subscribers topic) topic; Done (None, t)
  end.

(** ** Proofs *)

Inductive ecall := ENew (name : string) (timeout : Z) | ERegister (name : string) (sub : Subscriber).

Definition estep (p : gmap string Topic) (c : ecall) : gmap string Topic :=
  match c with
  | ENew n t => (NewTopic n t p).2
  | ERegister n s => (RegisterSubscriber n s p).2
  end.

Definition topic_ok (t : Topic) : Prop :=
  timeout t <= _maxTopicTimeout /\ NoDup (sname <$> subscribers t) /\
  Z.of_nat (length (subscribers t)) <= _maxTopicSubscriberNum.

Definition topics_ok (p : gmap string Topic) : Prop := forall n t, p !! n = Some t -> topic_ok t.

Lemma estep_ok p c : topics_ok p -> topics_ok (estep p c).
Proof.
  intros Hp. destruct c as [n t|n s]; cbn.
  - unfold NewTopic. destruct (p !! n); [done|].
    rewrite Z.gtb_ltb. destruct (Z.ltb_spec _maxTopicTimeout t); [done|]. cbn.
    intros n' t'. rewrite lookup_insert_Some. intros [[_ <-]|[_ Hn]]; [|by eapply Hp].
    split; [done|]. split; [constructor|]. unfold _maxTopicSubscriberNum. cbn. lia.
  - unfold RegisterSubscriber. destruct (p !! n) as [topic|] eqn:Hn; [|done].
    destruct (Hp n topic Hn) as (Ht & Hnd & Hl).
    rewrite Z.geb_leb. destruct (Z.leb_spec _maxTopicSubscriberNum (Z.of_nat (length (subscribers topic)))); [done|].
    destruct (existsb _ _) eqn:Hex; [done|]. cbn.
    intros n' t'. rewrite lookup_insert_Some. intros [[_ <-]|[_ Hn']]; [|by eapply Hp].
    split; [done|]. cbn [subscribers]. split; [|rewrite length_app; cbn; lia].
    rewrite fmap_app. apply NoDup_app. split; [done|]. split; [|by apply NoDup_singleton].
    intros x Hx ->%list_elem_of_singleton. apply list_elem_of_fmap in Hx as (s' & E & Hs').
    assert (existsb (fun s0 => String.eqb (sname s0) (sname s)) (subscribers topic) = true) as Hc; [|congruence].
    apply existsb_exists. exists s'. split; [by apply list_elem_of_In|]. by apply String.eqb_eq.
Qed.

Lemma run_ok calls : forall p, topics_ok p -> topics_ok (foldl estep p calls).
Proof. induction calls as [|c calls IH]; intros p Hp; [done|]. cbn. by apply IH, estep_ok. Qed.

(** A callback that is done in time or never touches its channel. *)
Definition in_time (topic : Topic) (s : Subscriber) : Prop :=
  match scallback s with
  | CSignal t => 0 <= t < timeout topic
  | CClose _ => False
  | CSilent => True
  end.

Lemma deliverAll_in_time topic subs : Forall (in_time topic) subs ->
  exists t, deliverAll subs topic = Done t /\ 0 <= t <= Z.max 0 (timeout topic).
Proof.
  induction 1 as [|s subs Hs _ IH]; [exists 0; cbn; split; [done|lia]|].
  destruct IH as (t & Ht & Hle). cbn [deliverAll]. unfold SendTopic. unfold in_time in Hs.
  rewrite Z.gtb_ltb. destruct (Z.ltb_spec 0 (timeout topic)); destruct (scallback s) as [a|a|]; try lia.
  - destruct (Z.ltb_spec a (timeout topic)); [|lia]. go_run. rewrite Ht. go_run. eexists. split; [done|lia].
  - go_run. rewrite Ht. go_run. eexists. split; [done|lia].
  - go_run. rewrite Ht. go_run. eexists. split; [done|lia].
Qed.

Lemma deliverAll_late topic subs s : s ∈ subs -> panics (SendTopic s topic) ->
  panics (deliverAll subs topic).
Proof.
  intros Hin [w Hw]. induction subs as [|s' subs IH]; [by apply not_elem_of_nil in Hin|]. cbn [deliverAll].
  apply elem_of_cons in Hin as [<-|Hin]; [rewrite Hw; by eexists|].
  destruct (IH Hin) as [w' Hw']. destruct (SendTopic s' topic) as [t|w2|] eqn:E; [|by eexists|].
  - go_run. rewrite Hw'. by eexists.
  - exfalso. unfold SendTopic in E. repeat case_match; done.
Qed.

(** Publishing is bounded.  After any sequence of topic creations and
    subscriptions (refused ones included), every topic has at most 1024
    subscribers with distinct names and a timeout of at most one second, and a
    [Publish] whose callbacks signal in time, or leave their channel alone,
    delivers to all and returns within that second. *)
Theorem event_publish_bounded (calls : list ecall) (name : string) (topic : Topic) :
  let p := foldl estep ∅ calls in
  p !! name = Some topic -> Forall (in_time topic) (subscribers topic) ->
  topic_ok topic /\ exists t, Publish name p = Done (None, t) /\ 0 <= t <= _maxTopicTimeout.
Proof.
  intros p Hn HF. assert (Hok : topics_ok p).
  { apply run_ok. intros n t Ht. by rewrite lookup_empty in Ht. }
  destruct (Hok name topic Hn) as (Ht & Hnd & Hl). split; [done|].
  destruct (deliverAll_in_time topic (subscribers topic) HF) as (t & Hd & Hle).
  exists t. unfold Publish. rewrite Hn, Hd. split; [done|]. unfold _maxTopicTimeout in *. lia.
Qed.

Lemma event_publish_bounded_witness :
  exists t, Publish "login" (foldl estep ∅ [ENew "login" 500; ERegister "login" (MkSubscriber "a" (CSignal 20));
                                          ERegister "login" (MkSubscriber "a" CSilent)]) = Done (None, t) /\
    0 <= t <= _maxTopicTimeout.
Proof.
  apply (event_publish_bounded [ENew "login" 500; ERegister "login" (MkSubscriber "a" (CSignal 20));
     ERegister "login" (MkSubscriber "a" CSilent)] "login" (MkTopic 500 [MkSubscriber "a" (CSignal 20)])).
  - vm_compute. reflexivity.
  - constructor; [cbn; lia|constructor].
Defined.

(** A late subscriber crashes the publisher's process: if any callback
    signals after the topic's timeout has passed (always, for a topic without a
    positive timeout), it sends on the channel [SendTopic] has closed. *)
Theorem event_late_callback_panics (p : gmap string Topic) (name : string) (topic : Topic) (s : Subscriber) (t : Z) :
  p !! name = Some topic -> s ∈ subscribers topic -> scallback s = CSignal t -> timeout topic <= t \/ timeout topic <= 0 ->
  panics (Publish name p).
Proof.
  intros Hn Hin Hs Hlate. unfold Publish. rewrite Hn.
  destruct (deliverAll_late topic (subscribers topic) s Hin) as [w ->]; [|by eexists].
  unfold SendTopic. rewrite Hs, Z.gtb_ltb. destruct (Z.ltb_spec 0 (timeout topic)); [|by eexists].
  destruct (Z.ltb_spec t (timeout topic)); [lia|by eexists].
Qed.

Lemma event_late_callback_panics_witness :
  panics (Publish "login" {[ "login" := MkTopic 500 [MkSubscriber "a" (CSignal 501)] ]}).
Proof.
  apply (event_late_callback_panics _ "login" (MkTopic 500 [MkSubscriber "a" (CSignal 501)])
    (MkSubscriber "a" (CSignal 501)) 501); [reflexivity|left|reflexivity|left; cbn; lia].
Defined.
