(* ===== verification/Res.v ===== *)
(** * server_data/res: static resource tables

    Tables of messages by key, the loader that builds them from files of
    serialised blocks (xres), and the manager that swaps them in.  Reading a
    file and unmarshalling are parameters; a message is given by the parameter
    type [Item] and [key_of], the field the table is keyed by (read by
    reflection, so a missing field is an error, a field that is no signed
    integer a panic, and the value is truncated to 32 bits).  The post function
    of a table is any function that acts on the table it is given. *)

From S2P Require Import Prelude.

Section Res.
Context {Item : Type}.

Record ResTable := MkResTable { items : gmap Z Item; hashCode : string }.

Definition NewResTable : ResTable := MkResTable ∅ "".

Definition Insert (key : Z) (item : Item) (t : ResTable) : ResTable :=
  MkResTable (<[key := item]> (items t)) (hashCode t).
Definition Find (key : Z) (t : ResTable) : option Item := items t !! key.
Definition Count (t : ResTable) : Z := Z.of_nat (size (items t)).
Definition HashCode (t : ResTable) : string := hashCode t.

(** [f] acts on a state of its own; [order] is the range over the items. *)
Definition ForEach {A} (order : gmap Z Item -> list (Z * Item)) (f : Item -> A -> A) (t : ResTable) (a : A) : A :=
  foldl (fun a kv => f kv.2 a) a (order (items t)).

(** The interface, and what its users may rely on: an insert is found and counted,
    and a range calls its function once per item. *)
Class Table (T : Type) := {
  tInsert : Z -> Item -> T -> T;
  tFind : Z -> T -> option Item;
  tForEach : forall {A}, (Item -> A -> A) -> T -> A -> A;
  tCount : T -> Z;
  tHashCode : T -> string
}.

Definition resTable (order : gmap Z Item -> list (Z * Item)) : Table ResTable := {|
  tInsert := Insert; tFind := Find; tForEach _ f t a := ForEach order f t a; tCount := Count; tHashCode := HashCode
|}.

Class TableLaws (T : Type) `{Table T} := {
  find_insert : forall k k' i (t : T), tFind k' (tInsert k i t) = if decide (k = k') then Some i else tFind k' t;
  each_once : forall (t : T), exists keys, NoDup keys /\ (forall k, k ∈ keys <-> is_Some (tFind k t)) /\
    Z.of_nat (length keys) = tCount t /\ omap (M := list) (fun k => tFind k t) keys = tForEach (fun i l => l ++ [i]) t []
}.

Lemma foldl_snoc_items (l : list (Z * Item)) : forall acc, foldl (fun a kv => a ++ [kv.2]) acc l = acc ++ l.*2.
Proof.
  induction l as [|kv l IH]; intros acc; cbn; [by rewrite app_nil_r|]. rewrite IH, <- app_assoc. done.
Qed.

#[local] Instance resTable_laws order : (forall m, ranges m (order m)) -> TableLaws ResTable (H := resTable order).
Proof.
  intros Hord. split.
  - intros k k' i t. cbn. unfold Find, Insert. cbn. case_decide as E; [by rewrite E, lookup_insert_eq|by rewrite lookup_insert_ne].
  - intros t. specialize (Hord (items t)). exists (order (items t)).*1. cbn. unfold Find, Count, ForEach.
    split; [by eapply ranges_NoDup|]. split.
    { intros k. rewrite list_elem_of_fmap. split.
      - intros ([k' i] & -> & Hx). apply (ranges_lookup _ _ _ _ Hord) in Hx. by eexists.
      - intros [i Hi]. exists (k, i). by rewrite (ranges_lookup _ _ _ _ Hord). }
    split; [rewrite length_fmap, (Permutation_length Hord); by rewrite length_map_to_list|].
    rewrite foldl_snoc_items. cbn. assert (Hall : forall k i, (k, i) ∈ order (items t) -> items t !! k = Some i).
    { intros k i. by apply ranges_lookup. }
    revert Hall. generalize (order (items t)) as l. intros l. induction l as [|[k i] l IH]; intros Hall; [done|].
    cbn [fmap list_fmap fst snd]. rewrite omap_cons_eq. rewrite (Hall k i) by left. f_equal. apply IH. intros k' i' Hx. apply Hall. by right.
Qed.

(** [Message] is nil or of a type; [PostFunc] is nil, or may change the table,
    panic or not return. *)
Record TableConfig := MkTableConfig {
  ID : Z;
  FileName : string;
  FieldName : string;
  MessageType : option string;
  PostFunc : option (Z -> ResTable -> outcome ResTable)
}.

Record Config := MkConfig { ResPath : string; Tables : list TableConfig }.

(** The environment of a load: the blocks of a file (reading and unmarshalling
    it), a block as a message of a type, and the fields of a type, with those
    of a signed integer type and their values. *)
Record env := MkEnv {
  readBlocks : string -> result error (list string);
  unmarshal : string -> string -> option Item;
  hasField : string -> string -> bool;
  intField : string -> string -> bool;
  key_of : string -> Item -> Z
}.

Section Loader.
Context (e : env).

(** [rv.Field(ft.Index[0]).Int()] *)
Definition field_Int (mt fieldName : string) (mc : Item) : outcome Z :=
  if intField e mt fieldName then Done (key_of e fieldName mc)
  else Panic "reflect: call of reflect.Value.Int on a Value of another kind".

Fixpoint loadBlocks (mt fieldName : string) (k : Z) (blocks : list string) (tbl : ResTable)
  : outcome (result error ResTable) :=
  match blocks with
  | [] => Done (Ok tbl)
  | v :: blocks =>
      match unmarshal e mt v with
      | None => Done (Err "unmarshal item")
      | Some mc => key ← field_Int mt fieldName mc; loadBlocks mt fieldName (k + 1) blocks (Insert (i32 key) mc tbl)
      end
  end.

Definition loadRes (fileName fieldName : string) (m : option string) : outcome (result error ResTable) :=
  match m with
  | None => Panic "invalid memory address or nil pointer dereference"
  | Some mt =>
      if negb (hasField e mt fieldName) then Done (Err ("invalide field: " +:+ fieldName)) else
      match readBlocks e fileName with
      | Err err => Done (Err err)
      | Ok blocks => loadBlocks mt fieldName 0 blocks NewResTable
      end
  end.

(** The table after the post function. *)
Definition post (cfg : TableConfig) (tbl : ResTable) : outcome ResTable :=
  match PostFunc cfg with None => Done tbl | Some f => f (ID cfg) tbl end.

Fixpoint reloadLoop (path : string) (cfgs : list TableConfig) (tmp : gmap Z ResTable)
  : outcome (result error (gmap Z ResTable)) :=
  match cfgs with
  | [] => Done (Ok tmp)
  | cfg :: cfgs =>
      r ← loadRes (path +:+ "/" +:+ FileName cfg) (FieldName cfg) (MessageType cfg);
      match r with
      | Err err => Done (Err ("load table " +:+ FileName cfg +:+ ": " +:+ err))
      | Ok tbl => tbl ← post cfg tbl; reloadLoop path cfgs (<[ID cfg := tbl]> tmp)
      end
  end.

Definition ReloadTables (config : Config) : outcome (result error (gmap Z ResTable)) :=
  reloadLoop (ResPath config) (Tables config) ∅.

Definition LoadTables (config : Config) : outcome (result error (gmap Z ResTable)) := ReloadTables config.
End Loader.

(** ** res_mgr.go *)

(** The loader ([None] before [SetLoader]) and the tables in use. *)
Record resMgr := MkResMgr { ld : option env; tables : gmap Z ResTable }.

Definition SetLoader (l : env) (m : resMgr) : resMgr := MkResMgr (Some l) (tables m).

(** A panic of the loader leaves the manager as it was. *)
Definition ReloadRes (config : Config) (m : resMgr) : outcome (option error * resMgr) :=
  match ld m with
  | None => Done (Some "loader is nil", m)
  | Some l =>
      r ← LoadTables l config;
      match r with
      | Err err => Done (Some err, m)
      | Ok tb => Done (None, MkResMgr (ld m) tb)
      end
  end.

Definition LoadRes (config : Config) (m : resMgr) : outcome (option error * resMgr) := ReloadRes config m.

Definition FindTable (tableID : Z) (m : resMgr) : option ResTable := tables m !! tableID.

Definition FindRes (tableID key : Z) (m : resMgr) : option Item :=
  match tables m !! tableID with
  | Some t => Find key t
  | None => None
  end.

(** ** Proofs *)

(** The item a list of blocks puts under a key: the last one. *)
Definition last_with (e : env) (mt fieldName : string) (key : Z) (blocks : list string) : option Item :=
  foldl (fun acc v => match unmarshal e mt v with
                      | Some mc => if decide (i32 (key_of e fieldName mc) = key) then Some mc else acc
                      | None => acc
                      end) None blocks.

Lemma loadBlocks_spec e mt f blocks : forall k tbl tbl', loadBlocks e mt f k blocks tbl = Done (Ok tbl') ->
  forall key, items tbl' !! key =
    foldl (fun acc v => match unmarshal e mt v with
                        | Some mc => if decide (i32 (key_of e f mc) = key) then Some mc else acc
                        | None => acc
                        end) (items tbl !! key) blocks.
Proof.
  induction blocks as [|v blocks IH]; intros k tbl tbl' Hl key; cbn [loadBlocks foldl] in *; [by simplify_eq|].
  destruct (unmarshal e mt v) as [mc|]; [|done]. unfold field_Int in Hl. destruct (intField e mt f); [|done].
  rewrite bind_Done in Hl. rewrite (IH _ _ _ Hl). f_equal. cbn.
  case_decide as Hd; [by rewrite Hd, lookup_insert_eq|by rewrite lookup_insert_ne].
Qed.

(** The key field is read only of blocks that there are. *)
Lemma loadBlocks_ends e mt f blocks : forall k tbl,
  match loadBlocks e mt f k blocks tbl with
  | Done _ => True
  | Panic _ => intField e mt f = false /\ blocks <> []
  | Hang => False
  end.
Proof.
  induction blocks as [|v blocks IH]; intros k tbl; cbn [loadBlocks]; [done|]. destruct (unmarshal e mt v) as [mc|]; [|done].
  unfold field_Int. destruct (intField e mt f) eqn:E; [|done]. rewrite bind_Done. specialize (IH (k + 1) (Insert (i32 (key_of e f mc)) mc tbl)).
  destruct (loadBlocks _ _ _ _ _ _); [done| |done]. by destruct IH.
Qed.

(** What a table of the configuration holds before its post function: under
    each key the last item of its file that has it. *)
Definition loaded (e : env) (path : string) (cfg : TableConfig) (tbl : ResTable) : Prop :=
  exists mt blocks, MessageType cfg = Some mt /\ hasField e mt (FieldName cfg) = true /\
    readBlocks e (path +:+ "/" +:+ FileName cfg) = Ok blocks /\
    forall key, Find key tbl = last_with e mt (FieldName cfg) key blocks.

(** A configured table that makes the load panic. *)
Definition unloadable (e : env) (path : string) (cfg : TableConfig) : Prop :=
  MessageType cfg = None \/
  (exists mt, MessageType cfg = Some mt /\ intField e mt (FieldName cfg) = false) \/
  (exists tbl, loaded e path cfg tbl /\ panics (post cfg tbl)).

Lemma loadRes_spec e path cfg :
  match loadRes e (path +:+ "/" +:+ FileName cfg) (FieldName cfg) (MessageType cfg) with
  | Done (Ok tbl) => loaded e path cfg tbl
  | Done (Err _) => True
  | Panic _ => unloadable e path cfg
  | Hang => False
  end.
Proof.
  unfold loadRes. destruct (MessageType cfg) as [mt|] eqn:Em; [|by left]. destruct (hasField e mt (FieldName cfg)) eqn:Eh; [|done]. cbn [negb].
  destruct (readBlocks e _) as [blocks|] eqn:Eb; [|done].
  pose proof (loadBlocks_ends e mt (FieldName cfg) blocks 0 NewResTable) as He.
  destruct (loadBlocks _ _ _ _ _ _) as [[tbl|err]|w|] eqn:El; [|done| |done].
  - exists mt, blocks. split_and!; [done..|]. intros key. unfold Find, last_with. by rewrite (loadBlocks_spec _ _ _ _ _ _ _ El key).
  - right. left. exists mt. by destruct He.
Qed.

Lemma reloadLoop_spec e path cfgs : NoDup (ID <$> cfgs) -> forall tmp,
  match reloadLoop e path cfgs tmp with
  | Done (Ok m) =>
      (forall cfg, cfg ∈ cfgs -> exists tbl tbl', loaded e path cfg tbl /\ post cfg tbl = Done tbl' /\ m !! ID cfg = Some tbl') /\
      (forall id, id ∉ (ID <$> cfgs) -> m !! id = tmp !! id)
  | Done (Err _) => True
  | Panic _ => exists cfg, cfg ∈ cfgs /\ unloadable e path cfg
  | Hang => exists cfg tbl, cfg ∈ cfgs /\ loaded e path cfg tbl /\ post cfg tbl = Hang
  end.
Proof.
  induction cfgs as [|cfg cfgs IH]; intros Hnd tmp; cbn [reloadLoop].
  { split; [by intros cfg ?%not_elem_of_nil|done]. }
  apply NoDup_cons in Hnd as [Hn Hnd]. pose proof (loadRes_spec e path cfg) as Hl.
  destruct (loadRes _ _ _ _) as [[tbl|err]|w|]; rewrite ?bind_Done; [|done| |done].
  2: { exists cfg. split; [left|done]. }
  destruct (post cfg tbl) as [tbl'|w|] eqn:Ep; rewrite ?bind_Done.
  - specialize (IH Hnd (<[ID cfg := tbl']> tmp)). destruct (reloadLoop _ _ _ _) as [[m|err]|w|]; [|done|..].
    + destruct IH as [H1 H2]. split.
      * intros cfg' [->|Hin]%elem_of_cons; [|by apply H1]. exists tbl, tbl'. split; [done|]. split; [done|].
        rewrite H2 by done. apply lookup_insert_eq.
      * intros id [Hne Hin]%not_elem_of_cons. rewrite H2 by done. by rewrite lookup_insert_ne.
    + destruct IH as (cfg' & Hin & Hu). exists cfg'. split; [by right|done].
    + destruct IH as (cfg' & tbl0 & Hin & Hu). exists cfg', tbl0. split; [by right|done].
  - exists cfg. split; [left|]. right. right. exists tbl. split; [done|]. rewrite Ep. by eexists.
  - exists cfg, tbl. split; [left|done].
Qed.
End Res.
Arguments ResTable : clear implicits.
Arguments TableConfig : clear implicits.
Arguments Config : clear implicits.
Arguments resMgr : clear implicits.
Arguments env : clear implicits.

(** C34. Reloading resources is all or nothing.  A reload that fails on any
    table leaves every table as it was; one that succeeds, with distinct table
    ids, installs for each configured table what its post function makes of the
    table that has, under each key, the last item of the file whose key field,
    truncated to 32 bits, is that key, and nothing for tables that are not
    configured.  A reload that panics does so on a configured table without
    message type, with a key field that is no signed integer, or whose post
    function panics, and only a post function can keep it from returning. *)
Theorem res_reload_atomic {Item : Type} (l : env Item) (m : resMgr Item) (config : Config Item) :
  ld m = Some l -> NoDup (ID <$> Tables config) ->
  match ReloadRes config m with
  | Done (Some _, m') => m' = m
  | Done (None, m') =>
      (forall cfg, cfg ∈ Tables config -> exists tbl tbl', loaded l (ResPath config) cfg tbl /\ post cfg tbl = Done tbl' /\
         FindTable (ID cfg) m' = Some tbl' /\ forall key, FindRes (ID cfg) key m' = Find key tbl') /\
      (forall id key, id ∉ (ID <$> Tables config) -> FindTable id m' = None /\ FindRes id key m' = None)
  | Panic _ => exists cfg, cfg ∈ Tables config /\ unloadable l (ResPath config) cfg
  | Hang => exists cfg tbl, cfg ∈ Tables config /\ loaded l (ResPath config) cfg tbl /\ post cfg tbl = Hang
  end.
Proof.
  intros Hl Hnd. unfold ReloadRes, LoadTables, ReloadTables. rewrite Hl.
  pose proof (reloadLoop_spec l (ResPath config) (Tables config) Hnd ∅) as Hr.
  destruct (reloadLoop _ _ _ _) as [[tb|err]|w|]; rewrite ?bind_Done; try done. destruct Hr as [H1 H2]. split.
  - intros cfg Hin. destruct (H1 cfg Hin) as (tbl & tbl' & Ht & Hp & Hm). exists tbl, tbl'. split; [done|]. split; [done|].
    split; [done|]. intros key. unfold FindRes. cbn [tables]. by rewrite Hm.
  - intros id key Hid. unfold FindTable, FindRes. cbn [tables]. by rewrite H2, lookup_empty.
Qed.

(** The post function puts the last item under key 100 too. *)
Definition demo_post (id : Z) (tbl : ResTable string) : outcome (ResTable string) :=
  Done (match Find 1 tbl with Some i => Insert 100 i tbl | None => tbl end).
Definition demo_table : TableConfig string := MkTableConfig 7 "item.bin" "Id" (Some "Item") (Some demo_post).
Definition demo_loader : env string :=
  MkEnv (fun _ => Ok ["1"; "2"]) (fun _ v => Some v) (fun _ _ => true) (fun _ _ => true) (fun _ v => Z.of_nat (String.length v)).

Lemma res_reload_atomic_witness :
  exists m', ReloadRes (MkConfig "res" [demo_table]) (MkResMgr (Some demo_loader) ∅) = Done (None, m') /\
    FindRes 7 1 m' = Some "2" /\ FindRes 7 100 m' = Some "2" /\ FindTable 8 m' = None.
Proof.
  pose proof (res_reload_atomic demo_loader (MkResMgr (Some demo_loader) ∅) (MkConfig "res" [demo_table])
    eq_refl ltac:(by_decide)) as Hr.
  destruct (ReloadRes _ _) as [[[err|] m']|w|] eqn:E; [vm_compute in E; discriminate| |vm_compute in E; discriminate|vm_compute in E; discriminate].
  exists m'. split; [reflexivity|]. destruct Hr as [Hr Ho]. destruct (Hr demo_table) as (tbl & tbl' & (mt & bl & Hmt & _ & Hb & Hf) & Hp & _ & Hk); [left|].
  destruct (Ho 8 0) as [H8 _]; [by_decide|]. cbn [ID demo_table] in Hk. rewrite !Hk.
  vm_compute in Hb. injection Hb as <-. vm_compute in Hmt. injection Hmt as <-.
  cbn [post PostFunc demo_table] in Hp. unfold demo_post in Hp. rewrite (Hf 1) in Hp. injection Hp as <-.
  unfold Find, Insert. cbn [items]. split; [rewrite lookup_insert_ne by done; exact (Hf 1)|]. split; [apply lookup_insert_eq|exact H8].
Defined.
