(* ===== verification/Bingo.v ===== *)
(** * plugin/log/bingologger: the log plugin that writes rotating files

    The disk is a map from paths to inodes, so that an open file follows its
    inode when its path is renamed or removed; directories are not kept.  What
    the system does during a call, its time, zone, failures and the caller's
    position, is the argument [x] of the call.  Log lines the logger writes
    about itself are left out. *)

From S2P Require Import Prelude GoStrings GoTime Log.

(** ** The disk *)

Record inode := MkInode { idata : string; ctim : Time }.
Record FS := MkFS { names : gmap string nat; inodes : gmap nat inode; nextIno : nat }.

(** Failures of the system during a call; [writeFault (n, e)]: only [n] bytes
    are written. *)
Record faults := MkFaults {
  statFault : string -> option error;
  mkdirFault : string -> option error;
  openFault : string -> option error;
  renameFault : string -> string -> option error;
  writeFault : option (nat * error)
}.
Definition noFaults : faults := MkFaults (fun _ => None) (fun _ => None) (fun _ => None) (fun _ _ => None) None.

Record bctx := MkBctx {
  zone : Z;
  atOutput : Time;   (* the times the clock is looked at: by Output, *)
  atUpdate : Time;   (* and three times by a write *)
  atOpen : Time;
  atWrite : Time;
  flt : faults;
  caller : option (string * Z);
  loopRuns : bool    (* the write loop is at its select *)
}.

Inductive statErr := ENotExist | EOther (e : error).

Definition Stat (x : bctx) (p : string) (fs : FS) : result statErr inode :=
  match statFault (flt x) p with
  | Some e => Err (EOther e)
  | None =>
      match names fs !! p with
      | None => Err ENotExist
      | Some i => match inodes fs !! i with Some n => Ok n | None => Err ENotExist end
      end
  end.

(** O_CREATE|O_APPEND|O_WRONLY *)
Definition OpenFile (x : bctx) (p : string) (fs : FS) : result error (nat * FS) :=
  match openFault (flt x) p with
  | Some e => Err e
  | None =>
      match names fs !! p with
      | Some i => Ok (i, fs)
      | None =>
          let i := nextIno fs in
          Ok (i, MkFS (<[p := i]> (names fs)) (<[i := MkInode "" (atOpen x)]> (inodes fs)) (S i))
      end
  end.

Definition fd_Write (x : bctx) (i : nat) (buf : string) (fs : FS) : Z * option error * FS :=
  let append b := MkFS (names fs)
    (alter (fun n => MkInode (idata n +:+ b) (atWrite x)) i (inodes fs)) (nextIno fs) in
  match writeFault (flt x) with
  | None => (Z.of_nat (String.length buf), None, append buf)
  | Some (n, e) =>
      let b := of_chars (take n (chars buf)) in (Z.of_nat (String.length b), Some e, append b)
  end.

Definition Rename (x : bctx) (p q : string) (fs : FS) : option error * FS :=
  match renameFault (flt x) p q with
  | Some e => (Some e, fs)
  | None =>
      match names fs !! p with
      | None => (Some "no such file or directory", fs)
      | Some i => (None, MkFS (<[q := i]> (delete p (names fs))) (inodes fs) (nextIno fs))
      end
  end.

(** ** Configuration *)

Record LogCfg := MkLogCfg {
  LogPath : string; LogLevel : Z; FileSplitMB : Z; IsAsync : bool; AsyncCacheSize : Z; AsyncWriteMillSec : Z
}.

Definition CheckCfgValid (cfg : LogCfg) : option error :=
  if (String.length (LogPath cfg) =? 0)%nat then Some "CheckCfgValid LogPath empty" else
  if LogLevel cfg <? 0 then Some "CheckCfgValid Level need >= 0" else
  if FileSplitMB cfg <=? 0 then Some "CheckCfgValid FileSplitMB need > 0" else
  if IsAsync cfg then
    if AsyncCacheSize cfg <=? 0 then Some "CheckCfgValid AsyncCacheSize need > 0" else
    if AsyncWriteMillSec cfg <=? 0 then Some "CheckCfgValid AsyncWriteMillSec need > 0" else None
  else None.

(** ** The logger *)

(** [fileFd] is the inode of the open file; [generation] counts files and
    stays below the width of an int; [bufChan] holds the
    buffers queued, at most [chanCap]. *)
Record BingoLogger := MkBingoLogger {
  level : Z;
  fileName : string;
  fileSplitMB : Z;
  isAsync : bool;
  asyncWriteMillSec : Z;
  logTime : Z;
  fileFd : option nat;
  fileCreateTime : Time;
  generation : Z;
  isInited : bool;
  bufChan : list string;
  chanCap : Z
}.

(** [&BingoLogger{}] *)
Definition zeroLogger : BingoLogger :=
  MkBingoLogger 0 "" 0 false 0 0 None (MkTime (-62135596800) 0) 0 false [] 0.

Definition set_fd (fd : option nat) (l : BingoLogger) : BingoLogger :=
  MkBingoLogger (level l) (fileName l) (fileSplitMB l) (isAsync l) (asyncWriteMillSec l) (logTime l)
    fd (fileCreateTime l) (generation l) (isInited l) (bufChan l) (chanCap l).
Definition set_createTime (t : Time) (l : BingoLogger) : BingoLogger :=
  MkBingoLogger (level l) (fileName l) (fileSplitMB l) (isAsync l) (asyncWriteMillSec l) (logTime l)
    (fileFd l) t (generation l) (isInited l) (bufChan l) (chanCap l).
Definition set_generation (g : Z) (l : BingoLogger) : BingoLogger :=
  MkBingoLogger (level l) (fileName l) (fileSplitMB l) (isAsync l) (asyncWriteMillSec l) (logTime l)
    (fileFd l) (fileCreateTime l) g (isInited l) (bufChan l) (chanCap l).
Definition set_logTime (t : Z) (l : BingoLogger) : BingoLogger :=
  MkBingoLogger (level l) (fileName l) (fileSplitMB l) (isAsync l) (asyncWriteMillSec l) t
    (fileFd l) (fileCreateTime l) (generation l) (isInited l) (bufChan l) (chanCap l).
Definition set_level (v : Z) (l : BingoLogger) : BingoLogger :=
  MkBingoLogger v (fileName l) (fileSplitMB l) (isAsync l) (asyncWriteMillSec l) (logTime l)
    (fileFd l) (fileCreateTime l) (generation l) (isInited l) (bufChan l) (chanCap l).

Definition set_bufChan (q : list string) (l : BingoLogger) : BingoLogger :=
  MkBingoLogger (level l) (fileName l) (fileSplitMB l) (isAsync l) (asyncWriteMillSec l) (logTime l)
    (fileFd l) (fileCreateTime l) (generation l) (isInited l) q (chanCap l).

Definition GetLevel (l : BingoLogger) : Z := level l.

Definition SetLevel (v : Z) (l : BingoLogger) : BingoLogger :=
  let v := if v >? LogLevelFatal then LogLevelFatal else v in
  let v := if v <? 0 then 0 else v in
  set_level (i32 v) l.

(** ** Rotation *)

Definition isLogFileExist (x : bctx) (p : string) (fs : FS) : result error bool :=
  match Stat x p fs with
  | Ok _ => Ok true
  | Err ENotExist => Ok false
  | Err (EOther e) => Err e
  end.

(** "%s.%02d%02d%02d" and "%s.%02d%02d%02d.%d" *)
Definition newFilePath (z : Z) (p : string) (createTime : Time) (generation : Z) : string :=
  let d := Date z createTime in
  let base := p +:+ "." +:+ pad 2 (Year d) +:+ pad 2 (Month d) +:+ pad 2 (Day d) in
  if generation =? 0 then base else base +:+ "." +:+ pretty generation.

(** The search for a free name, from the current generation up. *)
Fixpoint moveLoop (fuel : nat) (x : bctx) (p : string) (createTime : Time) (g : Z) (fs : FS)
  : outcome (result error string * Z) :=
  match fuel with
  | O => Hang
  | S fuel =>
      let q := newFilePath (zone x) p createTime g in
      match isLogFileExist x q fs with
      | Err e => Done (Err ("moveLogFile newFilePath=" +:+ q +:+ " err:" +:+ e), g)
      | Ok true => moveLoop fuel x p createTime (g + 1) fs
      | Ok false => Done (Ok q, g)
      end
  end.

(** Every name tried before the last one exists, so the number of names is
    fuel enough. *)
Definition moveLogFile (x : bctx) (p : string) (createTime : Time) (l : BingoLogger) (fs : FS)
  : outcome (option error * BingoLogger * FS) :=
  let l := set_fd None l in
  '(r, g) ← moveLoop (S (size (names fs))) x p createTime (generation l) fs;
  let l := set_generation g l in
  match r with
  | Err e => Done (Some e, l, fs)
  | Ok q => let '(e, fs) := Rename x p q fs in Done (e, l, fs)
  end.

Definition updateOldFileFd (x : bctx) (l : BingoLogger) (fs : FS) : outcome (option error * BingoLogger * FS) :=
  match fileFd l with
  | None => Done (None, l, fs)
  | Some _ =>
      let now := atUpdate x in
      match Stat x (fileName l) fs with
      | Err ENotExist => Done (None, set_fd None l, fs)
      | Err (EOther e) =>
          Done (Some ("updateOldFileFd os.Stat filename=" +:+ fileName l +:+ " err:" +:+ e), l, fs)
      | Ok fi =>
          if (Unix (fileCreateTime l) + 86400 <? Unix now)
             || negb (Day (Date (zone x) (fileCreateTime l)) =? Day (Date (zone x) now))
          then
            '(e, l, fs) ← moveLogFile x (fileName l) (fileCreateTime l) l fs;
            match e with
            | Some e => Done (Some ("updateOldFileFd moveLogFile filename=" +:+ fileName l +:+ " err:" +:+ e), l, fs)
            | None => Done (None, set_generation 0 l, fs)
            end
          else if Z.shiftl (fileSplitMB l) 20 <=? Z.of_nat (String.length (idata fi))
          then
            '(e, l, fs) ← moveLogFile x (fileName l) (fileCreateTime l) l fs;
            match e with
            | Some e => Done (Some ("updateOldFileFd moveLogFile filename=" +:+ fileName l +:+ " err:" +:+ e), l, fs)
            | None => Done (None, set_generation (generation l + 1) l, fs)
            end
          else Done (None, l, fs)
      end
  end.

Definition getFileCreateTime (x : bctx) (p : string) (fs : FS) : result error Time :=
  match Stat x p fs with
  | Ok fi => Ok (ctim fi)
  | Err ENotExist => Err "no such file or directory"
  | Err (EOther e) => Err e
  end.

Definition openLogFile (x : bctx) (p : string) (l : BingoLogger) (fs : FS) : option error * BingoLogger * FS :=
  match fileFd l with
  | Some _ => (Some "log file have opened", l, fs)
  | None =>
      match mkdirFault (flt x) p with
      | Some e => (Some e, l, fs)
      | None =>
          match OpenFile x p fs with
          | Err e => (Some e, l, fs)
          | Ok (fd, fs) =>
              match getFileCreateTime x p fs with
              | Err e => (Some e, l, fs)
              | Ok t => (None, set_fd (Some fd) (set_createTime t l), fs)
              end
          end
      end
  end.

Definition updateFileFd (x : bctx) (l : BingoLogger) (fs : FS) : outcome (option error * BingoLogger * FS) :=
  if (String.length (fileName l) =? 0)%nat then Done (Some "updateFileFd filename is empty", l, fs) else
  '(e, l, fs) ← updateOldFileFd x l fs;
  match e with
  | Some e => Done (Some ("updateFileFd err:" +:+ e), l, fs)
  | None =>
      match fileFd l with
      | Some _ => Done (None, l, fs)
      | None =>
          let '(e, l, fs) := openLogFile x (fileName l) l fs in
          match e with
          | Some e => Done (Some ("updateFileFd err:" +:+ e), l, fs)
          | None => Done (None, l, fs)
          end
      end
  end.

(** ** Writing *)

Definition writeSync (x : bctx) (buf : string) (l : BingoLogger) (fs : FS)
  : outcome (Z * option error * BingoLogger * FS) :=
  '(e, l, fs) ← updateFileFd x l fs;
  match e with
  | Some e => Done (0, Some ("Write err:" +:+ e), l, fs)
  | None =>
      let l := set_logTime (Unix (atWrite x)) l in
      match fileFd l with
      | None => Done (0, Some "log file not opened", l, fs)
      | Some i => let '(n, e, fs) := fd_Write x i buf fs in Done (n, e, l, fs)
      end
  end.

Definition _asyncByteSizePerIOWrite : Z := Z.shiftl 10 20.

(** The body of writeAllFunc on the buffers queued: each with what the system
    does while it is handled, [last] at the final write. *)
Fixpoint writeAll (queue : list (bctx * string)) (last : bctx) (sendBuffer : string) (l : BingoLogger) (fs : FS)
  : outcome (BingoLogger * FS) :=
  match queue with
  | [] =>
      if (0 <? Z.of_nat (String.length sendBuffer)) then
        '(_, _, l, fs) ← writeSync last sendBuffer l fs; Done (l, fs)
      else Done (l, fs)
  | (x, buf) :: queue =>
      if Z.of_nat (String.length sendBuffer) + Z.of_nat (String.length buf) >? _asyncByteSizePerIOWrite then
        '(_, _, l, fs) ← writeSync x sendBuffer l fs;
        writeAll queue last ("" +:+ buf) l fs
      else writeAll queue last (sendBuffer +:+ buf) l fs
  end.

Definition writeAllFunc (queue : list (bctx * string)) (last : bctx) (l : BingoLogger) (fs : FS)
  : outcome (BingoLogger * FS) :=
  if (0 <? Z.of_nat (length queue)) then writeAll queue last "" l fs else Done (l, fs).

(** What wakes the write loop, with the queue of that moment: a request
    (answered on its channel or not), the closed request channel, a tick. *)
Inductive loopEvent := LNtf (reply : bool) | LClosed | LTick.

(** The loop of [loopFunc]: [break] leaves the [select], not the [for].  When no
    event is left the loop waits for ever. *)
Fixpoint loopFunc (evs : list (loopEvent * list (bctx * string) * bctx)) (l : BingoLogger) (fs : FS)
  : outcome (option error * BingoLogger * FS) :=
  match evs with
  | [] => Hang
  | (ev, queue, last) :: evs =>
      match ev with
      | LNtf _ | LClosed | LTick =>
          '(l, fs) ← writeAllFunc queue last l fs;
          loopFunc evs l fs
      end
  end.

(** [time.NewTicker] wants a positive interval, and gets the milliseconds as
    nanoseconds of 64 bits. *)
Definition tickInterval (millSec : Z) : Z := i64 (millSec * 1000000).

Definition asyncWriteLoop (evs : list (loopEvent * list (bctx * string) * bctx)) (l : BingoLogger) (fs : FS)
  : outcome (option error * BingoLogger * FS) :=
  if tickInterval (asyncWriteMillSec l) <=? 0 then Panic "non-positive interval for NewTicker" else loopFunc evs l fs.

(** The memory of a channel of slices; the runtime refuses more than 2^48 bytes
    with its header. *)
Definition chanBytes (n : Z) : Z := 96 + 24 * n.

Definition Init (cfg : LogCfg) (evs : list (loopEvent * list (bctx * string) * bctx)) (l : BingoLogger) (fs : FS)
  : outcome (option error * BingoLogger * FS) :=
  if isInited l then Done (Some "Init BingoLogger has inited", l, fs) else
  match CheckCfgValid cfg with
  | Some e => Done (Some ("Init err:" +:+ e), l, fs)
  | None =>
      let l := MkBingoLogger (LogLevel cfg) (LogPath cfg) (FileSplitMB cfg) (IsAsync cfg) (AsyncWriteMillSec cfg)
                 (logTime l) (fileFd l) (fileCreateTime l) (generation l) (isInited l)
                 (if IsAsync cfg then [] else bufChan l) (if IsAsync cfg then AsyncCacheSize cfg else chanCap l) in
      '(e, l, fs) ← (if IsAsync cfg then
                       if chanBytes (AsyncCacheSize cfg) >? 2 ^ 48 then Panic "makechan: size out of range"
                       else asyncWriteLoop evs l fs
                     else Done (None, l, fs));
      match e with
      | Some e => Done (Some ("init err:" +:+ e), l, fs)
      | None =>
          Done (None, MkBingoLogger (level l) (fileName l) (fileSplitMB l) (isAsync l) (asyncWriteMillSec l)
                  (logTime l) (fileFd l) (fileCreateTime l) (generation l) true (bufChan l) (chanCap l), fs)
      end
  end.

Definition NewBingoLogger (cfg : LogCfg) (evs : list (loopEvent * list (bctx * string) * bctx)) (fs : FS)
  : outcome (result error BingoLogger * FS) :=
  '(e, l, fs) ← Init cfg evs zeroLogger fs;
  match e with
  | Some e => Done (Err ("Setup err:" +:+ e), fs)
  | None => Done (Ok l, fs)
  end.

(** When the queue is full the loop is asked to write it out first; without
    the loop the request blocks. *)
Definition writeAsync (x : bctx) (buf : string) (l : BingoLogger) (fs : FS) : outcome (BingoLogger * FS) :=
  if Z.of_nat (length (bufChan l)) <? chanCap l then Done (set_bufChan (bufChan l ++ [buf]) l, fs)
  else if loopRuns x then
    '(l, fs) ← writeAllFunc (pair x <$> bufChan l) x (set_bufChan [] l) fs;
    Done (set_bufChan [buf] l, fs)
  else Hang.

Definition Write (x : bctx) (buf : string) (l : BingoLogger) (fs : FS)
  : outcome (Z * option error * BingoLogger * FS) :=
  if negb (isInited l) then Done (Z.of_nat (String.length buf), None, l, fs) else
  if isAsync l then
    '(l, fs) ← writeAsync x buf l fs; Done (Z.of_nat (String.length buf), None, l, fs)
  else writeSync x buf l fs.

Definition Sync (x : bctx) (l : BingoLogger) (fs : FS) : outcome (option error * BingoLogger * FS) :=
  if negb (isInited l) then Done (None, l, fs) else
  if negb (isAsync l) then Done (None, l, fs) else
  if loopRuns x then
    '(l, fs) ← writeAllFunc (pair x <$> bufChan l) x (set_bufChan [] l) fs;
    Done (None, l, fs)
  else Hang.

(** [strings.LastIndexByte(s, '/')]: what precedes the slash, and what follows. *)
Fixpoint lastSlash (l : list ascii) : option (list ascii * list ascii) :=
  match l with
  | [] => None
  | c :: l =>
      match lastSlash l with
      | Some (pre, post) => Some (c :: pre, post)
      | None => if bool_decide (c = "/"%char) then Some ([], l) else None
      end
  end.

(** package/file and line of the caller, [runtime.Caller]'s answer given. *)
Definition getCallPath (c : option (string * Z)) : string * Z :=
  match c with
  | None => ("", 0)
  | Some (file, line) =>
      match lastSlash (chars file) with
      | None => (file, line)
      | Some (pre, name) =>
          match lastSlash pre with
          | None => (file, line)
          | Some (_, pkg) => (of_chars (pkg ++ "/"%char :: name), line)
          end
      end
  end.

(** The logger with the disk and the terminal it writes to. *)
Record bingoWorld := MkBW { logger : BingoLogger; disk : FS; terminal : string }.

Definition logLine (x : bctx) (logType : string) (a : option AcntLogger) (logContent : string) : string :=
  let '(file, line) := getCallPath (caller x) in
  stamp (zone x) (atOutput x) +:+ " [" +:+ logType +:+ "] [" +:+ file +:+ ":" +:+ pretty line +:+ "] " +:+
  match a with
  | Some a => GetLogStr a +:+ " " +:+ logContent
  | None => logContent
  end.

Definition Output (x : bctx) (logType : string) (a : option AcntLogger) (logContent : string) (w : bingoWorld)
  : outcome bingoWorld :=
  let line := logLine x logType a logContent in
  if isInited (logger w) then
    '(_, _, l, fs) ← Write x (line +:+ newline) (logger w) (disk w);
    Done (MkBW l fs (terminal w))
  else Done (MkBW (logger w) (disk w) (terminal w +:+ line)).

(** ** The plugin *)

(** [Setup]: the section is read by viper; the logger becomes the global one. *)
Definition Setup (unmarshal : result error LogCfg) (evs : list (loopEvent * list (bctx * string) * bctx)) (fs : FS)
    (s : logState BingoLogger) : outcome (result error BingoLogger * FS * logState BingoLogger) :=
  match unmarshal with
  | Err e => Done (Err e, fs, s)
  | Ok cfg =>
      '(e, l, fs) ← Init cfg evs zeroLogger fs;
      match e with
      | Some e => Done (Err ("Setup err:" +:+ e), fs, s)
      | None => Done (Ok l, fs, SetLogger (Some l) s)
      end
  end.

(** [Destroy] on an instance; [None]: not a logger. *)
Definition Destroy (x : bctx) (i : option BingoLogger) (fs : FS) : outcome (option error * option BingoLogger * FS) :=
  match i with
  | None => Done (Some "Destory BingoLogger type assert", None, fs)
  | Some l =>
      '(e, l, fs) ← Sync x l fs;
      match e with
      | Some e => Done (Some ("Destory BingoLogger err:" +:+ e), Some l, fs)
      | None => Done (None, Some l, fs)
      end
  end.

Definition Reload (decode : result error LogCfg) (i : option BingoLogger) : option error * option BingoLogger :=
  match decode with
  | Err e => (Some e, i)
  | Ok cfg =>
      match CheckCfgValid cfg with
      | Some e => (Some ("Reload err:" +:+ e), i)
      | None =>
          match i with
          | None => (Some "Reload type assert", None)
          | Some l =>
              (None, Some (MkBingoLogger (LogLevel cfg) (fileName l) (FileSplitMB cfg) (isAsync l)
                 (asyncWriteMillSec l) (logTime l) (fileFd l) (fileCreateTime l) (generation l) (isInited l)
                 (bufChan l) (chanCap l)))
          end
      end
  end.

#[global] Instance bingo_logger : Logger bingoWorld bctx :=
  {| Log.Output := Output;
     Log.LogWrite x buf w := '(n, e, l, fs) ← Write x buf (logger w) (disk w); Done (n, e, MkBW l fs (terminal w));
     Log.LogSetLevel v w := MkBW (SetLevel v (logger w)) (disk w) (terminal w);
     Log.Sync x w := '(e, l, fs) ← Sync x (logger w) (disk w); Done (e, MkBW l fs (terminal w));
     Log.GetLevel w := GetLevel (logger w) |}.

(** ** The disk as a map of contents *)

Definition contents (fs : FS) : gmap string string :=
  (fun i => default "" (idata <$> inodes fs !! i)) <$> names fs.

(** No hard links, and every name has an inode. *)
Record wfs (fs : FS) : Prop := MkWfs {
  wfs_inj p q i : names fs !! p = Some i -> names fs !! q = Some i -> p = q;
  wfs_ino p i : names fs !! p = Some i -> is_Some (inodes fs !! i) /\ (i < nextIno fs)%nat
}.

Lemma contents_lookup fs p :
  contents fs !! p = (fun i => default "" (idata <$> inodes fs !! i)) <$> (names fs !! p).
Proof. apply lookup_fmap. Qed.

Lemma contents_None fs p : contents fs !! p = None <-> names fs !! p = None.
Proof. rewrite contents_lookup, fmap_None. done. Qed.

(** [keeps p C C']: no file but [p] is lost or altered. *)
Definition keeps (p : string) (C C' : gmap string string) : Prop :=
  forall q d, q <> p -> C !! q = Some d -> C' !! q = Some d.

Lemma keeps_refl p C : keeps p C C.
Proof. by intros q d. Qed.
Lemma keeps_trans p C1 C2 C3 : keeps p C1 C2 -> keeps p C2 C3 -> keeps p C1 C3.
Proof. unfold keeps. eauto. Qed.
Lemma keeps_insert p C d : keeps p C (<[p := d]> C).
Proof. intros q d' Hq Hd. by rewrite lookup_insert_ne. Qed.
Lemma keeps_alter p C f : keeps p C (alter f p C).
Proof. intros q d' Hq Hd. by rewrite lookup_alter_ne. Qed.
Lemma keeps_move p q C d : C !! q = None -> keeps p C (<[q := d]> (delete p C)).
Proof.
  intros Hq r d' Hr Hd. rewrite lookup_insert_ne by congruence. by rewrite lookup_delete_ne.
Qed.
#[export] Hint Resolve keeps_refl keeps_insert keeps_alter keeps_move : mango.

(** [OpenFile] creates an empty file if there is none. *)
Lemma OpenFile_spec x p fs i fs' : wfs fs -> OpenFile x p fs = Ok (i, fs') ->
  wfs fs' /\ names fs' !! p = Some i /\
  contents fs' = <[p := default "" (contents fs !! p)]> (contents fs).
Proof.
  intros Hw. unfold OpenFile. destruct (openFault _ _); [done|].
  destruct (names fs !! p) as [j|] eqn:Hp; intros [= <- <-].
  - split; [done|]. split; [done|]. rewrite contents_lookup, Hp. cbn.
    rewrite insert_id; [done|]. by rewrite contents_lookup, Hp.
  - split; [split|split].
    + cbn. intros p1 p2 k [[<- <-]|[Hn1 H1]]%lookup_insert_Some [[<- E]|[Hn2 H2]]%lookup_insert_Some; subst; try done.
      * destruct (wfs_ino _ Hw _ _ H2). lia.
      * destruct (wfs_ino _ Hw _ _ H1). lia.
      * by eapply Hw.
    + cbn. intros p1 k [[<- <-]|[Hn1 H1]]%lookup_insert_Some.
      * rewrite lookup_insert_eq. split; [done|lia].
      * destruct (wfs_ino _ Hw _ _ H1) as [[n Hk] Hlt]. rewrite lookup_insert_ne by lia. split; [by exists n|lia].
    + cbn. by rewrite lookup_insert_eq.
    + rewrite contents_lookup, Hp. cbn [fmap option_fmap option_map default].
      apply map_eq. intros q. rewrite contents_lookup. cbn [names inodes].
      destruct (decide (p = q)) as [<-|Hne].
      * rewrite !lookup_insert_eq. cbn. by rewrite lookup_insert_eq.
      * rewrite !lookup_insert_ne by done. rewrite contents_lookup.
        destruct (names fs !! q) as [k|] eqn:Hk; [|done]. cbn. destruct (wfs_ino _ Hw _ _ Hk).
        by rewrite lookup_insert_ne by lia.
Qed.

(** The disk after bytes [b] reached inode [i]. *)
Definition append_ino (x : bctx) (i : nat) (b : string) (fs : FS) : FS :=
  MkFS (names fs) (alter (fun n => MkInode (idata n +:+ b) (atWrite x)) i (inodes fs)) (nextIno fs).

Lemma append_ino_wfs x i b fs : wfs fs -> wfs (append_ino x i b fs).
Proof.
  intros [H1 H2]. split; [exact H1|]. intros p j Hj. destruct (H2 p j Hj) as [[n Hn] Hlt]. split; [|done].
  cbn. destruct (decide (i = j)) as [->|Hne]; [rewrite lookup_alter_eq, Hn; by eexists|].
  rewrite lookup_alter_ne, Hn by done. by eexists.
Qed.

Lemma append_ino_contents x i b fs p : wfs fs -> names fs !! p = Some i ->
  contents (append_ino x i b fs) = alter (fun d => d +:+ b) p (contents fs).
Proof.
  intros Hw Hp. apply map_eq. intros q. rewrite contents_lookup. cbn [append_ino names inodes].
  destruct (decide (p = q)) as [<-|Hne].
  - rewrite lookup_alter_eq, contents_lookup, Hp. cbn. rewrite lookup_alter_eq.
    destruct (wfs_ino _ Hw _ _ Hp) as [[n ->] _]. done.
  - rewrite lookup_alter_ne, contents_lookup by done. destruct (names fs !! q) as [j|] eqn:Hq; [|done]. cbn.
    rewrite lookup_alter_ne; [done|]. intros ->. by rewrite (wfs_inj _ Hw _ _ _ Hp Hq) in Hne.
Qed.

Lemma Rename_spec x p q fs fs' : wfs fs -> names fs !! q = None -> p <> q -> Rename x p q fs = (None, fs') ->
  wfs fs' /\ names fs' !! p = None /\
  exists d, contents fs !! p = Some d /\ contents fs' = <[q := d]> (delete p (contents fs)).
Proof.
  intros Hw Hq Hne. unfold Rename. destruct (renameFault _ _ _); [done|].
  destruct (names fs !! p) as [i|] eqn:Hp; [|done]. intros [= <-].
  assert (Hold : forall r k, names fs !! r = Some k -> r <> p -> k <> i).
  { intros r k Hr Hrp ->. by apply Hrp, (wfs_inj _ Hw _ _ _ Hr Hp). }
  split; [split|split].
  - cbn. intros p1 p2 k [[<- <-]|[Hn1 [Hd1 H1]%lookup_delete_Some]]%lookup_insert_Some
      [[<- E]|[Hn2 [Hd2 H2]%lookup_delete_Some]]%lookup_insert_Some; subst; try done.
    + by destruct (Hold _ _ H2 (not_eq_sym Hd2)).
    + by destruct (Hold _ _ H1 (not_eq_sym Hd1)).
    + by eapply Hw.
  - cbn. intros p1 k [[<- <-]|[Hn1 [Hd1 H1]%lookup_delete_Some]]%lookup_insert_Some; by eapply Hw.
  - cbn. rewrite lookup_insert_ne by done. apply lookup_delete_eq.
  - exists (default "" (idata <$> inodes fs !! i)). rewrite contents_lookup, Hp. split; [done|].
    unfold contents. cbn. by rewrite fmap_insert, fmap_delete.
Qed.

(** ** The search for a free name ends *)

Lemma length_string_app a b : String.length (a +:+ b) = (String.length a + String.length b)%nat.
Proof. induction a as [|c a IH]; [done|]. change (String c a +:+ b) with (String c (a +:+ b)). cbn [String.length]. lia. Qed.

Lemma string_app_inj_l (a b c : string) : a +:+ b = a +:+ c -> b = c.
Proof. induction a as [|x a IH]; [done|].
  change (String x (a +:+ b) = String x (a +:+ c) -> b = c). intros [= E]. auto. Qed.

Lemma newFilePath_inj z p t g h : newFilePath z p t g = newFilePath z p t h -> g = h.
Proof.
  unfold newFilePath. generalize (p +:+ "." +:+ pad 2 (Year (Date z t)) +:+ pad 2 (Month (Date z t)) +:+
    pad 2 (Day (Date z t))). intros b.
  destruct (Z.eqb_spec g 0), (Z.eqb_spec h 0); intros E.
  - congruence.
  - apply (f_equal String.length) in E. rewrite !length_string_app in E. cbn in E. lia.
  - apply (f_equal String.length) in E. rewrite !length_string_app in E. cbn in E. lia.
  - apply string_app_inj_l, string_app_inj_l in E. by apply (inj pretty) in E.
Qed.

Lemma newFilePath_ne z p t g : newFilePath z p t g <> p.
Proof.
  intros E. apply (f_equal String.length) in E. unfold newFilePath in E.
  destruct (g =? 0); rewrite !length_string_app in E; cbn in E; lia.
Qed.

Lemma isLogFileExist_true x q fs : isLogFileExist x q fs = Ok true -> q ∈ dom (names fs).
Proof.
  unfold isLogFileExist, Stat. destruct (statFault _ _); [done|].
  destruct (names fs !! q) as [i|] eqn:Hq; [|done]. intros _. by apply elem_of_dom_2 in Hq.
Qed.

Lemma isLogFileExist_false x q fs : wfs fs -> isLogFileExist x q fs = Ok false -> names fs !! q = None.
Proof.
  unfold isLogFileExist, Stat. destruct (statFault _ _); [done|]. intros Hw.
  destruct (names fs !! q) as [i|] eqn:Hq; [|done]. destruct (wfs_ino _ Hw _ _ Hq) as [[n ->] _]. done.
Qed.

(** A search that runs out of fuel found that many existing names. *)
Lemma moveLoop_hang fuel x p t fs : forall g, moveLoop fuel x p t g fs = Hang ->
  exists qs, length qs = fuel /\ NoDup qs /\
    forall q, q ∈ qs -> q ∈ dom (names fs) /\ exists h, g <= h /\ q = newFilePath (zone x) p t h.
Proof.
  induction fuel as [|fuel IH]; intros g; cbn [moveLoop].
  { intros _. exists []. split; [done|]. split; [constructor|]. by intros q ?%not_elem_of_nil. }
  destruct (isLogFileExist x _ fs) as [[]|] eqn:He; [|done|done]. intros Hh.
  destruct (IH _ Hh) as (qs & Hlen & Hnd & Hqs). exists (newFilePath (zone x) p t g :: qs).
  split; [cbn; lia|]. split.
  - constructor; [|done]. intros (_ & h & Hh' & E)%Hqs. apply newFilePath_inj in E. lia.
  - intros q [->|Hq]%elem_of_cons.
    + split; [by apply isLogFileExist_true in He|]. exists g. done.
    + destruct (Hqs q Hq) as (Hd & h & Hh' & ->). split; [done|]. exists h. split; [lia|done].
Qed.

Lemma moveLoop_returns x p t g fs : exists r, moveLoop (S (size (names fs))) x p t g fs = Done r.
Proof.
  destruct (moveLoop _ x p t g fs) as [r|w|] eqn:E; [by exists r| |].
  - exfalso. clear -E. revert g E. generalize (S (size (names fs))). intros n.
    induction n as [|n IH]; intros g; cbn [moveLoop]; [done|].
    destruct (isLogFileExist x _ fs) as [[]|]; try done. apply IH.
  - exfalso. apply moveLoop_hang in E as (qs & Hlen & Hnd & Hqs).
    assert (list_to_set qs ⊆ dom (names fs)) as Hs.
    { intros q Hq%elem_of_list_to_set. by apply Hqs. }
    apply subseteq_size in Hs. rewrite size_list_to_set, size_dom in Hs by done. lia.
Qed.

Lemma moveLoop_free fuel x p t fs : wfs fs -> forall g q g', moveLoop fuel x p t g fs = Done (Ok q, g') ->
  names fs !! q = None /\ q <> p.
Proof.
  intros Hw. induction fuel as [|fuel IH]; intros g q g'; cbn [moveLoop]; [done|].
  destruct (isLogFileExist x _ fs) as [[]|] eqn:He; [apply IH| |done]. intros [= <- _].
  split; [by eapply isLogFileExist_false|apply newFilePath_ne].
Qed.

Lemma moveLoop_ok fuel x p t fs : flt x = noFaults -> forall g r g',
  moveLoop fuel x p t g fs = Done (r, g') -> exists q, r = Ok q.
Proof.
  intros Hf. induction fuel as [|fuel IH]; intros g r g'; cbn [moveLoop]; [done|].
  unfold isLogFileExist, Stat. rewrite Hf. cbn [noFaults statFault].
  destruct (names fs !! _) as [i|]; [destruct (inodes fs !! i)|].
  - apply IH.
  - intros [= <- _]. eauto.
  - intros [= <- _]. eauto.
Qed.

(** ** One write *)

(** The file held open is the one at the path, unless that was removed. *)
Definition linv (l : BingoLogger) (fs : FS) : Prop :=
  wfs fs /\
  match fileFd l with
  | None => True
  | Some i => (forall q, names fs !! q = Some i -> q = fileName l) /\
              (forall j, names fs !! fileName l = Some j -> j = i) /\ (i < nextIno fs)%nat
  end.

(** What a write leaves alone. *)
Definition cfg_of (l : BingoLogger) :=
  (level l, fileName l, fileSplitMB l, isAsync l, isInited l, bufChan l, chanCap l).

Lemma cfg_fileName l l' : cfg_of l' = cfg_of l -> fileName l' = fileName l.
Proof. by intros [=]. Qed.

(** The path [p] moved to the fresh name [q]. *)
Definition moved (p : string) (fs fs' : FS) : Prop :=
  names fs' !! p = None /\
  exists q d, contents fs !! q = None /\ q <> p /\ contents fs !! p = Some d /\
    contents fs' = <[q := d]> (delete p (contents fs)).

Lemma moveLogFile_spec x t l fs : wfs fs -> exists e l' fs',
  moveLogFile x (fileName l) t l fs = Done (e, l', fs') /\
  fileFd l' = None /\ cfg_of l' = cfg_of l /\ wfs fs' /\ keeps (fileName l) (contents fs) (contents fs') /\
  (flt x = noFaults -> is_Some (names fs !! fileName l) -> e = None) /\
  (e = None -> moved (fileName l) fs fs').
Proof.
  intros Hw. unfold moveLogFile.
  destruct (moveLoop_returns x (fileName l) t (generation (set_fd None l)) fs) as [[r g] Hr]. rewrite Hr. go_run.
  destruct r as [q|e]; cbv beta iota zeta.
  - destruct (moveLoop_free _ _ _ _ _ Hw _ _ _ Hr) as [Hq Hne].
    destruct (Rename x (fileName l) q fs) as [e fs'] eqn:HR. exists e, (set_generation g (set_fd None l)), fs'.
    split; [done|]. split; [done|]. split; [done|]. destruct e as [e|].
    + assert (fs' = fs) as ->.
      { unfold Rename in HR. destruct (renameFault (flt x) (fileName l) q); [congruence|].
        destruct (names fs !! fileName l); congruence. }
      split; [done|]. split; [auto with mango|]. split; [|done]. intros Hf [i Hi].
      unfold Rename in HR. rewrite Hf, Hi in HR. done.
    + apply Rename_spec in HR as (Hw' & Hn & d & Hd & HC); [|done|done|done].
      split; [done|]. split; [rewrite HC; apply keeps_move; by apply contents_None|]. split; [done|].
      intros _. split; [done|]. exists q, d. by rewrite contents_None.
  - exists (Some e), (set_generation g (set_fd None l)), fs. split; [done|]. split; [done|]. split; [done|].
    split; [done|]. split; [auto with mango|]. split; [|done].
    intros Hf. by apply moveLoop_ok in Hr as [? ?].
Qed.

(** The open file may go on being used: its day and its size allow it. *)
Definition current (x : bctx) (l : BingoLogger) (fs : FS) : Prop :=
  Unix (atUpdate x) <= Unix (fileCreateTime l) + 86400 /\
  Day (Date (zone x) (fileCreateTime l)) = Day (Date (zone x) (atUpdate x)) /\
  exists d, contents fs !! fileName l = Some d /\
    Z.of_nat (String.length d) < Z.shiftl (fileSplitMB l) 20.

(** After [updateOldFileFd]: closed, or kept open at the path. *)
Definition old_done (x : bctx) (l : BingoLogger) (fs : FS) (l' : BingoLogger) (fs' : FS) : Prop :=
  (fs' = fs /\ fileFd l' = None /\ (fileFd l = None \/ contents fs !! fileName l = None)) \/
  (fs' = fs /\ l' = l /\ is_Some (fileFd l) /\ fileFd l = names fs !! fileName l /\ current x l fs) \/
  (is_Some (fileFd l) /\ fileFd l' = None /\ moved (fileName l) fs fs').

Lemma updateOldFileFd_spec x l fs : linv l fs -> exists e l' fs',
  updateOldFileFd x l fs = Done (e, l', fs') /\
  linv l' fs' /\ cfg_of l' = cfg_of l /\ keeps (fileName l) (contents fs) (contents fs') /\
  (flt x = noFaults -> e = None) /\ (e = None -> old_done x l fs l' fs').
Proof.
  intros [Hw Hfd]. unfold updateOldFileFd. destruct (fileFd l) as [i|] eqn:Hl.
  2: { exists None, l, fs. unfold linv, old_done. rewrite Hl. split; [done|]. split; [done|]. split; [done|].
       split; [auto with mango|]. split; [done|]. intros _. left. auto. }
  assert (Hinv : linv l fs) by (unfold linv; by rewrite Hl).
  destruct (Stat x (fileName l) fs) as [fi|[|e]] eqn:HS.
  - assert (exists j, names fs !! fileName l = Some j /\ inodes fs !! j = Some fi) as (j & Hj & Hfi).
    { unfold Stat in HS. destruct (statFault _ _); [done|]. destruct (names fs !! fileName l) as [j|]; [|done].
      destruct (inodes fs !! j) eqn:Hij; [|done]. simplify_eq. eauto. }
    destruct (moveLogFile_spec x (fileCreateTime l) l fs Hw) as (e & l1 & fs1 & -> & H1 & H2 & H3 & H4 & H5 & H6).
    go_run.
    assert (Hmv : forall g, exists e' l' fs',
      (match e with
       | Some e => Done (Some ("updateOldFileFd moveLogFile filename=" +:+ fileName l1 +:+ " err:" +:+ e), l1, fs1)
       | None => Done (None, set_generation g l1, fs1)
       end) = Done (e', l', fs') /\ linv l' fs' /\ cfg_of l' = cfg_of l /\
       keeps (fileName l) (contents fs) (contents fs') /\
       (flt x = noFaults -> e' = None) /\ (e' = None -> old_done x l fs l' fs')).
    { intros g. destruct e as [e|].
      - eexists _, _, _. split; [done|]. unfold linv. rewrite H1. split; [done|]. split; [done|]. split; [done|].
        split; [|done]. intros Hf. by specialize (H5 Hf (mk_is_Some _ _ Hj)).
      - eexists _, _, _. split; [done|]. unfold linv, old_done. cbn [set_generation fileFd]. rewrite H1.
        split; [done|]. split; [done|]. split; [done|]. split; [done|]. intros _. right. right. rewrite Hl. split; [by eexists|]. auto. }
    destruct (_ || _) eqn:Hd; [apply (Hmv 0)|].
    destruct (_ <=? _) eqn:Hs; [apply (Hmv (generation l1 + 1))|].
    go_bool. exists None, l, fs. split; [done|]. split; [done|]. split; [done|].
    split; [auto with mango|]. split; [done|]. intros _. right. left.
    destruct Hfd as (_ & Hfd & _). pose proof (Hfd j Hj) as ->.
    split; [done|]. split; [done|]. split; [by eexists|]. split; [congruence|].
    split; [done|]. split; [done|]. exists (idata fi). split; [|done]. by rewrite contents_lookup, Hj; cbn; rewrite Hfi.
  - exists None, (set_fd None l), fs. split; [done|]. split; [done|]. split; [done|]. split; [auto with mango|].
    split; [done|]. intros _. left. split; [done|]. split; [done|]. right. apply contents_None.
    unfold Stat in HS. destruct (statFault _ _); [done|]. destruct (names fs !! fileName l) as [j|] eqn:Hj; [|done].
    destruct (wfs_ino _ Hw _ _ Hj) as [[n Hn] _]. by rewrite Hn in HS.
  - eexists _, l, fs. split; [done|]. split; [done|]. split; [done|].
    split; [auto with mango|]. split; [|done]. intros Hf. unfold Stat in HS. rewrite Hf in HS. cbn in HS.
    destruct (names fs !! fileName l) as [j|]; [destruct (inodes fs !! j)|]; done.
Qed.

Lemma linv_closed l fs : wfs fs -> fileFd l = None -> linv l fs.
Proof. intros Hw Hl. split; [done|]. by rewrite Hl. Qed.

Lemma openLogFile_spec x l fs : wfs fs -> fileFd l = None -> exists e l' fs',
  openLogFile x (fileName l) l fs = (e, l', fs') /\
  linv l' fs' /\ cfg_of l' = cfg_of l /\ keeps (fileName l) (contents fs) (contents fs') /\
  (flt x = noFaults -> e = None) /\
  (e = None -> is_Some (fileFd l') /\ fileFd l' = names fs' !! fileName l /\
     contents fs' = <[fileName l := default "" (contents fs !! fileName l)]> (contents fs) /\
     (contents fs !! fileName l = None -> fileCreateTime l' = atOpen x)).
Proof.
  intros Hw Hl. unfold openLogFile. rewrite Hl.
  destruct (mkdirFault (flt x) (fileName l)) as [e|] eqn:Hm.
  { exists (Some e), l, fs. split; [done|]. split; [by apply linv_closed|]. split; [done|]. split; [auto with mango|].
    split; [|done]. intros Hf. by rewrite Hf in Hm. }
  destruct (OpenFile x (fileName l) fs) as [[i fs']|e] eqn:Ho.
  2: { exists (Some e), l, fs. split; [done|]. split; [by apply linv_closed|]. split; [done|]. split; [auto with mango|].
    split; [|done]. intros Hf. unfold OpenFile in Ho. rewrite Hf in Ho. cbn in Ho. by destruct (names fs !! fileName l). }
  destruct (OpenFile_spec _ _ _ _ _ Hw Ho) as (Hw' & Hi & HC).
  assert (keeps (fileName l) (contents fs) (contents fs')) as Hk by (rewrite HC; auto with mango).
  destruct (getFileCreateTime x (fileName l) fs') as [t|e] eqn:Ht.
  - exists None, (set_fd (Some i) (set_createTime t l)), fs'. split; [done|].
    destruct (wfs_ino _ Hw' _ _ Hi) as [[n Hn] Hlt].
    split; [|split; [done|split; [done|split; [done|]]]].
    + split; [done|]. cbn. split; [|split].
      * intros q Hq. by apply (wfs_inj _ Hw' _ _ _ Hq Hi).
      * intros j Hj. congruence.
      * done.
    + intros _. split; [by eexists|]. split; [done|]. split; [done|]. intros Hnone%contents_None. cbn.
      unfold getFileCreateTime, Stat in Ht. destruct (statFault (flt x) (fileName l)); [done|].
      rewrite Hi in Ht. unfold OpenFile in Ho. destruct (openFault (flt x) (fileName l)); [done|].
      rewrite Hnone in Ho. injection Ho as <- <-. cbn in Ht. rewrite lookup_insert_eq in Ht. cbn in Ht. congruence.
  - exists (Some e), l, fs'. split; [done|]. split; [by apply linv_closed|]. split; [done|]. split; [done|].
    split; [|done]. intros Hf. destruct (wfs_ino _ Hw' _ _ Hi) as [[n Hn] _].
    unfold getFileCreateTime, Stat in Ht. rewrite Hf, Hi in Ht. cbn in Ht. by rewrite Hn in Ht.
Qed.

(** After [updateFileFd]: the open file is the one at the path, which holds
    what it held, or is new and the old one was moved. *)
Definition ready (x : bctx) (l : BingoLogger) (fs : FS) (l' : BingoLogger) (fs' : FS) : Prop :=
  (contents fs' = <[fileName l := default "" (contents fs !! fileName l)]> (contents fs) /\
     (contents fs !! fileName l = None -> fileCreateTime l' = atOpen x) /\
     (is_Some (fileFd l) -> contents fs !! fileName l = None \/ l' = l /\ current x l fs)) \/
  (is_Some (fileFd l) /\ fileCreateTime l' = atOpen x /\
   exists q d, contents fs !! q = None /\ q <> fileName l /\ contents fs !! fileName l = Some d /\
     contents fs' = <[fileName l := ""]> (<[q := d]> (contents fs))).

Lemma updateFileFd_spec x l fs : linv l fs -> exists e l' fs',
  updateFileFd x l fs = Done (e, l', fs') /\
  linv l' fs' /\ cfg_of l' = cfg_of l /\ keeps (fileName l) (contents fs) (contents fs') /\
  (flt x = noFaults -> fileName l <> "" -> e = None) /\
  (e = None -> is_Some (fileFd l') /\ fileFd l' = names fs' !! fileName l /\ ready x l fs l' fs').
Proof.
  intros Hinv. unfold updateFileFd. destruct (String.length (fileName l) =? 0)%nat eqn:Hn.
  { eexists _, l, fs. split; [done|]. split; [done|]. split; [done|]. split; [auto with mango|]. split; [|done].
    intros _ Hne. destruct (fileName l); done. }
  destruct (updateOldFileFd_spec x l fs Hinv) as (e1 & l1 & fs1 & -> & H1 & H2 & H3 & H4 & H5). go_run.
  destruct e1 as [e1|].
  { eexists _, l1, fs1. split; [done|]. split; [done|]. split; [done|]. split; [done|]. split; [|done].
    intros Hf _. by specialize (H4 Hf). }
  specialize (H5 eq_refl). pose proof (cfg_fileName _ _ H2) as Hp. destruct (fileFd l1) as [i|] eqn:Hl1.
  { exists None, l1, fs1. split; [done|]. split; [done|]. split; [done|]. split; [done|]. split; [done|].
    intros _. destruct H5 as [(_ & ? & _)|[(-> & -> & Hs & Hfd & Hc)|(_ & ? & _)]]; [congruence| |congruence].
    split; [by rewrite Hl1|]. split; [congruence|]. left. destruct Hc as (? & ? & d & Hd & ?).
    split; [rewrite Hd; cbn; by rewrite insert_id|]. split; [congruence|]. intros _. right. split; [done|]. unfold current. eauto. }
  destruct (openLogFile_spec x l1 fs1 (proj1 H1) Hl1) as (e & l2 & fs2 & -> & G1 & G2 & G3 & G4 & G5).
  rewrite Hp in G3, G5.
  assert (Hend : linv l2 fs2 /\ cfg_of l2 = cfg_of l /\ keeps (fileName l) (contents fs) (contents fs2)).
  { split; [done|]. split; [congruence|]. by eapply keeps_trans. }
  destruct e as [e|].
  { eexists _, l2, fs2. split; [done|]. destruct Hend as (? & ? & ?). split; [done|]. split; [done|]. split; [done|].
    split; [|done]. intros Hf _. by specialize (G4 Hf). }
  exists None, l2, fs2. split; [done|]. destruct Hend as (? & ? & ?). split; [done|]. split; [done|]. split; [done|].
  split; [done|]. intros _. destruct (G5 eq_refl) as (Hs & Hfd & HC & Ht). split; [done|]. split; [done|].
  destruct H5 as [(-> & _ & Hor)|[(-> & -> & Hs' & _)|(Hfd0 & _ & Hm & q & d & Hq & Hqp & Hd & HC1)]].
  - left. split; [done|]. split; [done|]. intros [i Hi]. left. destruct Hor; congruence.
  - rewrite Hl1 in Hs'. by destruct Hs'.
  - right. apply contents_None in Hm. split; [done|]. split; [by apply Ht|]. exists q, d. split; [done|]. split; [done|]. split; [done|].
    rewrite HC, Hm, HC1. cbn. rewrite insert_insert_ne, insert_delete_eq by done. by rewrite insert_insert_ne.
Qed.

(** After a write that succeeded. *)
Definition written (x : bctx) (buf : string) (l : BingoLogger) (fs : FS) (l' : BingoLogger) (fs' : FS) : Prop :=
  (contents fs' = <[fileName l := default "" (contents fs !! fileName l) +:+ buf]> (contents fs) /\
     (contents fs !! fileName l = None -> fileCreateTime l' = atOpen x) /\
     (is_Some (fileFd l) -> contents fs !! fileName l = None \/
        fileCreateTime l' = fileCreateTime l /\ current x l fs)) \/
  (is_Some (fileFd l) /\ fileCreateTime l' = atOpen x /\
   exists q d, contents fs !! q = None /\ q <> fileName l /\ contents fs !! fileName l = Some d /\
     contents fs' = <[fileName l := buf]> (<[q := d]> (contents fs))).

Lemma fd_Write_append x i buf fs : exists n e b, fd_Write x i buf fs = (n, e, append_ino x i b fs) /\
  (flt x = noFaults -> n = Z.of_nat (String.length buf) /\ e = None /\ b = buf).
Proof.
  unfold fd_Write. destruct (writeFault (flt x)) as [[k e]|] eqn:Hw.
  - eexists _, _, _. split; [done|]. intros Hf. by rewrite Hf in Hw.
  - eexists _, _, _. split; [done|]. auto.
Qed.

Lemma alter_insert_same (f : string -> string) p d (C : gmap string string) :
  alter f p (<[p := d]> C) = <[p := f d]> C.
Proof.
  apply map_eq. intros q. destruct (decide (p = q)) as [<-|Hne].
  - by rewrite lookup_alter_eq, !lookup_insert_eq.
  - by rewrite lookup_alter_ne, !lookup_insert_ne.
Qed.

Lemma writeSync_spec x buf l fs : linv l fs -> exists n e l' fs',
  writeSync x buf l fs = Done (n, e, l', fs') /\
  linv l' fs' /\ cfg_of l' = cfg_of l /\ keeps (fileName l) (contents fs) (contents fs') /\
  (flt x = noFaults -> fileName l <> "" ->
     n = Z.of_nat (String.length buf) /\ e = None /\ is_Some (fileFd l') /\
     fileFd l' = names fs' !! fileName l /\ written x buf l fs l' fs').
Proof.
  intros Hinv. unfold writeSync.
  destruct (updateFileFd_spec x l fs Hinv) as (e & l1 & fs1 & -> & H1 & H2 & H3 & H4 & H5). go_run.
  destruct e as [e|].
  { eexists _, _, l1, fs1. split; [done|]. split; [done|]. split; [done|]. split; [done|].
    intros Hf Hn. by specialize (H4 Hf Hn). }
  destruct (H5 eq_refl) as ([i Hi] & Hn & Hr). cbn [set_logTime fileFd]. rewrite Hi.
  destruct (fd_Write_append x i buf fs1) as (n & e & b & -> & Hb). rewrite Hi in Hn. symmetry in Hn.
  pose proof (cfg_fileName _ _ H2) as Hp. destruct H1 as [Hw Hfd].
  pose proof (append_ino_contents x i b fs1 _ Hw Hn) as HC.
  eexists _, _, _, _. split; [done|]. split; [|split; [done|split]].
  - split; [by apply append_ino_wfs|]. exact Hfd.
  - eapply keeps_trans; [exact H3|]. rewrite HC. auto with mango.
  - intros Hf _. destruct (Hb Hf) as (-> & -> & ->). split; [done|]. split; [done|].
    cbn [set_logTime fileFd append_ino names]. rewrite Hi. split; [by eexists|]. split; [done|].
    destruct Hr as [(HC1 & Hnew & Hc)|(Hfd0 & Ht & q & d & Hq & Hqp & Hd & HC1)]; rewrite HC1 in HC.
    + left. rewrite alter_insert_same in HC. split; [done|]. split; [done|]. intros Hs. destruct (Hc Hs) as [?|[-> ?]]; auto.
    + right. split; [done|]. split; [done|]. exists q, d. rewrite alter_insert_same in HC. auto.
Qed.

(** ** Sequences of writes *)

(** Calls of [Write], and the removal of the log file by someone else. *)
Inductive fileOp := OpWrite (x : bctx) (buf : string) | OpRemove.

Definition remove_name (p : string) (fs : FS) : FS := MkFS (delete p (names fs)) (inodes fs) (nextIno fs).

Fixpoint run_ops (ops : list fileOp) (l : BingoLogger) (fs : FS) : outcome (list (Z * option error) * BingoLogger * FS) :=
  match ops with
  | [] => Done ([], l, fs)
  | OpWrite x buf :: ops =>
      '(n, e, l, fs) ← Write x buf l fs;
      '(rs, l, fs) ← run_ops ops l fs;
      Done ((n, e) :: rs, l, fs)
  | OpRemove :: ops => run_ops ops l (remove_name (fileName l) fs)
  end.

Lemma remove_linv l fs : linv l fs -> linv l (remove_name (fileName l) fs).
Proof.
  intros [[H1 H2] Hfd]. split.
  - split; cbn; intros *; rewrite ?lookup_delete_Some; [intros [_ ?] [_ ?]; eauto|intros [_ ?]; eauto].
  - destruct (fileFd l) as [i|]; [|done]. destruct Hfd as (Ha & Hb & Hc). cbn.
    split; [|split; [|done]]; intros *; rewrite lookup_delete_Some; intros [? ?]; [by apply Ha|done].
Qed.

Lemma remove_keeps p fs : keeps p (contents fs) (contents (remove_name p fs)).
Proof.
  intros q d Hq. rewrite !contents_lookup. cbn. by rewrite lookup_delete_ne.
Qed.

(** A logger in use, synchronous. *)
Definition in_use (l : BingoLogger) : Prop := isInited l = true /\ isAsync l = false.

Lemma in_use_cfg l l' : cfg_of l' = cfg_of l -> in_use l -> in_use l'.
Proof. intros [=]. unfold in_use. congruence. Qed.

Lemma Write_in_use x buf l fs : in_use l -> Write x buf l fs = writeSync x buf l fs.
Proof. intros [H1 H2]. unfold Write. by rewrite H1, H2. Qed.

Lemma run_ops_keeps (ops : list fileOp) (l : BingoLogger) (fs : FS) :
  in_use l -> linv l fs ->
  exists rs l' fs', run_ops ops l fs = Done (rs, l', fs') /\ in_use l' /\ linv l' fs' /\
    forall q d, q <> fileName l -> contents fs !! q = Some d -> contents fs' !! q = Some d.
Proof.
  revert l fs. induction ops as [|[x buf|] ops IH]; intros l fs Hu Hinv.
  - exists [], l, fs. auto.
  - cbn [run_ops]. rewrite Write_in_use by done.
    destruct (writeSync_spec x buf l fs Hinv) as (n & e & l1 & fs1 & -> & H1 & H2 & H3 & _). go_run.
    destruct (IH l1 fs1 (in_use_cfg _ _ H2 Hu) H1) as (rs & l' & fs' & -> & G1 & G2 & G3).
    rewrite (cfg_fileName _ _ H2) in G3. eexists _, l', fs'. split; [done|]. split; [done|]. split; [done|].
    intros q d Hq Hd. apply G3; [done|]. by apply H3.
  - cbn [run_ops]. destruct (IH l _ Hu (remove_linv _ _ Hinv)) as (rs & l' & fs' & -> & G1 & G2 & G3).
    exists rs, l', fs'. split; [done|]. split; [done|]. split; [done|]. intros q d Hq Hd. apply G3; [done|].
    by apply remove_keeps.
Qed.

(** C21. Rotation never overwrites a file.  Whatever fails (stat, mkdir, open,
    rename, write), and even if the log file is removed behind the logger's
    back, a sequence of writes returns (the search for a free name ends) and
    leaves every file other than the log file as it was. *)
Theorem bingo_never_overwrites (ops : list fileOp) (l : BingoLogger) (fs : FS) :
  in_use l -> linv l fs ->
  exists rs l' fs', run_ops ops l fs = Done (rs, l', fs') /\ in_use l' /\ linv l' fs' /\
    forall q d, q <> fileName l -> contents fs !! q = Some d -> contents fs' !! q = Some d.
Proof. apply run_ops_keeps. Qed.

(** ** Nothing is lost *)

Definition cat (l : list string) : string := foldr String.append "" l.

Lemma cat_app l k : cat (l ++ k) = cat l +:+ cat k.
Proof. induction l as [|s l IH]; [done|].
  change (s +:+ cat (l ++ k) = (s +:+ cat l) +:+ cat k). by rewrite IH, string_assoc.
Qed.

Lemma string_app_nil (s : string) : s +:+ "" = s.
Proof. induction s as [|c s IH]; [done|]. change (String c (s +:+ "") = String c s). by rewrite IH. Qed.

(** Where the lines of [cur] and [bufs] ended up: whole lines, in order. *)
Definition archived (p : string) (C C' : gmap string string) (cur bufs : list string) : Prop :=
  exists (arch : list string) (parts : list (list string)) (last : list string),
    concat parts ++ last = cur ++ bufs /\
    Forall2 (fun q part => C' !! q = Some (cat part)) arch parts /\
    default "" (C' !! p) = cat last /\
    NoDup arch /\ Forall (fun q => q <> p /\ C !! q = None) arch.

Lemma archived_append p C C' cur buf bufs : default "" (C !! p) = cat cur ->
  archived p (<[p := default "" (C !! p) +:+ buf]> C) C' (cur ++ [buf]) bufs ->
  archived p C C' cur (buf :: bufs).
Proof.
  intros Hc (arch & parts & last & H1 & H2 & H3 & H4 & H5). exists arch, parts, last.
  split; [by rewrite H1, <- app_assoc|]. split; [done|]. split; [done|]. split; [done|].
  eapply Forall_impl; [exact H5|]. intros q [Hq HC]. by rewrite lookup_insert_ne in HC.
Qed.

Lemma archived_rotate p C C' q d cur buf bufs : C !! q = None -> q <> p -> C !! p = Some d -> d = cat cur ->
  C' !! q = Some d -> archived p (<[p := buf]> (<[q := d]> C)) C' [buf] bufs ->
  archived p C C' cur (buf :: bufs).
Proof.
  intros Hq Hqp Hd Hc HC' (arch & parts & last & H1 & H2 & H3 & H4 & H5).
  exists (q :: arch), (cur :: parts), last. split; [cbn; by rewrite <- app_assoc, H1|].
  split; [by constructor; [rewrite HC', Hc|]|]. split; [done|].
  rewrite Forall_forall in H5. split.
  - constructor; [|done]. intros [_ Hin]%H5. rewrite lookup_insert_ne, lookup_insert_eq in Hin by done. done.
  - constructor; [done|]. apply Forall_forall. intros r [Hr HC]%H5. split; [done|].
    rewrite lookup_insert_ne in HC by done. by apply lookup_insert_None in HC as [? _].
Qed.

(** Writes one after the other, straight to the file. *)
Fixpoint writes (ws : list (bctx * string)) (l : BingoLogger) (fs : FS)
  : outcome (list (Z * option error) * BingoLogger * FS) :=
  match ws with
  | [] => Done ([], l, fs)
  | (x, buf) :: ws =>
      '(n, e, l, fs) ← writeSync x buf l fs;
      '(rs, l, fs) ← writes ws l fs;
      Done ((n, e) :: rs, l, fs)
  end.

Lemma run_ops_writes ws : forall l fs, in_use l -> linv l fs ->
  run_ops ((fun w => OpWrite w.1 w.2) <$> ws) l fs = writes ws l fs.
Proof.
  induction ws as [|[x buf] ws IH]; intros l fs Hu Hinv; [done|].
  cbn [fmap list_fmap run_ops writes fst snd]. rewrite Write_in_use by done.
  destruct (writeSync_spec x buf l fs Hinv) as (n & e & l1 & fs1 & -> & H1 & H2 & _). go_run.
  rewrite IH; [done|by eapply in_use_cfg|done].
Qed.

Lemma writes_keeps ws : forall l fs, linv l fs ->
  exists rs l' fs', writes ws l fs = Done (rs, l', fs') /\ linv l' fs' /\ keeps (fileName l) (contents fs) (contents fs').
Proof.
  induction ws as [|[x buf] ws IH]; intros l fs Hinv; cbn [writes].
  { eexists _, _, _. split; [done|]. split; [done|]. apply keeps_refl. }
  destruct (writeSync_spec x buf l fs Hinv) as (n & e & l1 & fs1 & -> & H1 & H2 & H3 & _). go_run.
  destruct (IH l1 fs1 H1) as (rs & l' & fs' & -> & G1 & G2). rewrite (cfg_fileName _ _ H2) in G2.
  eexists _, _, _. split; [done|]. split; [done|]. by eapply keeps_trans.
Qed.

Lemma writes_archived ws : forall l fs cur,
  linv l fs -> fileName l <> "" -> Forall (fun w => flt w.1 = noFaults) ws ->
  default "" (contents fs !! fileName l) = cat cur ->
  exists l' fs', writes ws l fs = Done ((fun w => (Z.of_nat (String.length w.2), None)) <$> ws, l', fs') /\
    archived (fileName l) (contents fs) (contents fs') cur ws.*2.
Proof.
  induction ws as [|[x buf] ws IH]; intros l fs cur Hinv Hn Hf Hc.
  { exists l, fs. split; [done|]. exists [], [], cur. cbn. split; [by rewrite app_nil_r|].
    split; [constructor|]. split; [done|]. split; constructor. }
  apply Forall_cons in Hf as [Hx Hf]. cbn [fst] in Hx. cbn [fmap list_fmap writes fst snd].
  destruct (writeSync_spec x buf l fs Hinv) as (n & e & l1 & fs1 & -> & H1 & H2 & _ & H4). go_run.
  destruct (H4 Hx Hn) as (-> & -> & _ & _ & Hwr). pose proof (cfg_fileName _ _ H2) as Hp.
  assert (Hn1 : fileName l1 <> "") by congruence.
  destruct Hwr as [(HC & _)|(_ & _ & q & d & Hq & Hqp & Hd & HC)].
  - destruct (IH l1 fs1 (cur ++ [buf]) H1 Hn1 Hf) as (l' & fs' & Hrun & Harch).
    { rewrite Hp, HC, lookup_insert_eq. cbn [default from_option]. rewrite cat_app, Hc. cbn. by rewrite string_app_nil. }
    rewrite Hrun. exists l', fs'. split; [done|]. rewrite Hp, HC in Harch. by apply archived_append.
  - destruct (IH l1 fs1 [buf] H1 Hn1 Hf) as (l' & fs' & Hrun & Harch).
    { rewrite Hp, HC, lookup_insert_eq. cbn. by rewrite string_app_nil. }
    destruct (writes_keeps ws l1 fs1 H1) as (rs & l'' & fs'' & Hrun' & _ & Hk).
    rewrite Hrun in Hrun'. simplify_eq. rewrite Hrun. exists l'', fs''. split; [done|].
    rewrite Hp, HC in Harch. eapply archived_rotate; [exact Hq|done|exact Hd| |apply Hk; [congruence|]|exact Harch].
    + rewrite Hd in Hc. exact Hc.
    + rewrite HC, lookup_insert_ne, lookup_insert_eq by done. done.
Qed.

Lemma run_writes_archived ws l fs cur :
  in_use l -> linv l fs -> fileName l <> "" -> Forall (fun w => flt w.1 = noFaults) ws ->
  default "" (contents fs !! fileName l) = cat cur ->
  exists l' fs', run_ops ((fun w => OpWrite w.1 w.2) <$> ws) l fs =
      Done ((fun w => (Z.of_nat (String.length w.2), None)) <$> ws, l', fs') /\
    archived (fileName l) (contents fs) (contents fs') cur ws.*2.
Proof. intros Hu Hinv Hn Hf Hc. rewrite run_ops_writes by done. by apply writes_archived. Qed.

(** C10. No line is lost, split or reordered by rotation.  While the system does
    not fail, every write returns its full length, and at the end what the
    log file held before and all the lines written, in order, are spread
    over the rotated files and the log file in whole lines: the rotated files
    have distinct names that were free before. *)
Theorem bingo_keeps_all_lines (ws : list (bctx * string)) (l : BingoLogger) (fs : FS) :
  in_use l -> linv l fs -> fileName l <> "" -> Forall (fun w => flt w.1 = noFaults) ws ->
  exists l' fs' (arch : list string) (parts : list (list string)) (last : list string),
    run_ops ((fun w => OpWrite w.1 w.2) <$> ws) l fs =
      Done ((fun w => (Z.of_nat (String.length w.2), None)) <$> ws, l', fs') /\
    concat parts ++ last = default "" (contents fs !! fileName l) :: ws.*2 /\
    Forall2 (fun q part => contents fs' !! q = Some (cat part)) arch parts /\
    default "" (contents fs' !! fileName l) = cat last /\
    NoDup arch /\ Forall (fun q => q <> fileName l /\ contents fs !! q = None) arch.
Proof.
  intros Hu Hinv Hn Hf.
  destruct (run_writes_archived ws l fs [default "" (contents fs !! fileName l)] Hu Hinv Hn Hf) as (l' & fs' & H1 & H2).
  { cbn. by rewrite string_app_nil. }
  destruct H2 as (arch & parts & last & H2 & H3 & H4 & H5 & H6). exists l', fs', arch, parts, last. auto 10.
Qed.

(** *** What one file holds *)

(** The lines of a file, each with its call: the date on which the file was
    opened is that of every later line, and the file was below the split size
    before its last line. *)
Definition one_file (z split : Z) (part : list (bctx * string)) : Prop :=
  match part with
  | [] => True
  | (x0, _) :: rest => Forall (fun w => Date z (atUpdate w.1) = Date z (atOpen x0)) rest
  end /\
  forall init w, part = init ++ [w] -> init = [] \/ Z.of_nat (String.length (cat init.*2)) < Z.shiftl split 20.

Lemma one_file_first z split w : one_file z split [w].
Proof.
  destruct w as [x buf]. split; [constructor|]. intros init w' E. left. by destruct init as [|? [|? ?]].
Qed.

Lemma one_file_snoc z split x0 b0 rest x buf : one_file z split ((x0, b0) :: rest) ->
  Date z (atUpdate x) = Date z (atOpen x0) -> Z.of_nat (String.length (cat (b0 :: rest.*2))) < Z.shiftl split 20 ->
  one_file z split (((x0, b0) :: rest) ++ [(x, buf)]).
Proof.
  intros [H1 _] Hd Hl. split; [cbn; apply Forall_app; split; [done|by constructor]|].
  intros init w E. right. apply app_inj_tail in E as [<- _]. exact Hl.
Qed.

(** The log file is open and holds [old] and then the lines [cur]; when the
    logger made it, [cur] is all it holds. *)
Record filling (z : Z) (l : BingoLogger) (fs : FS) (old : string) (cur : list (bctx * string)) (made : bool) : Prop := {
  fill_inv : linv l fs;
  fill_fd : is_Some (fileFd l);
  fill_text : contents fs !! fileName l = Some (old +:+ cat cur.*2);
  fill_made : made = true -> old = "" /\ one_file z (fileSplitMB l) cur /\
    exists x0 b0 rest, cur = (x0, b0) :: rest /\ fileCreateTime l = atOpen x0
}.

(** The texts of the files: the first one began with [old]. *)
Definition texts (old : string) (first : list (bctx * string)) (rest : list (list (bctx * string))) : list string :=
  (old +:+ cat first.*2) :: ((fun part => cat part.*2) <$> rest).

Lemma cfg_split l l' : cfg_of l' = cfg_of l -> fileSplitMB l' = fileSplitMB l.
Proof. by intros [=]. Qed.

Lemma cat_snoc (cur : list (bctx * string)) old x buf : (old +:+ cat cur.*2) +:+ buf = old +:+ cat (cur ++ [(x, buf)]).*2.
Proof. rewrite fmap_app, cat_app. cbn. by rewrite string_app_nil, string_assoc. Qed.

Lemma writes_fill z ws : forall l fs old cur made, filling z l fs old cur made -> fileName l <> "" ->
  Forall (fun w => flt w.1 = noFaults /\ zone w.1 = z) ws ->
  StronglySorted (fun w w' => Unix (atOpen w.1) <= Unix (atUpdate w'.1)) (cur ++ ws) ->
  exists l' fs' arch first rest,
    writes ws l fs = Done ((fun w => (Z.of_nat (String.length w.2), None)) <$> ws, l', fs') /\
    concat (first :: rest) = cur ++ ws /\ (exists t, first = cur ++ t) /\
    Forall2 (fun q t => contents fs' !! q = Some t) (arch ++ [fileName l]) (texts old first rest) /\
    (made = true -> one_file z (fileSplitMB l) first) /\ Forall (one_file z (fileSplitMB l)) rest.
Proof.
  induction ws as [|[x buf] ws IH]; intros l fs old cur made [Hinv Hfd Htx Hmd] Hn Hf Hs.
  { exists l, fs, [], cur, []. cbn [writes fmap list_fmap]. split; [done|]. split; [cbn; by rewrite !app_nil_r|].
    split; [exists []; by rewrite app_nil_r|]. split; [by repeat constructor|]. split; [|constructor]. intros Hx. by destruct (Hmd Hx) as (_ & ? & _). }
  apply Forall_cons in Hf as [[Hx Hz] Hf]. cbn [fst] in Hx, Hz. cbn [fmap list_fmap writes fst snd].
  destruct (writeSync_spec x buf l fs Hinv) as (n & e & l1 & fs1 & -> & H1 & H2 & _ & H4). go_run.
  destruct (H4 Hx Hn) as (-> & -> & Hfd1 & _ & Hwr). pose proof (cfg_fileName _ _ H2) as Hp. pose proof (cfg_split _ _ H2) as Hsp.
  assert (Hn1 : fileName l1 <> "") by congruence.
  destruct Hwr as [(HC & _ & Hc)|(_ & Hct & q & d & Hq & Hqp & Hd & HC)].
  - destruct (Hc Hfd) as [?|[Ht (Ht1 & Ht2 & d & Hd & Hlen)]]; [congruence|]. rewrite Htx in Hd. injection Hd as <-.
    assert (Hfill : filling z l1 fs1 old (cur ++ [(x, buf)]) made).
    { split; [done|done|by rewrite Hp, HC, lookup_insert_eq, Htx, <- cat_snoc|]. intros Hx'.
      destruct (Hmd Hx') as (-> & Hone & x0 & b0 & rest & -> & Hct). split; [done|].
      split; [|exists x0, b0, (rest ++ [(x, buf)]); by rewrite Ht]. rewrite Hsp. apply one_file_snoc; [done| |exact Hlen].
      rewrite <- Hct. symmetry. rewrite <- Hz. apply same_Day_same_Date; [|done]. split; [|done]. rewrite Hct.
      apply StronglySorted_inv in Hs as [_ Hs]. rewrite Forall_app in Hs. destruct Hs as [_ [Hs _]%Forall_cons]. exact Hs. }
    destruct (IH l1 fs1 old (cur ++ [(x, buf)]) made Hfill Hn1 Hf) as (l' & fs' & arch & first & rest & Hrun & Hcat & [t ->] & Htxt & Ho1 & Ho2).
    { by rewrite <- app_assoc. }
    rewrite Hrun. exists l', fs', arch, ((cur ++ [(x, buf)]) ++ t), rest. rewrite Hp in Htxt. rewrite Hsp in Ho1, Ho2.
    split; [done|]. split; [rewrite Hcat; by rewrite <- app_assoc|]. split; [exists ((x, buf) :: t); by rewrite <- app_assoc|]. done.
  - rewrite Htx in Hd. injection Hd as <-.
    assert (Hfill : filling z l1 fs1 "" [(x, buf)] true).
    { split; [done|done|rewrite Hp, HC, lookup_insert_eq; cbn; by rewrite string_app_nil|]. intros _. split; [done|].
      split; [apply one_file_first|]. by exists x, buf, []. }
    assert (Hs1 : StronglySorted (fun w w' : bctx * string => Unix (atOpen w.1) <= Unix (atUpdate w'.1)) ([(x, buf)] ++ ws)).
    { clear - Hs. induction cur as [|c cur IHc]; [exact Hs|]. apply IHc. by apply StronglySorted_inv in Hs as [Hs _]. }
    destruct (IH l1 fs1 "" [(x, buf)] true Hfill Hn1 Hf Hs1) as (l' & fs' & arch & first & rest & Hrun & Hcat & [t ->] & Htxt & Ho1 & Ho2).
    destruct (writes_keeps ws l1 fs1 H1) as (rs & l'' & fs'' & Hrun' & _ & Hk). rewrite Hrun in Hrun'. simplify_eq. rewrite Hrun.
    exists l'', fs'', (q :: arch), cur, (([(x, buf)] ++ t) :: rest). rewrite Hp in Htxt. rewrite Hsp in Ho1, Ho2.
    split; [done|]. split; [cbn [concat]; f_equal; exact Hcat|]. split; [exists []; by rewrite app_nil_r|]. split.
    + cbn [app texts fmap list_fmap]. constructor; [|exact Htxt]. apply Hk; [congruence|].
      rewrite HC, lookup_insert_ne, lookup_insert_eq by done. done.
    + split; [|by constructor; [apply Ho1|]]. intros Hx'. by destruct (Hmd Hx') as (_ & ? & _).
Qed.

(** C33. What the files hold.  While the system does not fail and its clock does not
    step back, every file that the logger makes holds lines of one date, that
    of its opening, and was below the split size before its last line; the
    lines fill the files in order.  A log file that is already there when the
    logger opens it (after a restart) is not looked at first: whatever its size
    and date, the first line is appended to it. *)
Theorem bingo_file_bounds (z : Z) (x : bctx) (buf : string) (ws : list (bctx * string)) (l : BingoLogger) (fs : FS) :
  in_use l -> linv l fs -> fileName l <> "" ->
  Forall (fun w => flt w.1 = noFaults /\ zone w.1 = z) ((x, buf) :: ws) ->
  StronglySorted (fun w w' => Unix (atOpen w.1) <= Unix (atUpdate w'.1)) ((x, buf) :: ws) ->
  exists l' fs' arch first rest,
    run_ops ((fun w => OpWrite w.1 w.2) <$> ((x, buf) :: ws)) l fs =
      Done ((fun w => (Z.of_nat (String.length w.2), None)) <$> ((x, buf) :: ws), l', fs') /\
    concat (first :: rest) = (x, buf) :: ws /\
    Forall2 (fun q t => contents fs' !! q = Some t) (arch ++ [fileName l]) (texts (default "" (contents fs !! fileName l)) first rest) /\
    (contents fs !! fileName l = None -> one_file z (fileSplitMB l) first) /\ Forall (one_file z (fileSplitMB l)) rest /\
    (fileFd l = None -> exists t, first = (x, buf) :: t).
Proof.
  intros Hu Hinv Hn Hf Hs. rewrite run_ops_writes by done.
  assert (Hopen : (exists i d, fileFd l = Some i /\ contents fs !! fileName l = Some d) \/
    (fileFd l = None \/ contents fs !! fileName l = None)).
  { destruct (fileFd l) as [i|]; [|by right; left]. destruct (contents fs !! fileName l) as [d|]; [left; by exists i, d|by right; right]. }
  destruct Hopen as [(i & d & Hi & Hd)|Hor].
  { destruct (writes_fill z ((x, buf) :: ws) l fs d [] false) as (l' & fs' & arch & first & rest & H1 & H2 & _ & H4 & _ & H6); [|done|done|done|].
    - split; [done|by rewrite Hi|by rewrite Hd, string_app_nil|done].
    - exists l', fs', arch, first, rest. rewrite Hd, Hi. by split_and!. }
  apply Forall_cons in Hf as [[Hx Hz] Hf]. cbn [fst] in Hx, Hz. cbn [writes fmap list_fmap fst snd].
  destruct (writeSync_spec x buf l fs Hinv) as (n & e & l1 & fs1 & -> & H1 & H2 & _ & H4). go_run.
  destruct (H4 Hx Hn) as (-> & -> & Hfd1 & _ & Hwr). pose proof (cfg_fileName _ _ H2) as Hp. pose proof (cfg_split _ _ H2) as Hsp.
  set (old := default "" (contents fs !! fileName l)). set (made := bool_decide (contents fs !! fileName l = None)).
  assert (Hfill : filling z l1 fs1 old [(x, buf)] made).
  { destruct Hwr as [(HC & Hnew & _)|([i Hi] & _ & q & d & _ & _ & Hd & _)].
    - split; [done|done|rewrite Hp, HC, lookup_insert_eq; cbn; by rewrite string_app_nil|]. unfold made. rewrite bool_decide_eq_true. intros Hnone.
      split; [unfold old; by rewrite Hnone|]. split; [apply one_file_first|]. exists x, buf, []. split; [done|]. by apply Hnew.
    - by destruct Hor; congruence. }
  assert (Hn1 : fileName l1 <> "") by congruence.
  destruct (writes_fill z ws l1 fs1 old [(x, buf)] made Hfill Hn1 Hf Hs) as (l' & fs' & arch & first & rest & R1 & R2 & [t ->] & R4 & R5 & R6).
  rewrite R1. exists l', fs', arch, ([(x, buf)] ++ t), rest. rewrite Hp in R4. rewrite Hsp in R5, R6.
  split; [done|]. split; [exact R2|]. split; [exact R4|]. split; [|split; [done|intros _; by exists t]].
  intros Hnone. apply R5. unfold made. by rewrite bool_decide_eq_true.
Qed.

(** ** The asynchronous logger *)

Lemma writeAll_returns queue last : forall sb l fs, linv l fs ->
  exists l' fs', writeAll queue last sb l fs = Done (l', fs') /\ linv l' fs'.
Proof.
  induction queue as [|[x buf] queue IH]; intros sb l fs Hinv; cbn [writeAll].
  - destruct (0 <? _); [|eauto].
    destruct (writeSync_spec last sb l fs Hinv) as (n & e & l1 & fs1 & -> & H1 & _). eauto.
  - destruct (_ >? _); [|by apply IH].
    destruct (writeSync_spec x sb l fs Hinv) as (n & e & l1 & fs1 & -> & H1 & _). go_run. by apply IH.
Qed.

Lemma loopFunc_hangs evs : forall l fs, linv l fs -> loopFunc evs l fs = Hang.
Proof.
  induction evs as [|[[ev queue] last] evs IH]; intros l fs Hinv; cbn [loopFunc]; [done|].
  assert (exists l' fs', writeAllFunc queue last l fs = Done (l', fs') /\ linv l' fs') as (l' & fs' & E & H1).
  { unfold writeAllFunc. destruct (0 <? _); [by apply writeAll_returns|eauto]. }
  rewrite E. destruct ev; go_run; by apply IH.
Qed.

(** *** Batching *)

(** The chunks [writeAll] writes: queued buffers, joined while they fit. *)
Fixpoint batches (queue : list (bctx * string)) (last : bctx) (sb : string) : list (bctx * string) :=
  match queue with
  | [] => if 0 <? Z.of_nat (String.length sb) then [(last, sb)] else []
  | (x, buf) :: queue =>
      if Z.of_nat (String.length sb) + Z.of_nat (String.length buf) >? _asyncByteSizePerIOWrite
      then (x, sb) :: batches queue last buf
      else batches queue last (sb +:+ buf)
  end.

Lemma writeAll_batches queue last : forall sb l fs,
  writeAll queue last sb l fs = '(_, l, fs) ← writes (batches queue last sb) l fs; Done (l, fs).
Proof.
  induction queue as [|[x buf] queue IH]; intros sb l fs; cbn [writeAll batches].
  - destruct (0 <? _); [|done]. cbn [writes]. by destruct (writeSync last sb l fs) as [[[[n e] l1] fs1]| |].
  - destruct (_ >? _); [|apply IH]. cbn [writes].
    destruct (writeSync x sb l fs) as [[[[n e] l1] fs1]| |]; [|done|done]. go_run.
    change ("" +:+ buf) with buf. rewrite IH. by destruct (writes (batches queue last buf) l1 fs1) as [[[rs l2] fs2]| |].
Qed.

Lemma cat_batches queue last : forall sb, cat (batches queue last sb).*2 = sb +:+ cat queue.*2.
Proof.
  induction queue as [|[x buf] queue IH]; intros sb; cbn [batches].
  - destruct (Z.ltb_spec 0 (Z.of_nat (String.length sb))) as [_|Hl]; [done|]. destruct sb; [done|cbn in Hl; lia].
  - destruct (_ >? _).
    + cbn [fmap list_fmap snd]. change (sb +:+ cat (batches queue last buf).*2 = sb +:+ (buf +:+ cat queue.*2)).
      by rewrite IH.
    + cbn [fmap list_fmap snd]. change (cat (batches queue last (sb +:+ buf)).*2 = sb +:+ (buf +:+ cat queue.*2)).
      by rewrite IH, string_assoc.
Qed.

Lemma batches_ok (P : bctx -> Prop) queue last : Forall (fun w => P w.1) queue -> P last ->
  forall sb, Forall (fun w => P w.1) (batches queue last sb).
Proof.
  intros Hq Hl. induction Hq as [|[x buf] queue Hx _ IH]; intros sb; cbn [batches].
  - destruct (0 <? _); repeat constructor. exact Hl.
  - destruct (_ >? _); [constructor; [exact Hx|apply IH]|apply IH].
Qed.

(** A chunk exceeds the limit only if it is one queued buffer. *)
Lemma batches_bounded (P : string -> Prop) queue last : Forall (fun w => P w.2) queue ->
  forall sb, Z.of_nat (String.length sb) <= _asyncByteSizePerIOWrite \/ P sb ->
  Forall (fun w => Z.of_nat (String.length w.2) <= _asyncByteSizePerIOWrite \/ P w.2) (batches queue last sb).
Proof.
  induction 1 as [|[x buf] queue Hx _ IH]; intros sb Hsb; cbn [batches].
  - destruct (0 <? _); [|constructor]. constructor; [exact Hsb|constructor].
  - destruct (Z.gtb_spec (Z.of_nat (String.length sb) + Z.of_nat (String.length buf)) _asyncByteSizePerIOWrite).
    + constructor; [exact Hsb|]. apply IH. by right.
    + apply IH. left. rewrite length_string_app. lia.
Qed.

(** The log as a reader of its files sees it: the rotated files and then the
    log file. *)
Definition stream (p : string) (C : gmap string string) (arch : list string) : string :=
  cat ((fun q => default "" (C !! q)) <$> arch) +:+ default "" (C !! p).

Lemma cat_concat (ls : list (list string)) : cat (concat ls) = cat (cat <$> ls).
Proof. induction ls as [|l ls IH]; [done|]. cbn [concat fmap list_fmap]. rewrite cat_app, IH. done. Qed.

Lemma archived_stream p C C' cur bufs : archived p C C' cur bufs ->
  exists arch, stream p C' arch = cat cur +:+ cat bufs /\
    NoDup arch /\ Forall (fun q => q <> p /\ C !! q = None) arch.
Proof.
  intros (arch & parts & last & H1 & H2 & H3 & H4 & H5). exists arch. split; [|done].
  rewrite <- cat_app, <- H1, cat_app, cat_concat. unfold stream. rewrite H3. f_equal. f_equal.
  clear - H2. induction H2 as [|q part arch parts Hq _ IH]; [done|]. cbn [fmap list_fmap]. rewrite Hq, IH. done.
Qed.

(** C11. Batched writing is equivalent to writing line by line.  While the system
    does not fail, handing a queue of lines to the asynchronous writer, which
    joins them into chunks of at most 10 MiB (or a single longer line), leaves
    a log that reads the same, rotated files and log file taken together, as
    writing the lines one by one to the synchronous logger. *)
Theorem bingo_batches_equivalent (queue : list (bctx * string)) (last : bctx) (l : BingoLogger) (fs : FS) :
  in_use l -> linv l fs -> fileName l <> "" -> flt last = noFaults -> Forall (fun w => flt w.1 = noFaults) queue ->
  exists l1 fs1 arch1 rs l2 fs2 arch2,
    writeAllFunc queue last l fs = Done (l1, fs1) /\
    run_ops ((fun w => OpWrite w.1 w.2) <$> queue) l fs = Done (rs, l2, fs2) /\
    stream (fileName l) (contents fs1) arch1 = stream (fileName l) (contents fs2) arch2 /\
    stream (fileName l) (contents fs2) arch2 = default "" (contents fs !! fileName l) +:+ cat queue.*2 /\
    NoDup arch1 /\ Forall (fun q => q <> fileName l /\ contents fs !! q = None) arch1 /\
    Forall (fun w => Z.of_nat (String.length w.2) <= _asyncByteSizePerIOWrite \/ w.2 ∈ queue.*2) (batches queue last "").
Proof.
  intros Hu Hinv Hn Hlast Hq. set (cur := [default "" (contents fs !! fileName l)]).
  assert (Hcur : default "" (contents fs !! fileName l) = cat cur) by (cbn; by rewrite string_app_nil).
  destruct (writes_archived (batches queue last "") l fs cur Hinv Hn) as (l1 & fs1 & H1 & A1).
  { by apply (batches_ok (fun x => flt x = noFaults)). }
  { done. }
  destruct (run_writes_archived queue l fs cur Hu Hinv Hn Hq Hcur) as (l2 & fs2 & H2 & A2).
  apply archived_stream in A1 as (arch1 & S1 & N1 & F1). apply archived_stream in A2 as (arch2 & S2 & _ & _).
  rewrite cat_batches in S1. change ("" +:+ cat queue.*2) with (cat queue.*2) in S1.
  eexists l1, fs1, arch1, _, l2, fs2, arch2.
  assert (Hw : writeAllFunc queue last l fs = writeAll queue last "" l fs).
  { unfold writeAllFunc. destruct queue; done. }
  split; [by rewrite Hw, writeAll_batches, H1|]. split; [exact H2|]. split; [by rewrite S1, S2|].
  split; [by rewrite S2, <- Hcur|]. split; [done|]. split; [done|].
  apply (batches_bounded (fun b => b ∈ queue.*2)); [|left; done].
  apply Forall_forall. intros w Hw'. by apply list_elem_of_fmap_2.
Qed.

(** C40. An asynchronous logger never starts: the write loop runs inside [Init]
    instead of beside it and has no way out, whatever requests and ticks come
    and even if its request channel is closed, so setting up the plugin with
    a valid asynchronous configuration never returns: it waits for ever, or it
    panics, when the queue is too large or the interval too long for its
    type. *)
Theorem bingo_async_never_starts (cfg : LogCfg) (evs : list (loopEvent * list (bctx * string) * bctx)) (fs : FS)
    (s : logState BingoLogger) :
  CheckCfgValid cfg = None -> IsAsync cfg = true -> wfs fs ->
  (forall r, NewBingoLogger cfg evs fs <> Done r) /\ (forall r, Setup (Ok cfg) evs fs s <> Done r) /\
  (chanBytes (AsyncCacheSize cfg) <= 2 ^ 48 -> 0 < tickInterval (AsyncWriteMillSec cfg) ->
   NewBingoLogger cfg evs fs = Hang /\ Setup (Ok cfg) evs fs s = Hang).
Proof.
  intros Hc Ha Hw.
  assert (Init cfg evs zeroLogger fs = if chanBytes (AsyncCacheSize cfg) >? 2 ^ 48 then Panic "makechan: size out of range"
    else if tickInterval (AsyncWriteMillSec cfg) <=? 0 then Panic "non-positive interval for NewTicker" else Hang) as Hi.
  { unfold Init. rewrite Hc, Ha. cbn [zeroLogger isInited]. destruct (_ >? _); [done|]. unfold asyncWriteLoop. cbn [asyncWriteMillSec].
    destruct (_ <=? _); [done|]. rewrite loopFunc_hangs; [done|]. by split. }
  unfold NewBingoLogger, Setup. rewrite Hi. split; [|split].
  - intros r. by destruct (_ >? _); [|destruct (_ <=? _)].
  - intros r. by destruct (_ >? _); [|destruct (_ <=? _)].
  - intros H1 H2. rewrite Z.gtb_ltb, (proj2 (Z.ltb_ge _ _)) by lia. by rewrite (proj2 (Z.leb_gt _ _)) by lia.
Qed.

(** ** As the logger of the front end *)

Definition bingo_ok (w : bingoWorld) : Prop := linv (logger w) (disk w) /\ isAsync (logger w) = false.

#[global] Instance bingo_laws : LoggerLaws bingoWorld bctx bingo_ok.
Proof.
  constructor. intros x tag a text w [Hinv Ha]. cbn [Log.Output bingo_logger Log.GetLevel]. unfold Output.
  destruct (isInited (logger w)) eqn:Hi.
  - rewrite Write_in_use by done. set (buf := _ +:+ newline).
    destruct (writeSync_spec x buf _ _ Hinv) as (n & e & l1 & fs1 & -> & H1 & H2 & _). go_run.
    eexists. split; [done|]. injection H2 as Hl _ _ Hs _ _ _. split; [exact Hl|]. split; [exact H1|]. cbn. congruence.
  - eexists. split; [done|]. done.
Qed.

(** *** Witnesses *)

(** A started logger over a disk with an old log file and another file. *)
Definition demo_fs : FS :=
  MkFS {[ "s.log" := 0%nat; "s.log.20210826" := 1%nat ]}
    {[ 0%nat := MkInode "old;" (MkTime 1629941248 0); 1%nat := MkInode "archive" (MkTime 1629941000 0) ]} 2.

Definition demo_logger : BingoLogger :=
  MkBingoLogger 1 "s.log" 1 false 0 0 (Some 0%nat) (MkTime 1629941248 0) 0 true [] 0.

Definition demo_x (t : Z) : bctx :=
  MkBctx 28800 (MkTime t 0) (MkTime t 0) (MkTime t 0) (MkTime t 0) noFaults None false.

Lemma demo_wfs : wfs demo_fs.
Proof.
  split; cbn.
  - intros p q i [[<- <-]|[_ [<- <-]%lookup_singleton_Some]]%lookup_insert_Some
      [[<- E]|[_ [<- E]%lookup_singleton_Some]]%lookup_insert_Some; done.
  - intros p i [[<- <-]|[_ [<- <-]%lookup_singleton_Some]]%lookup_insert_Some; (split; [by eexists|lia]).
Qed.

Lemma demo_linv : linv demo_logger demo_fs.
Proof.
  split; [apply demo_wfs|]. cbn [demo_logger fileFd fileName]. split; [|split; [|cbn; lia]].
  - intros q Hq. by apply (wfs_inj _ demo_wfs _ _ _ Hq).
  - intros j Hj. vm_compute in Hj. congruence.
Qed.

(** The second write is on the next day, and the plain archive name is taken. *)
Lemma bingo_keeps_all_lines_witness :
  exists l' fs', run_ops [OpWrite (demo_x 1629941300) "a;"; OpWrite (demo_x 1630027800) "b;"] demo_logger demo_fs =
    Done ([(2, None); (2, None)], l', fs') /\
    contents fs' !! "s.log.20210826.1" = Some "old;a;" /\ contents fs' !! "s.log" = Some "b;" /\
    contents fs' !! "s.log.20210826" = Some "archive".
Proof.
  destruct (bingo_keeps_all_lines [(demo_x 1629941300, "a;"); (demo_x 1630027800, "b;")] demo_logger demo_fs)
    as (l' & fs' & _ & _ & _ & H1 & _).
  - done.
  - apply demo_linv.
  - done.
  - by repeat constructor.
  - cbn [fmap list_fmap fst snd] in H1. exists l', fs'. split; [exact H1|].
    vm_compute in H1. injection H1 as <- <-. vm_compute. done.
Defined.

Lemma bingo_never_overwrites_witness :
  exists rs l' fs', run_ops [OpWrite (demo_x 1629941300) "a;"; OpRemove; OpWrite (demo_x 1630027800) "b;"]
    demo_logger demo_fs = Done (rs, l', fs') /\ contents fs' !! "s.log.20210826" = Some "archive".
Proof.
  destruct (bingo_never_overwrites [OpWrite (demo_x 1629941300) "a;"; OpRemove; OpWrite (demo_x 1630027800) "b;"]
    demo_logger demo_fs) as (rs & l' & fs' & H1 & _ & _ & H2).
  - done.
  - apply demo_linv.
  - exists rs, l', fs'. split; [exact H1|]. apply H2; [done|vm_compute; reflexivity].
Defined.

(** The same logger started again: the file is not open yet. *)
Definition restarted : BingoLogger := set_fd None demo_logger.

(** A day later its first line goes to the old file, the second to a new one. *)
Lemma bingo_file_bounds_witness :
  exists l' fs', run_ops [OpWrite (demo_x 1630027800) "a;"; OpWrite (demo_x 1630027801) "b;"] restarted demo_fs =
      Done ([(2, None); (2, None)], l', fs') /\
    contents fs' !! "s.log.20210826.1" = Some "old;a;" /\ contents fs' !! "s.log" = Some "b;".
Proof.
  destruct (bingo_file_bounds 28800 (demo_x 1630027800) "a;" [(demo_x 1630027801, "b;")] restarted demo_fs)
    as (l' & fs' & arch & first & rest & H1 & _).
  - done.
  - split; [apply demo_wfs|exact I].
  - done.
  - by repeat constructor.
  - repeat constructor. cbn. lia.
  - exists l', fs'. split; [exact H1|]. vm_compute in H1. injection H1 as <- <-. vm_compute. done.
Defined.

(** Two lines handed to the writer at once. *)
Lemma bingo_batches_equivalent_witness :
  exists l1 fs1 arch1,
    writeAllFunc [(demo_x 10, "a"); (demo_x 11, "b")] (demo_x 12) demo_logger demo_fs = Done (l1, fs1) /\
    stream (fileName demo_logger) (contents fs1) arch1 =
      default "" (contents demo_fs !! fileName demo_logger) +:+ "ab".
Proof.
  destruct (bingo_batches_equivalent [(demo_x 10, "a"); (demo_x 11, "b")] (demo_x 12) demo_logger demo_fs)
    as (l1 & fs1 & arch1 & rs & l2 & fs2 & arch2 & H1 & _ & H3 & H4 & _).
  - done.
  - apply demo_linv.
  - done.
  - done.
  - repeat constructor.
  - exists l1, fs1, arch1. split; [exact H1|]. rewrite H3. exact H4.
Defined.

Lemma bingo_async_never_starts_witness :
  NewBingoLogger (MkLogCfg "s.log" 1 1 true 10 100) [(LTick, [], demo_x 0); (LClosed, [(demo_x 1, "a;")], demo_x 2)]
    demo_fs = Hang.
Proof.
  apply (bingo_async_never_starts (MkLogCfg "s.log" 1 1 true 10 100)
    [(LTick, [], demo_x 0); (LClosed, [(demo_x 1, "a;")], demo_x 2)] demo_fs (MkLogState None (MkCounters 0 0 0 0 0))).
  - reflexivity.
  - reflexivity.
  - apply demo_wfs.
  - vm_compute. discriminate.
  - reflexivity.
Defined.
