(* ===== verification/ProtoLog.v ===== *)
(** * plugin/log/protolog: messages as one line of log

    A message is the list of its populated fields in the order protobuf's
    [Range] visits them.  A builder is the text written so far.  Reading a
    value with the accessor of another kind panics.  Floats are kept by the
    text [FormatFloat] gives. *)

From S2P Require Import Prelude GoStrings PbSupport.

(** [CMap k v]: a map field with keys of kind [k] and values of kind
    [v]. *)
Inductive card := CSingular | CList | CMap (key value : Kind).
Record fdesc := MkFdesc { Name : string; KindOf : Kind; Card : card }.

Inductive pvalue :=
| PBool (b : bool)
| PInt (n : Z)
| PUint (n : Z)
| PFloat (text : string)
| PString (s : string)
| PBytes (s : string)
| PEnum (n : Z)
| PMessage (fields : list (fdesc * pfield))
with pfield :=
| FSingular (v : pvalue)
| FList (vs : list pvalue)
| FMap (kvs : list (pvalue * pvalue)).

Abbreviation pmessage := (list (fdesc * pfield)).

(** "case Uid, UID" *)
Definition fdNameToStr (fd : fdesc) : string :=
  if bool_decide (Name fd = "MsgID") then "msg"
  else if bool_decide (Name fd = "Uid" \/ Name fd = "UID") then "uid"
  else Name fd.

(** [fd.MapKey()] and [fd.MapValue()] of the generated entry message. *)
Definition MapKey (k : Kind) : fdesc := MkFdesc "key" k CSingular.
Definition MapValue (k : Kind) : fdesc := MkFdesc "value" k CSingular.

Definition mismatch {A} : outcome A := Panic "type mismatch".

Definition valueToString (val : pvalue) (fd : fdesc) : outcome (result error string) :=
  match KindOf fd with
  | BoolKind =>
      match val with PBool b => Done (Ok (if b then "true" else "false")) | _ => mismatch end
  | StringKind => match val with PString s => Done (Ok s) | _ => mismatch end
  | Int32Kind | Int64Kind | Sint32Kind | Sint64Kind | Sfixed32Kind | Sfixed64Kind =>
      match val with PInt n => Done (Ok (FormatInt n)) | _ => mismatch end
  | Uint64Kind | Uint32Kind | Fixed32Kind | Fixed64Kind =>
      match val with PUint n => Done (Ok (FormatUint n)) | _ => mismatch end
  | FloatKind | DoubleKind => match val with PFloat t => Done (Ok t) | _ => mismatch end
  | BytesKind => match val with PBytes s => Done (Ok s) | _ => mismatch end
  | EnumKind => match val with PEnum n => Done (Ok (Itoa n)) | _ => mismatch end
  | MessageKind | GroupKind => Done (Err (Name fd +:+ " has unknown kind"))
  end.

(** The builder after a piece was appended. *)
Definition WriteByte (c : string) (sb : string) : string := sb +:+ c.

(** The two ways of writing a leaf. *)
Definition write_element (path : list string) (ret : string) (sb : string) : string :=
  (WriteByte "=" (sb +:+ Join path ".")) +:+ ret.

Definition write_field (path : list string) (name ret : string) (sb : string) : string :=
  WriteByte "=" (foldl (fun sb p => WriteByte "." (sb +:+ p)) sb path +:+ name) +:+ ret.

Section Range.
(** [Range] over a list with a body that may stop it: the error, if any, and
    the builder; a space before every element but the first. *)
Context {A : Type} (body : A -> string -> outcome (option error * string)).

Fixpoint range_from (l : list A) (first : bool) (sb : string) : outcome (option error * string) :=
  match l with
  | [] => Done (None, sb)
  | a :: l =>
      let sb := if first then sb else WriteByte " " sb in
      '(e, sb) ← body a sb;
      match e with
      | Some e => Done (Some e, sb)
      | None => range_from l false sb
      end
  end.
End Range.

(** The loop of [marshalList] with its index. *)
Fixpoint list_from {A} (body : Z -> A -> string -> outcome (option error * string)) (l : list A) (i : Z) (sb : string)
  : outcome (option error * string) :=
  match l with
  | [] => Done (None, sb)
  | a :: l =>
      let sb := if i >? 0 then WriteByte " " sb else sb in
      '(e, sb) ← body i a sb;
      match e with
      | Some e => Done (Some e, sb)
      | None => list_from body l (i + 1) sb
      end
  end.

(** A value that is no message, as a list or map element, and as a field. *)
Definition marshalElementLeaf (val : pvalue) (fd : fdesc) (path : list string) (sb : string)
  : outcome (option error * string) :=
  r ← valueToString val fd;
  match r with
  | Err e => Done (Some e, sb)
  | Ok ret => Done (None, write_element path ret sb)
  end.

Definition marshalFieldLeaf (val : pvalue) (fd : fdesc) (path : list string) (sb : string)
  : outcome (option error * string) :=
  r ← valueToString val fd;
  match r with
  | Err e => Done (Some e, sb)
  | Ok ret => Done (None, write_field path (fdNameToStr fd) ret sb)
  end.

(** [marshalListOrMapSingular] and [marshalSingular] differ in the leaf only;
    [marshalMessage] always returns nil, whatever a field returned. *)
Fixpoint marshalValue (leaf : pvalue -> fdesc -> list string -> string -> outcome (option error * string))
    (val : pvalue) (fd : fdesc) (path : list string) (sb : string) {struct val} : outcome (option error * string) :=
  if bool_decide (KindOf fd = MessageKind) then
    match val with
    | PMessage fields =>
        '(_, sb) ← range_from (fun f sb => marshalField f.2 f.1 (path ++ [fdNameToStr fd]) sb) fields true sb;
        Done (None, sb)
    | _ => mismatch
    end
  else leaf val fd path sb
with marshalField (val : pfield) (fd : fdesc) (path : list string) (sb : string) {struct val}
  : outcome (option error * string) :=
  match Card fd, val with
  | CList, FList vs =>
      let path := path ++ [fdNameToStr fd] in
      list_from (fun i v sb => marshalValue marshalElementLeaf v fd (path ++ [Itoa i]) sb) vs 0 sb
  | CMap kk vk, FMap kvs =>
      let path := path ++ [fdNameToStr fd] in
      range_from (fun kv sb =>
        r ← valueToString kv.1 (MapKey kk);
        match r with
        | Err e => Done (Some e, sb)
        | Ok keyStr => marshalValue marshalElementLeaf kv.2 (MapValue vk) (path ++ [keyStr]) sb
        end) kvs true sb
  | CSingular, FSingular v => marshalValue marshalFieldLeaf v fd path sb
  | _, _ => mismatch
  end.

Definition marshalSingular := marshalValue marshalFieldLeaf.
Definition marshalListOrMapSingular := marshalValue marshalElementLeaf.

Definition marshalList (vs : list pvalue) (fd : fdesc) (path : list string) (sb : string) : outcome (option error * string) :=
  let path := path ++ [fdNameToStr fd] in
  list_from (fun i v sb => marshalListOrMapSingular v fd (path ++ [Itoa i]) sb) vs 0 sb.

Definition marshalMap (kvs : list (pvalue * pvalue)) (fd : fdesc) (kk vk : Kind) (path : list string) (sb : string)
  : outcome (option error * string) :=
  let path := path ++ [fdNameToStr fd] in
  range_from (fun kv sb =>
    r ← valueToString kv.1 (MapKey kk);
    match r with
    | Err e => Done (Some e, sb)
    | Ok keyStr => marshalListOrMapSingular kv.2 (MapValue vk) (path ++ [keyStr]) sb
    end) kvs true sb.

Definition marshalMessage (m : pmessage) (path : list string) (sb : string) : outcome (option error * string) :=
  '(_, sb) ← range_from (fun f sb => marshalField f.2 f.1 path sb) m true sb;
  Done (None, sb).

Definition Marshal (m : pmessage) : outcome (result error string) :=
  '(e, sb) ← marshalMessage m [] "message ";
  match e with
  | Some e => Done (Err e)
  | None => Done (Ok sb)
  end.

(** [None]: a nil or invalid message. *)
Definition Format (m : option pmessage) : outcome string :=
  match m with
  | None => Done "nil"
  | Some m => r ← Marshal m; Done (match r with Ok b => b | Err _ => "" end)
  end.

(** ** The line as a list of entries *)

Definition value_text (v : pvalue) : string :=
  match v with
  | PBool b => if b then "true" else "false"
  | PInt n => FormatInt n
  | PUint n => FormatUint n
  | PFloat t => t
  | PString s => s
  | PBytes s => s
  | PEnum n => Itoa n
  | PMessage _ => ""
  end.

Fixpoint mapi {A B} (f : Z -> A -> B) (l : list A) (i : Z) : list B :=
  match l with
  | [] => []
  | a :: l => f i a :: mapi f l (i + 1)
  end.

(** The entries "path=value" of a value, of a field and of a message. *)
Fixpoint entries_value (path : list string) (name : string) (elem : bool) (v : pvalue) : list string :=
  match v with
  | PMessage fields => concat (map (fun f => entries_field (path ++ [name]) f.1 f.2) fields)
  | _ => [Join (if elem then path else path ++ [name]) "." +:+ "=" +:+ value_text v]
  end
with entries_field (path : list string) (fd : fdesc) (f : pfield) : list string :=
  let name := fdNameToStr fd in
  match f with
  | FSingular v => entries_value path name false v
  | FList vs => concat (mapi (fun i v => entries_value ((path ++ [name]) ++ [Itoa i]) name true v) vs 0)
  | FMap kvs => concat (map (fun kv => entries_value ((path ++ [name]) ++ [value_text kv.1]) "value" true kv.2) kvs)
  end.

Definition log_entries (m : pmessage) : list string :=
  concat (map (fun f => entries_field [] f.1 f.2) m).

(** Values of the kinds their fields declare; nested messages, lists and maps
    are not empty (protobuf never visits an empty list or map). *)
Definition scalar_of (k : Kind) (v : pvalue) : bool :=
  match k, v with
  | BoolKind, PBool _ | StringKind, PString _ | FloatKind, PFloat _ | DoubleKind, PFloat _
  | BytesKind, PBytes _ | EnumKind, PEnum _ => true
  | (Int32Kind | Int64Kind | Sint32Kind | Sint64Kind | Sfixed32Kind | Sfixed64Kind), PInt _ => true
  | (Uint64Kind | Uint32Kind | Fixed32Kind | Fixed64Kind), PUint _ => true
  | _, _ => false
  end.

Definition nonempty {A} (l : list A) : bool := match l with [] => false | _ => true end.

Fixpoint printable_value (k : Kind) (v : pvalue) : bool :=
  match v with
  | PMessage fields => bool_decide (k = MessageKind) && nonempty fields && forallb (fun f => printable_field f.1 f.2) fields
  | _ => scalar_of k v
  end
with printable_field (fd : fdesc) (f : pfield) : bool :=
  match Card fd, f with
  | CSingular, FSingular v => printable_value (KindOf fd) v
  | CList, FList vs => nonempty vs && forallb (printable_value (KindOf fd)) vs
  | CMap kk vk, FMap kvs => nonempty kvs && forallb (fun kv => scalar_of kk kv.1 && printable_value vk kv.2) kvs
  | _, _ => false
  end.

(** ** Proofs *)

Section pvalue_ind.
Variables (P : pvalue -> Prop) (Q : pfield -> Prop).
Hypothesis Hscalar : forall v, (forall fs, v <> PMessage fs) -> P v.
Hypothesis Hmessage : forall fs, Forall (fun f => Q f.2) fs -> P (PMessage fs).
Hypothesis Hsingular : forall v, P v -> Q (FSingular v).
Hypothesis Hlist : forall vs, Forall P vs -> Q (FList vs).
Hypothesis Hmap : forall kvs, Forall (fun kv => P kv.2) kvs -> Q (FMap kvs).

Fixpoint pvalue_nested_ind (v : pvalue) : P v :=
  match v with
  | PMessage fs => Hmessage fs
      ((fix go (l : list (fdesc * pfield)) : Forall (fun f => Q f.2) l :=
          match l with [] => Forall_nil_2 _ | (d, f) :: l => Forall_cons_2 (fun f => Q f.2) (d, f) l (pfield_nested_ind f) (go l) end) fs)
  | PBool b => Hscalar (PBool b) (fun fs (E : PBool b = PMessage fs) => ltac:(discriminate E))
  | PInt b => Hscalar (PInt b) (fun fs (E : PInt b = PMessage fs) => ltac:(discriminate E))
  | PUint b => Hscalar (PUint b) (fun fs (E : PUint b = PMessage fs) => ltac:(discriminate E))
  | PFloat b => Hscalar (PFloat b) (fun fs (E : PFloat b = PMessage fs) => ltac:(discriminate E))
  | PString b => Hscalar (PString b) (fun fs (E : PString b = PMessage fs) => ltac:(discriminate E))
  | PBytes b => Hscalar (PBytes b) (fun fs (E : PBytes b = PMessage fs) => ltac:(discriminate E))
  | PEnum b => Hscalar (PEnum b) (fun fs (E : PEnum b = PMessage fs) => ltac:(discriminate E))
  end
with pfield_nested_ind (f : pfield) : Q f :=
  match f with
  | FSingular v => Hsingular v (pvalue_nested_ind v)
  | FList vs => Hlist vs
      ((fix go (l : list pvalue) : Forall P l :=
          match l with [] => Forall_nil_2 _ | v :: l => Forall_cons_2 P v l (pvalue_nested_ind v) (go l) end) vs)
  | FMap kvs => Hmap kvs
      ((fix go (l : list (pvalue * pvalue)) : Forall (fun kv => P kv.2) l :=
          match l with [] => Forall_nil_2 _ | (k, v) :: l => Forall_cons_2 (fun kv => P kv.2) (k, v) l (pvalue_nested_ind v) (go l) end) kvs)
  end.
End pvalue_ind.

Lemma Join_cons s l sep : l <> [] -> Join (s :: l) sep = s +:+ sep +:+ Join l sep.
Proof. by destruct l. Qed.

Lemma Join_app l k sep : l <> [] -> k <> [] -> Join (l ++ k) sep = Join l sep +:+ sep +:+ Join k sep.
Proof.
  intros Hl Hk. induction l as [|s [|s' l] IH]; [done| |].
  - change (Join (s :: k) sep = s +:+ sep +:+ Join k sep). by apply Join_cons.
  - change (Join (s :: ((s' :: l) ++ k)) sep = Join (s :: s' :: l) sep +:+ sep +:+ Join k sep).
    rewrite !Join_cons by done. rewrite IH by done. by rewrite !string_assoc.
Qed.

(** A computation that appends the entries [es] to the builder. *)
Definition appends (c : string -> outcome (option error * string)) (es : list string) : Prop :=
  es <> [] /\ forall sb, c sb = Done (None, sb +:+ Join es " ").

Lemma range_from_appends {A} (body : A -> string -> outcome (option error * string)) (f : A -> list string) l :
  Forall (fun a => appends (body a) (f a)) l -> forall first sb, l <> [] ->
  range_from body l first sb =
    Done (None, (if first then sb else WriteByte " " sb) +:+ Join (concat (map f l)) " ").
Proof.
  induction 1 as [|a l [Hne Ha] HF IH]; intros first sb Hl; [done|]. cbn [range_from]. rewrite Ha. go_run.
  destruct l as [|b l]; [cbn; by rewrite app_nil_r|]. rewrite IH by done.
  assert (Hc : concat (map f (b :: l)) <> []).
  { inversion HF as [|? ? [Hb _]]; subst. cbn. destruct (f b); done. }
  change (concat (map f (a :: b :: l))) with (f a ++ concat (map f (b :: l))).
  rewrite Join_app by done. unfold WriteByte. do 2 f_equal. by rewrite !string_assoc.
Qed.

Lemma list_from_appends {A} (body : Z -> A -> string -> outcome (option error * string))
    (f : Z -> A -> list string) l : Forall (fun a => forall i, appends (body i a) (f i a)) l ->
  forall i sb, 0 <= i -> l <> [] ->
  list_from body l i sb =
    Done (None, (if i >? 0 then WriteByte " " sb else sb) +:+ Join (concat (mapi f l i)) " ").
Proof.
  induction 1 as [|a l Ha HF IH]; intros i sb Hi Hl; [done|]. cbn [list_from mapi].
  destruct (Ha i) as [Hne Hb]. rewrite Hb. go_run. destruct l as [|b l]; [cbn; by rewrite app_nil_r|].
  rewrite IH by (done || lia). rewrite Z.gtb_ltb, (proj2 (Z.ltb_lt 0 (i + 1))) by lia.
  change (concat (f i a :: mapi f (b :: l) (i + 1))) with (f i a ++ concat (mapi f (b :: l) (i + 1))).
  rewrite Join_app; [unfold WriteByte; do 2 f_equal; by rewrite !string_assoc|done|].
  destruct (Forall_cons_1 _ _ _ HF) as [Hb' _]. destruct (Hb' (i + 1)) as [Hn _].
  cbn. by destruct (f (i + 1) b).
Qed.

Lemma valueToString_scalar v fd : scalar_of (KindOf fd) v = true ->
  valueToString v fd = Done (Ok (value_text v)) /\ KindOf fd <> MessageKind /\ forall fs, v <> PMessage fs.
Proof. unfold valueToString, scalar_of. destruct (KindOf fd), v; by intros. Qed.

Lemma write_field_eq path name ret : forall sb,
  write_field path name ret sb = sb +:+ Join (path ++ [name]) "." +:+ "=" +:+ ret.
Proof.
  unfold write_field, WriteByte. induction path as [|p path IH]; intros sb; cbn [foldl app].
  - cbn [Join]. by rewrite !string_assoc.
  - rewrite IH. rewrite (Join_cons p (path ++ [name])) by (by destruct path). by rewrite !string_assoc.
Qed.

Lemma concat_nonempty {A} (f : A -> list string) l : l <> [] -> Forall (fun a => f a <> []) l -> concat (map f l) <> [].
Proof. destruct 2 as [|a l Ha Hl]; [done|]. cbn. by destruct (f a). Qed.

Lemma concat_mapi_nonempty {A} (f : Z -> A -> list string) l i : l <> [] ->
  Forall (fun a => forall i, f i a <> []) l -> concat (mapi f l i) <> [].
Proof. destruct 2 as [|a l Ha Hl]; [done|]. cbn. specialize (Ha i). by destruct (f i a). Qed.

Lemma range_appends {A} (body : A -> string -> outcome (option error * string)) (f : A -> list string) l :
  nonempty l = true -> Forall (fun a => appends (body a) (f a)) l ->
  appends (range_from body l true) (concat (map f l)).
Proof.
  intros Hn HF. assert (l <> []) by (by destruct l). split.
  - apply concat_nonempty; [done|]. eapply Forall_impl; [exact HF|]. by intros a [Ha _].
  - intros sb. by apply (range_from_appends body f l HF true).
Qed.

Definition value_ok (v : pvalue) : Prop := forall fd path, printable_value (KindOf fd) v = true ->
  appends (marshalSingular v fd path) (entries_value path (fdNameToStr fd) false v) /\
  appends (marshalListOrMapSingular v fd path) (entries_value path (fdNameToStr fd) true v).

Definition field_ok (f : pfield) : Prop := forall fd path, printable_field fd f = true ->
  appends (marshalField f fd path) (entries_field path fd f).

Lemma scalar_ok v : (forall fs, v <> PMessage fs) -> value_ok v.
Proof.
  intros Hv fd path Hp. assert (Hs : scalar_of (KindOf fd) v = true).
  { destruct v; try exact Hp. by destruct (Hv fields). }
  destruct (valueToString_scalar v fd Hs) as (Ht & Hk & _).
  assert (He : forall elem, entries_value path (fdNameToStr fd) elem v =
    [Join (if elem then path else path ++ [fdNameToStr fd]) "." +:+ "=" +:+ value_text v]).
  { intros elem. destruct v; try done. by destruct (Hv fields). }
  assert (Hm : forall leaf sb, marshalValue leaf v fd path sb = leaf v fd path sb).
  { intros leaf sb. destruct v; cbn [marshalValue]; by rewrite bool_decide_false. }
  rewrite !He. split; (split; [done|]); intros sb; cbn [Join].
  - unfold marshalSingular. rewrite Hm. unfold marshalFieldLeaf. rewrite Ht. go_run. by rewrite write_field_eq.
  - unfold marshalListOrMapSingular. rewrite Hm. unfold marshalElementLeaf. rewrite Ht. go_run.
    unfold write_element, WriteByte. by rewrite !string_assoc.
Qed.

Lemma message_ok fs : Forall (fun f => field_ok f.2) fs -> value_ok (PMessage fs).
Proof.
  intros HF fd path Hp. cbn [printable_value] in Hp. apply andb_true_iff in Hp as [[Hk Hn]%andb_true_iff Hf].
  apply bool_decide_eq_true in Hk.
  assert (Ha : appends (range_from (fun f sb => marshalField f.2 f.1 (path ++ [fdNameToStr fd]) sb) fs true)
                 (concat (map (fun f => entries_field (path ++ [fdNameToStr fd]) f.1 f.2) fs))).
  { apply (range_appends _ (fun f => entries_field (path ++ [fdNameToStr fd]) f.1 f.2)); [done|].
    apply Forall_forall. intros f Hin. rewrite forallb_forall in Hf.
    rewrite Forall_forall in HF. apply HF; [done|]. apply Hf. by apply list_elem_of_In. }
  assert (Hm : forall leaf sb, marshalValue leaf (PMessage fs) fd path sb =
    Done (None, sb +:+ Join (concat (map (fun f => entries_field (path ++ [fdNameToStr fd]) f.1 f.2) fs)) " ")).
  { intros leaf sb. cbn [marshalValue]. rewrite bool_decide_true by done. by rewrite (proj2 Ha). }
  split; (split; [apply Ha|intros sb; apply Hm]).
Qed.

Lemma all_fields_ok f : field_ok f.
Proof.
  apply (pfield_nested_ind value_ok field_ok scalar_ok message_ok).
  - intros v Hv fd path Hp. cbn [printable_field] in Hp. cbn [marshalField entries_field].
    destruct (Card fd) eqn:Hc; [|done|done]. destruct (Hv fd path Hp) as [[H1 H2] _]. split; [exact H1|exact H2].
  - intros vs HF fd path Hp. cbn [printable_field] in Hp. destruct (Card fd) eqn:Hc; [done| |done].
    apply andb_true_iff in Hp as [Hn Hp]. assert (vs <> []) by (by destruct vs).
    set (ent := fun i v => entries_value ((path ++ [fdNameToStr fd]) ++ [Itoa i]) (fdNameToStr fd) true v).
    assert (HA : Forall (fun v => forall i,
      appends (marshalListOrMapSingular v fd ((path ++ [fdNameToStr fd]) ++ [Itoa i])) (ent i v)) vs).
    { apply Forall_forall. intros v Hin i. rewrite Forall_forall in HF. apply HF; [done|].
      rewrite forallb_forall in Hp. apply Hp. by apply list_elem_of_In. }
    split.
    + apply concat_mapi_nonempty; [done|]. eapply Forall_impl; [exact HA|]. intros v Hv i. apply Hv.
    + intros sb. cbn [marshalField]. rewrite Hc. by apply (list_from_appends _ ent vs HA 0).
  - intros kvs HF fd path Hp. cbn [printable_field] in Hp. destruct (Card fd) as [| |kk vk] eqn:Hc; [done|done|].
    apply andb_true_iff in Hp as [Hn Hp]. cbn [entries_field].
    assert (HA : appends (marshalMap kvs fd kk vk path) (concat (map (fun kv =>
      entries_value ((path ++ [fdNameToStr fd]) ++ [value_text kv.1]) "value" true kv.2) kvs))).
    { apply range_appends; [done|]. apply Forall_forall. intros kv Hin. rewrite forallb_forall in Hp.
      specialize (Hp kv). rewrite <- list_elem_of_In, andb_true_iff in Hp. destruct (Hp Hin) as [Hk Hv].
      rewrite Forall_forall in HF.
      destruct (HF kv Hin (MapValue vk) ((path ++ [fdNameToStr fd]) ++ [value_text kv.1]) Hv) as [_ [H1 H2]].
      split; [exact H1|]. intros sb. destruct (valueToString_scalar kv.1 (MapKey kk) Hk) as [-> _]. apply H2. }
    destruct HA as [H1 H2]. split; [exact H1|]. intros sb. cbn [marshalField]. rewrite Hc. apply H2.
Qed.

Lemma range_from_app {A} (body : A -> string -> outcome (option error * string)) (l k : list A) :
  forall first sb sb', l <> [] -> range_from body l first sb = Done (None, sb') ->
  range_from body (l ++ k) first sb = range_from body k false sb'.
Proof.
  induction l as [|a l IH]; intros first sb sb' Hl; [done|]. cbn [app range_from].
  destruct (body a _) as [[[e|] sb1]| |]; cbn; [done| |done|done].
  destruct l as [|b l]; [by intros [= ->]|]. by apply IH.
Qed.

(** A message is logged as its entries.  Every populated leaf of the message,
    through nested messages, lists and maps, appears exactly once as
    "path=value", in the order protobuf visits them, separated by single
    spaces; the call neither fails nor panics.  The path of a list element
    carries its index, that of a map entry its key. *)
Theorem protolog_format_entries (m : pmessage) :
  forallb (fun f => printable_field f.1 f.2) m = true -> m <> [] ->
  Format (Some m) = Done ("message " +:+ Join (log_entries m) " ") /\ log_entries m <> [].
Proof.
  intros Hp Hn.
  destruct (range_appends (fun f sb => marshalField f.2 f.1 [] sb) (fun f => entries_field [] f.1 f.2) m) as [H1 H2].
  - by destruct m.
  - apply Forall_forall. intros f Hin. apply all_fields_ok. rewrite forallb_forall in Hp. apply Hp. by apply list_elem_of_In.
  - split; [|exact H1]. unfold Format, Marshal, marshalMessage. by rewrite H2.
Qed.

Definition demo_message : pmessage :=
  [(MkFdesc "Uid" Uint64Kind CSingular, FSingular (PUint 7));
   (MkFdesc "items" MessageKind CList,
     FList [PMessage [(MkFdesc "id" Int32Kind CSingular, FSingular (PInt (-1)))];
            PMessage [(MkFdesc "id" Int32Kind CSingular, FSingular (PInt 2))]]);
   (MkFdesc "attrs" MessageKind (CMap StringKind BoolKind), FMap [(PString "k", PBool true)])].

Lemma protolog_format_entries_witness :
  Format (Some demo_message) = Done "message uid=7 items.0.items.id=-1 items.1.items.id=2 attrs.k=true".
Proof.
  destruct (protolog_format_entries demo_message) as [-> _].
  - reflexivity.
  - done.
  - vm_compute. reflexivity.
Defined.

(** Errors are swallowed.  A field of a kind the printer does not know (a
    group) ends the message it stands in: the text written before it is
    returned as the whole, without an error, and the fields after it are not
    printed. *)
Theorem protolog_error_swallowed (before : pmessage) (fd : fdesc) (v : pvalue) (after : pmessage) :
  forallb (fun f => printable_field f.1 f.2) before = true -> before <> [] ->
  Card fd = CSingular -> KindOf fd = GroupKind ->
  Marshal (before ++ (fd, FSingular v) :: after) =
    Done (Ok ("message " +:+ Join (log_entries before) " " +:+ " ")).
Proof.
  intros Hp Hn Hc Hk.
  destruct (range_appends (fun f sb => marshalField f.2 f.1 [] sb) (fun f => entries_field [] f.1 f.2) before) as [_ H2].
  - by destruct before.
  - apply Forall_forall. intros f Hin. apply all_fields_ok. rewrite forallb_forall in Hp. apply Hp. by apply list_elem_of_In.
  - unfold Marshal, marshalMessage. erewrite range_from_app by (apply H2 || done). cbn [range_from fst snd].
    assert (marshalField (FSingular v) fd [] = fun sb => Done (Some (Name fd +:+ " has unknown kind"), sb)) as ->.
    { cbn [marshalField]. rewrite Hc. destruct v; cbn [marshalValue]; rewrite bool_decide_false by (by rewrite Hk);
        unfold marshalFieldLeaf, valueToString; by rewrite Hk. }
    go_run. unfold WriteByte. by rewrite !string_assoc.
Qed.

Lemma protolog_error_swallowed_witness :
  Marshal [(MkFdesc "a" Int32Kind CSingular, FSingular (PInt 1));
           (MkFdesc "g" GroupKind CSingular, FSingular (PMessage []));
           (MkFdesc "b" Int32Kind CSingular, FSingular (PInt 2))] = Done (Ok "message a=1 ").
Proof.
  refine (eq_trans (protolog_error_swallowed [(MkFdesc "a" Int32Kind CSingular, FSingular (PInt 1))]
    (MkFdesc "g" GroupKind CSingular) (PMessage []) [(MkFdesc "b" Int32Kind CSingular, FSingular (PInt 2))] _ _ _ _) _).
  - reflexivity.
  - done.
  - reflexivity.
  - reflexivity.
  - vm_compute. reflexivity.
Defined.
