(* ===== verification/Mq.v ===== *)
(** * plugin/mq: messages, configuration and the event bus of the message queues

    An interface value is the record of its methods.  A channel is nil or has a
    number; [ready c] says that a send on channel [c] finds room or a receiver,
    now or later.  Log calls are left out. *)

From S2P Require Import Prelude GoStrings.

(** ** message.go and interceptor.go *)

(** [SetSeqID] is called by no code of the package and belongs to the
    implementations. *)
Record Message := MkMessage {
  Key : outcome string;
  MetaInfo : outcome (gmap string string);
  PayLoad : outcome string;
  SeqID : outcome Z;
  Topic : outcome string;
  Partition : outcome Z
}.

(** A message whose methods all return. *)
Record message_ok (m : Message) : Prop := MkMessageOk {
  ok_Key : exists k, Key m = Done k;
  ok_MetaInfo : exists i, MetaInfo m = Done i;
  ok_PayLoad : exists p, PayLoad m = Done p;
  ok_SeqID : exists n, SeqID m = Done n;
  ok_Topic : exists t, Topic m = Done t
}.

(** A method that calls itself uses up the stack, however large. *)
Fixpoint recurse {A} (stack : nat) : outcome A :=
  match stack with
  | O => Panic "stack overflow"
  | S stack => recurse stack
  end.

Lemma recurse_overflows {A} stack : @recurse A stack = Panic "stack overflow".
Proof. induction stack; done. Qed.

(** An interceptor is known by its number. *)
Definition Interceptor : Type := nat.

(** Calls of interceptors, made or started on goroutines. *)
Inductive icall :=
| IPre (i : Interceptor) (m : Message)
| IAfter (i : Interceptor) (m : Message).

(** ** config.go *)

Definition Balancer : Type := Message -> list Z -> Z.

Record ReaderConfig := MkReaderConfig {
  rTopic : list string;
  AutoCommit : bool;
  TopicPattern : string;
  OffsetReset : string;
  ReaderName : string;
  StartOffset : Z;
  SubscriptionType : Z;
  rPartition : Z;
  rProperties : gmap string string
}.

Record WriterConfig := MkWriterConfig {
  WriterName : string;
  wTopic : string;
  wBalancer : option Balancer;
  Batch : bool;
  MaxAttempts : Z;
  BatchSize : Z;
  BatchBytes : Z;
  WriteTimeout : Z;
  wProperties : gmap string string
}.

Record ClientConfig := MkClientConfig { Url : string; LogPath : string; cProperties : gmap string string }.

Record ReactorConfig := MkReactorConfig { reUrl : string; ReactorName : string; reProperties : gmap string string }.

Record MQConfig := MkMQConfig {
  ReaderConfigs : list ReaderConfig;
  WriterConfigs : list WriterConfig;
  ClientConf : ClientConfig;
  ReactorConf : ReactorConfig
}.

(** ** Memory shared by the clients *)

(** Cells for configurations read through pointers, the next free address (of
    cells, interceptors and handles of a client), and the calls made of the
    vendored client. *)
Record heap (C : Type) := MkHeap {
  rcells : gmap nat ReaderConfig;
  wcells : gmap nat WriterConfig;
  hnext : nat;
  kcalls : list C
}.
Arguments MkHeap {_} _ _ _ _.
Arguments rcells {_} _.
Arguments wcells {_} _.
Arguments hnext {_} _.
Arguments kcalls {_} _.

Section Heap.
Context {C : Type}.

Definition alloc (h : heap C) : nat * heap C := (hnext h, MkHeap (rcells h) (wcells h) (S (hnext h)) (kcalls h)).
Definition set_rcell (a : nat) (c : ReaderConfig) (h : heap C) : heap C :=
  MkHeap (<[a := c]> (rcells h)) (wcells h) (hnext h) (kcalls h).
Definition set_wcell (a : nat) (c : WriterConfig) (h : heap C) : heap C :=
  MkHeap (rcells h) (<[a := c]> (wcells h)) (hnext h) (kcalls h).
Definition call (c : C) (h : heap C) : heap C := MkHeap (rcells h) (wcells h) (hnext h) (kcalls h ++ [c]).
End Heap.

(** Reading through a pointer. *)
Definition deref {A} (cells : gmap nat A) (a : nat) : outcome A :=
  match cells !! a with
  | Some x => Done x
  | None => Panic "invalid memory address or nil pointer dereference"
  end.

(** The first index whose address is [a], or -1. *)
Fixpoint index_of (a : nat) (inters : list (nat * Interceptor)) (i : Z) : Z :=
  match inters with
  | [] => -1
  | inter :: inters => if (inter.1 =? a)%nat then i else index_of a inters (i + 1)
  end.

(** A call of the user's callback. *)
Record callback_call := MkCallback { cbSeq : Z; cbMsg : Message; cbErr : option error }.

Lemma index_of_fresh a inters i : Forall (fun x => (x.1 < a)%nat) inters -> index_of a inters i = -1.
Proof.
  revert i. induction inters as [|x inters IH]; intros i HF; [done|]. apply Forall_cons in HF as [Hx HF].
  cbn. destruct (Nat.eqb_spec x.1 a); [lia|]. by apply IH.
Qed.

(** ** event.go *)

Abbreviation MessageChan := (option nat).

Definition MQEventBus : Type := gmap string (list MessageChan).

Definition NewMQEventBus : gmap string (list MessageChan) := ∅.

Definition Subscribe (topic : string) (messageChan : MessageChan) (pub : gmap string (list MessageChan))
  : gmap string (list MessageChan) :=
  match pub !! topic with
  | Some msgChanSlice => <[topic := msgChanSlice ++ [messageChan]]> pub
  | None => <[topic := replicate 10 None]> pub
  end.

(** The sends of [Publish], in order; a nil channel blocks for ever. *)
Fixpoint sendAll (ready : nat -> bool) (chans : list MessageChan) : outcome (list nat) :=
  match chans with
  | [] => Done []
  | None :: _ => Hang
  | Some c :: chans =>
      if ready c then l ← sendAll ready chans; Done (c :: l) else Hang
  end.

(** The channels the message was sent on. *)
Definition Publish (ready : nat -> bool) (topic : string) (pub : gmap string (list MessageChan)) : outcome (list nat) :=
  sendAll ready (default [] (pub !! topic)).

(** One turn of the loop: the context is done, or [ReadMessage] returns. *)
Inductive loopTurn := CtxDone | ReadErr (e : error) | ReadOk (m : Message).

(** The deliveries made until the context is done; with no turn left the
    reader blocks. *)
Fixpoint RunMQEventLoop (ready : nat -> bool) (pub : gmap string (list MessageChan)) (turns : list loopTurn)
  : outcome (list nat) :=
  match turns with
  | [] => Hang
  | CtxDone :: _ => Done []
  | ReadErr _ :: turns => RunMQEventLoop ready pub turns
  | ReadOk message :: turns =>
      topic ← Topic message;
      l ← Publish ready topic pub;
      l' ← RunMQEventLoop ready pub turns;
      Done (l ++ l')
  end.

(** ** Proofs *)

Definition subscribed (subs : list (string * MessageChan)) : gmap string (list MessageChan) :=
  foldl (fun pub s => Subscribe s.1 s.2 pub) NewMQEventBus subs.

(** Every entry begins with a nil channel. *)
Definition poisoned (pub : gmap string (list MessageChan)) (topics : list string) : Prop :=
  forall t, match pub !! t with
            | Some l => t ∈ topics /\ exists l', l = None :: l'
            | None => t ∉ topics
            end.

Lemma poisoned_insert pub topics t (l : list MessageChan) :
  poisoned pub topics -> poisoned (<[t := None :: l]> pub) (topics ++ [t]).
Proof.
  intros Hp t'. destruct (decide (t = t')) as [<-|Hne].
  - rewrite lookup_insert_eq. split; [|by eexists]. apply elem_of_app. right. by apply list_elem_of_singleton.
  - rewrite lookup_insert_ne by done. specialize (Hp t'). revert Hp. destruct (pub !! t') as [l'|]; intros Hp.
    + destruct Hp as [Hin Hl]. split; [|done]. apply elem_of_app. by left.
    + rewrite elem_of_app, list_elem_of_singleton. intros [?|?]; congruence.
Qed.

Lemma Subscribe_poisoned pub topics t c : poisoned pub topics -> poisoned (Subscribe t c pub) (topics ++ [t]).
Proof.
  intros Hp. unfold Subscribe. pose proof (Hp t) as Ht. revert Ht. destruct (pub !! t) as [l|]; intros Ht; [|by apply poisoned_insert].
  destruct Ht as (_ & l' & ->). by apply poisoned_insert.
Qed.

Lemma subscribed_poisoned subs : poisoned (subscribed subs) subs.*1.
Proof.
  unfold subscribed. induction subs as [|[t c] subs IH] using rev_ind; [intros t; cbn; by apply not_elem_of_nil|].
  rewrite foldl_app, fmap_app. by apply Subscribe_poisoned.
Qed.

Lemma Publish_subscribed ready topic subs :
  Publish ready topic (subscribed subs) = if decide (topic ∈ subs.*1) then Hang else Done [].
Proof.
  unfold Publish. pose proof (subscribed_poisoned subs topic) as Hp. revert Hp.
  destruct (subscribed subs !! topic) as [l|]; intros Hp; case_decide; try tauto.
  destruct Hp as (_ & l' & ->). done.
Qed.

Lemma loop_subscribed ready subs turns : forall l, RunMQEventLoop ready (subscribed subs) turns = Done l ->
  l = [] /\ exists pre post, turns = pre ++ CtxDone :: post /\
    forall m, ReadOk m ∈ pre -> exists t, Topic m = Done t /\ t ∉ subs.*1.
Proof.
  induction turns as [|[|e|m] turns IH]; intros l; cbn [RunMQEventLoop]; [done| | |].
  - intros [= <-]. split; [done|]. exists [], turns. split; [done|]. by intros m ?%not_elem_of_nil.
  - intros Hl. destruct (IH l Hl) as (-> & pre & post & -> & Hm). split; [done|].
    exists (ReadErr e :: pre), post. split; [done|]. intros m [?|Hin]%elem_of_cons; [done|auto].
  - intros Hl. apply bind_Done_inv in Hl as (t & Ht & Hl). rewrite Publish_subscribed in Hl.
    case_decide as Hin; [done|]. apply bind_Done_inv in Hl as (l1 & [= <-] & Hl).
    apply bind_Done_inv in Hl as (l2 & H2 & [= <-]). destruct (IH l2 H2) as (-> & pre & post & -> & Hm).
    split; [done|]. exists (ReadOk m :: pre), post. split; [done|].
    intros m' [[= ->]|Hin']%elem_of_cons; eauto.
Qed.

(** The event bus never delivers.  Subscribing a topic for the first time
    stores ten nil channels instead of the subscriber's, so publishing on any
    topic that was ever subscribed blocks for ever, whatever receivers are
    ready, and publishing on any other topic does nothing; a run of the event
    loop that ends has delivered nothing to anyone, and has read no message of
    a subscribed topic. *)
Theorem mq_bus_never_delivers (ready : nat -> bool) (subs : list (string * MessageChan)) (topic : string)
    (turns : list loopTurn) (l : list nat) :
  RunMQEventLoop ready (subscribed subs) turns = Done l ->
  Publish ready topic (subscribed subs) = (if decide (topic ∈ subs.*1) then Hang else Done []) /\
  l = [] /\ exists pre post, turns = pre ++ CtxDone :: post /\
    forall m, ReadOk m ∈ pre -> exists t, Topic m = Done t /\ t ∉ subs.*1.
Proof. intros Hl. split; [apply Publish_subscribed|by eapply loop_subscribed]. Qed.

Definition demo_msg (topic : string) : Message :=
  MkMessage (Done "k") (Done ∅) (Done "payload") (Done 0) (Done topic) (Done 0).

Lemma mq_bus_never_delivers_witness :
  Publish (fun _ => true) "a" (subscribed [("a", Some 1%nat); ("a", Some 2%nat)]) = Hang /\
  RunMQEventLoop (fun _ => true) (subscribed [("a", Some 1%nat); ("a", Some 2%nat)])
    [ReadErr "timeout"; ReadOk (demo_msg "b"); CtxDone] = Done [].
Proof.
  split; [|reflexivity].
  apply (mq_bus_never_delivers (fun _ => true) [("a", Some 1%nat); ("a", Some 2%nat)] "a"
    [ReadErr "timeout"; ReadOk (demo_msg "b"); CtxDone] []).
  reflexivity.
Defined.
