(* ===== verification/Kafka.v ===== *)
(** * plugin/mq/kafka: readers, writers and reactor over the Kafka client

    The vendored Kafka client is a parameter: whether a consumer or producer
    can be created from a configuration, and what its calls answer, are
    arguments of the operations.  Handles are numbered in the order they are
    made.  Configurations are read through pointers, so that the readers and
    writers made in a loop share the loop variable (the module declares Go
    1.15).  Byte slices are strings.  Log calls are left out, and so is what the
    broker answers to a commit, which is only logged; what Kafka documents of
    commits is the class [KafkaBroker]. *)

From S2P Require Import Prelude GoStrings Mq.

(** ** Values of the Kafka client *)

Record TopicPartition := MkTP {
  tpTopic : option string; tpPartition : Z; tpOffset : Z; tpError : option error
}.
Record Header := MkHeader { hKey : string; hValue : string }.
Record kMessage := MkKMessage { kTP : TopicPartition; kValue : string; kKey : string; kHeaders : list Header }.

Definition PartitionAny : Z := -1.
Definition ErrTimedOut : Z := -185.

Inductive kError := KError (code : Z) (text : error) | OtherError (text : error).

Inductive ConfigValue := CVString (s : string) | CVInt (n : Z) | CVUint (n : Z) | CVBool (b : bool).
Abbreviation ConfigMap := (gmap string ConfigValue).

(** ** message.go *)

Record kafkaMessage := MkKafkaMessage { km : kMessage }.

Definition kafkaMessage_Partition (k : kafkaMessage) : outcome Z := Done (tpPartition (kTP (km k))).

Definition kafkaMessage_Topic (k : kafkaMessage) : outcome string :=
  match tpTopic (kTP (km k)) with
  | Some t => Done t
  | None => Panic "invalid memory address or nil pointer dereference"
  end.

Definition kafkaMessage_Key (k : kafkaMessage) : outcome string := Done (kKey (km k)).

(** [string(b)] of a byte: the UTF-8 encoding of the code point [b]. *)
Definition byte_string (c : ascii) : string :=
  let n := N_of_ascii c in
  if (n <? 128)%N then String c ""
  else String (ascii_of_N (192 + n / 64)) (String (ascii_of_N (128 + n mod 64)) "").

(** Only the first byte of a header's value is kept; an empty value panics. *)
Fixpoint headerLisToMeatInfo (header : list Header) (res : gmap string string) : outcome (gmap string string) :=
  match header with
  | [] => Done res
  | v :: header =>
      match hValue v with
      | EmptyString => Panic "index out of range"
      | String c _ => headerLisToMeatInfo header (<[hKey v := byte_string c]> res)
      end
  end.

(** [order] is the range over the map. *)
Definition metaInfoToHeaderList (order : list (string * string)) : list Header :=
  (fun kv => MkHeader kv.1 kv.2) <$> order.

Definition kafkaMessage_MetaInfo (k : kafkaMessage) : outcome (gmap string string) :=
  headerLisToMeatInfo (kHeaders (km k)) ∅.

Definition kafkaMessage_PayLoad (k : kafkaMessage) : outcome string := Done (kValue (km k)).

Definition kafkaMessage_SeqID (k : kafkaMessage) : outcome Z := Done (tpOffset (kTP (km k))).

Definition kafkaMessage_SetSeqID (seqID : Z) (k : kafkaMessage) : kafkaMessage :=
  let m := km k in
  MkKafkaMessage (MkKMessage (MkTP (tpTopic (kTP m)) (tpPartition (kTP m)) seqID (tpError (kTP m)))
    (kValue m) (kKey m) (kHeaders m)).

(** As a value of the interface. *)
Definition kafka_iface (k : kafkaMessage) : Message :=
  MkMessage (kafkaMessage_Key k) (kafkaMessage_MetaInfo k) (kafkaMessage_PayLoad k) (kafkaMessage_SeqID k)
    (kafkaMessage_Topic k) (kafkaMessage_Partition k).

(** ** config.go *)

(** [None] is a nil map; [SetKey] of these keys stores the value. *)
Definition configMap (config : ClientConfig) : ConfigMap := {[ "bootstrap.servers" := CVString (Url config) ]}.

Definition withClientConfig (config : option ConfigMap) (clientConfig : ClientConfig) : option ConfigMap :=
  <["bootstrap.servers" := CVString (Url clientConfig)]> <$> config.

Definition withWriterConfig (config : option ConfigMap) (writerConfig : WriterConfig) : option ConfigMap :=
  match config with
  | None => None
  | Some c =>
      let c := if negb (BatchBytes writerConfig =? 0)
               then <["batch.size" := CVUint (BatchBytes writerConfig)]> c else c in
      let c := if negb (WriteTimeout writerConfig =? 0)
               then <["request.timeout.ms" := CVInt (WriteTimeout writerConfig)]> c else c in
      Some c
  end.

Definition withReaderConfig (config : option ConfigMap) (readerConfig : ReaderConfig) : option ConfigMap :=
  match config with
  | None => None
  | Some c =>
      let c := <["enable.auto.commit" := CVBool (AutoCommit readerConfig)]> c in
      let c := <["group.id" := CVString (ReaderName readerConfig)]> c in
      let c := <["session.timeout.ms" := CVInt 6000]> c in
      let c := <["heartbeat.interval.ms" := CVInt 2000]> c in
      let c := if negb (String.eqb (OffsetReset readerConfig) "")
               then <["auto.offset.reset" := CVString (OffsetReset readerConfig)]> c else c in
      Some c
  end.

Definition withReactorConfig (config : option ConfigMap) (reactorConfig : ReactorConfig) : option ConfigMap :=
  match config with
  | None => None
  | Some c =>
      Some (<["group.id" := CVString (ReactorName reactorConfig)]>
              (<["bootstrap.servers" := CVString (reUrl reactorConfig)]> c))
  end.

(** ** Memory *)

(** The calls of the Kafka client made. *)
Inductive kcall :=
| KNewConsumer (handle : nat) (config : option ConfigMap)
| KNewProducer (handle : nat) (config : option ConfigMap)
| KSubscribe (handle : nat) (topics : list string).

Abbreviation kheap := (heap kcall).

(** ** reader.go *)

(** Interceptors by the address of the variable that holds them. *)
Record kafkaReader := MkKafkaReader {
  consumer : nat;
  rconfig : nat;
  readInterceptors : list (nat * Interceptor)
}.

Definition invokePreInterceptor (inters : list (nat * Interceptor)) (messages : list Message) : list icall :=
  concat ((fun msg => (fun inter => IPre inter.2 msg) <$> inters) <$> messages).

Definition invokeAfterInterceptor (inters : list (nat * Interceptor)) (messages : list Message) : list icall :=
  concat ((fun msg => (fun inter => IAfter inter.2 msg) <$> inters) <$> messages).

(** [read]: what the consumer's blocking read answers, [None] if it never
    does; [cancelled]: the context is done at some time.  The result, and the
    interceptor calls started. *)
Definition ReadMessage (read : option (result kError kMessage)) (cancelled : bool) (r : kafkaReader)
  : outcome (result error kafkaMessage * list icall) :=
  match read with
  | None => Hang
  | Some (Ok m) =>
      let res := MkKafkaMessage m in
      Done (Ok res, invokePreInterceptor (readInterceptors r) [kafka_iface res])
  | Some (Err (OtherError _)) => Panic "interface conversion"
  | Some (Err (KError code text)) =>
      if negb (code =? ErrTimedOut) then Done (Err text, [])
      else if cancelled then Done (Err "operate time out", []) else Hang
  end.

Definition ReadMessageWithOption : outcome (result error kafkaMessage * list icall) := Panic "implement me".

Definition AddReaderInterceptor (interceptor : Interceptor) (r : kafkaReader) (h : kheap) : kafkaReader * kheap :=
  let '(a, h) := alloc h in
  (MkKafkaReader (consumer r) (rconfig r) (readInterceptors r ++ [(a, interceptor)]), h).

(** The addresses compared with are those of the stored variables, [a] that of
    the parameter. *)
Definition RemoveReaderInterceptor (interceptor : Interceptor) (r : kafkaReader) (h : kheap)
  : outcome (kafkaReader * kheap) :=
  let '(a, h) := alloc h in
  let idx := index_of a (readInterceptors r) 0 in
  l1 ← slice (readInterceptors r) 0 idx;
  l2 ← slice_from (readInterceptors r) (idx + 1);
  Done (MkKafkaReader (consumer r) (rconfig r) (l1 ++ l2), h).

Definition reader_GetConfig (r : kafkaReader) (h : kheap) : outcome ReaderConfig := deref (rcells h) (rconfig r).
Definition reader_SetConfig (config : nat) (r : kafkaReader) : kafkaReader :=
  MkKafkaReader (consumer r) config (readInterceptors r).

(** The positions [Ack] builds. *)
Fixpoint ackPartitions (messages : list Message) : outcome (list TopicPartition) :=
  match messages with
  | [] => Done []
  | msg :: messages =>
      topic ← Topic msg;
      offset ← SeqID msg;
      partition ← Partition msg;
      l ← ackPartitions messages;
      Done (MkTP (Some topic) (i32 partition) (i64 (offset + 1)) None :: l)
  end.

(** The offsets committed, [None] under automatic commits; the debug line
    reads the first and the last of them. *)
Definition Ack (messages : list Message) (r : kafkaReader) (h : kheap)
  : outcome (option (list TopicPartition) * list icall) :=
  partitions ← ackPartitions messages;
  config ← deref (rcells h) (rconfig r);
  let calls := invokeAfterInterceptor (readInterceptors r) messages in
  if negb (AutoCommit config) then
    match partitions with
    | [] => Panic "index out of range"
    | _ => Done (Some partitions, calls)
    end
  else Done (None, calls).

(** The consumer closed. *)
Definition reader_Close (r : kafkaReader) : nat := consumer r.

(** ** writer.go *)

(** [closeQueued]: values in the channel close, of capacity one. *)
Record kafkaWriter := MkKafkaWriter {
  producer : nat;
  wconfig : nat;
  writeInterceptors : list (nat * Interceptor);
  closeQueued : nat
}.

Definition AddWriterInterceptor (interceptor : Interceptor) (w : kafkaWriter) (h : kheap) : kafkaWriter * kheap :=
  let '(a, h) := alloc h in
  (MkKafkaWriter (producer w) (wconfig w) (writeInterceptors w ++ [(a, interceptor)]) (closeQueued w), h).

Definition RemoveWriterInterceptor (interceptor : Interceptor) (w : kafkaWriter) (h : kheap)
  : outcome (kafkaWriter * kheap) :=
  let '(a, h) := alloc h in
  let idx := index_of a (writeInterceptors w) 0 in
  l1 ← slice (writeInterceptors w) 0 idx;
  l2 ← slice_from (writeInterceptors w) (idx + 1);
  Done (MkKafkaWriter (producer w) (wconfig w) (l1 ++ l2) (closeQueued w), h).

(** The writer's interceptors are called one after the other. *)
Definition writer_invokePreInterceptor (w : kafkaWriter) (messages : list Message) : list icall :=
  invokePreInterceptor (writeInterceptors w) messages.
Definition writer_invokeAfterInterceptor (w : kafkaWriter) (messages : list Message) : list icall :=
  invokeAfterInterceptor (writeInterceptors w) messages.

Definition writer_GetConfig (w : kafkaWriter) (h : kheap) : outcome WriterConfig := deref (wcells h) (wconfig w).
Definition writer_SetConfig (config : nat) (w : kafkaWriter) : kafkaWriter :=
  MkKafkaWriter (producer w) config (writeInterceptors w) (closeQueued w).

(** Events of a producer. *)
Inductive kEvent := EvMessage (m : kMessage) | EvError (text : error) | EvOther.

(** The goroutine over the producer's general events, until close is received
    ([None]). *)
Fixpoint runAfterInterceptor (w : kafkaWriter) (evs : list (option kEvent)) : outcome (list icall) :=
  match evs with
  | [] => Hang
  | None :: _ => Done []
  | Some e :: evs =>
      l ← runAfterInterceptor w evs;
      Done (match e with
            | EvMessage m => writer_invokeAfterInterceptor w [kafka_iface (MkKafkaMessage m)]
            | _ => []
            end ++ l)
  end.

(** The partitions listed in the properties, nil without the property; the
    error of [ParseInt] is dropped. *)
Definition propertyPartitions (config : WriterConfig) : outcome (option (list Z)) :=
  match wProperties config !! "partition" with
  | None => Done None
  | Some s =>
      if String.eqb s "" then Done None else
      let p := ParseInt_value s 64 in
      if (p <? 0) || (2 ^ 45 <? p) then Panic "makeslice: len out of range"
      else Done (Some (seqZ 0 p))
  end.

(** [order]: the range over the message's headers. *)
Definition constructMessage (order : gmap string string -> list (string * string)) (msg : Message)
    (w : kafkaWriter) (h : kheap) : outcome kMessage :=
  topic ← Topic msg;
  config ← deref (wcells h) (wconfig w);
  partitions ← propertyPartitions config;
  value ← PayLoad msg;
  key ← Key msg;
  metaInfo ← MetaInfo msg;
  seqID ← SeqID msg;
  let partition :=
    match wBalancer config, partitions with
    | Some balancer, Some l => i32 (balancer msg l)
    | _, _ => PartitionAny
    end in
  Done (MkKMessage (MkTP (Some topic) partition (if seqID >? 0 then seqID else 0) None)
          value key (metaInfoToHeaderList (order metaInfo))).

(** What the select of [WriteMessage] receives: the context's end, the answer
    of [Produce] (nil again for ever once its channel is closed), or an event on
    the delivery channel. *)
Inductive wEvent := WCtxDone | WErrCh (err : option error) | WDelivery (val : kEvent).

Fixpoint writeLoop (w : kafkaWriter) (msg : Message) (evs : list wEvent) : outcome (Z * option error * list icall) :=
  match evs with
  | [] => Hang
  | WCtxDone :: _ => Done (0, Some "write message operate cancel", [])
  | WErrCh (Some err) :: _ => Done (0, Some err, [])
  | WErrCh None :: evs => writeLoop w msg evs
  | WDelivery val :: evs =>
      let calls := writer_invokeAfterInterceptor w [msg] in
      match val with
      | EvMessage i => Done (tpOffset (kTP i), None, calls)
      | _ => '(n, e, l) ← writeLoop w msg evs; Done (n, e, calls ++ l)
      end
  end.

(** The result, the interceptor calls started, and the message produced. *)
Definition WriteMessage (order : gmap string string -> list (string * string)) (msg : Message) (evs : list wEvent)
    (w : kafkaWriter) (h : kheap) : outcome (Z * option error * list icall * kMessage) :=
  kafkaMsg ← constructMessage order msg w h;
  let pre := writer_invokePreInterceptor w [msg] in
  '(n, e, l) ← writeLoop w msg evs;
  Done (n, e, pre ++ l, kafkaMsg).

(** [produce]: the error of [Produce]; [val]: the delivery event, if it comes. *)
Definition WriteMessageAsync (order : gmap string string -> list (string * string)) (msg : Message)
    (produce : option error) (val : option kEvent) (w : kafkaWriter) (h : kheap)
  : outcome (option error * list callback_call * list icall) :=
  kafkaMsg ← constructMessage order msg w h;
  let pre := writer_invokePreInterceptor w [msg] in
  match produce with
  | Some err => Done (Some err, [], pre)
  | None =>
      let calls := pre ++ writer_invokeAfterInterceptor w [msg] in
      match val with
      | Some (EvMessage i) =>
          Done (None, [MkCallback (tpOffset (kTP i)) (kafka_iface (MkKafkaMessage i)) None], calls)
      | Some (EvError e) => seqID ← SeqID msg; Done (None, [MkCallback seqID msg (Some e)], calls)
      | Some EvOther | None => Done (None, [], calls)
      end
  end.

Inductive kclose := KFlush (ms : Z) | KClose.

Definition writer_Close (w : kafkaWriter) : outcome (list kclose * kafkaWriter) :=
  if (closeQueued w <? 1)%nat
  then Done ([KFlush 10000; KClose],
             MkKafkaWriter (producer w) (wconfig w) (writeInterceptors w) (S (closeQueued w)))
  else Hang.

(** ** reactor.go *)

(** Handlers are known by a number; [stop] has capacity one. *)
Record kafkaReactor := MkKafkaReactor {
  reConfig : ReactorConfig;
  handlers : gmap string nat;
  reConsumer : gmap string nat;
  stopQueued : nat
}.

Definition NewReactor (config : ReactorConfig) : kafkaReactor := MkKafkaReactor config ∅ ∅ 0.

Section Client.
(** Whether the client makes a consumer, or a producer, of a configuration. *)
Context (NewConsumer NewProducer : option ConfigMap -> option error).

Fixpoint Register (topics : list string) (handler : nat) (k : kafkaReactor) (h : kheap) : kafkaReactor * kheap :=
  match topics with
  | [] => (k, h)
  | topic :: topics =>
      let k := MkKafkaReactor (reConfig k) (<[topic := handler]> (handlers k)) (reConsumer k) (stopQueued k) in
      match reConsumer k !! topic with
      | Some _ => Register topics handler k h
      | None =>
          let cfg := withReactorConfig (Some ∅) (reConfig k) in
          match NewConsumer cfg with
          | Some err => Register topics handler k h
          | None =>
              let '(c, h) := alloc h in
              let h := call (KSubscribe c [topic]) (call (KNewConsumer c cfg) h) in
              Register topics handler
                (MkKafkaReactor (reConfig k) (handlers k) (<[topic := c]> (reConsumer k)) (stopQueued k)) h
          end
      end
  end.
End Client.

(** A handler started on its goroutine, with the message. *)
Record hcall := MkHcall { hHandler : nat; hTopic : string; hMsg : kMessage }.

(** One pass over the consumers, in the order of the range; [read c] is what
    the blocking read of consumer [c] answers, [None] if nothing comes.  A nil
    handler panics on its goroutine. *)
Fixpoint pollAll (order : list (string * nat)) (read : nat -> option (result kError kMessage)) (k : kafkaReactor)
  : outcome (list hcall) :=
  match order with
  | [] => Done []
  | (topic, c) :: order =>
      match read c with
      | None => Hang
      | Some (Err _) => pollAll order read k
      | Some (Ok msg) =>
          match handlers k !! topic with
          | None => Panic "invalid memory address or nil pointer dereference"
          | Some handler => l ← pollAll order read k; Done (MkHcall handler topic msg :: l)
          end
      end
  end.

(** The turns of the loop: a pass, or ([None]) the stop signal. *)
Fixpoint Run (turns : list (option (list (string * nat) * (nat -> option (result kError kMessage))))) (k : kafkaReactor)
  : outcome (list hcall) :=
  match turns with
  | [] => Hang
  | None :: _ => Done []
  | Some (order, read) :: turns =>
      l ← pollAll order read k;
      l' ← Run turns k;
      Done (l ++ l')
  end.

(** The consumers closed, in the order of the range. *)
Definition reactor_Close (order : list (string * nat)) (k : kafkaReactor) : outcome (list nat * kafkaReactor) :=
  if (stopQueued k <? 1)%nat
  then Done (order.*2, MkKafkaReactor (reConfig k) (handlers k) (reConsumer k) (S (stopQueued k)))
  else Hang.

(** [kafkaContext]: [Err] and [Value] call themselves. *)
Definition kafkaContext_Err (stack : nat) : outcome (option error) := recurse stack.
Definition kafkaContext_Value (stack : nat) : outcome (option string) := recurse stack.

(** The consumer whose current offsets are committed; the messages are not
    looked at. *)
Definition kafkaContext_Ack (consumer : nat) (messages : list Message) : nat := consumer.

(** ** client.go *)

Record KafkaClient := MkKafkaClient {
  mqConfig : MQConfig;
  mqReactor : option kafkaReactor;
  mqReader : gmap string kafkaReader;
  mqWriter : gmap string kafkaWriter
}.

Definition SetConfig (conf : MQConfig) (p : KafkaClient) : KafkaClient :=
  MkKafkaClient conf (mqReactor p) (mqReader p) (mqWriter p).
Definition GetReader (name : string) (p : KafkaClient) : option kafkaReader := mqReader p !! name.
Definition GetWriter (name : string) (p : KafkaClient) : option kafkaWriter := mqWriter p !! name.
Definition GetReactor (p : KafkaClient) : option kafkaReactor := mqReactor p.
Definition ResourceManager {A} : outcome A := Panic "implement me".
Definition TopicPartitions (topic : string) : list string * option error := ([""], None).

Section NewClient.
Context (NewConsumer NewProducer : option ConfigMap -> option error).

Definition NewReader (config : nat) (p : KafkaClient) (h : kheap) : outcome (result error kafkaReader * kheap) :=
  cfg ← deref (rcells h) config;
  let cm := withReaderConfig (withClientConfig (Some ∅) (ClientConf (mqConfig p))) cfg in
  match NewConsumer cm with
  | Some err => Done (Err err, h)
  | None =>
      let '(c, h) := alloc h in
      let h := call (KSubscribe c (rTopic cfg)) (call (KNewConsumer c cm) h) in
      Done (Ok (MkKafkaReader c config []), h)
  end.

Definition NewWriter (config : nat) (p : KafkaClient) (h : kheap) : outcome (result error kafkaWriter * kheap) :=
  cfg ← deref (wcells h) config;
  let cm := withWriterConfig (withClientConfig (Some ∅) (ClientConf (mqConfig p))) cfg in
  match NewProducer cm with
  | Some err => Done (Err err, h)
  | None =>
      let '(c, h) := alloc h in
      Done (Ok (MkKafkaWriter c config [] 0), call (KNewProducer c cm) h)
  end.

(** The loops of [NewClient]: [a] is the address of the loop variable, which
    each turn assigns. *)
Fixpoint newReaders (confs : list ReaderConfig) (a : nat) (cli : KafkaClient) (h : kheap)
  : outcome (result error KafkaClient * kheap) :=
  match confs with
  | [] => Done (Ok cli, h)
  | readerConf :: confs =>
      let h := set_rcell a readerConf h in
      '(r, h) ← NewReader a cli h;
      match r with
      | Err err => Done (Err err, h)
      | Ok reader =>
          name ← deref (rcells h) a;
          newReaders confs a
            (MkKafkaClient (mqConfig cli) (mqReactor cli) (<[ReaderName name := reader]> (mqReader cli)) (mqWriter cli)) h
      end
  end.

Fixpoint newWriters (confs : list WriterConfig) (a : nat) (cli : KafkaClient) (h : kheap)
  : outcome (result error KafkaClient * kheap) :=
  match confs with
  | [] => Done (Ok cli, h)
  | writerConf :: confs =>
      let h := set_wcell a writerConf h in
      '(r, h) ← NewWriter a cli h;
      match r with
      | Err err => Done (Err err, h)
      | Ok writer =>
          name ← deref (wcells h) a;
          newWriters confs a
            (MkKafkaClient (mqConfig cli) (mqReactor cli) (mqReader cli) (<[WriterName name := writer]> (mqWriter cli))) h
      end
  end.

Definition NewClient (conf : MQConfig) (h : kheap) : outcome (result error KafkaClient * kheap) :=
  let cli := MkKafkaClient conf (Some (NewReactor (ReactorConf conf))) ∅ ∅ in
  let '(a, h) := alloc h in
  '(r, h) ← newReaders (ReaderConfigs conf) a cli h;
  match r with
  | Err err => Done (Err err, h)
  | Ok cli =>
      let '(b, h) := alloc h in
      newWriters (WriterConfigs conf) b cli h
  end.

(** ** plugin.go *)

Definition Setup (unmarshal : result error MQConfig) (h : kheap) : outcome (result error KafkaClient * kheap) :=
  match unmarshal with
  | Err e => Done (Err e, h)
  | Ok config => NewClient config h
  end.
End NewClient.

(** What the registry holds: a pointer to a client, as [Setup] gives, or a
    client. *)
Inductive instance := IPointer (p : KafkaClient) | IClient (p : KafkaClient).

Definition Reload (i : instance) (decode : result error MQConfig) : outcome (option error) :=
  match decode with
  | Err e => Done (Some e)
  | Ok config =>
      match i with
      | IPointer _ => Panic "interface conversion"
      | IClient cli => let cli := SetConfig config cli in Done None
      end
  end.

(** ** A message written and read back *)

(** What is left of a header's value. *)
Definition first_byte (v : string) : string :=
  match v with
  | EmptyString => ""
  | String c _ => byte_string c
  end.

Lemma headers_fold order : forall res, Forall (fun kv => kv.2 <> "") order ->
  headerLisToMeatInfo (metaInfoToHeaderList order) res =
    Done (foldl (fun m kv => <[kv.1 := first_byte kv.2]> m) res order).
Proof.
  induction order as [|[k v] order IH]; intros res HF; [done|]. apply Forall_cons in HF as [Hv HF].
  cbn. destruct v as [|c v]; [done|]. by apply IH.
Qed.

Lemma foldl_insert_lookup (order : list (string * string)) (f : string -> string) : forall (m : gmap string string) k,
  NoDup order.*1 ->
  foldl (fun m kv => <[kv.1 := f kv.2]> m) m order !! k =
    match (list_to_map order : gmap string string) !! k with Some v => Some (f v) | None => m !! k end.
Proof.
  induction order as [|[k' v] order IH]; intros m k Hnd; [done|]. apply NoDup_cons in Hnd as [Hk' Hnd].
  cbn [foldl fst snd]. rewrite IH by done. cbn [list_to_map foldr uncurry fst snd].
  destruct (decide (k' = k)) as [<-|Hne].
  - rewrite lookup_insert_eq. rewrite not_elem_of_list_to_map_1 by done. by rewrite lookup_insert_eq.
  - by rewrite !lookup_insert_ne.
Qed.

Lemma metaInfo_first_bytes (m : gmap string string) order : ranges m order ->
  (forall k, m !! k <> Some "") ->
  headerLisToMeatInfo (metaInfoToHeaderList order) ∅ = Done (first_byte <$> m).
Proof.
  intros Hr Hne. assert (Hm : list_to_map order = m).
  { rewrite <- (list_to_map_to_list m). apply list_to_map_proper; [by eapply ranges_NoDup|done]. }
  rewrite headers_fold.
  - f_equal. apply map_eq. intros k. rewrite foldl_insert_lookup by (by eapply ranges_NoDup).
    rewrite Hm, lookup_fmap, lookup_empty. by destruct (m !! k).
  - apply Forall_forall. intros [k v] Hin Hv. cbn in Hv. subst v. apply (Hne k). by apply (ranges_lookup m order).
Qed.

Lemma metaInfo_empty_panics (m : gmap string string) order k : ranges m order -> m !! k = Some "" ->
  panics (headerLisToMeatInfo (metaInfoToHeaderList order) ∅).
Proof.
  intros Hr Hk. apply (ranges_lookup m order) in Hk; [|done]. clear Hr. revert Hk.
  generalize (∅ : gmap string string). induction order as [|[k' v] order IH]; intros res Hin; [by apply not_elem_of_nil in Hin|].
  cbn. destruct v as [|c v]; [by eexists|]. apply elem_of_cons in Hin as [?|Hin]; [done|by apply IH].
Qed.

(** The UTF-8 bytes of U+00C3, whose first byte read as a code point is itself again. *)
Definition A_tilde : string := String (ascii_of_N 195) (String (ascii_of_N 131) "").

Lemma first_byte_fixed v : v <> "" ->
  first_byte v = v <-> (exists c, v = String c "" /\ (N_of_ascii c < 128)%N) \/ v = A_tilde.
Proof.
  destruct v as [|c v]; [done|]. intros _. cbn [first_byte]. split.
  - intros E. destruct (N.ltb_spec (N_of_ascii c) 128) as [Hc|Hc].
    + left. exists c. split; [|done]. unfold byte_string in E. rewrite (proj2 (N.ltb_lt _ _) Hc) in E. congruence.
    + right. revert Hc E. destruct c as [[] [] [] [] [] [] [] []]; vm_compute; intros Hc E;
        first [by destruct Hc|discriminate E|by injection E as <-].
  - intros [(c' & [= -> ->] & Hc)|E]; [|unfold A_tilde in E; injection E as -> ->; reflexivity]. unfold byte_string. by rewrite (proj2 (N.ltb_lt _ _) Hc).
Qed.

(** What Kafka documents of a message [m] that was written and then read as
    [got]: the same topic, key, value and headers; the partition and the offset
    are the broker's. *)
Definition delivery (m got : kMessage) : Prop :=
  tpTopic (kTP got) = tpTopic (kTP m) /\ kKey got = kKey m /\ kValue got = kValue m /\ kHeaders got = kHeaders m.

(** C24. What a reader gets of a message that was written.  Whatever partition and
    offset the broker gives it, topic, key and payload are those of the
    message written, the sequence number is the offset, and every header comes
    back cut to its first byte, read as a code point: the headers survive
    exactly when each is a single ASCII character (or U+00C3, which is its own
    image), and a message with an empty header makes [MetaInfo] panic. *)
Theorem kafka_message_roundtrip (order : gmap string string -> list (string * string)) (msg : Message)
    (w : kafkaWriter) (h : kheap) (topic key value : string) (info : gmap string string) (km got : kMessage) :
  (forall m, ranges m (order m)) ->
  Topic msg = Done topic -> Key msg = Done key -> PayLoad msg = Done value -> MetaInfo msg = Done info ->
  constructMessage order msg w h = Done km -> delivery km got ->
  let m := kafka_iface (MkKafkaMessage got) in
  Topic m = Done topic /\ Key m = Done key /\ PayLoad m = Done value /\ SeqID m = Done (tpOffset (kTP got)) /\
  ((exists k, info !! k = Some "") -> panics (MetaInfo m)) /\
  ((forall k, info !! k <> Some "") -> MetaInfo m = Done (first_byte <$> info) /\
     (MetaInfo m = Done info <-> forall k v, info !! k = Some v ->
        (exists c, v = String c "" /\ (N_of_ascii c < 128)%N) \/ v = A_tilde)).
Proof.
  intros Ho Ht Hk Hv Hi Hc Hd m. unfold constructMessage in Hc. rewrite Ht, Hk, Hv, Hi in Hc.
  rewrite bind_Done in Hc. apply bind_Done_inv in Hc as (config & _ & Hc). apply bind_Done_inv in Hc as (parts & _ & Hc).
  rewrite !bind_Done in Hc. apply bind_Done_inv in Hc as (seq & _ & [= <-]).
  destruct got as [[t p o e] gv gk gh]. destruct Hd as (Ed1 & Ed2 & Ed3 & Ed4). cbn in Ed1, Ed2, Ed3, Ed4. subst.
  split; [done|]. split; [done|]. split; [done|]. split; [done|]. split.
  - intros [k Hke]. by eapply metaInfo_empty_panics.
  - intros Hne. assert (MetaInfo m = Done (first_byte <$> info)) as Hm by (by apply metaInfo_first_bytes).
    assert (Hne' : forall k v, info !! k = Some v -> v <> "") by (intros k v Hkv ->; by destruct (Hne k)).
    split; [exact Hm|]. rewrite Hm. split.
    + intros [= E] k v Hkv. apply first_byte_fixed; [by eapply Hne'|].
      apply (f_equal (lookup k)) in E. rewrite lookup_fmap, Hkv in E. by injection E.
    + intros Hall. f_equal. apply map_eq. intros k. rewrite lookup_fmap. destruct (info !! k) as [v|] eqn:Hkv; [|done].
      cbn. f_equal. apply first_byte_fixed; eauto.
Qed.

Definition demo_info : gmap string string := {[ "a" := "x"; "b" := "long" ]}.
Definition demo_kmsg : Message :=
  MkMessage (Done "key") (Done demo_info) (Done "payload") (Done 0) (Done "topic") (Done 0).
Definition demo_heap : kheap :=
  MkHeap ∅ {[ 0%nat := MkWriterConfig "w" "topic" None false 0 0 0 0 ∅ ]} 1 [].
Definition demo_writer : kafkaWriter := MkKafkaWriter 7 0 [] 0.

(** Read at offset 41 of partition 3. *)
Definition demo_delivered (m : kMessage) : kMessage := MkKMessage (MkTP (tpTopic (kTP m)) 3 41 None) (kValue m) (kKey m) (kHeaders m).

Lemma kafka_message_roundtrip_witness :
  exists km, constructMessage map_to_list demo_kmsg demo_writer demo_heap = Done km /\
    PayLoad (kafka_iface (MkKafkaMessage (demo_delivered km))) = Done "payload" /\
    MetaInfo (kafka_iface (MkKafkaMessage (demo_delivered km))) = Done {[ "a" := "x"; "b" := "l" ]}.
Proof.
  destruct (constructMessage map_to_list demo_kmsg demo_writer demo_heap) as [km| |] eqn:E;
    [|vm_compute in E; discriminate..]. exists km. split; [done|].
  destruct (kafka_message_roundtrip map_to_list demo_kmsg demo_writer demo_heap "topic" "key" "payload" demo_info km (demo_delivered km))
    as (_ & _ & H1 & _ & _ & H2).
  - intros m. apply Permutation_refl.
  - reflexivity.
  - reflexivity.
  - reflexivity.
  - reflexivity.
  - exact E.
  - done.
  - split; [exact H1|]. destruct H2 as [H2 _].
    + intros k. unfold demo_info. intros [[_ ?]|[_ [_ ?]%lookup_singleton_Some]]%lookup_insert_Some; done.
    + by rewrite H2.
Defined.

(** ** Acknowledgement *)

(** What Kafka documents of CommitOffsets, over the state [B] of the brokers: it
    can fail, as a whole or for a partition; if it does not, the next offset to
    read of every partition in the list is one that the list has for it, and
    those of the other partitions are as before. *)
Class KafkaBroker {B : Type} (CommitOffsets : list TopicPartition -> B -> result error (list TopicPartition) * B) := {
  committed : B -> string -> Z -> option Z;
  commit_law : forall tps b res b', CommitOffsets tps b = (Ok res, b') -> Forall (fun tp => tpError tp = None) res ->
    forall t p, match filter (fun tp => tpTopic tp = Some t /\ tpPartition tp = p) tps with
                | [] => committed b' t p = committed b t p
                | l => exists tp, tp ∈ l /\ committed b' t p = Some (tpOffset tp)
                end
}.

(** The offsets of the messages of one partition, in order. *)
Definition offsets (t : string) (p : Z) (ms : list kafkaMessage) : list Z :=
  omap (fun k => if decide (tpTopic (kTP (km k)) = Some t /\ tpPartition (kTP (km k)) = p)
                 then Some (tpOffset (kTP (km k))) else None) ms.

(** A message as a consumer gets it. *)
Definition well_read (k : kafkaMessage) : Prop :=
  is_Some (tpTopic (kTP (km k))) /\ fits_s 32 (tpPartition (kTP (km k))) /\
  0 <= tpOffset (kTP (km k)) < 2 ^ 63 - 1.

Definition next_position (k : kafkaMessage) : TopicPartition :=
  MkTP (tpTopic (kTP (km k))) (tpPartition (kTP (km k))) (tpOffset (kTP (km k)) + 1) None.

Lemma ackPartitions_read ms : Forall well_read ms ->
  ackPartitions (kafka_iface <$> ms) = Done (next_position <$> ms).
Proof.
  induction 1 as [|k ms ([t Ht] & Hp & Ho) HF IH]; [done|]. cbn [fmap list_fmap ackPartitions].
  cbn [kafka_iface Topic SeqID Partition]. unfold kafkaMessage_Topic, kafkaMessage_SeqID, kafkaMessage_Partition.
  rewrite Ht, !bind_Done, IH, bind_Done. unfold next_position. rewrite Ht.
  rewrite !wrap_s_small; [done|done|unfold fits_s; lia|done|done].
Qed.

(** The positions that concern one partition. *)
Lemma positions_of t p ms :
  tpOffset <$> filter (fun tp => tpTopic tp = Some t /\ tpPartition tp = p) (next_position <$> ms) =
  Z.succ <$> offsets t p ms.
Proof.
  induction ms as [|k ms IH]; [done|]. unfold offsets. cbn [fmap list_fmap]. rewrite filter_cons, omap_cons_eq.
  cbn [next_position tpTopic tpPartition]. case_decide; [|exact IH]. cbn [fmap list_fmap]. f_equal. exact IH.
Qed.

(** What a commit of the positions after some messages does to a partition. *)
Lemma commit_next `{KafkaBroker B CommitOffsets} ms b res b' t p :
  CommitOffsets (next_position <$> ms) b = (Ok res, b') -> Forall (fun tp => tpError tp = None) res ->
  match offsets t p ms with
  | [] => committed b' t p = committed b t p
  | os => exists o, o ∈ os /\ committed b' t p = Some (o + 1)
  end.
Proof.
  intros Hc HF. pose proof (commit_law _ _ _ _ Hc HF t p) as Hx. pose proof (positions_of t p ms) as E. revert Hx E.
  generalize (filter (fun tp => tpTopic tp = Some t /\ tpPartition tp = p) (next_position <$> ms)). intros l Hx E.
  destruct l as [|tp l], (offsets t p ms) as [|o os]; [exact Hx|discriminate E|discriminate E|]. destruct Hx as (tp' & Hin & ->).
  apply (list_elem_of_fmap_2 tpOffset) in Hin. rewrite E in Hin. apply list_elem_of_fmap in Hin as (o' & -> & Ho'). by exists o'.
Qed.

(** C25. Acknowledging moves the reader on.  Under automatic commits [Ack] commits
    nothing, whatever the messages.  With manual commits it asks for one
    position per message, in their order, at the offset after the message, and
    panics when it is given no message; the interceptors are called either way.
    If the commit succeeds, on any broker that behaves as Kafka documents: the
    partitions without a message among them stay where they were; a partition
    with one is read on after it; and when several messages of a partition
    were read one after the other from its committed position, the next reader
    starts after one of them, so that no message is skipped that was not
    acknowledged.  A commit that fails is not reported by [Ack]. *)
Theorem kafka_ack_commits `{KafkaBroker B CommitOffsets} (ms : list kafkaMessage) (r : kafkaReader) (h : kheap) (config : ReaderConfig) :
  rcells h !! rconfig r = Some config -> Forall well_read ms ->
  let messages := kafka_iface <$> ms in
  let calls := invokeAfterInterceptor (readInterceptors r) messages in
  (AutoCommit config = true -> Ack messages r h = Done (None, calls)) /\
  (AutoCommit config = false -> ms = [] -> panics (Ack messages r h)) /\
  (AutoCommit config = false -> ms <> [] ->
     let tps := next_position <$> ms in
     Ack messages r h = Done (Some tps, calls) /\
     forall b res b' t p, CommitOffsets tps b = (Ok res, b') -> Forall (fun tp => tpError tp = None) res ->
       (offsets t p ms = [] -> committed b' t p = committed b t p) /\
       (forall o, offsets t p ms = [o] -> committed b' t p = Some (o + 1)) /\
       (forall o n, 0 < n -> committed b t p = Some o -> offsets t p ms = seqZ o n ->
          exists o', committed b' t p = Some o' /\ o < o' <= o + n)).
Proof.
  intros Hc HF messages calls. unfold Ack, messages, calls. rewrite ackPartitions_read, bind_Done by done. unfold deref.
  rewrite Hc, bind_Done. split; [|split].
  - by intros ->.
  - intros -> ->. by eexists.
  - intros -> Hne. split; [by destruct ms|]. intros b res b' t p Hcom HE. pose proof (commit_next ms b res b' t p Hcom HE) as Hx.
    split; [|split].
    + intros E. by rewrite E in Hx.
    + intros o E. rewrite E in Hx. destruct Hx as (o' & ->%list_elem_of_singleton & Hx). exact Hx.
    + intros o n Hn _ E. destruct (offsets t p ms) as [|o1 os] eqn:Eo.
      * apply (f_equal length) in E. rewrite length_seqZ in E. cbn in E. lia.
      * destruct Hx as (o' & Hin & Hx). rewrite E, elem_of_seqZ in Hin. exists (o' + 1). split; [done|lia].
Qed.

Definition demo_read (p o : Z) : kafkaMessage :=
  MkKafkaMessage (MkKMessage (MkTP (Some "t") p o None) "v" "k" []).

(** A broker that takes the positions one after another. *)
Definition demo_commit (tps : list TopicPartition) (b : gmap (string * Z) Z) : result error (list TopicPartition) * gmap (string * Z) Z :=
  (Ok tps, foldl (fun b tp => match tpTopic tp with Some t => <[(t, tpPartition tp) := tpOffset tp]> b | None => b end) b tps).

#[local] Instance demo_broker : KafkaBroker demo_commit.
Proof.
  refine {| committed (b : gmap (string * Z) Z) t p := b !! (t, p) |}. intros tps b res b' [= <- <-] _ t p.
  induction tps as [|tp tps IH] using rev_ind; [done|]. rewrite foldl_snoc, filter_app, filter_cons.
  change (filter _ (@nil TopicPartition)) with (@nil TopicPartition). case_decide as Hm.
  - destruct Hm as [Ht Hp]. rewrite Ht, Hp, lookup_insert_eq.
    destruct (filter _ tps ++ [tp]) as [|x l] eqn:E; [by destruct (filter _ tps)|]. rewrite <- E. exists tp. split; [|done].
    apply elem_of_app. right. left.
  - rewrite app_nil_r. destruct (tpTopic tp) as [t'|] eqn:Ht; [|exact IH]. rewrite lookup_insert_ne; [exact IH|]. intros [= E1 E2]. apply Hm. by rewrite E1.
Defined.

(** One message of partition 1, and two of partition 0 from its position 5. *)
Lemma kafka_ack_commits_witness :
  let ms := [demo_read 0 5; demo_read 1 9; demo_read 0 6] in
  let heap := MkHeap {[ 0%nat := MkReaderConfig ["t"] false "" "" "r" 0 0 0 ∅ ]} ∅ 3 [] in
  let b := demo_commit (next_position <$> ms) {[ ("t", 0) := 5 ]} in
  Ack (kafka_iface <$> ms) (MkKafkaReader 1 0 [(2%nat, 8%nat)]) heap =
    Done (Some (next_position <$> ms), invokeAfterInterceptor [(2%nat, 8%nat)] (kafka_iface <$> ms)) /\
  committed b.2 "t" 1 = Some 10 /\ exists o, committed b.2 "t" 0 = Some o /\ 5 < o <= 7.
Proof.
  intros ms heap b.
  destruct (kafka_ack_commits (CommitOffsets := demo_commit) ms (MkKafkaReader 1 0 [(2%nat, 8%nat)]) heap
    (MkReaderConfig ["t"] false "" "" "r" 0 0 0 ∅)) as (_ & _ & H1).
  - reflexivity.
  - repeat constructor; done || (unfold fits_s; cbn; lia).
  - destruct (H1 eq_refl ltac:(done)) as [H2 H3]. split; [exact H2|].
    assert (HE : Forall (fun tp => tpError tp = None) (next_position <$> ms)) by (repeat constructor). split.
    + destruct (H3 {[ ("t", 0) := 5 ]} _ _ "t" 1 eq_refl HE) as (_ & H4 & _). by apply (H4 9).
    + destruct (H3 {[ ("t", 0) := 5 ]} _ _ "t" 0 eq_refl HE) as (_ & _ & H4). by apply (H4 5 2).
Defined.

(** ** Interceptors *)

(** A reader, or a writer, after some interceptors were added. *)
Definition add_all (ks : list Interceptor) (r : kafkaReader) (h : kheap) : kafkaReader * kheap :=
  foldl (fun rh i => AddReaderInterceptor i rh.1 rh.2) (r, h) ks.
Definition wadd_all (ks : list Interceptor) (w : kafkaWriter) (h : kheap) : kafkaWriter * kheap :=
  foldl (fun wh i => AddWriterInterceptor i wh.1 wh.2) (w, h) ks.

Lemma below_snoc inters n (i : Interceptor) : Forall (fun x : nat * Interceptor => (x.1 < n)%nat) inters ->
  Forall (fun x => (x.1 < S n)%nat) (inters ++ [(n, i)]).
Proof.
  intros HF. apply Forall_app. split; [|constructor; [cbn; lia|constructor]].
  eapply Forall_impl; [exact HF|]. cbn. lia.
Qed.

Lemma add_all_below ks : forall r h, Forall (fun x => (x.1 < hnext h)%nat) (readInterceptors r) ->
  Forall (fun x => (x.1 < hnext (add_all ks r h).2)%nat) (readInterceptors (add_all ks r h).1).
Proof.
  induction ks as [|i ks IH]; intros r h HF; [done|]. apply IH. cbn. by apply below_snoc.
Qed.

Lemma wadd_all_below ks : forall w h, Forall (fun x => (x.1 < hnext h)%nat) (writeInterceptors w) ->
  Forall (fun x => (x.1 < hnext (wadd_all ks w h).2)%nat) (writeInterceptors (wadd_all ks w h).1).
Proof.
  induction ks as [|i ks IH]; intros r h HF; [done|]. apply IH. cbn. by apply below_snoc.
Qed.

(** An interceptor can not be removed.  The address compared with is that of
    the parameter, which no list holds: after any additions, removing an
    interceptor, one that was added included, from a reader or a writer made
    by the client panics. *)
Theorem kafka_remove_interceptor_panics (ks : list Interceptor) (i : Interceptor) (r : kafkaReader) (w : kafkaWriter)
    (h : kheap) :
  readInterceptors r = [] -> writeInterceptors w = [] ->
  panics (RemoveReaderInterceptor i (add_all ks r h).1 (add_all ks r h).2) /\
  panics (RemoveWriterInterceptor i (wadd_all ks w h).1 (wadd_all ks w h).2).
Proof.
  intros Hr Hw. unfold RemoveReaderInterceptor, RemoveWriterInterceptor. cbn [alloc]. rewrite !index_of_fresh.
  - split; by eexists.
  - apply wadd_all_below. by rewrite Hw.
  - apply add_all_below. by rewrite Hr.
Qed.

Lemma kafka_remove_interceptor_panics_witness :
  panics (RemoveReaderInterceptor 5%nat (add_all [5%nat; 6%nat] (MkKafkaReader 0 0 []) demo_heap).1
            (add_all [5%nat; 6%nat] (MkKafkaReader 0 0 []) demo_heap).2).
Proof.
  apply (kafka_remove_interceptor_panics [5%nat; 6%nat] 5%nat (MkKafkaReader 0 0 []) demo_writer demo_heap).
  - reflexivity.
  - reflexivity.
Defined.

(** ** Writing *)

(** Events that do not end [WriteMessage]. *)
Definition idle (e : wEvent) : Prop :=
  match e with
  | WErrCh None | WDelivery (EvError _) | WDelivery EvOther => True
  | _ => False
  end.

Lemma writeLoop_idle w msg evs : Forall idle evs -> writeLoop w msg evs = Hang.
Proof.
  induction 1 as [|e evs He HF IH]; [done|]. cbn [writeLoop].
  destruct e as [|[e|]|[m|t|]]; try done; by rewrite IH.
Qed.

Lemma writeLoop_delivered w msg evs i rest : Forall idle evs ->
  exists calls, writeLoop w msg (evs ++ WDelivery (EvMessage i) :: rest) = Done (tpOffset (kTP i), None, calls).
Proof.
  induction 1 as [|e evs He HF [calls IH]]; [by eexists|]. cbn [app writeLoop].
  destruct e as [|[e|]|[m|t|]]; try done; [by exists calls|..]; rewrite IH; by eexists.
Qed.

(** [WriteMessage] and failed deliveries.  It returns the offset of the first
    delivery report it gets, with a nil error, also when the report says that
    the delivery failed; an error event on the delivery channel is passed over,
    so if no report follows and the context never ends, it never returns. *)
Theorem kafka_write_hides_failure (order : gmap string string -> list (string * string)) (msg : Message)
    (w : kafkaWriter) (h : kheap) (sent i : kMessage) (evs rest : list wEvent) (e : error) :
  constructMessage order msg w h = Done sent -> Forall idle evs -> tpError (kTP i) = Some e ->
  (exists calls, WriteMessage order msg (evs ++ WDelivery (EvMessage i) :: rest) w h =
     Done (tpOffset (kTP i), None, calls, sent)) /\
  WriteMessage order msg (evs ++ [WDelivery (EvError e)]) w h = Hang.
Proof.
  intros Hc HF He. unfold WriteMessage. rewrite Hc, !bind_Done. split.
  - destruct (writeLoop_delivered w msg evs i rest HF) as [calls ->]. by eexists.
  - rewrite writeLoop_idle; [done|]. apply Forall_app. split; [done|]. by constructor.
Qed.

Lemma kafka_write_hides_failure_witness :
  exists calls sent, WriteMessage map_to_list demo_kmsg
    [WErrCh None; WDelivery (EvMessage (MkKMessage (MkTP (Some "topic") (-1) (-1001) (Some "timed out")) "" "" []))]
    demo_writer demo_heap = Done (-1001, None, calls, sent).
Proof.
  destruct (constructMessage map_to_list demo_kmsg demo_writer demo_heap) as [sent| |] eqn:E;
    [|vm_compute in E; discriminate..].
  destruct (kafka_write_hides_failure map_to_list demo_kmsg demo_writer demo_heap sent
    (MkKMessage (MkTP (Some "topic") (-1) (-1001) (Some "timed out")) "" "" []) [WErrCh None] [] "timed out")
    as [[calls H] _].
  - exact E.
  - by repeat constructor.
  - reflexivity.
  - by exists calls, sent.
Defined.

(** ** The configuration the readers and writers of a client see *)

Section Shared.
Context (NewConsumer NewProducer : option ConfigMap -> option error).

Lemma NewReader_config config p h r h' : NewReader NewConsumer config p h = Done (Ok r, h') ->
  rconfig r = config /\ readInterceptors r = [] /\ rcells h' = rcells h /\ wcells h' = wcells h.
Proof.
  unfold NewReader. intros H. apply bind_Done_inv in H as (cfg & _ & H).
  destruct (NewConsumer _); [done|]. by injection H as <- <-.
Qed.

Lemma newReaders_shared confs a : forall cli h cli' h',
  newReaders NewConsumer confs a cli h = Done (Ok cli', h') ->
  (forall n r, mqReader cli !! n = Some r -> rconfig r = a) ->
  (forall n r, mqReader cli' !! n = Some r -> rconfig r = a) /\
  rcells h' !! a = match last confs with Some c => Some c | None => rcells h !! a end /\
  (forall n, is_Some (mqReader cli !! n) \/ n ∈ ReaderName <$> confs -> is_Some (mqReader cli' !! n)) /\
  mqWriter cli' = mqWriter cli /\ (confs = [] -> mqReader cli' = mqReader cli).
Proof.
  induction confs as [|c confs IH]; intros cli h cli' h' Hn Hr; cbn [newReaders] in Hn.
  { injection Hn as <- <-. split; [done|]. split; [done|]. split; [|done]. intros n [?|?%not_elem_of_nil]; done. }
  apply bind_Done_inv in Hn as ([[reader|e] h1] & H1 & Hn); [|done].
  apply NewReader_config in H1 as (Hrc & _ & Hc & _). cbn [set_rcell rcells] in Hc.
  unfold deref in Hn. rewrite Hc, lookup_insert_eq, bind_Done in Hn.
  destruct (IH _ _ _ _ Hn) as (G1 & G2 & G3 & G4 & _).
  { cbn. intros n r [[_ <-]|[_ ?]]%lookup_insert_Some; eauto. }
  split; [done|]. split.
  - rewrite G2, Hc, lookup_insert_eq, last_cons. by destruct (last confs).
  - split; [|done]. intros n Hor. apply G3. cbn [mqReader fmap list_fmap] in *. rewrite elem_of_cons in Hor.
    destruct (decide (ReaderName c = n)) as [<-|Hne]; [left; rewrite lookup_insert_eq; by eexists|].
    rewrite lookup_insert_ne by done. destruct Hor as [?|[?|?]]; [by left|congruence|by right].
Qed.

Lemma NewWriter_config config p h w h' : NewWriter NewProducer config p h = Done (Ok w, h') ->
  wconfig w = config /\ rcells h' = rcells h /\ wcells h' = wcells h /\
  exists cfg, wcells h !! config = Some cfg /\
    NewProducer (withWriterConfig (withClientConfig (Some ∅) (ClientConf (mqConfig p))) cfg) = None.
Proof.
  unfold NewWriter, deref. destruct (wcells h !! config) as [cfg|]; [|done]. rewrite bind_Done.
  destruct (NewProducer _) eqn:Hp; [done|]. intros H. injection H as <- <-. eauto 10.
Qed.

Lemma newWriters_shared confs a : forall cli h cli' h',
  newWriters NewProducer confs a cli h = Done (Ok cli', h') ->
  (forall n w, mqWriter cli !! n = Some w -> wconfig w = a) ->
  mqReader cli' = mqReader cli /\ rcells h' = rcells h /\
  (forall n w, mqWriter cli' !! n = Some w -> wconfig w = a) /\
  wcells h' !! a = match last confs with Some c => Some c | None => wcells h !! a end /\
  Forall (fun c => exists cc, NewProducer (withWriterConfig (withClientConfig (Some ∅) cc) c) = None) confs /\
  (confs = [] -> mqWriter cli' = mqWriter cli).
Proof.
  induction confs as [|c confs IH]; intros cli h cli' h' Hn Hr; cbn [newWriters] in Hn.
  { injection Hn as <- <-. auto 10. }
  apply bind_Done_inv in Hn as ([[writer|e] h1] & H1 & Hn); [|done].
  apply NewWriter_config in H1 as (Hrc & Hrr & Hc & cfg & Hcfg & Hp). cbn [set_wcell rcells wcells] in Hc, Hrr, Hcfg.
  rewrite lookup_insert_eq in Hcfg. injection Hcfg as <-.
  unfold deref in Hn. rewrite Hc, lookup_insert_eq, bind_Done in Hn.
  destruct (IH _ _ _ _ Hn) as (G1 & G2 & G3 & G4 & G5 & _).
  { cbn. intros n w [[_ <-]|[_ ?]]%lookup_insert_Some; eauto. }
  split; [done|]. split; [congruence|]. split; [done|]. split.
  - rewrite G4, Hc, lookup_insert_eq, last_cons. by destruct (last confs).
  - split; [|done]. constructor; [by eexists|done].
Qed.

(** The library takes strings, ints and booleans only. *)
Definition rejects_uint (new : option ConfigMap -> option error) : Prop :=
  forall cm k n, cm !! k = Some (CVUint n) -> is_Some (new (Some cm)).

Lemma batch_size_uint cc c : BatchBytes c <> 0 -> exists cm n,
  withWriterConfig (withClientConfig (Some ∅) cc) c = Some cm /\ cm !! "batch.size" = Some (CVUint n).
Proof.
  intros Hb. cbn. rewrite (proj2 (Z.eqb_neq _ _) Hb). cbn [negb]. eexists _, (BatchBytes c). split; [done|].
  destruct (negb _); [rewrite lookup_insert_ne by done|]; by rewrite lookup_insert_eq.
Qed.
(** A client has the readers and the writers of its configuration. *)
Definition complete_client (p : KafkaClient) : Prop :=
  (forall c, c ∈ ReaderConfigs (mqConfig p) -> is_Some (GetReader (ReaderName c) p)) /\
  (forall c, c ∈ WriterConfigs (mqConfig p) -> is_Some (GetWriter (WriterName c) p)).

Lemma newReaders_names confs a : forall cli h cli' h', newReaders NewConsumer confs a cli h = Done (Ok cli', h') ->
  mqConfig cli' = mqConfig cli /\ forall n, is_Some (mqReader cli !! n) \/ n ∈ ReaderName <$> confs -> is_Some (mqReader cli' !! n).
Proof.
  induction confs as [|c confs IH]; intros cli h cli' h' Hn; cbn [newReaders] in Hn.
  { injection Hn as <- <-. split; [done|]. intros n [?|?%not_elem_of_nil]; done. }
  apply bind_Done_inv in Hn as ([[reader|e] h1] & H1 & Hn); [|done]. apply NewReader_config in H1 as (_ & _ & Hc & _).
  unfold deref in Hn. rewrite Hc in Hn. cbn [set_rcell rcells] in Hn. rewrite lookup_insert_eq, bind_Done in Hn.
  apply IH in Hn as [Hm Hs]. split; [exact Hm|]. intros n Hin. apply Hs. cbn [mqReader]. rewrite lookup_insert_is_Some'.
  destruct Hin as [Hin|[->|Hin]%elem_of_cons]; [by left; right|by left; left|by right].
Qed.

Lemma newWriters_names confs a : forall cli h cli' h', newWriters NewProducer confs a cli h = Done (Ok cli', h') ->
  mqConfig cli' = mqConfig cli /\ mqReader cli' = mqReader cli /\
  forall n, is_Some (mqWriter cli !! n) \/ n ∈ WriterName <$> confs -> is_Some (mqWriter cli' !! n).
Proof.
  induction confs as [|c confs IH]; intros cli h cli' h' Hn; cbn [newWriters] in Hn.
  { injection Hn as <- <-. split; [done|]. split; [done|]. intros n [?|?%not_elem_of_nil]; done. }
  apply bind_Done_inv in Hn as ([[writer|e] h1] & H1 & Hn); [|done]. apply NewWriter_config in H1 as (_ & _ & Hc & _).
  unfold deref in Hn. rewrite Hc in Hn. cbn [set_wcell wcells] in Hn. rewrite lookup_insert_eq, bind_Done in Hn.
  apply IH in Hn as (Hm & Hr & Hs). split; [exact Hm|]. split; [exact Hr|]. intros n Hin. apply Hs. cbn [mqWriter].
  rewrite lookup_insert_is_Some'. destruct Hin as [Hin|[->|Hin]%elem_of_cons]; [by left; right|by left; left|by right].
Qed.

Lemma NewClient_complete conf h cli h' : NewClient NewConsumer NewProducer conf h = Done (Ok cli, h') -> complete_client cli.
Proof.
  intros Hn. unfold NewClient in Hn. cbn [alloc] in Hn. apply bind_Done_inv in Hn as ([[cli1|e] h1] & H1 & Hn); [|done]. cbn [alloc] in Hn.
  apply newReaders_names in H1 as [Hm1 Hr1]. apply newWriters_names in Hn as (Hm2 & Hr2 & Hw2).
  unfold complete_client, GetReader, GetWriter. rewrite Hr2, Hm2, Hm1. cbn [mqConfig]. split; intros c Hc.
  - apply Hr1. right. by apply list_elem_of_fmap_2.
  - apply Hw2. right. by apply list_elem_of_fmap_2.
Qed.
End Shared.

(** All readers of a client share one configuration, all writers another.
    The pointer each keeps is that of the loop variable, so once [NewClient]
    has returned, whatever reader is asked, its configuration is the last one
    of the list, and acknowledgements are committed or not as that one says;
    the same for the writers.  And since the batch size is passed as an
    unsigned number, which the Kafka client refuses, a client can only be made
    if no writer sets it. *)
Theorem kafka_clients_share_config (NewConsumer NewProducer : option ConfigMap -> option error)
    (conf : MQConfig) (h h' : kheap) (cli : KafkaClient) :
  rejects_uint NewProducer ->
  NewClient NewConsumer NewProducer conf h = Done (Ok cli, h') ->
  (forall c, c ∈ ReaderConfigs conf -> is_Some (GetReader (ReaderName c) cli)) /\
  (forall n r, GetReader n cli = Some r -> exists c, last (ReaderConfigs conf) = Some c /\
     reader_GetConfig r h' = Done c /\
     forall ms, ms <> [] -> Forall well_read ms ->
       exists calls, Ack (kafka_iface <$> ms) r h' =
         Done (if AutoCommit c then None else Some (next_position <$> ms), calls)) /\
  (forall n w, GetWriter n cli = Some w -> exists c, last (WriterConfigs conf) = Some c /\
     writer_GetConfig w h' = Done c) /\
  Forall (fun c => BatchBytes c = 0) (WriterConfigs conf).
Proof.
  intros Hu Hn. unfold NewClient in Hn. cbn [alloc] in Hn.
  apply bind_Done_inv in Hn as ([[cli1|e] h1] & H1 & Hn); [|done]. cbn [alloc] in Hn.
  apply newReaders_shared in H1 as (R1 & R2 & R3 & R4 & R5); [|cbn; intros n r Hl; by rewrite lookup_empty in Hl].
  apply newWriters_shared in Hn as (W1 & W2 & W3 & W4 & W5 & W6);
    [|rewrite R4; cbn; intros n w Hl; by rewrite lookup_empty in Hl].
  unfold GetReader, GetWriter. rewrite W1. cbn [rcells wcells] in W2, W4. split; [|split; [|split]].
  - intros c Hc. apply R3. right. by apply list_elem_of_fmap_2.
  - intros n r Hr. rewrite <- W2 in R2. destruct (last (ReaderConfigs conf)) as [c|] eqn:Hl.
    + assert (Hcell : rcells h' !! rconfig r = Some c) by (rewrite (R1 n r Hr); exact R2).
      exists c. split; [done|]. unfold reader_GetConfig, deref. rewrite Hcell. split; [done|].
      intros ms Hne HF. unfold Ack. rewrite ackPartitions_read, bind_Done by done. unfold deref.
      rewrite Hcell, bind_Done. destruct (AutoCommit c); [by eexists|]. destruct ms; [done|by eexists].
    + apply last_None in Hl. rewrite R5 in Hr by done. cbn in Hr. by rewrite lookup_empty in Hr.
  - intros n w Hw. destruct (last (WriterConfigs conf)) as [c|] eqn:Hl.
    + exists c. split; [done|]. unfold writer_GetConfig, deref. by rewrite (W3 n w Hw), W4.
    + apply last_None in Hl. rewrite W6, R4 in Hw by done. cbn in Hw. by rewrite lookup_empty in Hw.
  - eapply Forall_impl; [exact W5|]. intros c [cc Hp]. destruct (decide (BatchBytes c = 0)) as [|Hb]; [done|].
    destruct (batch_size_uint cc c Hb) as (cm & n & Hcm & Hk). rewrite Hcm in Hp.
    destruct (Hu cm "batch.size" n Hk) as [e He]. congruence.
Qed.

Definition demo_reader_conf (name : string) (auto : bool) : ReaderConfig := MkReaderConfig [name] auto "" "" name 0 0 0 ∅.

Definition demo_conf : MQConfig :=
  MkMQConfig [demo_reader_conf "a" false; demo_reader_conf "b" true] []
    (MkClientConfig "u" "" ∅) (MkReactorConfig "u" "r" ∅).

(** A producer that refuses every map holding an unsigned value. *)
Definition is_uint (v : ConfigValue) : bool := if v is CVUint _ then true else false.
Definition demo_producer (cm : option ConfigMap) : option error :=
  match cm with
  | Some m => if decide (map_Forall (fun _ v => is_uint v = false) m) then None else Some "Invalid value type"
  | None => Some "nil"
  end.

Lemma demo_producer_rejects : rejects_uint demo_producer.
Proof.
  intros cm k n Hk. unfold demo_producer. case_decide as Hd; [|by eexists].
  specialize (Hd k _ Hk). done.
Qed.

Lemma kafka_clients_share_config_witness :
  match NewClient (fun _ => None) demo_producer demo_conf (MkHeap ∅ ∅ 0 []) with
  | Done (Ok cli, h') =>
      exists r, GetReader "a" cli = Some r /\ reader_GetConfig r h' = Done (demo_reader_conf "b" true)
  | _ => False
  end.
Proof.
  destruct (NewClient (fun _ => None) demo_producer demo_conf (MkHeap ∅ ∅ 0 [])) as [[[cli|e] h']| |] eqn:Hn;
    [|vm_compute in Hn; discriminate..].
  destruct (kafka_clients_share_config _ _ _ _ _ _ demo_producer_rejects Hn) as (H1 & H2 & _).
  destruct (H1 (demo_reader_conf "a" false)) as [r Hr]; [cbn; left|].
  destruct (H2 _ _ Hr) as (c & Hc & Hg & _). injection Hc as <-. eauto.
Defined.

Section Reactor.
Context (NewConsumer : option ConfigMap -> option error).

(** A reactor after some registrations. *)
Definition registered (config : ReactorConfig) (regs : list (list string * nat)) (h : kheap) : kafkaReactor * kheap :=
  foldl (fun kh reg => Register NewConsumer reg.1 reg.2 kh.1 kh.2) (NewReactor config, h) regs.

(** The handler registered last for a topic. *)
Definition last_handler (regs : list (list string * nat)) (t : string) : option nat :=
  last (omap (fun reg => if decide (t ∈ reg.1) then Some reg.2 else None) regs).

Lemma Register_spec topics handler : forall k h t,
  let k' := (Register NewConsumer topics handler k h).1 in
  handlers k' !! t = (if decide (t ∈ topics) then Some handler else handlers k !! t) /\
  (is_Some (reConsumer k' !! t) -> t ∈ topics \/ is_Some (reConsumer k !! t)).
Proof.
  induction topics as [|topic topics IH]; intros k h t; cbn [Register].
  { rewrite decide_False by apply not_elem_of_nil. auto. }
  set (k1 := MkKafkaReactor _ _ (reConsumer k) _).
  assert (Hh : forall (b c : option nat), (if decide (t ∈ topics) then b else if decide (topic = t) then b else c) =
    if decide (t ∈ topic :: topics) then b else c).
  { intros b c. destruct (decide (t ∈ topics)), (decide (topic = t)), (decide (t ∈ topic :: topics)) as [Hel|Hel];
      try done; exfalso; rewrite elem_of_cons in Hel; intuition congruence. }
  assert (Hk1 : handlers k1 !! t = if decide (topic = t) then Some handler else handlers k !! t).
  { unfold k1. cbn [handlers]. rewrite lookup_insert. done. }
  assert (Hstep : forall k2 h2, handlers k2 = handlers k1 ->
    (is_Some (reConsumer k2 !! t) -> topic = t \/ is_Some (reConsumer k !! t)) ->
    let k' := (Register NewConsumer topics handler k2 h2).1 in
    handlers k' !! t = (if decide (t ∈ topic :: topics) then Some handler else handlers k !! t) /\
    (is_Some (reConsumer k' !! t) -> t ∈ topic :: topics \/ is_Some (reConsumer k !! t))).
  { intros k2 h2 H1 H2. destruct (IH k2 h2 t) as [I1 I2]. split.
    - rewrite I1, H1, Hk1. apply Hh.
    - intros Hs. rewrite elem_of_cons. destruct (I2 Hs) as [?|Hs']; [auto|].
      destruct (H2 Hs') as [->|?]; auto. }
  destruct (reConsumer k1 !! topic) eqn:Hc; [apply Hstep; [done|auto]|].
  destruct (NewConsumer _); [apply Hstep; [done|auto]|]. cbn [alloc]. apply Hstep; [done|]. cbn.
  intros Hs. destruct (decide (topic = t)); [by left|]. rewrite lookup_insert_ne in Hs by done. auto.
Qed.

Lemma registered_spec config regs h t :
  let k := (registered config regs h).1 in
  handlers k !! t = last_handler regs t /\ (is_Some (reConsumer k !! t) -> is_Some (last_handler regs t)).
Proof.
  unfold registered, last_handler. induction regs as [|[topics handler] regs IH] using rev_ind.
  { cbn. rewrite !lookup_empty. split; [done|]. by intros [? ?]. }
  rewrite foldl_app, omap_app_eq. cbn [foldl fst snd].
  destruct (Register_spec topics handler (foldl (fun kh reg => Register NewConsumer reg.1 reg.2 kh.1 kh.2) (NewReactor config, h) regs).1
    (foldl (fun kh reg => Register NewConsumer reg.1 reg.2 kh.1 kh.2) (NewReactor config, h) regs).2 t) as [H1 H2].
  rewrite omap_cons_eq. cbn [fst snd]. destruct (decide (t ∈ topics)) as [Hin|Hin].
  - change (omap _ (@nil (list string * nat))) with (@nil nat). rewrite last_snoc. split; [done|]. by eexists.
  - change (omap _ (@nil (list string * nat))) with (@nil nat). rewrite app_nil_r. destruct IH as [I1 I2].
    split; [by rewrite H1|]. intros Hs. destruct (H2 Hs); [done|auto].
Qed.
End Reactor.

(** The handlers a pass starts. *)
Definition dispatched (regs : list (list string * nat)) (order : list (string * nat))
    (read : nat -> option (result kError kMessage)) : list hcall :=
  omap (fun tc => match read tc.2, last_handler regs tc.1 with
                  | Some (Ok msg), Some handler => Some (MkHcall handler tc.1 msg)
                  | _, _ => None
                  end) order.

(** C26. The reactor's pass over its topics.  After any registrations, in any order
    of the range: if every consumer's read answers, each message is handed to
    the handler registered last for its topic, read errors are skipped, and no
    handler is missing; if one topic has nothing to read, the pass never
    returns, although other topics may have messages. *)
Theorem kafka_reactor_dispatch (NewConsumer : option ConfigMap -> option error) (config : ReactorConfig)
    (regs : list (list string * nat)) (h : kheap) (order : list (string * nat))
    (read : nat -> option (result kError kMessage)) :
  let k := (registered NewConsumer config regs h).1 in
  ranges (reConsumer k) order ->
  pollAll order read k =
    if decide (Forall (fun tc => is_Some (read tc.2)) order) then Done (dispatched regs order read) else Hang.
Proof.
  intros k Hr.
  assert (Hh : forall tc, tc ∈ order -> exists hd, handlers k !! tc.1 = Some hd /\ last_handler regs tc.1 = Some hd).
  { intros [t c] Hin. apply (ranges_lookup _ _ _ _ Hr) in Hin.
    destruct (registered_spec NewConsumer config regs h t) as [H1 H2]. destruct H2 as [hd Hhd]; [by eexists|].
    exists hd. split; [|done]. by rewrite <- Hhd. }
  clear Hr. induction order as [|[t c] order IH]; [done|]. cbn [pollAll].
  assert (IH' := IH (fun tc Hin => Hh tc (list_elem_of_further _ _ _ Hin))). clear IH.
  destruct (Hh (t, c) (list_elem_of_here _ _)) as (hd & H1 & H2). cbn [fst] in H1, H2.
  unfold dispatched. rewrite omap_cons_eq. cbn [fst snd]. rewrite H2.
  destruct (decide (Forall (fun tc => is_Some (read tc.2)) ((t, c) :: order))) as [HF|HF].
  - apply Forall_cons in HF as [[res Hres] HF]. cbn in Hres. rewrite Hres. rewrite decide_True in IH' by done.
    destruct res as [msg|e]; [|done]. by rewrite H1, IH'.
  - destruct (read c) as [[msg|e]|] eqn:Hres; [| |done].
    + rewrite decide_False in IH' by (intros HF'; apply HF; constructor; [by eexists|done]). by rewrite H1, IH'.
    + rewrite decide_False in IH' by (intros HF'; apply HF; constructor; [by eexists|done]). done.
Qed.

Lemma kafka_reactor_dispatch_witness :
  let k := (registered (fun _ => None) (MkReactorConfig "u" "r" ∅) [(["a"; "b"], 1%nat); (["b"], 2%nat)] (MkHeap ∅ ∅ 0 [])).1 in
  pollAll [("b", 1%nat); ("a", 0%nat)] (fun c => if (c =? 1)%nat then Some (Ok (km (demo_read 0 5))) else Some (Err (KError 1 "e"))) k =
    Done [MkHcall 2 "b" (km (demo_read 0 5))].
Proof.
  intros k.
  refine (eq_trans (kafka_reactor_dispatch (fun _ => None) (MkReactorConfig "u" "r" ∅) [(["a"; "b"], 1%nat); (["b"], 2%nat)]
    (MkHeap ∅ ∅ 0 []) [("b", 1%nat); ("a", 0%nat)]
    (fun c => if (c =? 1)%nat then Some (Ok (km (demo_read 0 5))) else Some (Err (KError 1 "e"))) _) _).
  - unfold ranges. change (reConsumer _) with (list_to_map [("b", 1%nat); ("a", 0%nat)] : gmap string nat).
    symmetry. apply map_to_list_to_map. by_decide.
  - vm_compute. reflexivity.
Defined.
