(* ===== verification/Pulsar.v ===== *)
(** * plugin/mq/pulsar: readers and writers over the Pulsar client

    The vendored Pulsar client is a parameter: whether it subscribes or makes a
    producer with given options, and what its calls answer, are arguments of
    the operations.  Handles and configuration cells are those of Mq.v; the
    readers and writers made in a loop share the loop variable.  Byte slices
    are strings, a message id is the text the client prints for it.  Log calls
    are left out. *)

From S2P Require Import Prelude GoStrings Mq.

Abbreviation nil_deref := "invalid memory address or nil pointer dereference".

(** ** message.go *)

(** Values of the Pulsar client. *)
Record pMessage := MkPMessage {
  pmTopic : string; pmKey : string; pmProperties : gmap string string; pmPayload : string; pmID : string
}.
Record ProducerMessage := MkProducerMessage {
  Payload : string; ppKey : string; Properties : gmap string string; SequenceID : option Z
}.

(** [None]: the interface field is nil. *)
Record pulsarMessage := MkPulsarMessage { msg : option pMessage }.

(** A method of the message held. *)
Definition with_msg {A} (p : pulsarMessage) (f : pMessage -> A) : outcome A :=
  match msg p with
  | Some m => Done (f m)
  | None => Panic nil_deref
  end.

Definition pulsarMessage_String (p : pulsarMessage) : outcome string :=
  with_msg p (fun m => pmTopic m +:+ "[" +:+ pmKey m +:+ "]@" +:+ pmID m).
Definition pulsarMessage_Partition (p : pulsarMessage) : outcome Z := Panic "implement me".
Definition pulsarMessage_MessageID (p : pulsarMessage) : outcome string := with_msg p pmID.
Definition pulsarMessage_Key (p : pulsarMessage) : outcome string := with_msg p pmKey.
Definition pulsarMessage_MetaInfo (p : pulsarMessage) : outcome (gmap string string) := with_msg p pmProperties.
Definition pulsarMessage_PayLoad (p : pulsarMessage) : outcome string := with_msg p pmPayload.
Definition pulsarMessage_SeqID (p : pulsarMessage) : outcome Z := Done 0.
Definition pulsarMessage_SetSeqID (seqID : Z) (p : pulsarMessage) : pulsarMessage := p.
Definition pulsarMessage_Topic (p : pulsarMessage) : outcome string := with_msg p pmTopic.

Definition pulsar_iface (p : pulsarMessage) : Message :=
  MkMessage (pulsarMessage_Key p) (pulsarMessage_MetaInfo p) (pulsarMessage_PayLoad p) (pulsarMessage_SeqID p)
    (pulsarMessage_Topic p) (pulsarMessage_Partition p).

Record producerMessage := MkPM { pm : ProducerMessage }.

Definition producerMessage_Partition (p : producerMessage) : outcome Z := Panic "implement me".
Definition producerMessage_Key (p : producerMessage) : outcome string := Done (ppKey (pm p)).
Definition producerMessage_MetaInfo (p : producerMessage) : outcome (gmap string string) := Done (Properties (pm p)).

(** [PayLoad] and [Topic] call themselves. *)
Definition producerMessage_PayLoad (stack : nat) (p : producerMessage) : outcome string := recurse stack.
Definition producerMessage_SeqID (p : producerMessage) : outcome Z :=
  match SequenceID (pm p) with
  | Some n => Done n
  | None => Panic nil_deref
  end.
Definition producerMessage_SetSeqID (seqID : Z) (p : producerMessage) : outcome producerMessage :=
  match SequenceID (pm p) with
  | Some _ => Done (MkPM (MkProducerMessage (Payload (pm p)) (ppKey (pm p)) (Properties (pm p)) (Some seqID)))
  | None => Panic nil_deref
  end.
Definition producerMessage_Topic (stack : nat) (p : producerMessage) : outcome string := recurse stack.

Definition producer_iface (stack : nat) (p : producerMessage) : Message :=
  MkMessage (producerMessage_Key p) (producerMessage_MetaInfo p) (producerMessage_PayLoad stack p)
    (producerMessage_SeqID p) (producerMessage_Topic stack p) (producerMessage_Partition p).

(** ** config.go *)

Record ConsumerOptions := MkConsumerOptions {
  coTopic : string;
  coTopics : list string;
  coTopicsPattern : string;
  SubscriptionName : string;
  coType : Z;
  coProperties : gmap string string;
  coInterceptors : list Interceptor
}.

Definition consumerOptions (config : ReaderConfig) : ConsumerOptions :=
  let '(topic, topics) :=
    match rTopic config with
    | [t] => (t, [])
    | ts => ("", ts)
    end in
  MkConsumerOptions topic topics (TopicPattern config) (ReaderName config) (SubscriptionType config)
    (rProperties config) [].

(** A router: the message and the number of partitions. *)
Definition MessageRouter : Type := ProducerMessage -> Z -> Z.

Record ProducerOptions := MkProducerOptions {
  poTopic : string;
  poName : string;
  poProperties : gmap string string;
  BatchingMaxMessages : Z;
  BatchingMaxSize : Z;
  poRouter : option MessageRouter;
  SendTimeout : Z;
  poCompressionType : Z;
  poInterceptors : list Interceptor
}.

Definition BalancerWrapper (stack : nat) (balancer : Balancer) : MessageRouter :=
  fun message numPartitions =>
    let m := producer_iface stack (MkPM message) in
    let partitions := seqZ 0 numPartitions in
    balancer m partitions.

Definition Second : Z := 1000000000.

Definition producerOption (stack : nat) (config : WriterConfig) : ProducerOptions :=
  let compression :=
    match default "" (wProperties config !! "compression_type") with
    | "" => 0
    | s => match ParseInt s 64 with Ok t => t | Err _ => 0 end
    end in
  MkProducerOptions (wTopic config)
    (if String.eqb (WriterName config) "" then "default_producer" else WriterName config)
    (wProperties config)
    (if BatchSize config >? 0 then BatchSize config else 0)
    (if BatchBytes config >? 0 then BatchBytes config else 0)
    (BalancerWrapper stack <$> wBalancer config)
    (if negb (WriteTimeout config =? 0) then i64 (WriteTimeout config * Second) else 0)
    compression [].

(** ** Memory *)

Inductive pcall :=
| PSubscribe (handle : nat) (opts : ConsumerOptions)
| PCreateProducer (handle : nat) (opts : ProducerOptions).

Abbreviation pheap := (heap pcall).

(** ** reader.go *)

Record pulsarReader := MkPulsarReader {
  consumer : option nat;
  rconfig : nat;
  readInterceptor : list (nat * Interceptor)
}.

Definition ReadMessageWithOption : outcome (result error pulsarMessage) := Panic "implement me".

Definition AddReaderInterceptor (interceptor : Interceptor) (p : pulsarReader) (h : pheap) : pulsarReader * pheap :=
  let '(a, h) := alloc h in
  (MkPulsarReader (consumer p) (rconfig p) (readInterceptor p ++ [(a, interceptor)]), h).

(** The addresses compared with are those of the stored variables, [a] that of
    the parameter. *)
Definition RemoveReaderInterceptor (interceptor : Interceptor) (p : pulsarReader) (h : pheap)
  : outcome (pulsarReader * pheap) :=
  let '(a, h) := alloc h in
  let idx := index_of a (readInterceptor p) 0 in
  if negb (idx =? -1) then
    l1 ← slice (readInterceptor p) 0 idx;
    l2 ← slice_from (readInterceptor p) (idx + 1);
    Done (MkPulsarReader (consumer p) (rconfig p) (l1 ++ l2), h)
  else Done (p, h).

(** A message given to [Ack]: one of this package, or of another. *)
Inductive ackMessage := AMsg (p : pulsarMessage) | AOther (m : Message).

Definition ack_iface (m : ackMessage) : Message :=
  match m with AMsg p => pulsar_iface p | AOther m => m end.

(** The ids acknowledged by the loop. *)
Fixpoint ackIDs (consumer : option nat) (messages : list ackMessage) : outcome (list string) :=
  match messages with
  | [] => Done []
  | AOther _ :: _ => Panic "interface conversion"
  | AMsg p :: messages =>
      id ← pulsarMessage_MessageID p;
      match consumer with
      | None => Panic nil_deref
      | Some _ => l ← ackIDs consumer messages; Done (id :: l)
      end
  end.

(** The interceptors are called on a goroutine per message, which reads the
    loop variable at each call: [seen i j] is the index of the message the
    variable holds when goroutine [i] makes its [j]-th call. *)
Definition ackCalls (seen : nat -> nat -> nat) (inters : list (nat * Interceptor)) (messages : list ackMessage)
  : list icall :=
  concat (imap (fun i _ => omap id (imap (fun j inter =>
    (fun m => IAfter inter.2 (ack_iface m)) <$> messages !! seen i j) inters)) messages).

(** The variable only moves forward, and stays at the last message. *)
Definition loop_variable (seen : nat -> nat -> nat) (n : nat) : Prop :=
  forall i j, (i < n)%nat -> (i <= seen i j < n)%nat.

Definition Ack (seen : nat -> nat -> nat) (messages : list ackMessage) (p : pulsarReader) (h : pheap)
  : outcome (list string * list icall) :=
  config ← deref (rcells h) (rconfig p);
  ids ← ackIDs (consumer p) messages;
  Done (ids, ackCalls seen (readInterceptor p) messages).

Definition reader_GetConfig (p : pulsarReader) (h : pheap) : outcome ReaderConfig := deref (rcells h) (rconfig p).
Definition reader_SetConfig (config : nat) (p : pulsarReader) : pulsarReader :=
  MkPulsarReader (consumer p) config (readInterceptor p).

(** [interceptor]: what the client calls for each message, acknowledgement and
    negative acknowledgement. *)
Definition BeforeConsume (inter : Interceptor) (message : pMessage) : list icall :=
  [IPre inter (pulsar_iface (MkPulsarMessage (Some message)))].
Definition OnAcknowledge (inter : Interceptor) : list icall := [].
Definition OnNegativeAcksSend (inter : Interceptor) : list icall := [].

(** What [Receive] answers: a message, or none with an error that may be nil. *)
Inductive received := RMsg (m : pMessage) | RNil (err : option error).
(** The value passed on the channel. *)
Inductive doneVal := DMsg (m : pMessage) | DErr (err : error) | DNil.

Definition received_val (r : received) : doneVal :=
  match r with
  | RMsg m => DMsg m
  | RNil (Some err) => DErr ("receive failed: " +:+ err)
  | RNil None => DNil
  end.

Section Client.
(** Whether the client subscribes, or makes a producer, with the options; the
    stack a method that calls itself uses up. *)
Context (stack : nat) (Subscribe : ConsumerOptions -> option error) (CreateProducer : ProducerOptions -> option error).

Definition reader_init (p : pulsarReader) (h : pheap) : outcome (option error * pulsarReader * pheap) :=
  config ← deref (rcells h) (rconfig p);
  let cfg := consumerOptions config in
  let cfg := MkConsumerOptions (coTopic cfg) (coTopics cfg) (coTopicsPattern cfg) (SubscriptionName cfg) (coType cfg)
               (coProperties cfg) (readInterceptor p).*2 in
  match Subscribe cfg with
  | Some err => Done (Some err, p, h)
  | None =>
      let '(c, h) := alloc h in
      Done (None, MkPulsarReader (Some c) (rconfig p) (readInterceptor p), call (PSubscribe c cfg) h)
  end.

(** [receive]: what the blocking [Receive] answers, [None] if it never does
    (it also ends with the context, and [ReadMessage] waits for it then too).
    The message and error returned, and what was acknowledged, if anything. *)
Definition ReadMessage (seen : nat -> nat -> nat) (receive : option received) (p : pulsarReader) (h : pheap)
  : outcome (option pulsarMessage * option error * option (list string * list icall) * pulsarReader * pheap) :=
  '(err, p, h) ← match consumer p with
                 | None => reader_init p h
                 | Some _ => Done (None, p, h)
                 end;
  match err with
  | Some err => Done (None, Some err, None, p, h)
  | None =>
      match receive with
      | None => Hang
      | Some r =>
          let val := received_val r in
          let err := match val with DErr i => Some i | _ => None end in
          let res := MkPulsarMessage (match val with DMsg i => Some i | _ => None end) in
          config ← deref (rcells h) (rconfig p);
          if AutoCommit config
          then acked ← Ack seen [AMsg res] p h; Done (Some res, err, Some acked, p, h)
          else Done (Some res, err, None, p, h)
      end
  end.

(** The consumer closed, if any. *)
Definition reader_Close (p : pulsarReader) : option nat := consumer p.

(** ** writer.go *)

Record pulsarWriter := MkPulsarWriter {
  producer : option nat;
  wconfig : nat;
  writeInterceptors : list (nat * Interceptor)
}.

Definition AddWriterInterceptor (interceptor : Interceptor) (w : pulsarWriter) (h : pheap) : pulsarWriter * pheap :=
  let '(a, h) := alloc h in
  (MkPulsarWriter (producer w) (wconfig w) (writeInterceptors w ++ [(a, interceptor)]), h).

Definition RemoveWriterInterceptor (interceptor : Interceptor) (w : pulsarWriter) (h : pheap)
  : outcome (pulsarWriter * pheap) :=
  let '(a, h) := alloc h in
  let idx := index_of a (writeInterceptors w) 0 in
  if negb (idx =? -1) then
    l1 ← slice (writeInterceptors w) 0 idx;
    l2 ← slice_from (writeInterceptors w) (idx + 1);
    Done (MkPulsarWriter (producer w) (wconfig w) (l1 ++ l2), h)
  else Done (w, h).

Definition constructMessage (msg : Message) : outcome ProducerMessage :=
  payload ← PayLoad msg;
  key ← Key msg;
  metaInfo ← MetaInfo msg;
  seqID ← SeqID msg;
  Done (MkProducerMessage payload key metaInfo (if seqID >? 0 then Some seqID else None)).

(** The library calls the interceptors with the message sent. *)
Definition BeforeSend (inter : Interceptor) (message : ProducerMessage) : list icall :=
  [IPre inter (producer_iface stack (MkPM message))].
Definition OnSendAcknowledgement (inter : Interceptor) (message : ProducerMessage) : list icall :=
  [IAfter inter (producer_iface stack (MkPM message))].

Definition writer_init (w : pulsarWriter) (h : pheap) : outcome (option error * pulsarWriter * pheap) :=
  config ← deref (wcells h) (wconfig w);
  let cfg := producerOption stack config in
  let cfg := MkProducerOptions (poTopic cfg) (poName cfg) (poProperties cfg) (BatchingMaxMessages cfg)
               (BatchingMaxSize cfg) (poRouter cfg) (SendTimeout cfg) (poCompressionType cfg)
               (writeInterceptors w).*2 in
  match CreateProducer cfg with
  | Some err => Done (Some err, w, h)
  | None =>
      let '(c, h) := alloc h in
      Done (None, MkPulsarWriter (Some c) (wconfig w) (writeInterceptors w), call (PCreateProducer c cfg) h)
  end.

(** The error, nil when a producer is there. *)
Definition checkProducer (w : pulsarWriter) (h : pheap) : outcome (option error * pulsarWriter * pheap) :=
  match producer w with
  | None => writer_init w h
  | Some _ => Done (None, w, h)
  end.

(** What the sending goroutine passes on the channel: an error, an [int], or
    an [int64]. *)
Inductive sentVal := SErr (err : error) | SInt (n : Z) | SInt64 (n : Z).

(** The goroutine, given the id (nil is [None]) or the error of [Send]. *)
Definition sendResult (send : result error (option string)) : sentVal :=
  match send with
  | Err err => SErr err
  | Ok None => SInt 0
  | Ok (Some msgId) =>
      match Split msgId ":" with
      | _ :: r :: _ => SInt64 (ParseInt_value r 64)
      | _ => SInt 0
      end
  end.

(** [ctxErr]: the context's error, when the select takes its end; [send]: what
    [Send] answers, [None] if it never does.  The result, the message sent, the
    writer. *)
Definition WriteMessage (msg : Message) (ctxErr : option error) (send : option (result error (option string)))
    (w : pulsarWriter) (h : pheap)
  : outcome (Z * option error * option ProducerMessage * pulsarWriter * pheap) :=
  '(err, w, h) ← checkProducer w h;
  match err with
  | Some err => Done (0, Some err, None, w, h)
  | None =>
      producerMessage ← constructMessage msg;
      match send with
      | None => Hang
      | Some send =>
          let done := sendResult send in
          let '(n, err) :=
            match ctxErr with
            | Some e => (0, Some e)
            | None =>
                match done with
                | SInt64 i => (i, None)
                | SErr i => (0, Some i)
                | SInt _ => (0, Some "unexpect error")
                end
            end in
          Done (n, err, Some producerMessage, w, h)
      end
  end.

(** [callBack] is false for a nil callback. *)
Definition pulsarCallBackWrapper (callBack : bool) (message : ProducerMessage) (err : option error)
  : list callback_call :=
  if negb callBack then [] else
  let offset := match SequenceID message with Some n => n | None => 0 end in
  [MkCallback offset (producer_iface stack (MkPM message)) err].

(** [answer]: the outcome of the sending, when the client calls back. *)
Definition WriteMessageAsync (msg : Message) (callBack : bool) (answer : option (option error))
    (w : pulsarWriter) (h : pheap)
  : outcome (option error * list callback_call * pulsarWriter * pheap) :=
  '(err, w, h) ← checkProducer w h;
  match err with
  | Some err => Done (Some err, [], w, h)
  | None =>
      producerMessage ← constructMessage msg;
      Done (None, match answer with
                  | Some err => pulsarCallBackWrapper callBack producerMessage err
                  | None => []
                  end, w, h)
  end.

Definition writer_GetConfig (w : pulsarWriter) (h : pheap) : outcome WriterConfig := deref (wcells h) (wconfig w).
Definition writer_SetConfig (config : nat) (w : pulsarWriter) : pulsarWriter :=
  MkPulsarWriter (producer w) config (writeInterceptors w).

Inductive pclose := PFlush (handle : nat) | PClose (handle : nat).

Definition writer_Close (w : pulsarWriter) : list pclose :=
  match producer w with
  | Some c => [PFlush c; PClose c]
  | None => []
  end.

(** ** client.go *)

Record PulsarClient := MkPulsarClient {
  mqConfig : MQConfig;
  mqReader : gmap string pulsarReader;
  mqWriter : gmap string pulsarWriter
}.

Definition SetConfig (conf : MQConfig) (p : PulsarClient) : PulsarClient :=
  MkPulsarClient conf (mqReader p) (mqWriter p).
Definition GetReader (name : string) (p : PulsarClient) : option pulsarReader := mqReader p !! name.
Definition GetWriter (name : string) (p : PulsarClient) : option pulsarWriter := mqWriter p !! name.
Definition ResourceManager {A} : outcome A := Panic "implement me".
Definition TopicPartitions (topic : string) : outcome (list string) := Panic "implement me".

Definition NewReader (config : nat) : result error pulsarReader := Ok (MkPulsarReader None config []).
Definition NewWriter (config : nat) : result error pulsarWriter := Ok (MkPulsarWriter None config []).

(** The loops of [NewClient]: [a] is the address of the loop variable, which
    each turn assigns. *)
Fixpoint newReaders (confs : list ReaderConfig) (a : nat) (cli : PulsarClient) (h : pheap)
  : result error PulsarClient * pheap :=
  match confs with
  | [] => (Ok cli, h)
  | readerConf :: confs =>
      let h := set_rcell a readerConf h in
      match NewReader a with
      | Err err => (Err err, h)
      | Ok reader =>
          newReaders confs a
            (MkPulsarClient (mqConfig cli) (<[ReaderName readerConf := reader]> (mqReader cli)) (mqWriter cli)) h
      end
  end.

Fixpoint newWriters (confs : list WriterConfig) (a : nat) (cli : PulsarClient) (h : pheap)
  : result error PulsarClient * pheap :=
  match confs with
  | [] => (Ok cli, h)
  | writerConf :: confs =>
      let h := set_wcell a writerConf h in
      match NewWriter a with
      | Err err => (Err err, h)
      | Ok writer =>
          newWriters confs a
            (MkPulsarClient (mqConfig cli) (mqReader cli) (<[WriterName writerConf := writer]> (mqWriter cli))) h
      end
  end.

Definition with_LogPath (p : string) (conf : MQConfig) : MQConfig :=
  MkMQConfig (ReaderConfigs conf) (WriterConfigs conf)
    (MkClientConfig (Url (ClientConf conf)) p (cProperties (ClientConf conf))) (ReactorConf conf).

(** [create]: the answer of [os.Create] for a path, after [os.MkdirAll] was
    tried on its directory; [newClient]: of the vendored client for a URL.  The
    configuration is changed through its pointer. *)
Definition NewClient (create newClient : string -> option error) (conf : MQConfig) (h : pheap)
  : result error PulsarClient * MQConfig * pheap :=
  let logPath := LogPath (ClientConf conf) in
  let conf := if String.eqb logPath "" then with_LogPath "./log/pulsar-go.log" conf else conf in
  match create logPath with
  | Some err => (Err err, conf, h)
  | None =>
      match newClient (Url (ClientConf conf)) with
      | Some err => (Err err, conf, h)
      | None =>
          let cli := MkPulsarClient conf ∅ ∅ in
          let '(a, h) := alloc h in
          match newReaders (ReaderConfigs conf) a cli h with
          | (Err err, h) => (Err err, conf, h)
          | (Ok cli, h) =>
              let '(b, h) := alloc h in
              match newWriters (WriterConfigs conf) b cli h with
              | (Err err, h) => (Err err, conf, h)
              | (Ok cli, h) => (Ok cli, conf, h)
              end
          end
      end
  end.

(** ** plugin.go *)

Definition factory_Type : string := "mq".
Definition factory_Name : string := "pulsar".

Definition Setup (create newClient : string -> option error) (unmarshal : result error MQConfig) (h : pheap)
  : result error PulsarClient * pheap :=
  match unmarshal with
  | Err e => (Err e, h)
  | Ok config => let '(r, _, h) := NewClient create newClient config h in (r, h)
  end.

(** What the registry holds: a pointer to a client, as [Setup] gives, or a
    client. *)
Inductive instance := IPointer (p : PulsarClient) | IClient (p : PulsarClient).

Definition Reload (i : instance) (decode : result error MQConfig) : outcome (option error) :=
  match decode with
  | Err e => Done (Some e)
  | Ok config =>
      match i with
      | IPointer _ => Panic "interface conversion"
      | IClient cli => let cli := SetConfig config cli in Done None
      end
  end.
End Client.

(** ** Readers and writers of one client share a configuration *)

Lemma pulsar_newReaders_shared confs a : forall cli h cli' h',
  (forall n r, mqReader cli !! n = Some r -> r = MkPulsarReader None a []) ->
  newReaders confs a cli h = (Ok cli', h') ->
  (forall n r, mqReader cli' !! n = Some r -> r = MkPulsarReader None a []) /\
  rcells h' !! a = match last confs with Some c => Some c | None => rcells h !! a end /\
  (forall n, is_Some (mqReader cli' !! n) <-> is_Some (mqReader cli !! n) \/ n ∈ (ReaderName <$> confs)) /\
  mqWriter cli' = mqWriter cli /\ hnext h' = hnext h /\ kcalls h' = kcalls h.
Proof.
  induction confs as [|c confs IH]; intros cli h cli' h' Hall Hn; cbn [newReaders] in Hn.
  { injection Hn as <- <-. split; [done|]. split; [done|]. split; [|done]. intros n. cbn. rewrite elem_of_nil. tauto. }
  cbn [NewReader] in Hn. apply IH in Hn as (H1 & H2 & H3 & H4 & H5 & H6).
  - split; [done|]. split; [|split; [|done]].
    + rewrite H2, last_cons. destruct (last confs); [done|]. cbn [rcells wcells set_rcell set_wcell]. by rewrite lookup_insert_eq.
    + intros n. rewrite H3. cbn [mqReader fmap list_fmap]. rewrite elem_of_cons, lookup_insert_is_Some'. intuition congruence.
  - cbn [mqReader]. intros n r [[_ <-]|[_ Hr]]%lookup_insert_Some; [done|by eapply Hall].
Qed.

Lemma pulsar_newWriters_shared confs a : forall cli h cli' h',
  (forall n w, mqWriter cli !! n = Some w -> w = MkPulsarWriter None a []) ->
  newWriters confs a cli h = (Ok cli', h') ->
  (forall n w, mqWriter cli' !! n = Some w -> w = MkPulsarWriter None a []) /\
  wcells h' !! a = match last confs with Some c => Some c | None => wcells h !! a end /\
  (forall n, is_Some (mqWriter cli' !! n) <-> is_Some (mqWriter cli !! n) \/ n ∈ (WriterName <$> confs)) /\
  mqReader cli' = mqReader cli /\ rcells h' = rcells h.
Proof.
  induction confs as [|c confs IH]; intros cli h cli' h' Hall Hn; cbn [newWriters] in Hn.
  { injection Hn as <- <-. split; [done|]. split; [done|]. split; [|done]. intros n. cbn. rewrite elem_of_nil. tauto. }
  cbn [NewWriter] in Hn. apply IH in Hn as (H1 & H2 & H3 & H4 & H5).
  - split; [done|]. split; [|split; [|done]].
    + rewrite H2, last_cons. destruct (last confs); [done|]. cbn [rcells wcells set_rcell set_wcell]. by rewrite lookup_insert_eq.
    + intros n. rewrite H3. cbn [mqWriter fmap list_fmap]. rewrite elem_of_cons, lookup_insert_is_Some'. intuition congruence.
  - cbn [mqWriter]. intros n w [[_ <-]|[_ Hr]]%lookup_insert_Some; [done|by eapply Hall].
Qed.

Lemma pulsar_loops_config confs wconfs a : (forall cli h cli' h', newReaders confs a cli h = (Ok cli', h') -> mqConfig cli' = mqConfig cli) /\
  (forall cli h cli' h', newWriters wconfs a cli h = (Ok cli', h') -> mqConfig cli' = mqConfig cli).
Proof.
  split.
  - induction confs as [|c confs IH]; intros cli h cli' h' Hn; cbn [newReaders NewReader] in Hn; [by injection Hn as <- <-|].
    by apply IH in Hn.
  - induction wconfs as [|c wconfs IH]; intros cli h cli' h' Hn; cbn [newWriters NewWriter] in Hn; [by injection Hn as <- <-|].
    by apply IH in Hn.
Qed.

(** A client has the readers and the writers of its configuration. *)
Definition complete_client (p : PulsarClient) : Prop :=
  (forall c, c ∈ ReaderConfigs (mqConfig p) -> is_Some (GetReader (ReaderName c) p)) /\
  (forall c, c ∈ WriterConfigs (mqConfig p) -> is_Some (GetWriter (WriterName c) p)).

Lemma pulsar_client_complete create newClient unmarshal h cli h' :
  Setup create newClient unmarshal h = (Ok cli, h') -> complete_client cli.
Proof.
  unfold Setup, NewClient. destruct unmarshal as [conf|]; [|done]. set (conf' := if String.eqb _ _ then _ else conf).
  destruct (create _); [done|]. destruct (newClient _); [done|]. cbn [alloc].
  destruct (newReaders _ _ _ _) as [[cli1|] h1] eqn:E1; [|done]. cbn [alloc].
  destruct (newWriters _ _ _ _) as [[cli2|] h2] eqn:E2; [|done]. intros [= <- <-].
  pose proof (proj1 (pulsar_loops_config _ [] _) _ _ _ _ E1) as C1. pose proof (proj2 (pulsar_loops_config [] _ _) _ _ _ _ E2) as C2.
  apply pulsar_newReaders_shared in E1 as (_ & _ & R3 & R4 & _); [|cbn; intros n r Hl; by rewrite lookup_empty in Hl].
  apply pulsar_newWriters_shared in E2 as (_ & _ & W3 & W4 & _); [|rewrite R4; cbn; intros n w Hl; by rewrite lookup_empty in Hl].
  unfold complete_client, GetReader, GetWriter. rewrite W4, C2, C1. cbn [mqConfig]. split; intros c Hc.
  - apply R3. right. by apply list_elem_of_fmap_2.
  - apply W3. right. by apply list_elem_of_fmap_2.
Qed.

Lemma newReaders_total confs a : forall cli h, exists cli' h', newReaders confs a cli h = (Ok cli', h').
Proof. induction confs as [|c confs IH]; intros cli h; cbn [newReaders NewReader]; eauto. Qed.

Lemma newWriters_total confs a : forall cli h, exists cli' h', newWriters confs a cli h = (Ok cli', h').
Proof. induction confs as [|c confs IH]; intros cli h; cbn [newWriters NewWriter]; eauto. Qed.

(** A client that was made has every reader and writer configured, each
    reading the cell of its kind. *)
Lemma NewClient_shared create newClient conf h cli conf' h' :
  NewClient create newClient conf h = (Ok cli, conf', h') ->
  exists a b,
  (forall n, is_Some (GetReader n cli) <-> n ∈ (ReaderName <$> ReaderConfigs conf)) /\
  (forall n r, GetReader n cli = Some r -> r = MkPulsarReader None a [] /\ rcells h' !! a = last (ReaderConfigs conf)) /\
  (forall n, is_Some (GetWriter n cli) <-> n ∈ (WriterName <$> WriterConfigs conf)) /\
  (forall n w, GetWriter n cli = Some w -> w = MkPulsarWriter None b [] /\ wcells h' !! b = last (WriterConfigs conf)).
Proof.
  unfold NewClient. set (conf1 := if String.eqb _ _ then _ else _).
  assert (HR : ReaderConfigs conf1 = ReaderConfigs conf) by (unfold conf1; by destruct (String.eqb _ _)).
  assert (HW : WriterConfigs conf1 = WriterConfigs conf) by (unfold conf1; by destruct (String.eqb _ _)).
  destruct (create _); [done|]. destruct (newClient _); [done|]. cbn [alloc]. rewrite HR, HW.
  destruct (newReaders _ _ _ _) as [[cli1|] h1] eqn:E1; [|done]. cbn [alloc].
  destruct (newWriters _ _ _ _) as [[cli2|] h2] eqn:E2; [|done]. intros [= <- <- <-].
  apply pulsar_newReaders_shared in E1 as (R1 & R2 & R3 & R4 & _); [|cbn; intros n r Hl; by rewrite lookup_empty in Hl].
  apply pulsar_newWriters_shared in E2 as (W1 & W2 & W3 & W4 & W5); [|rewrite R4; cbn; intros n w Hl; by rewrite lookup_empty in Hl].
  exists (hnext h), (hnext h1). unfold GetReader, GetWriter. rewrite W4, W5. cbn [rcells wcells] in R2, W2 |- *.
  assert (HnR : forall n, is_Some (mqReader cli1 !! n) <-> n ∈ (ReaderName <$> ReaderConfigs conf)).
  { intros n. rewrite R3. cbn. rewrite lookup_empty. split; [by intros [[? [=]]|?]|by right]. }
  assert (HnW : forall n, is_Some (mqWriter cli2 !! n) <-> n ∈ (WriterName <$> WriterConfigs conf)).
  { intros n. rewrite W3, R4. cbn. rewrite lookup_empty. split; [by intros [[? [=]]|?]|by right]. }
  split; [done|]. split; [|split; [done|]]; intros n x Hx; (split; [eauto|]).
  - rewrite R2. destruct (last (ReaderConfigs conf)) eqn:Hl; [done|]. apply last_None in Hl.
    assert (Hin : n ∈ (ReaderName <$> ReaderConfigs conf)) by (apply HnR; by eexists).
    rewrite Hl in Hin. by apply not_elem_of_nil in Hin.
  - rewrite W2. destruct (last (WriterConfigs conf)) eqn:Hl; [done|]. apply last_None in Hl.
    assert (Hin : n ∈ (WriterName <$> WriterConfigs conf)) by (apply HnW; by eexists).
    rewrite Hl in Hin. by apply not_elem_of_nil in Hin.
Qed.

(** The readers and writers of one client.  Every configured reader and writer
    is there under its name; but the first read of any of them subscribes with
    the configuration of the last reader of the list - its topics, its
    subscription name, its commit mode - and the first write of any writer
    makes a producer on the last writer's topic. *)
Theorem pulsar_clients_share_config (create newClient : string -> option error) (conf conf' : MQConfig)
    (h h' : pheap) (cli : PulsarClient) :
  NewClient create newClient conf h = (Ok cli, conf', h') ->
  (forall n, is_Some (GetReader n cli) <-> n ∈ (ReaderName <$> ReaderConfigs conf)) /\
  (forall n, is_Some (GetWriter n cli) <-> n ∈ (WriterName <$> WriterConfigs conf)) /\
  (forall n r, GetReader n cli = Some r -> exists c, last (ReaderConfigs conf) = Some c /\
     forall Subscribe seen m, Subscribe (consumerOptions c) = None ->
     exists r' h'', ReadMessage Subscribe seen (Some (RMsg m)) r h' =
       Done (Some (MkPulsarMessage (Some m)), None, if AutoCommit c then Some ([pmID m], []) else None, r', h'') /\
       kcalls h'' = kcalls h' ++ [PSubscribe (hnext h') (consumerOptions c)]) /\
  (forall n w, GetWriter n cli = Some w -> exists c, last (WriterConfigs conf) = Some c /\
     forall stack CreateProducer, CreateProducer (producerOption stack c) = None ->
     exists w' h'', checkProducer stack CreateProducer w h' = Done (None, w', h'') /\
       kcalls h'' = kcalls h' ++ [PCreateProducer (hnext h') (producerOption stack c)] /\
       poTopic (producerOption stack c) = wTopic c).
Proof.
  intros Hn. destruct (NewClient_shared _ _ _ _ _ _ _ Hn) as (a & b & R1 & R2 & W1 & W2).
  split; [done|]. split; [done|]. split.
  - intros n r Hr. destruct (R2 n r Hr) as [-> Hc].
    destruct (last (ReaderConfigs conf)) as [c|] eqn:Hl.
    2: { apply last_None in Hl. assert (Hin := proj1 (R1 n) (ex_intro _ _ Hr)). rewrite Hl in Hin. by apply not_elem_of_nil in Hin. }
    exists c. split; [done|]. intros Subscribe seen m HS.
    unfold ReadMessage, reader_init, deref. cbn [consumer rconfig readInterceptor]. rewrite Hc, bind_Done.
    replace (MkConsumerOptions _ _ _ _ _ _ _) with (consumerOptions c)
      by (unfold consumerOptions; by destruct (rTopic c) as [|? [|? ?]]).
    rewrite HS. cbn [alloc]. rewrite bind_Done. cbn [received_val rcells rconfig call].
    rewrite Hc, bind_Done. destruct (AutoCommit c); [|by do 2 eexists].
    unfold Ack, deref. cbn [rconfig rcells consumer ackIDs readInterceptor call].
    rewrite Hc, bind_Done. cbn. by do 2 eexists.
  - intros n w Hw. destruct (W2 n w Hw) as [-> Hc].
    destruct (last (WriterConfigs conf)) as [c|] eqn:Hl.
    2: { apply last_None in Hl. assert (Hin := proj1 (W1 n) (ex_intro _ _ Hw)). rewrite Hl in Hin. by apply not_elem_of_nil in Hin. }
    exists c. split; [done|]. intros stack CreateProducer HS.
    unfold checkProducer, writer_init, deref. cbn [producer wconfig writeInterceptors]. rewrite Hc, bind_Done.
    replace (MkProducerOptions _ _ _ _ _ _ _ _ _) with (producerOption stack c) by reflexivity.
    rewrite HS. cbn [alloc]. by do 2 eexists.
Qed.

Definition demo_reader_conf (name topic : string) : ReaderConfig := MkReaderConfig [topic] true "" "" name 0 0 0 ∅.
Definition demo_conf : MQConfig :=
  MkMQConfig [demo_reader_conf "a" "orders"; demo_reader_conf "b" "audit"] []
    (MkClientConfig "u" "p.log" ∅) (MkReactorConfig "u" "r" ∅).

Lemma pulsar_clients_share_config_witness :
  match NewClient (fun _ => None) (fun _ => None) demo_conf (MkHeap ∅ ∅ 0 []) with
  | (Ok cli, _, h') =>
      exists r r' h'', GetReader "a" cli = Some r /\
        ReadMessage (fun _ => None) (fun i _ => i) (Some (RMsg (MkPMessage "t" "k" ∅ "x" "1:2:0"))) r h' =
          Done (Some (MkPulsarMessage (Some (MkPMessage "t" "k" ∅ "x" "1:2:0"))), None, Some (["1:2:0"], []), r', h'') /\
        kcalls h'' = kcalls h' ++ [PSubscribe (hnext h') (MkConsumerOptions "audit" [] "" "b" 0 ∅ [])]
  | _ => False
  end.
Proof.
  destruct (NewClient (fun _ => None) (fun _ => None) demo_conf (MkHeap ∅ ∅ 0 [])) as [[[cli|e] c'] h'] eqn:Hn;
    [|vm_compute in Hn; discriminate].
  destruct (pulsar_clients_share_config _ _ _ _ _ _ _ Hn) as (H1 & _ & H2 & _).
  destruct (proj2 (H1 "a")) as [r Hr]; [left|].
  destruct (H2 _ _ Hr) as (c & Hc & Hread). injection Hc as <-.
  destruct (Hread (fun _ => None) (fun i _ => i) (MkPMessage "t" "k" ∅ "x" "1:2:0") eq_refl) as (r' & h'' & H3 & H4).
  exists r, r', h''. done.
Defined.

(** ** What a write reports *)

(** The result of a blocking write.  Once the producer is there, a sent message
    whose id the client prints as ledger:entry:partition reports its entry
    number and no error, a failed one the error; a message sent without an id,
    or with an id of one field, is reported as an error although it was sent;
    a cancelled write reports the context's error whatever became of the
    message, and only after the sending ended. *)
Theorem pulsar_write_result (stack : nat) (CreateProducer : ProducerOptions -> option error) (msg : Message)
    (m : ProducerMessage) (w : pulsarWriter) (h : pheap) (c : nat) :
  producer w = Some c -> constructMessage msg = Done m ->
  let write := fun ctxErr send => WriteMessage stack CreateProducer msg ctxErr send w h in
  (forall ledger entry partition, fits_s 64 ledger -> fits_s 64 entry -> fits_s 64 partition ->
     write None (Some (Ok (Some (FormatInt ledger +:+ ":" +:+ FormatInt entry +:+ ":" +:+ FormatInt partition)))) =
       Done (entry, None, Some m, w, h)) /\
  (forall e, write None (Some (Err e)) = Done (0, Some e, Some m, w, h)) /\
  write None (Some (Ok None)) = Done (0, Some "unexpect error", Some m, w, h) /\
  (forall id, ":"%char ∉ String.list_ascii_of_string id ->
     write None (Some (Ok (Some id))) = Done (0, Some "unexpect error", Some m, w, h)) /\
  (forall e send, write (Some e) (Some send) = Done (0, Some e, Some m, w, h)) /\
  (forall ctxErr, write ctxErr None = Hang).
Proof.
  intros Hp Hm write.
  assert (Hw : forall ctxErr send, write ctxErr (Some send) =
    let '(n, err) := match ctxErr with
                     | Some e => (0, Some e)
                     | None => match sendResult send with
                               | SInt64 i => (i, None) | SErr i => (0, Some i) | SInt _ => (0, Some "unexpect error")
                               end
                     end in Done (n, err, Some m, w, h)).
  { intros. unfold write, WriteMessage, checkProducer. by rewrite Hp, bind_Done, Hm, bind_Done. }
  split; [|split; [|split; [|split; [|split]]]].
  - intros ledger entry partition Hl He Hpt. rewrite Hw. cbn [sendResult].
    rewrite Split_field by (by apply FormatInt_no_colon). rewrite Split_field by (by apply FormatInt_no_colon).
    by rewrite ParseInt_value_FormatInt.
  - intros e. by rewrite Hw.
  - by rewrite Hw.
  - intros id Hid. rewrite Hw. cbn [sendResult]. by rewrite Split_absent.
  - intros e send. by rewrite Hw.
  - intros ctxErr. unfold write, WriteMessage, checkProducer. by rewrite Hp, bind_Done, Hm.
Qed.

Definition demo_message (seq : Z) : Message :=
  MkMessage (Done "k") (Done ∅) (Done "x") (Done seq) (Done "t") (Done 0).

Lemma pulsar_write_result_witness :
  WriteMessage 10 (fun _ => None) (demo_message 7) None (Some (Ok (Some "12:34:-1"))) (MkPulsarWriter (Some 0%nat) 0 []) (MkHeap ∅ ∅ 1 []) =
    Done (34, None, Some (MkProducerMessage "x" "k" ∅ (Some 7)), MkPulsarWriter (Some 0%nat) 0 [], MkHeap ∅ ∅ 1 []).
Proof.
  refine (proj1 (pulsar_write_result 10 (fun _ => None) (demo_message 7) (MkProducerMessage "x" "k" ∅ (Some 7))
    (MkPulsarWriter (Some 0%nat) 0 []) (MkHeap ∅ ∅ 1 []) 0 eq_refl eq_refl) 12 34 (-1) _ _ _); unfold fits_s; lia.
Defined.

(** ** What a read reports *)

(** The result of a read.  Once the reader has subscribed, a received message is
    returned, and with automatic commits acknowledged; a failed receive makes
    the reader panic with automatic commits, and without them returns, beside
    the error, a message that is not nil and whose content cannot be read or
    acknowledged: every attempt panics. *)
Theorem pulsar_read_result (Subscribe : ConsumerOptions -> option error) (seen : nat -> nat -> nat)
    (p : pulsarReader) (h : pheap) (c : nat) (config : ReaderConfig) :
  consumer p = Some c -> rcells h !! rconfig p = Some config ->
  (forall m, ReadMessage Subscribe seen (Some (RMsg m)) p h =
     Done (Some (MkPulsarMessage (Some m)), None,
           if AutoCommit config
           then Some ([pmID m], ackCalls seen (readInterceptor p) [AMsg (MkPulsarMessage (Some m))]) else None, p, h)) /\
  (forall e, if AutoCommit config then panics (ReadMessage Subscribe seen (Some (RNil (Some e))) p h)
     else exists m, ReadMessage Subscribe seen (Some (RNil (Some e))) p h =
            Done (Some m, Some ("receive failed: " +:+ e), None, p, h) /\
          panics (Key (pulsar_iface m)) /\ panics (PayLoad (pulsar_iface m)) /\ panics (Topic (pulsar_iface m)) /\
          panics (MetaInfo (pulsar_iface m)) /\ panics (Ack seen [AMsg m] p h)).
Proof.
  intros Hc Hcfg. assert (Hd : deref (rcells h) (rconfig p) = Done config) by (unfold deref; by rewrite Hcfg).
  unfold ReadMessage. rewrite Hc. split.
  - intros m. rewrite bind_Done, Hd, bind_Done. destruct (AutoCommit config); [|done].
    unfold Ack. by rewrite Hd, Hc, !bind_Done.
  - intros e. rewrite bind_Done, Hd, bind_Done. destruct (AutoCommit config).
    + unfold Ack. rewrite Hd, Hc, bind_Done. by eexists.
    + exists (MkPulsarMessage None). split; [done|]. unfold Ack. rewrite Hd, Hc, bind_Done. repeat split; by eexists.
Qed.

Lemma pulsar_read_result_witness :
  panics (ReadMessage (fun _ => None) (fun i _ => i) (Some (RNil (Some "consumer closed")))
    (MkPulsarReader (Some 1%nat) 0 []) (MkHeap {[ 0%nat := demo_reader_conf "a" "orders" ]} ∅ 2 [])).
Proof.
  exact (proj2 (pulsar_read_result (fun _ => None) (fun i _ => i) (MkPulsarReader (Some 1%nat) 0 [])
    (MkHeap {[ 0%nat := demo_reader_conf "a" "orders" ]} ∅ 2 []) 1 (demo_reader_conf "a" "orders") eq_refl eq_refl)
    "consumer closed").
Defined.

(** ** Acknowledgements and interceptors *)

Lemma ackIDs_own c (ms : list pMessage) :
  ackIDs (Some c) ((fun m => AMsg (MkPulsarMessage (Some m))) <$> ms) = Done (pmID <$> ms).
Proof.
  induction ms as [|m ms IH]; [done|]. cbn [fmap list_fmap ackIDs]. unfold pulsarMessage_MessageID, with_msg.
  cbn [msg]. rewrite bind_Done, IH. done.
Qed.

(** The calls of one goroutine while the variable holds one message. *)
Lemma goroutine_calls (inters : list (nat * Interceptor)) (ms : list ackMessage) m : forall (s : nat -> nat),
  (forall j, ms !! s j = Some m) ->
  omap id (imap (fun j inter => (fun m => IAfter inter.2 (ack_iface m)) <$> ms !! s j) inters) =
    (fun inter => IAfter inter.2 (ack_iface m)) <$> inters.
Proof.
  induction inters as [|inter inters IH]; intros s Hs; [done|]. rewrite imap_cons.
  cbn [omap list_omap]. rewrite Hs. cbn [fmap option_fmap option_map list_fmap id]. f_equal.
  apply (IH (fun j => s (S j))). intros j. apply Hs.
Qed.

Lemma imap_const {A B} (b : B) (l : list A) : forall (g : nat -> A -> B),
  (forall i a, (i < length l)%nat -> g i a = b) -> imap g l = replicate (length l) b.
Proof.
  induction l as [|a l IH]; intros g Hg; [done|]. rewrite imap_cons, Hg by (cbn; lia).
  cbn [length replicate]. f_equal. apply IH. intros i x Hi. apply Hg. cbn. lia.
Qed.

Lemma imap_fmap_ext {A B} (f : A -> B) (l : list A) : forall (g : nat -> A -> B),
  (forall i a, l !! i = Some a -> g i a = f a) -> imap g l = f <$> l.
Proof.
  induction l as [|a l IH]; intros g Hg; [done|]. rewrite imap_cons, (Hg 0%nat a) by done.
  cbn [fmap list_fmap]. f_equal. apply IH. intros i x Hx. by apply Hg.
Qed.

(** Acknowledging a batch.  The ids of all messages are acknowledged, in order.
    The interceptors run on goroutines that read the loop variable: if each
    runs before the next turn they see the messages one by one, but if they
    run after the loop every one of them is given the last message, as many
    times as there are messages, and no other. *)
Theorem pulsar_ack_interceptors (seen : nat -> nat -> nat) (ms : list pMessage) (m : pMessage) (p : pulsarReader)
    (h : pheap) (c : nat) (config : ReaderConfig) :
  consumer p = Some c -> rcells h !! rconfig p = Some config ->
  let batch := (fun m => AMsg (MkPulsarMessage (Some m))) <$> (ms ++ [m]) in
  let after := fun m => (fun inter => IAfter inter.2 (pulsar_iface (MkPulsarMessage (Some m)))) <$> readInterceptor p in
  exists calls, Ack seen batch p h = Done (pmID <$> ms ++ [m], calls) /\
    ((forall i j, seen i j = i) -> calls = concat (after <$> ms ++ [m])) /\
    ((forall i j, seen i j = length ms) -> calls = concat (replicate (S (length ms)) (after m))).
Proof.
  intros Hc Hcfg batch after. unfold Ack, deref. rewrite Hcfg, Hc, bind_Done.
  rewrite (ackIDs_own c (ms ++ [m]) : ackIDs (Some c) batch = _), bind_Done. eexists. split; [done|]. unfold ackCalls. split; intros Hs; f_equal.
  - unfold batch. rewrite imap_fmap. apply imap_fmap_ext. intros i x Hx. unfold compose.
    apply (goroutine_calls _ _ (AMsg (MkPulsarMessage (Some x))) (seen i)). intros j.
    rewrite Hs, list_lookup_fmap, Hx. done.
  - assert (Hl : batch !! length ms = Some (AMsg (MkPulsarMessage (Some m)))).
    { unfold batch. rewrite list_lookup_fmap, lookup_app_r, Nat.sub_diag by lia. done. }
    replace (S (length ms)) with (length batch) by (unfold batch; rewrite length_fmap, length_app; cbn; lia).
    apply imap_const. intros i a Hi.
    apply (goroutine_calls _ _ (AMsg (MkPulsarMessage (Some m))) (seen i)). intros j. by rewrite Hs.
Qed.

Lemma pulsar_ack_interceptors_witness :
  let m1 := MkPMessage "t" "k" ∅ "x" "1:1:0" in
  let m2 := MkPMessage "t" "k" ∅ "y" "1:2:0" in
  Ack (fun _ _ => 1%nat) [AMsg (MkPulsarMessage (Some m1)); AMsg (MkPulsarMessage (Some m2))]
    (MkPulsarReader (Some 1%nat) 0 [(7%nat, 3%nat)]) (MkHeap {[ 0%nat := demo_reader_conf "a" "orders" ]} ∅ 2 []) =
  Done (["1:1:0"; "1:2:0"], [IAfter 3%nat (pulsar_iface (MkPulsarMessage (Some m2)));
                             IAfter 3%nat (pulsar_iface (MkPulsarMessage (Some m2)))]).
Proof.
  intros m1 m2.
  destruct (pulsar_ack_interceptors (fun _ _ => 1%nat) [m1] m2 (MkPulsarReader (Some 1%nat) 0 [(7%nat, 3%nat)])
    (MkHeap {[ 0%nat := demo_reader_conf "a" "orders" ]} ∅ 2 []) 1 (demo_reader_conf "a" "orders") eq_refl (lookup_singleton_eq _ _))
    as (calls & Ha & _ & Hl).
  rewrite (Hl ltac:(done)) in Ha. exact Ha.
Defined.

(** ** The client's log file *)

(** Making a client with no log path configured.  As a file with an empty name
    cannot be created, it fails with the error of that creation whatever else
    the configuration holds, although it has just stored a default path in the
    configuration; making it again with that configuration then succeeds as
    with any path that can be created. *)
Theorem pulsar_log_path (create newClient : string -> option error) (conf : MQConfig) (h : pheap) (e : error) :
  create "" = Some e -> create "./log/pulsar-go.log" = None -> newClient (Url (ClientConf conf)) = None ->
  LogPath (ClientConf conf) = "" ->
  NewClient create newClient conf h = (Err e, with_LogPath "./log/pulsar-go.log" conf, h) /\
  exists cli h', NewClient create newClient (with_LogPath "./log/pulsar-go.log" conf) h =
    (Ok cli, with_LogPath "./log/pulsar-go.log" conf, h').
Proof.
  intros He Hc Hn Hp. unfold NewClient. rewrite Hp. cbn [String.eqb]. rewrite He. split; [done|].
  set (conf' := with_LogPath _ conf).
  change (create (LogPath (ClientConf conf'))) with (create "./log/pulsar-go.log").
  change (String.eqb (LogPath (ClientConf conf')) "") with false. cbv iota.
  change (Url (ClientConf conf')) with (Url (ClientConf conf)). rewrite Hc, Hn. cbn [alloc].
  destruct (newReaders_total (ReaderConfigs conf') (hnext h) (MkPulsarClient conf' ∅ ∅)
    (MkHeap (rcells h) (wcells h) (S (hnext h)) (kcalls h))) as (cli & h1 & ->). cbn [alloc].
  destruct (newWriters_total (WriterConfigs conf') (hnext h1) cli
    (MkHeap (rcells h1) (wcells h1) (S (hnext h1)) (kcalls h1))) as (cli' & h2 & ->). eauto.
Qed.

Lemma pulsar_log_path_witness :
  let create := fun p => if String.eqb p "" then Some "open : no such file or directory" else None in
  let conf := with_LogPath "" demo_conf in
  fst (NewClient create (fun _ => None) conf (MkHeap ∅ ∅ 0 [])) =
    (Err "open : no such file or directory", with_LogPath "./log/pulsar-go.log" conf).
Proof.
  intros create conf.
  by rewrite (proj1 (pulsar_log_path create (fun _ => None) conf (MkHeap ∅ ∅ 0 []) _ eq_refl eq_refl eq_refl eq_refl)).
Defined.
