(* ===== verification/MqIface.v ===== *)
(** * plugin/mq: the interfaces of the message queues, and the event loop over them

    The interfaces of client.go, reactor.go and resource.go as classes of
    operations over the state of a reader, a writer, a client or a reactor, with
    the Kafka and Pulsar packages as instances.  What the vendored client
    answers to a call is an argument of the call.  The event loop of event.go
    runs over any reader, while other goroutines subscribe; it is shown to do
    nothing but drain the reader, and to block on the first message anyone
    asked for. *)

From S2P Require Import Prelude GoStrings Mq Kafka Pulsar.

(** ** client.go *)

Record QueueMetaOption := MkQueueMetaOption { QueueName : outcome string; QPartition : outcome Z }.

(** [A]: the answers to one read; [E]: what a call does besides its result, the
    interceptors started and the messages acknowledged; [M]: messages, by their
    dynamic type.  A nil message is [None]. *)
Class Reader (A E M R : Type) := {
  msg_iface : M -> Message;
  GetConfig : R -> outcome ReaderConfig;
  SetConfig : nat -> R -> R;
  ReadMessage : A -> R -> outcome (option M * option error * E * R);
  ReadMessageWithOption : A -> QueueMetaOption -> R -> outcome (option M * option error * E * R);
  AddReaderInterceptor : Interceptor -> R -> R;
  RemoveReaderInterceptor : Interceptor -> R -> outcome R;
  Ack : list M -> R -> outcome E;
  reader_Close : R -> list nat
}.

(** [A] and [B]: the answers to one write, and to one asynchronous write; [X]:
    the calls that close the handle. *)
Class Writer (A B E X W : Type) := {
  writer_GetConfig : W -> outcome WriterConfig;
  writer_SetConfig : nat -> W -> W;
  WriteMessage : A -> Message -> W -> outcome (Z * option error * E * W);
  WriteMessageAsync : B -> Message -> W -> outcome (option error * list callback_call * W);
  AddWriterInterceptor : Interceptor -> W -> W;
  RemoveWriterInterceptor : Interceptor -> W -> outcome W;
  writer_Close : W -> outcome (list X * W)
}.

(** ** resource.go *)

Record ResourceManager := MkResourceManager {
  CreateNamespace : string -> outcome (option error);
  DeleteNamespace : string -> outcome (option error);
  ListNamespace : outcome (list string * option error);
  CreateQueue : string -> outcome (option error);
  DeleteQueue : string -> outcome (option error)
}.

(** A client over the memory [H]; readers and writers keep the address of their
    configuration.  [Close] tells whether the vendored client is closed. *)
Class Client (H R W C : Type) := {
  NewReader : nat -> C -> H -> outcome (result error R * H);
  NewWriter : nat -> C -> H -> outcome (result error W * H);
  TopicPartitions : string -> C -> outcome (list string * option error);
  getResourceManager : C -> outcome ResourceManager;
  client_Close : C -> bool
}.

(** ** reactor.go *)

(** [T]: what one turn of the loop gets; [X]: a handler started; handlers are
    known by their number. *)
Class Reactor (H T X K : Type) := {
  Register : list string -> nat -> K -> H -> K * H;
  Run : list T -> K -> outcome (list X);
  reactor_Close : list (string * nat) -> K -> outcome (list nat * K)
}.

(** ** The instances *)

Section KafkaInstances.
Context (order : gmap string string -> list (string * string)).
Context (NewConsumer NewProducer : option ConfigMap -> option error).

(** A reader with the memory it lives in. *)
Definition kReader : Type := kafkaReader * kheap.
Definition kWriter : Type := kafkaWriter * kheap.
Definition kEffect : Type := option (list TopicPartition) * list icall.

Definition kafka_read (res : outcome (result error kafkaMessage * list icall)) (r : kReader)
  : outcome (option Message * option error * kEffect * kReader) :=
  '(res, calls) ← res;
  Done (match res with
        | Ok m => (Some (kafka_iface m), None, (None, calls), r)
        | Err e => (None, Some e, (None, calls), r)
        end).

Definition kafka_Reader : Reader (option (result kError kMessage) * bool) kEffect Message kReader := {|
  msg_iface m := m;
  GetConfig r := Kafka.reader_GetConfig r.1 r.2;
  SetConfig config r := (Kafka.reader_SetConfig config r.1, r.2);
  ReadMessage a r := kafka_read (Kafka.ReadMessage a.1 a.2 r.1) r;
  ReadMessageWithOption _ _ r := kafka_read Kafka.ReadMessageWithOption r;
  AddReaderInterceptor i r := Kafka.AddReaderInterceptor i r.1 r.2;
  RemoveReaderInterceptor i r := Kafka.RemoveReaderInterceptor i r.1 r.2;
  Ack ms r := Kafka.Ack ms r.1 r.2;
  reader_Close r := [Kafka.reader_Close r.1]
|}.

Definition kafka_Writer : Writer (list wEvent) (option error * option kEvent) (list icall * kMessage) kclose kWriter := {|
  writer_GetConfig w := Kafka.writer_GetConfig w.1 w.2;
  writer_SetConfig config w := (Kafka.writer_SetConfig config w.1, w.2);
  WriteMessage evs m w := '(n, e, calls, km) ← Kafka.WriteMessage order m evs w.1 w.2; Done (n, e, (calls, km), w);
  WriteMessageAsync a m w := '(e, cbs, _) ← Kafka.WriteMessageAsync order m a.1 a.2 w.1 w.2; Done (e, cbs, w);
  AddWriterInterceptor i w := Kafka.AddWriterInterceptor i w.1 w.2;
  RemoveWriterInterceptor i w := Kafka.RemoveWriterInterceptor i w.1 w.2;
  writer_Close w := '(l, w') ← Kafka.writer_Close w.1; Done (l, (w', w.2))
|}.

Definition kafka_Client : Client kheap kafkaReader kafkaWriter KafkaClient := {|
  NewReader := Kafka.NewReader NewConsumer;
  NewWriter := Kafka.NewWriter NewProducer;
  TopicPartitions topic _ := Done (Kafka.TopicPartitions topic);
  getResourceManager _ := Kafka.ResourceManager;
  client_Close _ := false
|}.

Definition kafka_Reactor :
  Reactor kheap (option (list (string * nat) * (nat -> option (result kError kMessage)))) hcall kafkaReactor := {|
  Register := Kafka.Register NewConsumer;
  Run := Kafka.Run;
  reactor_Close := Kafka.reactor_Close
|}.
End KafkaInstances.

Section PulsarInstances.
(** The stack, the client's answers, and the schedule of the goroutines of
    [Ack]. *)
Context (stack : nat) (Subscribe : ConsumerOptions -> option error) (CreateProducer : ProducerOptions -> option error).
Context (seen : nat -> nat -> nat).

Definition pReader : Type := pulsarReader * pheap.
Definition pWriter : Type := pulsarWriter * pheap.
Definition pEffect : Type := option (list string * list icall).

Definition pulsar_read (a : option received) (r : pReader)
  : outcome (option ackMessage * option error * pEffect * pReader) :=
  '(m, e, acked, p, h) ← Pulsar.ReadMessage Subscribe seen a r.1 r.2;
  Done (option_map AMsg m, e, acked, (p, h)).

Definition pulsar_read_option (r : pReader) : outcome (option ackMessage * option error * pEffect * pReader) :=
  res ← Pulsar.ReadMessageWithOption;
  Done (match res with Ok m => (Some (AMsg m), None, None, r) | Err e => (None, Some e, None, r) end).

Definition pulsar_ack (ms : list ackMessage) (r : pReader) : outcome pEffect :=
  acked ← Pulsar.Ack seen ms r.1 r.2; Done (Some acked).

Definition pulsar_Reader : Reader (option received) pEffect ackMessage pReader := {|
  msg_iface := ack_iface;
  GetConfig r := Pulsar.reader_GetConfig r.1 r.2;
  SetConfig config r := (Pulsar.reader_SetConfig config r.1, r.2);
  ReadMessage := pulsar_read;
  ReadMessageWithOption _ _ r := pulsar_read_option r;
  AddReaderInterceptor i r := Pulsar.AddReaderInterceptor i r.1 r.2;
  RemoveReaderInterceptor i r := Pulsar.RemoveReaderInterceptor i r.1 r.2;
  Ack := pulsar_ack;
  reader_Close r := option_list (Pulsar.reader_Close r.1)
|}.

Definition pulsar_Writer :
  Writer (option error * option (result error (option string))) (bool * option (option error)) (option ProducerMessage) pclose pWriter := {|
  writer_GetConfig w := Pulsar.writer_GetConfig w.1 w.2;
  writer_SetConfig config w := (Pulsar.writer_SetConfig config w.1, w.2);
  WriteMessage a m w := '(n, e, pm, w, h) ← Pulsar.WriteMessage stack CreateProducer m a.1 a.2 w.1 w.2; Done (n, e, pm, (w, h));
  WriteMessageAsync a m w :=
    '(e, cbs, w, h) ← Pulsar.WriteMessageAsync stack CreateProducer m a.1 a.2 w.1 w.2; Done (e, cbs, (w, h));
  AddWriterInterceptor i w := Pulsar.AddWriterInterceptor i w.1 w.2;
  RemoveWriterInterceptor i w := Pulsar.RemoveWriterInterceptor i w.1 w.2;
  writer_Close w := Done (Pulsar.writer_Close w.1, w)
|}.

Definition pulsar_Client : Client pheap pulsarReader pulsarWriter PulsarClient := {|
  NewReader config _ h := Done (Pulsar.NewReader config, h);
  NewWriter config _ h := Done (Pulsar.NewWriter config, h);
  TopicPartitions topic _ := l ← Pulsar.TopicPartitions topic; Done (l, None);
  getResourceManager _ := Pulsar.ResourceManager;
  client_Close _ := true
|}.
End PulsarInstances.

(** ** The event loop over a reader *)

(** What happens to the loop: its context ends, another goroutine subscribes
    between two turns, or the reader answers. *)
Inductive loopEvent (A : Type) := EDone | ESubscribe (topic : string) (c : MessageChan) | ERead (a : A).
Arguments EDone {A}.
Arguments ESubscribe {A} _ _.
Arguments ERead {A} _.

Section Loop.
Context {A E M R : Type} `{Reader A E M R}.

(** The channels messages were delivered on, until the context ends; with no
    event left the read does not return. *)
Fixpoint RunMQEventLoop (ready : nat -> bool) (evs : list (loopEvent A)) (pub : gmap string (list MessageChan)) (r : R)
  : outcome (list nat * R) :=
  match evs with
  | [] => Hang
  | EDone :: _ => Done ([], r)
  | ESubscribe topic c :: evs => RunMQEventLoop ready evs (Subscribe topic c pub) r
  | ERead a :: evs =>
      '(message, err, _, r) ← ReadMessage a r;
      match err with
      | Some _ => RunMQEventLoop ready evs pub r
      | None =>
          match message with
          | None => Panic "invalid memory address or nil pointer dereference"
          | Some m =>
              topic ← Topic (msg_iface m);
              l ← Publish ready topic pub;
              '(l', r) ← RunMQEventLoop ready evs pub r;
              Done (l ++ l', r)
          end
      end
  end.

(** Reading until the context ends and throwing the messages away; a message of
    one of the topics stops it for ever. *)
Fixpoint drain (evs : list (loopEvent A)) (topics : list string) (r : R) : outcome R :=
  match evs with
  | [] => Hang
  | EDone :: _ => Done r
  | ESubscribe topic _ :: evs => drain evs (topics ++ [topic]) r
  | ERead a :: evs =>
      '(message, err, _, r) ← ReadMessage a r;
      match err, message with
      | Some _, _ => drain evs topics r
      | None, None => Panic "invalid memory address or nil pointer dereference"
      | None, Some m =>
          topic ← Topic (msg_iface m);
          if decide (topic ∈ topics) then Hang else drain evs topics r
      end
  end.

Lemma Publish_poisoned ready topic pub topics : poisoned pub topics ->
  Publish ready topic pub = if decide (topic ∈ topics) then Hang else Done [].
Proof.
  intros Hp. unfold Publish. specialize (Hp topic). revert Hp.
  destruct (pub !! topic) as [l|]; intros Hp; case_decide; try tauto. by destruct Hp as (_ & l' & ->).
Qed.

Lemma loop_drains ready evs : forall pub topics r, poisoned pub topics ->
  RunMQEventLoop ready evs pub r = (r ← drain evs topics r; Done ([], r)).
Proof.
  induction evs as [|[|topic c|a] evs IH]; intros pub topics r Hp; cbn [RunMQEventLoop drain]; [done|done| |].
  - by apply IH, Subscribe_poisoned.
  - destruct (ReadMessage a r) as [[[[m err] e] r']| |]; [|done|done]. rewrite !bind_Done.
    destruct err as [err|]; [by apply IH|]. destruct m as [m|]; [|done].
    destruct (Topic (msg_iface m)) as [topic| |]; [|done|done]. rewrite !bind_Done, (Publish_poisoned _ _ _ _ Hp).
    case_decide; [done|]. rewrite bind_Done, (IH _ _ _ Hp). by destruct (drain evs topics r').
Qed.
End Loop.

(** C27. The event loop only drains its reader.  Over any reader, Kafka's and Pulsar's
    among them, and whatever subscriptions are made before and while it runs,
    the loop reads and throws away every message of a topic nobody subscribed,
    delivers nothing to anyone, and blocks for ever on the first message of a
    topic somebody did subscribe; where the reader panics or blocks, so does
    the loop. *)
Theorem mq_loop_only_drains {A E M R : Type} `{Reader A E M R} (ready : nat -> bool) (subs : list (string * MessageChan))
    (evs : list (loopEvent A)) (r : R) :
  RunMQEventLoop ready evs (subscribed subs) r = (r ← drain evs subs.*1 r; Done ([], r)).
Proof. apply loop_drains, subscribed_poisoned. Qed.

(** *** Over Kafka and Pulsar *)

Definition one_reader : kReader := (MkKafkaReader 0 0 [], MkHeap ∅ ∅ 1 []).
Definition kafka_message (topic : string) : option (result kError kMessage) * bool :=
  (Some (Ok (MkKMessage (MkTP (Some topic) 0 7 None) "v" "k" [])), false).

(** A timeout with a cancelled context is reported and skipped, a message nobody
    wants is read and lost, and the first one somebody wants blocks. *)
Example kafka_loop :
  let run evs := RunMQEventLoop (H := kafka_Reader) (fun _ => true) evs (subscribed [("a", Some 1%nat)]) one_reader in
  run [ERead (Some (Err (KError ErrTimedOut "timed out")), true); ERead (kafka_message "b"); EDone] = Done ([], one_reader) /\
  run [ERead (kafka_message "b"); ESubscribe "b" (Some 2%nat); ERead (kafka_message "b"); EDone] = Hang /\
  run [ERead (kafka_message "a"); EDone] = Hang.
Proof. vm_compute. done. Qed.

(** A receive that ends without message and without error crashes the loop. *)
Example pulsar_loop :
  panics (RunMQEventLoop (H := pulsar_Reader (fun _ => None) (fun i _ => i)) (fun _ => true) [ERead (Some (RNil None)); EDone] (subscribed [])
    (MkPulsarReader (Some 0%nat) 0 [], MkHeap {[ 0%nat := MkReaderConfig ["a"] false "" "" "r" 0 0 0 ∅ ]} ∅ 1 [])).
Proof. vm_compute. by eexists. Qed.

(** ** example/mq/test.go *)

(** What the program does, in order; [XFatal] ends the process without running
    the deferred close of the client. *)
Inductive exampleCall :=
| XNewClient (url : string) (operationTimeout connectionTimeout : Z)
| XCreateProducer (topic : string)
| XSubscribe (topic subscription : string)
| XSend (payload : string)
| XProducerClose
| XReceive
| XAck (id : string)
| XPrint (id content : string)
| XConsumerClose
| XClientClose
| XFatal.

(** A receive of [None] never returns. *)
Record exampleAnswers := MkExampleAnswers {
  xNewClient : option error; xCreateProducer : option error; xSubscribe : option error; xSend : option error;
  xReceive1 : option (result error pMessage); xReceive2 : option (result error pMessage)
}.

Definition mq_receive (received : option (result error pMessage)) (k : pMessage -> outcome (list exampleCall))
  : outcome (list exampleCall) :=
  match received with
  | None => Hang
  | Some (Err _) => Done [XReceive; XFatal]
  | Some (Ok m) => l ← k m; Done (XReceive :: l)
  end.

Definition mq_main (x : exampleAnswers) : outcome (list exampleCall) :=
  let c1 := [XNewClient "pulsar://9.134.243.104:6650" (30 * Second) (30 * Second)] in
  if xNewClient x is Some _ then Done (c1 ++ [XFatal]) else
  let c2 := c1 ++ [XCreateProducer "my-topic"] in
  if xCreateProducer x is Some _ then Done (c2 ++ [XFatal]) else
  let c3 := c2 ++ [XSubscribe "my-topic" "my-sub"] in
  if xSubscribe x is Some _ then Done (c3 ++ [XFatal]) else
  let c4 := c3 ++ [XSend "hello"; XProducerClose] in
  l ← mq_receive (xReceive1 x) (fun msg =>
        l ← mq_receive (xReceive2 x) (fun m =>
              Done [XPrint (pmID m) (pmPayload m); XAck (pmID msg); XConsumerClose; XClientClose]);
        Done (XAck (pmID msg) :: XPrint (pmID msg) (pmPayload msg) :: l));
  Done (c4 ++ l).

Definition acked (l : list exampleCall) : list string :=
  omap (M := list) (fun c => match c with XAck id => Some id | _ => None end) l.

(** The second acknowledgement is of the first message: the second one is never
    acknowledged, and without a second message the program does not end. *)
Lemma mq_example_acks_first_twice msg m send :
  (exists l, mq_main (MkExampleAnswers None None None send (Some (Ok msg)) (Some (Ok m))) = Done l /\
     acked l = [pmID msg; pmID msg]) /\
  mq_main (MkExampleAnswers None None None send (Some (Ok msg)) None) = Hang.
Proof. split; [eexists; split; reflexivity|reflexivity]. Qed.
