(* ===== verification/Plugins.v ===== *)
(** * The plugins of the repository, together in one registry

    Each plugin package registers its factory when it is loaded (its init).
    What decodes a section into a configuration, the vendored clients and the
    disk are an environment.  Whatever the order in which the packages are
    loaded, every factory is found under its own type and name, and an instance
    fetched under a type and a name is of the package of that name, and usable:
    the type assertions of its users cannot fail. *)

From S2P Require Import Prelude GoStrings Plugin Trpc TransportCodec Tcp App PbSupport Redis Mysql Log Bingo Mq Kafka Pulsar.

Section Plugins.
Context {C : Type}.

(** What the plugins rely on. *)
Record pluginEnv := MkPluginEnv {
  uTcp : C -> result error TcpTransportCfg;
  uTrpc : C -> result error TrpcConfig;
  newTrpc : string -> outcome nat;
  uRedis : C -> result error Redis.dbCfg;
  newRedis : Redis.Options -> bool;
  uMysql : C -> result error Mysql.dbCfg;
  openMysql : string -> option error;
  pingMysql : string -> option error;
  uMq : C -> result error MQConfig;
  NewConsumer : option ConfigMap -> option error;
  NewProducer : option ConfigMap -> option error;
  createLog : string -> option error;
  newPulsar : string -> option error;
  uLog : C -> result error LogCfg;
  logEvents : list (Bingo.loopEvent * list (bctx * string) * bctx);
  logDisk : FS;
  logState0 : logState BingoLogger;
  syncAt : bctx
}.
Context (E : pluginEnv).

(** Instances, with the memory or the disk they were made in. *)
Inductive instance :=
| InstTcp (t : TcpTransport)
| InstTrpc (ts : TrpcServer)
| InstRedis (db : Redis.DB)
| InstMysql (db : Mysql.DB)
| InstKafka (p : KafkaClient) (h : kheap)
| InstPulsar (p : PulsarClient) (h : pheap)
| InstBingo (l : BingoLogger) (fs : FS).

Abbreviation nil_viper := (Panic "invalid memory address or nil pointer dereference").
Definition empty_heap {X} : heap X := MkHeap ∅ ∅ 0 [].

(** ** The factories *)

(** kafka/plugin.go; [Reload] asserts a client where the instance is a pointer. *)
Definition kafka_factory : PluginFactory C instance :=
  MkPluginFactory "mq" "kafka"
    (fun v => match v with
              | None => nil_viper
              | Some section =>
                  '(r, h) ← Kafka.Setup (NewConsumer E) (NewProducer E) (uMq E section) empty_heap;
                  Done (match r with Ok p => Ok (InstKafka p h) | Err e => Err e end)
              end)
    (fun _ => Done None)
    (fun i section =>
       match i with
       | InstKafka p _ => Kafka.Reload (Kafka.IPointer p) (uMq E section)
       | _ => match uMq E section with Err e => Done (Some e) | Ok _ => Panic "interface conversion" end
       end).

(** pulsar/plugin.go *)
Definition pulsar_factory : PluginFactory C instance :=
  MkPluginFactory Pulsar.factory_Type Pulsar.factory_Name
    (fun v => match v with
              | None => nil_viper
              | Some section =>
                  let '(r, h) := Pulsar.Setup (createLog E) (newPulsar E) (uMq E section) empty_heap in
                  Done (match r with Ok p => Ok (InstPulsar p h) | Err e => Err e end)
              end)
    (fun _ => Done None)
    (fun i section =>
       match i with
       | InstPulsar p _ => Pulsar.Reload (Pulsar.IPointer p) (uMq E section)
       | _ => match uMq E section with Err e => Done (Some e) | Ok _ => Panic "interface conversion" end
       end).

(** bingologger.go: the type assertion of [Destroy] and [Reload]. *)
Definition as_bingo (i : instance) : option BingoLogger := match i with InstBingo l _ => Some l | _ => None end.

Definition bingo_factory : PluginFactory C instance :=
  MkPluginFactory "log" "bingologger"
    (fun v => match v with
              | None => nil_viper
              | Some section =>
                  '(r, fs, _) ← Bingo.Setup (uLog E section) (logEvents E) (logDisk E) (logState0 E);
                  Done (match r with Ok l => Ok (InstBingo l fs) | Err e => Err e end)
              end)
    (fun i => '(e, _, _) ← Bingo.Destroy (syncAt E) (as_bingo i) (match i with InstBingo _ fs => fs | _ => logDisk E end); Done e)
    (fun i section => Done (Bingo.Reload (uLog E section) (as_bingo i)).1).

(** The other packages. *)
Definition as_trpc (i : instance) : option TrpcServer := match i with InstTrpc ts => Some ts | _ => None end.

(** ** Loading the packages *)

(** The factory that the init function of each package registers. *)
Definition tcp_init : PluginFactory C instance := tcp_factory InstTcp (uTcp E).
Definition trpc_init : PluginFactory C instance := Trpc.factory (newTrpc E) InstTrpc as_trpc (uTrpc E).
Definition redis_init : PluginFactory C instance := Redis.factory (newRedis E) InstRedis (uRedis E).
Definition mysql_init : PluginFactory C instance := Mysql.factory (openMysql E) (pingMysql E) InstMysql (uMysql E).
Definition kafka_init : PluginFactory C instance := kafka_factory.
Definition pulsar_init : PluginFactory C instance := pulsar_factory.
Definition bingo_init : PluginFactory C instance := bingo_factory.

Definition inits : list (PluginFactory C instance) :=
  [tcp_init; trpc_init; redis_init; mysql_init; kafka_init; pulsar_init; bingo_init].

Definition load (order : list (PluginFactory C instance)) : pluginState C instance :=
  foldl (fun s f => RegisterPluginFactory f s) (MkPluginState ∅ ∅ []) order.

Definition fkey (f : PluginFactory C instance) : string := constructPluginKey (fType f) (fName f).

Lemma load_factories order : NoDup (fkey <$> order) -> forall k f,
  factories (load order) !! k = Some f <-> f ∈ order /\ fkey f = k.
Proof.
  unfold load. induction order as [|x l IH] using rev_ind; intros Hnd k f.
  { cbn. rewrite lookup_empty, elem_of_nil. split; [done|by intros [? _]]. }
  rewrite fmap_app in Hnd. apply NoDup_app in Hnd as (Hnd & Hdis & _). rewrite foldl_snoc. unfold RegisterPluginFactory. cbn [factories].
  fold (fkey x). rewrite lookup_insert_Some, (IH Hnd), elem_of_app, list_elem_of_singleton. split.
  - intros [[<- <-]|(Hne & Hf & <-)]; [by split; [right|]|by split; [left|]].
  - intros [[Hf| ->] <-]; [|by left]. right. split; [|done]. intros Ek. apply (Hdis (fkey f)).
    + by apply list_elem_of_fmap_2.
    + cbn. rewrite Ek. left.
Qed.

Lemma load_insts order : insts (load order) = ∅.
Proof. unfold load. induction order as [|x l IH] using rev_ind; [done|]. rewrite foldl_snoc. exact IH. Qed.

Lemma inits_distinct : NoDup (fkey <$> inits).
Proof. change (fkey <$> inits) with ["transport_tcp"; "rpc_trpc"; "db_redis"; "db_mysql"; "mq_kafka"; "mq_pulsar"; "log_bingologger"]. by_decide. Qed.

(** ** Instances *)

(** The package an instance is of, and what makes it usable. *)
Definition package (p : instance) : string * string :=
  match p with
  | InstTcp _ => ("transport", "tcp") | InstTrpc _ => ("rpc", "trpc") | InstRedis _ => ("db", "redis")
  | InstMysql _ => ("db", "mysql") | InstKafka _ _ => ("mq", "kafka") | InstPulsar _ _ => ("mq", "pulsar")
  | InstBingo _ _ => ("log", "bingologger")
  end.

(** A transport that has not been started, a server the library made, a database
    with its client or handle, a message queue with the readers and writers of
    its configuration, an initialised logger. *)
Definition usable (p : instance) : Prop :=
  match p with
  | InstTcp t => ctxCancelled t = None /\ listening t = None
  | InstTrpc ts => exists path, newTrpc E path = Done (srv ts)
  | InstRedis h => is_Some (Redis.client h)
  | InstMysql h => is_Some (Mysql.sql h)
  | InstKafka p _ => Kafka.complete_client p
  | InstPulsar p _ => Pulsar.complete_client p
  | InstBingo l _ => isInited l = true
  end.

Lemma bingo_setup_inited u evs fs s l fs' s' : Bingo.Setup u evs fs s = Done (Ok l, fs', s') -> isInited l = true.
Proof.
  unfold Bingo.Setup, Bingo.Init. destruct u as [cfg|]; [|done]. cbn [zeroLogger isInited]. destruct (CheckCfgValid cfg); [done|].
  intros Hs. apply bind_Done_inv in Hs as ([[[e|] l1] fs1] & H1 & Hs); [done|]. simplify_eq.
  apply bind_Done_inv in H1 as ([[[e|] l2] fs2] & _ & H1); [done|]. cbn in H1. by simplify_eq.
Qed.

Lemma setup_package f v p : f ∈ inits -> Plugin.Setup f v = Done (Ok p) -> package p = (fType f, fName f) /\ usable p.
Proof.
  intros Hf Hp. unfold inits in Hf. repeat (apply elem_of_cons in Hf as [->|Hf]); [..|by apply not_elem_of_nil in Hf];
    cbn in Hp; (destruct v as [section|]; [|done]).
  - by destruct (uTcp E section); simplify_eq.
  - unfold factory_Setup in Hp. destruct (uTrpc E section) as [cfg|]; [|by simplify_eq]. apply bind_Done_inv in Hp as (ts & Hts & Hp).
    cbn in Hp. simplify_eq. split; [done|]. unfold NewTrpcServer in Hts. apply bind_Done_inv in Hts as (n & Hn & [= <-]). by eexists.
  - destruct (uRedis E section) as [cfg|]; [|done]. unfold Redis.DBOpen, Redis.Open in Hp. destruct (cfgPoolSize cfg =? 0); [done|].
    destruct (newRedis E _); [|done]. simplify_eq. split; [done|]. by eexists.
  - destruct (uMysql E section) as [cfg|]; [|done]. unfold Mysql.DBOpen, Mysql.Open in Hp.
    destruct (openMysql E _); [done|]. destruct (pingMysql E _); [done|]. simplify_eq. split; [done|]. by eexists.
  - apply bind_Done_inv in Hp as ([[q|e] h] & Hq & Hp); simplify_eq. split; [done|].
    unfold Kafka.Setup in Hq. destruct (uMq E section); [|done]. by eapply NewClient_complete.
  - destruct (Pulsar.Setup _ _ _ _) as [[q|e] h] eqn:Hq; simplify_eq. split; [done|]. by eapply pulsar_client_complete.
  - apply bind_Done_inv in Hp as ([[[q|e] fs] s] & Hq & Hp); simplify_eq. split; [done|]. by eapply bingo_setup_inited.
Qed.
End Plugins.

(** C14. Type assertions on plugin instances cannot fail.  Load the seven plugin
    packages in any order and run [Init] on any configuration, in any order of
    Go's map iteration, successfully or not: every factory is registered under
    its own type and name, none hiding another, and whatever instance is
    registered under a type and a name is one the package of that name made,
    ready to be used ([usable]). *)
Theorem plugin_instances_fit {C : Type} (E : pluginEnv (C := C)) (order : list (PluginFactory C instance))
    (v : option (result error (PluginConfig C))) (logs : list (string * option C))
    (ord : list (string * list (string * option C))) (e : option error) (s : pluginState C instance) :
  order ≡ₚ inits E -> Plugin.Init v logs ord (load order) = Done (e, s) ->
  (forall f, f ∈ inits E -> getPluginFactory (fType f) (fName f) s = Some f) /\
  forall t n p, "_"%char ∉ chars t -> GetPluginInst t n s = Some p -> package p = (t, n) /\ usable E p.
Proof.
  intros Ho Hi. pose proof (Init_factories _ _ _ _ _ _ Hi) as HF.
  assert (Hnd : NoDup (fkey <$> order)) by (rewrite Ho; apply inits_distinct). split.
  - intros f Hf. unfold getPluginFactory. rewrite HF. apply (load_factories order Hnd). by rewrite Ho.
  - intros t n p Ht Hp. apply Init_made in Hi; [|intros k q Hq; by rewrite load_insts, lookup_empty in Hq].
    destruct (Hi _ p Hp) as (f & sub & Hf & Hs). rewrite HF in Hf. apply (load_factories order Hnd) in Hf as [Hf Hk]. rewrite Ho in Hf.
    destruct (setup_package E f sub p Hf Hs) as [Hpk Hu]. split; [|done]. rewrite Hpk.
    unfold fkey in Hk. apply key_inj in Hk as [-> ->]; [done| |done].
    unfold inits in Hf. repeat (apply elem_of_cons in Hf as [->|Hf]); [..|by apply not_elem_of_nil in Hf]; by_decide.
Qed.

(** *** Witness: a transport, a database and a message queue *)

Definition demo_env : pluginEnv (C := string) := {|
  uTcp addr := Ok (MkTcpTransportCfg addr 60);
  uTrpc p := Ok (MkTrpcConfig p);
  newTrpc _ := Done 1%nat;
  uRedis addr := Ok (Redis.MkDbCfg addr 8 1 "");
  newRedis _ := true;
  uMysql src := Ok (Mysql.MkDbCfg src 4 60);
  openMysql _ := None;
  pingMysql _ := None;
  uMq url := Ok (MkMQConfig [] [] (MkClientConfig url "" ∅) (MkReactorConfig url "r" ∅));
  NewConsumer _ := None;
  NewProducer _ := None;
  createLog _ := None;
  newPulsar _ := None;
  uLog p := Ok (MkLogCfg p 1 1 false 0 0);
  logEvents := [];
  logDisk := MkFS ∅ ∅ 0;
  logState0 := MkLogState None (MkCounters 0 0 0 0 0);
  syncAt := demo_x 0
|}.

Definition demo_sections : list (string * list (string * option string)) :=
  [("transport", [("tcp", Some ":8888")]); ("db", [("redis", Some "h:6379")]); ("mq", [("kafka", Some "h:9092")])].

Definition demo_plugins : outcome (option error * pluginState string instance) :=
  Plugin.Init (Some (Ok (list_to_map ((fun x => (x.1, list_to_map x.2)) <$> demo_sections)))) [] demo_sections
    (load (reverse (inits demo_env))).

Lemma plugin_instances_fit_witness :
  match demo_plugins with
  | Done (e, s) => e = None /\
      (forall p, GetPluginInst "db" "redis" s = Some p -> package p = ("db", "redis") /\ usable demo_env p) /\
      match GetPluginInst "db" "redis" s with Some (InstRedis h) => True | _ => False end
  | _ => False
  end.
Proof.
  destruct demo_plugins as [[e s]|w|] eqn:Hd; [|vm_compute in Hd; discriminate|vm_compute in Hd; discriminate].
  split; [|split].
  - vm_compute in Hd. by injection Hd as <- _.
  - intros p Hp. eapply (plugin_instances_fit demo_env (reverse (inits demo_env))).
    + apply reverse_Permutation.
    + exact Hd.
    + by_decide.
    + exact Hp.
  - vm_compute in Hd. injection Hd as _ <-. vm_compute. exact I.
Defined.
