(* ===== verification/Login.v ===== *)
(** * example: the stateless server, its login module and the TCP client

    The module of example/statelesssvr, the client of example/tcp_client, and
    the two together over the transport and the message codec.  Log and print
    calls are left out, except for what the client prints at its end. *)

From S2P Require Import Prelude GoStrings TransportCodec Uid Tcp Msg Conns Plugin Trpc App Mq.

(** ** proto/csproto/cs_login.pb.go *)

Record Account := MkAccount { Id : Z; Num : Z }.

Inductive csmsg :=
| CS_LOGIN (Name Sex : string) (account : option Account)
| SC_LOGIN (Success : Z).

(** What the generated code registers with the protobuf library, and that the
    library unmarshals into a message of the type asked for. *)
Class CsProto `{ProtoLib csmsg} := {
  FullName_CS_LOGIN : forall n s a, FullName (CS_LOGIN n s a) = "proto.CS_LOGIN";
  FullName_SC_LOGIN : forall n, FullName (SC_LOGIN n) = "proto.SC_LOGIN";
  registered_CS_LOGIN : FindMessageByName "proto.CS_LOGIN" = true;
  Unmarshal_type : forall n d m, Unmarshal n d = Some m -> FullName m = n
}.

(** ** module.go *)

Record TestModule := MkTestModule { testValue : Z }.

Section Module.
Context `{ProtoLib csmsg}.

Definition OnStart (conn : Z) (m : TestModule) : outcome (TestModule * list act) := Done (m, []).
Definition OnStop (conn : Z) (m : TestModule) : outcome (TestModule * list act) := Done (m, []).

(** The reply goes out with [SendToClient], whose error is dropped. *)
Definition OnLogin (conn : Z) (header : CSHead) (msg : csmsg) (m : TestModule) : outcome (TestModule * list act) :=
  match msg with
  | SC_LOGIN _ => Panic "interface conversion"
  | CS_LOGIN name sex account =>
      let rspHeader := MkSCHead (CS_Msgid header) (i32 (CS_Seqid header + 1)) in
      let rsp := SC_LOGIN 1 in
      r ← DefaultCSCodec_Encode rspHeader rsp;
      match r with
      | Err _ => Done (m, [])
      | Ok data => Done (m, [ASend data])
      end
  end.

(** The errors of the registrations are dropped.  The services registered with
    the RPC server are listed. *)
Definition module_Init (p : pluginState string inst) (mgr : MsgHandlerMgr csmsg TestModule) (m : TestModule)
  : outcome (option error * MsgHandlerMgr csmsg TestModule * TestModule * list (nat * string)) :=
  let m := MkTestModule 1 in
  match GetPluginInst "rpc" "trpc" p with
  | Some (TrpcInst r) =>
      let services := [(GetServer r, "EchoService")] in
      let '(_, mgr) := RegisterClientMsgHandler CSMessageID_cs_login OnLogin mgr in
      let '(_, mgr) := RegisterConnMsgHandler CONN_EVENT_START OnStart mgr in
      let '(_, mgr) := RegisterConnMsgHandler CONN_EVENT_STOP OnStop mgr in
      Done (None, mgr, m, services)
  | _ => Panic "interface conversion"
  end.

Definition module_UnInit (m : TestModule) : option error := None.
Definition module_Mainloop (m : TestModule) : TestModule := m.
Definition module_IsPreInit : bool := true.
Definition module_GetName : string := "test_module".
Definition module_OnReload (m : TestModule) : TestModule := m.

(** ** server.go *)

Record EventMessage := MkEventMessage { UserId : Z; FightId : Z; EventType : string; AttackSum : Z }.

(** [Marshal_json] is encoding/json on the struct. *)
Definition EventMessage_iface (Marshal_json : EventMessage -> string) (e : EventMessage) : Mq.Message :=
  MkMessage (Done (FormatInt (UserId e)))
    (Done {[ "user_id" := FormatInt (UserId e); "fight_id" := FormatInt (FightId e); "event_type" := EventType e ]})
    (Done (Marshal_json e)) (Done 0) (Done "test_kafka") (Panic "implement me").

(** ** The client *)

Definition client_header : CSHead := MkCSHead CSMessageID_cs_login 1.
Definition client_msg : csmsg := CS_LOGIN "test client" "male" (Some (MkAccount 100 10)).

(** The frame the client puts together. *)
Definition client_frame (sendHeaderData sendData : bytes) : outcome bytes :=
  let sendHeaderSize := Z.of_nat (length sendHeaderData) in
  let sendBodySize := Z.of_nat (length sendData) in
  let sendBuff := make_bytes (8 + sendHeaderSize + sendBodySize) in
  w1 ← slice sendBuff 0 4;
  w1 ← LE_PutUint32 w1 (u32 sendHeaderSize);
  w2 ← slice sendBuff 4 8;
  w2 ← LE_PutUint32 w2 (u32 sendBodySize);
  rest ← slice_from sendBuff 8;
  let '(rest, _) := copy rest sendHeaderData in
  let sendBuff := w1 ++ w2 ++ rest in
  pre ← slice sendBuff 0 (8 + sendHeaderSize);
  rest ← slice_from sendBuff (8 + sendHeaderSize);
  let '(rest, _) := copy rest sendData in
  Done (pre ++ rest).

(** How the client ends. *)
Inductive clientEnd :=
| ConnectFailed
| MarshalFailed
| UnmarshalFailed
| Printed (headerSize bodySize readLen msgid seqid success : Z).

(** [got]: the bytes the single [Read] into the array of 512 delivers. *)
Definition client_recv (got : bytes) : outcome clientEnd :=
  let '(recvBuff, n) := copy (make_bytes 512) got in
  w1 ← slice recvBuff 0 4;
  recvHeaderSize ← LE_Uint32 w1;
  w2 ← slice recvBuff 4 8;
  recvBodySize ← LE_Uint32 w2;
  hd ← slice recvBuff 8 (u32 (8 + recvHeaderSize));
  match UnmarshalSCHead hd with
  | None => Done UnmarshalFailed
  | Some recvHeader =>
      bd ← slice recvBuff (u32 (8 + recvHeaderSize)) (u32 (u32 (8 + recvHeaderSize) + recvBodySize));
      match Unmarshal "proto.SC_LOGIN" bd with
      | Some (SC_LOGIN success) =>
          Done (Printed recvHeaderSize recvBodySize n (SC_Msgid recvHeader) (SC_Seqid recvHeader) success)
      | _ => Done UnmarshalFailed
      end
  end.

(** [dial]: the connection is made; [server]: what the read delivers for the
    frame written. *)
Definition client_main (dial : bool) (server : bytes -> outcome bytes) : outcome clientEnd :=
  if negb dial then Done ConnectFailed else
  match MarshalCSHead client_header with
  | Err _ => Done MarshalFailed
  | Ok sendHeaderData =>
      match Marshal client_msg with
      | Err _ => Done MarshalFailed
      | Ok sendData =>
          sendBuff ← client_frame sendHeaderData sendData;
          got ← server sendBuff;
          client_recv got
      end
  end.
End Module.

(** ** The server's answers *)

Section Server.
Context `{L : ProtoLaws csmsg} `{!CsProto}.

(** The registry after the module's start. *)
Definition login_mgr : MsgHandlerMgr csmsg TestModule :=
  MkMsgHandlerMgr (<[CONN_EVENT_STOP := OnStop]> {[ CONN_EVENT_START := OnStart ]})
    {[ CSMessageID_cs_login := OnLogin ]} ∅.

Lemma module_Init_spec p m r : GetPluginInst "rpc" "trpc" p = Some (TrpcInst r) ->
  module_Init p newMsgHandlerMgr m = Done (None, login_mgr, MkTestModule 1, [(GetServer r, "EchoService")]).
Proof. intros Hr. unfold module_Init. by rewrite Hr. Qed.

(** The head of the reply to a login. *)
Definition answer (h : CSHead) : SCHead := MkSCHead (CS_Msgid h) (i32 (CS_Seqid h + 1)).

Definition is_login (m : csmsg) : Prop := exists n s a, m = CS_LOGIN n s a.

Lemma FullName_login m : FullName m = "proto.CS_LOGIN" -> is_login m.
Proof. destruct m; [by do 3 eexists|]. by rewrite FullName_SC_LOGIN. Qed.

Lemma Encode_ok (h : SCHead) (m : csmsg) : exists r, DefaultCSCodec_Encode h m = Done r /\
  forall d, r = Ok d -> packet_ok d.
Proof.
  destruct (MarshalSCHead h) as [hd|e] eqn:Hh.
  - destruct (Marshal m) as [bd|e] eqn:Hm.
    + rewrite (Encode_spec h m hd bd Hh Hm). eexists. split; [done|].
      destruct (Z.leb_spec (4 + Z.of_nat (length hd) + Z.of_nat (length bd)) _maxBuffSize) as [Hl|]; [|done].
      intros d [= <-]. apply app_packet_ok. unfold _maxBuffSize in Hl. lia.
    + unfold DefaultCSCodec_Encode. rewrite Hh. assert (HM : 4 <= _maxBuffSize) by done.
      revert HM. generalize _maxBuffSize as M. intros M HM.
      pose proof (length_make_bytes M) as Lm.
      rewrite slice_Done by lia. go_run.
      rewrite LE_PutUint32_Done by (rewrite length_take, length_drop; lia). go_run.
      rewrite slice_from_Done by lia. go_run. destruct (copy _ hd) as [rest n].
      rewrite Hm. destruct (negb _); by eexists.
  - unfold DefaultCSCodec_Encode. rewrite Hh. by eexists.
Qed.

(** Under the login id the codec only passes on login messages. *)
Lemma Decode_login p hd msg : DefaultCSCodec_Decode p = Done (Some (hd, msg)) ->
  CS_Msgid hd = CSMessageID_cs_login -> is_login msg.
Proof.
  intros Hd Hid. unfold DefaultCSCodec_Decode in Hd.
  apply bind_Done_inv in Hd as (x1 & _ & Hd). apply bind_Done_inv in Hd as (x2 & _ & Hd).
  apply bind_Done_inv in Hd as (x3 & _ & Hd). destruct (UnmarshalCSHead x3) as [h|]; [|done].
  destruct (CSMessageID_name !! CS_Msgid h) as [str|] eqn:Hs; [|done].
  destruct (negb _); [done|]. apply bind_Done_inv in Hd as (x4 & _ & Hd).
  destruct (Unmarshal _ x4) as [m|] eqn:Hu; [|done]. injection Hd as -> ->.
  apply Unmarshal_type in Hu. apply FullName_login. rewrite Hu. rewrite Hid in Hs. injection Hs as <-. reflexivity.
Qed.

(** The handlers of the module never panic on what the codec passes on. *)
Lemma login_handler_safe : safe_handler (eventTcp login_mgr).
Proof.
  split; cbn [eventTcp OnConnOpened OnConnClosed OnData].
  - intros id s. constructor.
  - intros id active s. constructor.
  - intros id p s [Hl Hp]. unfold RecvClientMsg.
    destruct (Decode_slices (Message := csmsg) p Hl) as [Hd _].
    destruct Hd as [[[hd msg]|] Hd]; [lia|lia| |rewrite Hd; constructor].
    rewrite Hd, bind_Done. cbn [login_mgr clientMsgHandler].
    destruct (decide (CS_Msgid hd = CSMessageID_cs_login)) as [Hid|Hid].
    2: { rewrite lookup_singleton_ne by done. constructor. }
    rewrite Hid, lookup_singleton_eq. destruct (Decode_login p hd msg Hd Hid) as (n & sx & a & ->).
    unfold OnLogin. destruct (Encode_ok (MkSCHead (CS_Msgid hd) (i32 (CS_Seqid hd + 1))) (SC_LOGIN 1)) as (r & -> & Hr).
    rewrite bind_Done. destruct r as [d|e]; [|constructor].
    constructor; [by apply Hr|constructor].
Qed.

(** What the module's [OnData] computes. *)
Definition login_step (id : Z) (p : bytes) (m : TestModule) : TestModule * list bytes :=
  match DefaultCSCodec_Decode (Message := csmsg) p with
  | Done (Some (h, _)) =>
      match DefaultCSCodec_Encode (answer h) (SC_LOGIN 1) with
      | Done (Ok d) => (m, [d])
      | _ => (m, [])
      end
  | _ => (m, [])
  end.

(** A packet that carries a login. *)
Definition login_packet (p : bytes) : Prop :=
  exists r, encoded r p /\ is_login r.2 /\ CS_Msgid r.1 = CSMessageID_cs_login.

Lemma login_step_ok id p m : login_packet p ->
  OnData (eventTcp login_mgr) id p m = Done (fst (login_step id p m), ASend <$> snd (login_step id p m)) /\
  Forall packet_ok (snd (login_step id p m)).
Proof.
  intros ([h msg] & He & (n & sx & a & Hm) & Hid). cbn [fst snd] in Hm, Hid. subst msg.
  unfold login_step. cbn [eventTcp OnData]. unfold RecvClientMsg. rewrite (encoded_Decode _ _ He), bind_Done.
  cbn [login_mgr clientMsgHandler]. rewrite Hid, lookup_singleton_eq. unfold OnLogin. fold (answer h).
  destruct (Encode_ok (answer h) (SC_LOGIN 1)) as (r & -> & Hr). rewrite bind_Done.
  destruct r as [d|e]; cbn [fst snd]; (split; [done|]); [|constructor]. constructor; [by apply Hr|constructor].
Qed.

Lemma login_stop_ok id m : OnConnClosed (eventTcp login_mgr) id false m = Done (m, []) /\ Forall packet_ok [].
Proof. split; [done|constructor]. Qed.

(** [q] is the packet that answers the login [r]. *)
Definition replied (sbd : bytes) (r : CSHead * csmsg) (q : bytes) : Prop :=
  exists hd, MarshalSCHead (answer r.1) = Ok hd /\
    4 + Z.of_nat (length hd) + Z.of_nat (length sbd) <= _maxBuffSize /\ q = app_packet hd sbd.

Lemma login_steps sbd id m : Marshal (SC_LOGIN 1) = Ok sbd -> forall rs ps qs,
  Forall2 encoded rs ps -> Forall2 (replied sbd) rs qs ->
  steps login_step id m ps = (m, concat (wire <$> qs)).
Proof.
  intros Hsc rs ps qs He. revert qs. induction He as [|r p rs ps Hr _ IH]; intros qs Hq.
  { apply Forall2_nil_inv_l in Hq as ->. done. }
  apply Forall2_cons_inv_l in Hq as (q & qs' & (hd & Hh & Hl & ->) & Hq & ->). cbn [steps].
  assert (E : login_step id p m = (m, [app_packet hd sbd])).
  { unfold login_step. rewrite (encoded_Decode r p Hr). destruct r as [h msg]. cbn [fst] in Hh.
    rewrite (Encode_spec (answer h) (SC_LOGIN 1) hd sbd Hh Hsc). by rewrite (proj2 (Z.leb_le _ _) Hl). }
  rewrite E. cbn [fst snd]. rewrite (IH qs' Hq). cbn [fst snd fmap list_fmap concat]. by rewrite app_nil_r.
Qed.

(** A connection of the server that carries logins. *)
Lemma login_recv rs ps qs sbd tl e evs cfg0 clk now ins la ra :
  Forall2 encoded rs ps -> Forall (fun r => is_login r.2 /\ CS_Msgid r.1 = CSMessageID_cs_login) rs ->
  Marshal (SC_LOGIN 1) = Ok sbd -> Forall2 (replied sbd) rs qs ->
  incomplete tl -> ev_pending evs = concat (wire <$> ps) ++ tl -> ev_ends evs = Some e ->
  exists c', Recv (MkEnv cfg0 (eventTcp login_mgr) clk (fun _ => false))
      (fst (NewTcpConn now ins (MkTCPConn la ra evs None))) (MkTestModule 1) = Done (c', MkTestModule 1) /\
    sent (writer c') = concat (wire <$> qs) /\ closed c' = true.
Proof.
  intros He HF Hsc Hq Htl Hev Hen.
  pose proof (Recv_packets (eventTcp login_mgr) login_packet login_step (fun _ m => (m, [])) login_step_ok login_stop_ok
    cfg0 clk e tl ps evs now ins la ra (fun _ => MkTestModule 1) (MkTestModule 1) ltac:(done) Htl) as Hr.
  cbv zeta in Hr. rewrite (login_steps sbd _ _ Hsc rs ps qs He Hq) in Hr.
  destruct Hr as (c' & H1 & H2 & H3); [| |done|done|].
  - clear - He. induction He; constructor; [by eapply encoded_packet_ok|done].
  - clear - He HF. induction He as [|r p rs ps Hr _ IH]; [constructor|].
    apply Forall_cons in HF as [[Hl Hi] HF]. constructor; [by exists r|by apply IH].
  - exists c'. split; [exact H1|]. split; [|done]. rewrite H2. cbn. by rewrite app_nil_r.
Qed.
End Server.

(** The example server answers every login.  Started with the RPC plugin
    there, the module registers its handlers; then for any logins that clients
    send on a connection, in any chunks, the server answers each, in order,
    with one packet: the same message id, the sequence number plus one (at 32
    bits), and success. *)
Theorem login_server_answers `{L : ProtoLaws csmsg} `{!CsProto} (p : pluginState string inst) (m0 : TestModule)
    (r0 : TrpcServer) (rs : list (CSHead * csmsg)) (ps qs : list bytes) (sbd tl : bytes) (e : rerr)
    (evs : list netEvent) (cfg0 : TcpTransportCfg) (clk : nat -> Z) (now : Z) (ins : uidGeneratorIns) (la ra : string) :
  GetPluginInst "rpc" "trpc" p = Some (TrpcInst r0) ->
  Forall2 encoded rs ps -> Forall (fun r => is_login r.2 /\ CS_Msgid r.1 = CSMessageID_cs_login) rs ->
  Marshal (SC_LOGIN 1) = Ok sbd -> Forall2 (replied sbd) rs qs ->
  incomplete tl -> ev_pending evs = concat (wire <$> ps) ++ tl -> ev_ends evs = Some e ->
  exists mgr m sv c', module_Init p newMsgHandlerMgr m0 = Done (None, mgr, m, sv) /\
    Recv (MkEnv cfg0 (eventTcp mgr) clk (fun _ => false)) (fst (NewTcpConn now ins (MkTCPConn la ra evs None))) m =
      Done (c', m) /\
    sent (writer c') = concat (wire <$> qs) /\ closed c' = true.
Proof.
  intros Hp He HF Hsc Hq Htl Hev Hen. exists login_mgr, (MkTestModule 1), [(GetServer r0, "EchoService")].
  rewrite (module_Init_spec p m0 r0 Hp).
  destruct (login_recv rs ps qs sbd tl e evs cfg0 clk now ins la ra He HF Hsc Hq Htl Hev Hen) as (c' & H1 & H2 & H3).
  by exists c'.
Qed.

(** No client can crash the example server with sizes that fit 32 bits.
    Whatever bytes arrive and however the connection ends, receiving them
    never panics: in particular the type assertion of [OnLogin] always holds. *)
Theorem login_server_never_panics `{ProtoLib csmsg} `{!CsProto} (p : pluginState string inst) (m0 m : TestModule)
    (mgr : MsgHandlerMgr csmsg TestModule) (err : option error) (sv : list (nat * string))
    (cfg0 : TcpTransportCfg) (clk : nat -> Z) (ctx : nat -> bool) (c : tcpConn) :
  module_Init p newMsgHandlerMgr m0 = Done (err, mgr, m, sv) -> frames_ok (pending c) ->
  ~ panics (Recv (MkEnv cfg0 (eventTcp mgr) clk ctx) c m).
Proof.
  intros Hi Hf. destruct (GetPluginInst "rpc" "trpc" p) as [[t|r|w]|] eqn:Hp; try (unfold module_Init in Hi; by rewrite Hp in Hi).
  rewrite (module_Init_spec p m0 r Hp) in Hi. injection Hi as <- <- <- <-.
  apply Recv_safe; [apply login_handler_safe|done].
Qed.

(** ** The client against the server *)

(** The client lays its frame out as the transport does. *)
Lemma client_frame_wire hd bd : 4 + Z.of_nat (length hd) + Z.of_nat (length bd) < 2 ^ 32 ->
  client_frame hd bd = Done (wire (app_packet hd bd)).
Proof.
  intros Hl. rewrite (wire_app_packet hd bd Hl). unfold client_frame.
  set (n := 8 + Z.of_nat (length hd) + Z.of_nat (length bd)).
  pose proof (length_make_bytes n) as Lm. set (buff := make_bytes n) in *. clearbody buff.
  rewrite !slice_Done by lia. go_run. rewrite LE_PutUint32_Done by (rewrite length_take, length_drop; lia). go_run.
  rewrite LE_PutUint32_Done by (rewrite length_take, length_drop; lia). go_run.
  rewrite slice_from_Done by lia. go_run.
  rewrite copy_prefix by (rewrite length_drop; lia).
  rewrite !(drop_ge (take _ _)), !app_nil_r by (rewrite length_take, length_drop; lia).
  rewrite !(wrap_u_small 32) by (unfold fits_u; lia).
  set (w1 := le_split 4 (Z.of_nat (length hd))). set (w2 := le_split 4 (Z.of_nat (length bd))).
  assert (L1 : length w1 = 4%nat) by apply length_le_split. assert (L2 : length w2 = 4%nat) by apply length_le_split.
  set (rest := drop (length hd) (drop (Z.to_nat 8) buff)).
  assert (Lr : length rest = length bd) by (unfold rest; rewrite !length_drop; lia).
  replace (w1 ++ w2 ++ hd ++ rest) with ((w1 ++ w2 ++ hd) ++ rest) by (by rewrite <- !app_assoc).
  rewrite slice_Done, slice_from_Done by (rewrite ?length_app; lia). go_run.
  change (Z.to_nat 0) with 0%nat. rewrite drop_0.
  rewrite take_app_length', drop_app_length' by (rewrite ?length_app; lia).
  rewrite copy_prefix by lia. rewrite (drop_ge rest), app_nil_r by lia. by rewrite <- !app_assoc.
Qed.

(** A reply read whole is unmarshalled and printed. *)
Lemma client_recv_reply `{L : ProtoLaws csmsg} `{!CsProto} h k hd bd :
  MarshalSCHead h = Ok hd -> Marshal (SC_LOGIN k) = Ok bd ->
  8 + Z.of_nat (length hd) + Z.of_nat (length bd) <= 512 ->
  client_recv (wire (app_packet hd bd)) =
    Done (Printed (Z.of_nat (length hd)) (Z.of_nat (length bd)) (8 + Z.of_nat (length hd) + Z.of_nat (length bd))
            (SC_Msgid h) (SC_Seqid h) k).
Proof.
  intros Hh Hm Hl. rewrite wire_app_packet by lia. unfold client_recv.
  pose proof (length_make_bytes 512) as Lm. set (buff := make_bytes 512) in *. clearbody buff.
  set (w1 := le_split 4 (Z.of_nat (length hd))). set (w2 := le_split 4 (Z.of_nat (length bd))).
  assert (L1 : length w1 = 4%nat) by apply length_le_split. assert (L2 : length w2 = 4%nat) by apply length_le_split.
  rewrite copy_prefix by (rewrite !length_app; lia). rewrite <- !app_assoc.
  set (rest := drop _ buff).
  rewrite !slice_Done by (rewrite ?length_app; lia). go_run. change (Z.to_nat 0) with 0%nat.
  change (Z.to_nat (4 - 0)) with 4%nat. change (Z.to_nat 4) with 4%nat. change (Z.to_nat (8 - 4)) with 4%nat.
  rewrite drop_0, take_app_length', drop_app_length', take_app_length' by done.
  rewrite !LE_Uint32_Done by lia. go_run. rewrite !take_ge by lia. unfold w1, w2.
  rewrite !le_u32_roundtrip by (unfold fits_u; lia). fold w1 w2.
  rewrite !(wrap_u_small 32) by (unfold fits_u; lia).
  rewrite !slice_Done by (rewrite ?length_app; lia). go_run.
  assert (E1 : drop (Z.to_nat 8) (w1 ++ w2 ++ hd ++ bd ++ rest) = hd ++ bd ++ rest).
  { rewrite (app_assoc w1). apply drop_app_length'. rewrite length_app. lia. }
  assert (E2 : drop (Z.to_nat (8 + Z.of_nat (length hd))) (w1 ++ w2 ++ hd ++ bd ++ rest) = bd ++ rest).
  { rewrite (app_assoc w2), (app_assoc w1). apply drop_app_length'. rewrite !length_app. lia. }
  rewrite E1, E2, !take_app_length' by lia. rewrite (schead_roundtrip h hd Hh).
  rewrite <- (FullName_SC_LOGIN k), (message_roundtrip _ bd Hm). do 2 f_equal. rewrite !length_app. lia.
Qed.

(** ** Many clients at once *)

Section Many.
Context `{L : ProtoLaws csmsg} `{!CsProto}.

Definition login_handle (id : Z) (r : CSHead * csmsg) (m : TestModule) : TestModule * list bytes :=
  match DefaultCSCodec_Encode (answer r.1) (SC_LOGIN 1) with
  | Done (Ok d) => (m, [d])
  | _ => (m, [])
  end.

(** The module keeps, for logins, the promise the transport is served with. *)
Lemma login_dispatches : Dispatches (eventTcp login_mgr) (fun r => is_login r.2 /\ CS_Msgid r.1 = CSMessageID_cs_login)
  (fun _ m => m) login_handle (fun _ m => (m, [])).
Proof.
  split; [done| |intros id m; apply login_stop_ok]. intros id r p m Hr [Hl Hi].
  destruct (login_step_ok id p m) as [Hd Hp]; [by exists r|].
  unfold login_step in *. rewrite (encoded_Decode r p Hr) in *. destruct r as [hd msg]. by split.
Qed.

(** The replies do not depend on what the server did before. *)
Lemma login_answered k h : forall m,
  answered (fun _ m => m) login_handle (fun _ m => (m, [])) k h m =
    concat ((fun w => match w with CMsg r => (login_handle 0 r m).2 | _ => [] end) <$> mine k h).
Proof.
  induction h as [|e h IH]; intros m; [done|]. cbn [answered].
  assert (Hm : (abs_step (fun _ m => m) login_handle (fun _ m => (m, [])) e m).1 = m).
  { unfold abs_step, login_handle. destruct (what e); try done. by repeat case_match. }
  rewrite Hm, IH. unfold mine. rewrite filter_cons. destruct (decide (who e = k)); [|done]. cbn [fmap list_fmap concat].
  f_equal. unfold abs_step. by destruct (what e).
Qed.

(** The login of the example client. *)
Lemma client_encoded chd cbd : MarshalCSHead client_header = Ok chd -> Marshal client_msg = Ok cbd ->
  4 + Z.of_nat (length chd) + Z.of_nat (length cbd) < 2 ^ 32 -> encoded (client_header, client_msg) (app_packet chd cbd).
Proof.
  intros Hch Hcm Hcl. exists chd, cbd, "cs_login". cbn [fst snd]. unfold client_msg. rewrite FullName_CS_LOGIN.
  repeat split; [done..|exact registered_CS_LOGIN].
Qed.

Lemma client_handled shd sbd m : MarshalSCHead (MkSCHead 1 2) = Ok shd -> Marshal (SC_LOGIN 1) = Ok sbd ->
  8 + Z.of_nat (length shd) + Z.of_nat (length sbd) <= 512 ->
  (login_handle 0 (client_header, client_msg) m).2 = [app_packet shd sbd].
Proof.
  intros Hsh Hsm Hsl. unfold login_handle. cbn [fst]. rewrite (Encode_spec (answer client_header) (SC_LOGIN 1) shd sbd Hsh Hsm).
  rewrite (proj2 (Z.leb_le _ _)); [done|]. unfold _maxBuffSize. lia.
Qed.
End Many.

(** C6. The example server serves any number of example clients at once.  The
    clients connect, their frames arrive in any chunks and the goroutines run
    in any order: the process never crashes; at every point a client has
    received nothing yet or exactly a reply from which it prints message id 1,
    sequence number 2 and success 1; and while the transport is not shut down
    the server can go on until every connected client has its reply. *)
Theorem login_many_clients `{L : ProtoLaws csmsg} `{!CsProto} (p : pluginState string inst) (m0 m : TestModule)
    (mgr : MsgHandlerMgr csmsg TestModule) (sv : list (nat * string)) (chd cbd shd sbd : bytes)
    (evs : list acceptEvent) (cfg0 : TcpTransportCfg) (ins : uidGeneratorIns) (st : netState TestModule) :
  module_Init p newMsgHandlerMgr m0 = Done (None, mgr, m, sv) ->
  MarshalCSHead client_header = Ok chd -> Marshal client_msg = Ok cbd ->
  4 + Z.of_nat (length chd) + Z.of_nat (length cbd) < 2 ^ 32 ->
  MarshalSCHead (MkSCHead 1 2) = Ok shd -> Marshal (SC_LOGIN 1) = Ok sbd ->
  8 + Z.of_nat (length shd) + Z.of_nat (length sbd) <= 512 ->
  Forall (fun conn => will_accept conn = None /\ ev_ends (will_read conn) = Some EOF /\
    client_frame chd cbd = Done (ev_pending (will_read conn))) (conns evs) ->
  rtc (net_step cfg0 (eventTcp mgr)) (net_start evs ins m) st ->
  let success c := client_recv (sent (writer c)) = Done (Printed (Z.of_nat (length shd)) (Z.of_nat (length sbd))
    (8 + Z.of_nat (length shd) + Z.of_nat (length sbd)) 1 2 1) in
  crashed st = None /\
  (forall k g, gs st !! k = Some g -> sent (writer (conn_of g)) = [] \/ success (conn_of g)) /\
  (ctxCancel st = false -> exists st', rtc (net_step cfg0 (eventTcp mgr)) st st' /\
     length (gs st') = length (gs st) /\
     forall k, (k < length (gs st))%nat -> exists c, gs st' !! k = Some (GEnded c) /\ success c).
Proof.
  intros Hi Hch Hcm Hcl Hsh Hsm Hsl Hev Hrun success.
  assert (mgr = login_mgr /\ m = MkTestModule 1) as [-> ->].
  { destruct (GetPluginInst "rpc" "trpc" p) as [[t|r|w]|] eqn:Hp; try (unfold module_Init in Hi; by rewrite Hp in Hi).
    rewrite (module_Init_spec p m0 r Hp) in Hi. by injection Hi as <- <- _. }
  pose proof (client_encoded chd cbd Hch Hcm Hcl) as He. pose proof (client_recv_reply _ 1 shd sbd Hsh Hsm Hsl) as Hrep.
  set (r := (client_header, client_msg)) in *.
  assert (Hreqs : forall k : nat, Forall (fun r => is_login r.2 /\ CS_Msgid r.1 = CSMessageID_cs_login) [r]).
  { intros _. apply Forall_singleton. split; [by do 3 eexists|done]. }
  assert (Hconns : forall k conn, conns evs !! k = Some conn -> client conn [r] (Some EOF)).
  { intros k conn Hk. destruct (proj1 (Forall_lookup _ _) Hev k conn Hk) as (H1 & H2 & H3). rewrite client_frame_wire in H3 by done.
    injection H3 as H3. split; [done|]. split; [done|]. exists [app_packet chd cbd], [].
    split; [by repeat constructor|]. split; [left; cbn; lia|]. cbn. by rewrite app_nil_r, app_nil_r. }
  assert (Hans : forall k h, mine k h = COpen :: (CMsg <$> [r]) ++ [CClose] \/ mine k h = COpen :: (CMsg <$> [r]) ->
    concat (wire <$> answered (fun _ m => m) login_handle (fun _ m => (m, [])) k h (MkTestModule 1)) = wire (app_packet shd sbd)).
  { intros k h Hm. rewrite login_answered. by destruct Hm as [-> | ->]; cbn -[login_handle wire app_packet];
      rewrite (client_handled shd sbd _ Hsh Hsm Hsl); cbn -[wire app_packet]; rewrite app_nil_r. }
  pose proof login_dispatches as D.
  destruct (reached_history (D := D) _ _ _ _ _ cfg0 (fun _ => [r]) (fun _ => Some EOF) evs ins _ st Hreqs Hconns Hrun)
    as (Halive & h & _ & _ & Hg).
  split; [done|]. split.
  - intros k g Hk. destruct (Hg k g Hk) as (Hp & Hs & rs1 & rs2 & Hrs & Hm & _). unfold success. rewrite Hs.
    destruct g as [c|c|c|c|c w|c w]; try done; cbn [in_history] in Hm; [left; by rewrite login_answered, Hm|..];
      (destruct rs1 as [|r1 [|? ?]]; [left; by rewrite login_answered, Hm|right|done]);
      injection Hrs as <- _; (rewrite Hans; [exact Hrep|tauto]).
  - intros Hctx.
    destruct (reached_ends (D := D) _ _ _ _ _ cfg0 (fun _ => [r]) (fun _ => Some EOF) evs ins _ st Hreqs Hconns Hrun)
      as (st' & h' & Hr & Hlen & _ & Hk); [done|done|].
    exists st'. split; [done|]. split; [done|]. intros k Hlt. destruct (Hk k Hlt) as (c & Hg' & Hm & Hs).
    exists c. split; [done|]. unfold success. rewrite Hs, Hans by (by left). exact Hrep.
Qed.


(** The server behind a connection: the bytes it sends for the client's, which
    the network cuts into the chunks [frag] says. *)
Definition served (mgr : MsgHandlerMgr csmsg TestModule) (m : TestModule) (cfg0 : TcpTransportCfg) (clk : nat -> Z)
    (now : Z) (ins : uidGeneratorIns) (frag : bytes -> list netEvent) `{ProtoLib csmsg} (frame : bytes) : outcome bytes :=
  '(c', _) ← Recv (MkEnv cfg0 (eventTcp mgr) clk (fun _ => false))
               (fst (NewTcpConn now ins (MkTCPConn "127.0.0.1:8888" "client" (frag frame) None))) m;
  Done (sent (writer c')).

(** The example client logs in.  Run against the example server, over any
    fragmentation of its bytes, and reading the reply in one piece, the client
    prints message id 1, sequence number 2 and success 1. *)
Theorem login_end_to_end `{L : ProtoLaws csmsg} `{!CsProto} (p : pluginState string inst) (m0 : TestModule)
    (r0 : TrpcServer) (chd cbd shd sbd : bytes) (frag : bytes -> list netEvent)
    (cfg0 : TcpTransportCfg) (clk : nat -> Z) (now : Z) (ins : uidGeneratorIns) :
  GetPluginInst "rpc" "trpc" p = Some (TrpcInst r0) ->
  MarshalCSHead client_header = Ok chd -> Marshal client_msg = Ok cbd ->
  4 + Z.of_nat (length chd) + Z.of_nat (length cbd) < 2 ^ 32 ->
  MarshalSCHead (MkSCHead 1 2) = Ok shd -> Marshal (SC_LOGIN 1) = Ok sbd ->
  8 + Z.of_nat (length shd) + Z.of_nat (length sbd) <= 512 ->
  (forall b, ev_pending (frag b) = b /\ ev_ends (frag b) = Some EOF) ->
  exists mgr m sv, module_Init p newMsgHandlerMgr m0 = Done (None, mgr, m, sv) /\
    client_main true (served mgr m cfg0 clk now ins frag) =
      Done (Printed (Z.of_nat (length shd)) (Z.of_nat (length sbd)) (8 + Z.of_nat (length shd) + Z.of_nat (length sbd)) 1 2 1).
Proof.
  intros Hp Hch Hcm Hcl Hsh Hsm Hsl Hfrag. exists login_mgr, (MkTestModule 1), [(GetServer r0, "EchoService")].
  split; [exact (module_Init_spec p m0 r0 Hp)|].
  unfold client_main. cbn [negb]. rewrite Hch, Hcm, client_frame_wire, bind_Done by done.
  pose proof (client_encoded chd cbd Hch Hcm Hcl) as He.
  assert (Hq : Forall2 (replied sbd) [(client_header, client_msg)] [app_packet shd sbd]).
  { repeat constructor. exists shd. split; [exact Hsh|]. split; [unfold _maxBuffSize; lia|done]. }
  set (frame := wire (app_packet chd cbd)). destruct (Hfrag frame) as [Hf1 Hf2].
  destruct (login_recv [(client_header, client_msg)] [app_packet chd cbd] [app_packet shd sbd] sbd [] EOF (frag frame)
    cfg0 clk now ins "127.0.0.1:8888" "client") as (c' & H1 & H2 & _); [by constructor| |done|done|left; cbn; lia| |done|].
  - constructor; [|constructor]. split; [by do 3 eexists|done].
  - rewrite Hf1. cbn [fmap list_fmap concat]. by rewrite !app_nil_r.
  - unfold served. rewrite H1, !bind_Done, H2. cbn [fmap list_fmap concat]. rewrite app_nil_r.
    exact (client_recv_reply _ 1 shd sbd Hsh Hsm Hsl).
Qed.

(** ** A protobuf stand-in for the witnesses

    The wire format for values below 128 and strings below 128 bytes, whose
    fields come in order: a field that is zero is left out, a number is its tag
    and its value, a string or message its tag, its length and its bytes. *)

#[local] Instance byte_eq : EqDecision Byte.byte := Byte.byte_eq_dec.

Definition b2z (b : Byte.byte) : Z := Z.of_N (Byte.to_N b).
Definition z2b (v : Z) : Byte.byte := default Byte.x00 (Byte.of_N (Z.to_N v)).
Definition small (v : Z) : bool := (0 <=? v) && (v <? 128).

Lemma b2z_z2b v : 0 <= v < 128 -> b2z (z2b v) = v.
Proof.
  intros Hv. unfold b2z, z2b. destruct (Byte.of_N (Z.to_N v)) as [b|] eqn:Hb.
  - apply Byte.to_of_N in Hb. cbn. rewrite Hb. lia.
  - apply Byte.of_N_None_iff in Hb. lia.
Qed.

Definition enc_int (tag : Byte.byte) (v : Z) : bytes := if v =? 0 then [] else [tag; z2b v].
Definition dec_int (tag : Byte.byte) (d : bytes) : Z * bytes :=
  match d with
  | t :: v :: d' => if bool_decide (t = tag) then (b2z v, d') else (0, d)
  | _ => (0, d)
  end.

(** Bytes with their length; no bytes and an absent field are told apart by
    the option. *)
Definition enc_bytes (tag : Byte.byte) (s : option bytes) : bytes :=
  match s with None => [] | Some b => tag :: z2b (Z.of_nat (length b)) :: b end.
Definition dec_bytes (tag : Byte.byte) (d : bytes) : option bytes * bytes :=
  match d with
  | t :: n :: d' => if bool_decide (t = tag) then (Some (take (Z.to_nat (b2z n)) d'), drop (Z.to_nat (b2z n)) d') else (None, d)
  | _ => (None, d)
  end.

(** What follows does not start with the tag. *)
Definition other (tag : Byte.byte) (d : bytes) : Prop := forall t d', d = t :: d' -> t <> tag.

Lemma dec_enc_int tag v rest : 0 <= v < 128 -> other tag rest -> dec_int tag (enc_int tag v ++ rest) = (v, rest).
Proof.
  intros Hv Hr. unfold enc_int. destruct (Z.eqb_spec v 0) as [->|Hne].
  - destruct rest as [|t [|x rest]]; [done|done|]. cbn. rewrite bool_decide_false; [done|]. by eapply Hr.
  - cbn. rewrite bool_decide_true by done. by rewrite b2z_z2b.
Qed.

Lemma dec_enc_bytes tag s rest : (forall b, s = Some b -> (length b < 128)%nat) -> other tag rest ->
  dec_bytes tag (enc_bytes tag s ++ rest) = (s, rest).
Proof.
  intros Hs Hr. destruct s as [b|]; cbn.
  - rewrite bool_decide_true by done. specialize (Hs b eq_refl). rewrite b2z_z2b by lia.
    by rewrite Nat2Z.id, take_app_length, drop_app_length.
  - destruct rest as [|t [|x rest]]; [done|done|]. cbn. rewrite bool_decide_false; [done|]. by eapply Hr.
Qed.

Lemma other_nil tag : other tag [].
Proof. intros t d'. done. Qed.
Lemma other_int tag tag' v rest : tag' <> tag -> other tag rest -> other tag (enc_int tag' v ++ rest).
Proof. intros Ht Hr t d'. unfold enc_int. destruct (v =? 0); [apply Hr|]. cbn. intros [= <- _]. done. Qed.
Lemma other_bytes tag tag' s rest : tag' <> tag -> other tag rest -> other tag (enc_bytes tag' s ++ rest).
Proof. intros Ht Hr t d'. destruct s; [|apply Hr]. cbn. intros [= <- _]. done. Qed.

(** Two numbers, fields 1 and 2: a head or an account. *)
Definition enc_pair (a b : Z) : bytes := enc_int Byte.x08 a ++ enc_int Byte.x10 b.
Definition dec_pair (d : bytes) : option (Z * Z) :=
  let '(a, d) := dec_int Byte.x08 d in
  let '(b, d) := dec_int Byte.x10 d in
  match d with [] => Some (a, b) | _ => None end.

Lemma dec_enc_pair a b : 0 <= a < 128 -> 0 <= b < 128 -> dec_pair (enc_pair a b) = Some (a, b).
Proof.
  intros Ha Hb. unfold dec_pair, enc_pair. rewrite <- (app_nil_r (_ ++ _)), <- app_assoc.
  rewrite dec_enc_int; [|done|apply other_int; [done|apply other_nil]].
  rewrite dec_enc_int; [done|done|apply other_nil].
Qed.

(** A string; an empty one is left out. *)
Definition enc_string (tag : Byte.byte) (s : string) : bytes :=
  enc_bytes tag (match String.list_byte_of_string s with [] => None | b => Some b end).
Definition dec_string (tag : Byte.byte) (d : bytes) : string * bytes :=
  let '(b, d) := dec_bytes tag d in (String.string_of_list_byte (default [] b), d).

Lemma dec_enc_string tag s rest : (length (String.list_byte_of_string s) < 128)%nat -> other tag rest ->
  dec_string tag (enc_string tag s ++ rest) = (s, rest).
Proof.
  intros Hs Hr. unfold dec_string, enc_string. rewrite dec_enc_bytes; [|destruct (String.list_byte_of_string s); naive_solver|done].
  f_equal. transitivity (String.string_of_list_byte (String.list_byte_of_string s));
    [by destruct (String.list_byte_of_string s)|apply String.string_of_list_byte_of_string].
Qed.

Lemma other_string tag tag' s rest : tag' <> tag -> other tag rest -> other tag (enc_string tag' s ++ rest).
Proof. apply other_bytes. Qed.

Definition enc_login (n s : string) (a : option Account) : bytes :=
  enc_string Byte.x0a n ++ enc_string Byte.x12 s ++ enc_bytes Byte.x1a ((fun a => enc_pair (Id a) (Num a)) <$> a).
Definition dec_login (d : bytes) : option csmsg :=
  let '(n, d) := dec_string Byte.x0a d in
  let '(s, d) := dec_string Byte.x12 d in
  let '(a, d) := dec_bytes Byte.x1a d in
  match d, a with
  | [], None => Some (CS_LOGIN n s None)
  | [], Some b => (fun ab => CS_LOGIN n s (Some (MkAccount ab.1 ab.2))) <$> dec_pair b
  | _, _ => None
  end.

Definition short (s : string) : bool := (length (String.list_byte_of_string s) <? 128)%nat.
Definition small_account (a : option Account) : bool :=
  match a with Some a => small (Id a) && small (Num a) | None => true end.

Lemma length_enc_int tag v : (length (enc_int tag v) <= 2)%nat.
Proof. unfold enc_int. destruct (v =? 0); cbn; lia. Qed.

Lemma dec_enc_login n s a : short n = true -> short s = true -> small_account a = true ->
  dec_login (enc_login n s a) = Some (CS_LOGIN n s a).
Proof.
  unfold short. rewrite !Nat.ltb_lt. intros Hn Hs Ha. unfold dec_login, enc_login.
  rewrite <- (app_nil_r (_ ++ _)), <- !app_assoc.
  rewrite dec_enc_string; [|done|by apply other_string, other_bytes, other_nil].
  rewrite dec_enc_string; [|done|by apply other_bytes, other_nil].
  rewrite dec_enc_bytes; [| |apply other_nil].
  - destruct a as [[i m]|]; [|done]. cbn [fmap option_fmap option_map Id Num]. unfold small_account, small in Ha. cbn in Ha.
    rewrite dec_enc_pair by lia. done.
  - intros b Hb. destruct a as [[i m]|]; [|done]. injection Hb as <-. unfold enc_pair. rewrite length_app.
    pose proof (length_enc_int Byte.x08 i). pose proof (length_enc_int Byte.x10 m). cbn. lia.
Qed.

#[local] Instance demo_proto : ProtoLib csmsg := {|
  MarshalCSHead h := if small (CS_Msgid h) && small (CS_Seqid h) then Ok (enc_pair (CS_Msgid h) (CS_Seqid h)) else Err "range";
  MarshalSCHead h := if small (SC_Msgid h) && small (SC_Seqid h) then Ok (enc_pair (SC_Msgid h) (SC_Seqid h)) else Err "range";
  UnmarshalCSHead d := (fun ab => MkCSHead ab.1 ab.2) <$> dec_pair d;
  UnmarshalSCHead d := (fun ab => MkSCHead ab.1 ab.2) <$> dec_pair d;
  Marshal m := match m with
               | CS_LOGIN n s a => if short n && short s && small_account a then Ok (enc_login n s a) else Err "range"
               | SC_LOGIN k => if small k then Ok (enc_pair k 0) else Err "range"
               end;
  FindMessageByName n := String.eqb n "proto.CS_LOGIN" || String.eqb n "proto.SC_LOGIN";
  Unmarshal n d := if String.eqb n "proto.CS_LOGIN" then dec_login d
                   else if String.eqb n "proto.SC_LOGIN" then (fun ab => SC_LOGIN ab.1) <$> dec_pair d else None;
  FullName m := match m with CS_LOGIN _ _ _ => "proto.CS_LOGIN" | SC_LOGIN _ => "proto.SC_LOGIN" end
|}.

Lemma small_range v : small v = true -> 0 <= v < 128.
Proof. unfold small. lia. Qed.

#[local] Instance demo_laws : ProtoLaws csmsg.
Proof.
  split.
  - intros [a b] d. cbn. destruct (small a && small b) eqn:Hs; [|done]. intros [= <-].
    apply andb_true_iff in Hs as [Ha%small_range Hb%small_range]. by rewrite dec_enc_pair.
  - intros [a b] d. cbn. destruct (small a && small b) eqn:Hs; [|done]. intros [= <-].
    apply andb_true_iff in Hs as [Ha%small_range Hb%small_range]. by rewrite dec_enc_pair.
  - intros [n s a|k] d; cbn [Marshal Unmarshal FullName demo_proto].
    + destruct (short n && short s && small_account a) eqn:Hs; [|done]. intros [= <-].
      apply andb_true_iff in Hs as [[Hn Hs]%andb_true_iff Ha]. exact (dec_enc_login n s a Hn Hs Ha).
    + destruct (small k) eqn:Hk; [|done]. intros [= <-]. apply small_range in Hk. cbn. by rewrite dec_enc_pair.
Qed.

#[local] Instance demo_cs : CsProto.
Proof.
  split; [done|done|done|]. intros n d m. cbn [Unmarshal FullName demo_proto].
  destruct (String.eqb_spec n "proto.CS_LOGIN") as [->|_].
  - unfold dec_login. destruct (dec_string _ d) as [n d1], (dec_string _ d1) as [s d2], (dec_bytes _ d2) as [a d3].
    destruct d3 as [|x d3], a as [ab|]; try done; [|by intros [= <-]]. destruct (dec_pair ab); [|done]. by intros [= <-].
  - destruct (String.eqb_spec n "proto.SC_LOGIN") as [->|_]; [|done].
    destruct (dec_pair d); [|done]. by intros [= <-].
Qed.

Definition demo_plugins : pluginState string inst :=
  registerPluginInst (constructPluginKey "rpc" "trpc") (TrpcInst (MkTrpcServer 7)) (MkPluginState ∅ ∅ []).

(** The frame of the client: head 08 01 10 01, then name, sex and account. *)
Definition demo_frag (b : bytes) : list netEvent :=
  match b with
  | x :: bs => [Chunk x (take 5 bs)] ++ match drop 5 bs with y :: bs => [Chunk y bs] | [] => [] end ++ [NetErr EOF]
  | [] => [NetErr EOF]
  end.

Lemma demo_frag_ok b : ev_pending (demo_frag b) = b /\ ev_ends (demo_frag b) = Some EOF.
Proof.
  destruct b as [|x bs]; [done|]. unfold demo_frag. pose proof (take_drop 5 bs) as E.
  destruct (drop 5 bs) as [|y bs']; (split; [|done]); cbn -[take]; f_equal; rewrite ?app_nil_r in *; done.
Qed.

Lemma login_end_to_end_witness :
  exists mgr m sv, module_Init demo_plugins newMsgHandlerMgr (MkTestModule 0) = Done (None, mgr, m, sv) /\
    client_main true (served mgr m (MkTcpTransportCfg ":8888" 0) (fun _ => 0) 0 None demo_frag) =
      Done (Printed 4 2 14 1 2 1).
Proof.
  exact (login_end_to_end demo_plugins (MkTestModule 0) (MkTrpcServer 7)
    (enc_pair 1 1) (enc_login "test client" "male" (Some (MkAccount 100 10))) (enc_pair 1 2) (enc_pair 1 0)
    demo_frag (MkTcpTransportCfg ":8888" 0) (fun _ => 0) 0 None
    eq_refl eq_refl eq_refl ltac:(vm_compute; reflexivity) eq_refl eq_refl ltac:(vm_compute; discriminate) demo_frag_ok).
Defined.

Lemma demo_login_encoded : encoded (client_header, client_msg) (app_packet (enc_pair 1 1) (enc_login "test client" "male" (Some (MkAccount 100 10)))).
Proof. exists (enc_pair 1 1), (enc_login "test client" "male" (Some (MkAccount 100 10))), "cs_login". repeat split. Qed.

(** Two logins and the first byte of a third. *)
Lemma login_server_answers_witness :
  let p := app_packet (enc_pair 1 1) (enc_login "test client" "male" (Some (MkAccount 100 10))) in
  let q := app_packet (enc_pair 1 2) (enc_pair 1 0) in
  exists mgr m sv c', module_Init demo_plugins newMsgHandlerMgr (MkTestModule 0) = Done (None, mgr, m, sv) /\
    Recv (MkEnv (MkTcpTransportCfg ":8888" 0) (eventTcp mgr) (fun _ => 0) (fun _ => false))
      (fst (NewTcpConn 0 None (MkTCPConn "l" "r" (demo_frag (concat (wire <$> [p; p]) ++ [Byte.x04])) None))) m = Done (c', m) /\
    sent (writer c') = concat (wire <$> [q; q]) /\ closed c' = true.
Proof.
  intros p q.
  apply (login_server_answers demo_plugins (MkTestModule 0) (MkTrpcServer 7) [(client_header, client_msg); (client_header, client_msg)]
    [p; p] [q; q] (enc_pair 1 0) [Byte.x04] EOF).
  - reflexivity.
  - repeat constructor; apply demo_login_encoded.
  - repeat constructor; by do 3 eexists.
  - reflexivity.
  - repeat constructor; (exists (enc_pair 1 2); split; [reflexivity|]; split; [vm_compute; discriminate|reflexivity]).
  - left. cbn. lia.
  - apply demo_frag_ok.
  - apply demo_frag_ok.
Defined.

Lemma login_server_never_panics_witness :
  ~ panics (Recv (MkEnv (MkTcpTransportCfg ":8888" 0) (eventTcp login_mgr) (fun _ => 0) (fun _ => false))
    (fst (NewTcpConn 0 None (MkTCPConn "l" "r" [Chunk Byte.x01 (replicate 8 Byte.x00)] None))) (MkTestModule 1)).
Proof.
  apply (login_server_never_panics demo_plugins (MkTestModule 0) _ _ None [(7%nat, "EchoService")]); [reflexivity|].
  apply (frames_cons 1 0 [Byte.x00] []); [unfold fits_u; lia|unfold fits_u; lia|lia|reflexivity|].
  apply frames_end. left. simpl. lia.
Defined.

(** Two clients, connected and not yet served. *)
Definition two_clients : list acceptEvent :=
  let conn := MkTCPConn "l" "r" (demo_frag (wire (app_packet (enc_pair 1 1)
    (enc_login "test client" "male" (Some (MkAccount 100 10)))))) None in [Accepted conn; Accepted conn].
Definition two_connected : netState TestModule :=
  MkNet (match two_clients with
         | [Accepted conn1; Accepted conn2] =>
             let '(c1, ins) := NewTcpConn 0 None conn1 in [GOpening c1; GOpening (fst (NewTcpConn 0 ins conn2))]
         | _ => []
         end) (MkTestModule 1) false (ASelect [])
    (match two_clients with
     | [Accepted conn1; Accepted conn2] => snd (NewTcpConn 0 (snd (NewTcpConn 0 None conn1)) conn2)
     | _ => None
     end) None.

Lemma login_many_clients_witness :
  exists st', rtc (net_step (MkTcpTransportCfg ":8888" 0) (eventTcp login_mgr)) two_connected st' /\
    forall k, (k < 2)%nat -> exists c, gs st' !! k = Some (GEnded c) /\
      client_recv (sent (writer c)) = Done (Printed 4 2 14 1 2 1).
Proof.
  destruct (login_many_clients demo_plugins (MkTestModule 0) (MkTestModule 1) login_mgr [(7%nat, "EchoService")]
    (enc_pair 1 1) (enc_login "test client" "male" (Some (MkAccount 100 10))) (enc_pair 1 2) (enc_pair 1 0)
    two_clients (MkTcpTransportCfg ":8888" 0) None two_connected) as (_ & _ & Hend).
  - reflexivity.
  - reflexivity.
  - reflexivity.
  - vm_compute. reflexivity.
  - reflexivity.
  - reflexivity.
  - vm_compute. discriminate.
  - repeat constructor.
  - eapply rtc_l; [by eapply net_select|]. eapply rtc_l; [by apply (net_accept _ _ _ 0)|].
    eapply rtc_l; [by eapply net_select|]. eapply rtc_l; [by apply (net_accept _ _ _ 0)|]. apply rtc_refl.
  - destruct (Hend eq_refl) as (st' & Hr & _ & Hk). exists st'. split; [exact Hr|exact Hk].
Defined.
